(* ===== verification/_CoqProject ===== *)
-Q . S2P
Prelude.v
Backoff.v
CircuitBreaker.v
Redis.v
RateLimit.v
Domain.v
Http.v
Gateway.v
Postgres.v
CodeStorage.v
FunctionService.v
Cache.v
DockerPool.v
Logger.v
Metrics.v
Middleware.v
Crypto.v
EventProcessor.v
Webhook.v
Cron.v
FilePath.v
Zip.v
BuildQueue.v
Notifier.v
BuildService.v
Registration.v
Strings.v
Executor.v
Managers.v
Invoke.v
EndToEnd.v
System.v
Deployment.v
EventBus.v
KubePool.v
KubeRuntime.v
Config.v
Startup.v
CronRun.v
Lifecycle.v
