(* ===== verification/Prelude.v ===== *)
(** * Mini-Lambda: verification prelude and guide to the development

    Mini-Lambda is a small function-as-a-service platform of three Go services.
    The gateway (src/services/gateway) admits requests through rate limiters
    and circuit breakers and forwards them.  The build service
    (src/services/build-service) has a master, which accepts a package or a
    repository and queues a build job, and a worker, which unpacks or builds
    it, stores the files and announces the function on a queue.  The lambda
    service (src/services/lambda-service) registers announced functions in
    PostgreSQL, with a Redis cache and an object store for code, and runs them
    on invocations, cron triggers and webhooks in warm containers or pods.
    src/shared holds the domain types, the function service, the backoff, and
    the middleware, metrics and log that the services' HTTP servers use.

    ** Conventions

    The model is a shallow embedding.  A method that changes state is a
    function in [St S A], from a state to an outcome and a new state; an
    [outcome] is a value, an error or a panic.  Integers of 64 bits are [Z]
    with the wrap-around written out where the code can reach it; strings and
    byte slices are [string]; durations and instants are nanoseconds.  What the
    code reads from outside (clock, random source, errors of a driver, answers
    of a daemon) is an argument, gathered in a record such as [RunEnv] when
    there is a lot of it, and theorems quantify over all of it.  Components
    that the code calls through an interface are classes ([CodeStorage],
    [FunctionRepository], [RateLimiter], [RuntimeManager]) or records of
    operations ([ProcessorDeps]); theorems about a client are proved against
    the class, and the implementations are instances.  Libraries outside the
    repository are classes with laws that state documented behaviour (Redis,
    the object store, cron, the topic exchange), each with an instance
    that satisfies them; SHA-256, HMAC and base64 are computed.  One law is an
    idealization: [Blake3Laws] has no two codes with the same digest, where the
    library promises that none will be found.

    Concurrent code is a step relation, and invariants hold for every
    interleaving of its steps.  In [pool_step] (the Docker pool) a goroutine is
    at a [stage], and a step takes it from one access to the shared state, or
    one request to the daemon, to the next: other goroutines, [Shutdown]
    included, run in between, as in [enqueueNew] between its first look at
    [closed], the creation, the seeding, the second look and the send.  The
    relations of the circuit breaker, the pool registry, the event bus, the pod
    pool and the publisher ([cb_step], [reg_step], [bus_step], [kube_step],
    [pub_step]) have the critical sections of the code as steps, and so have
    the cache's background writes ([cr_step]) and the main functions' shutdown
    ([life_step], [serve_step]).  Where an execution is modelled as one
    computation on a registry ([DockerRuntime_Execute]), the pool's methods run
    in it one after the other; what others do to the registry while the
    function runs is an argument.

    A [log.Fatalf] in a main function is an error.  Loops that wait for the
    outside world consume a list of what they receive and give [None]
    when it runs out, so that a theorem about their result says which inputs
    are enough ([redial_connects], [reconnect_resumes]); the filling loop of a
    pool consumes the daemon's answers in the same way, and
    [Start_terminates_iff] says when it ends and how many turns it takes.  The
    one bound that is not an input is the length of the string in [strip], which
    removes at least a byte in each turn.

    ** Files

    - [Prelude]: integers, errors, the state monad with weakest preconditions
      and preserved relations, Go's string functions and their lemmas.
    - [Backoff]: shared/queue/backoff.go.
    - [CircuitBreaker]: gateway circuitbreaker/circuit_breaker.go, registry.go.
    - [Redis], [RateLimit]: gateway ratelimit/, the Lua script included.
    - [Domain]: shared/domain, the data types and their validation.
    - [Http], [Gateway]: net/http as used, gateway router/ and the log stream.
    - [Postgres]: lambda storage/postgres.go and event_repo.go, as tables.
    - [CodeStorage]: lambda storage/s3.go.
    - [FunctionService]: FunctionService of shared/domain/repository.go.
    - [Cache]: lambda cache/, with the background writes.
    - [DockerPool]: lambda pool/docker_pool.go and pool.go.
    - [Logger]: shared/logger/logger.go, entries as JSON values.
    - [Metrics]: shared/metrics, and what the runtimes record
      (executor/metrics.go).
    - [Middleware]: shared/middleware, over any response writer.
    - [Crypto]: SHA-256, HMAC and hex as the code uses them.
    - [EventProcessor]: lambda events/processor.go and handleMessage.
    - [Webhook], [Cron]: lambda events/webhook.go, cron.go, cron_helpers.go.
    - [FilePath], [Zip]: path/filepath as used, builder/zip_processor.go.
    - [BuildQueue]: build queue/rabbitmq.go and backpressure.go.
    - [Notifier]: build builder/webhook.go.
    - [BuildService]: build cmd/worker and cmd/master main.go,
      builder/docker.go, storage/s3.go, shared/buildlog.
    - [Registration]: lambda registration/consumer.go.
    - [Strings]: strings.TrimSpace and base64.
    - [Executor]: lambda executor/pool_registry.go and docker.go.
    - [Managers]: lambda executor/manager.go and pool/manager.go.
    - [Invoke]: lambda invoke/handler.go.
    - [EndToEnd]: build, registration, storage and execution together.
    - [System]: the gateway answered by the lambda service, with the timeouts
      between them, and the log stream behind the middleware.
    - [Deployment]: all services on their production parts.
    - [EventBus]: lambda events/rabbitmq.go.
    - [KubePool], [KubeRuntime]: lambda pool/kubernetes_pool.go and
      executor/kubernetes_runtime.go.
    - [Config]: settings of lambda cmd/main.go and gateway cmd/main.go.
    - [Startup]: the main functions up to their servers, on the constructors
      of the components, and the seed command.
    - [CronRun]: the scheduler running on the service's event bus.
    - [Lifecycle]: the worker's loop, the shutdown of the services, and the
      publisher's reconnecting goroutine.

    ** Theorems

    - The path of a function: [package_to_client] follows an uploaded package
      through the worker, the store, the registration, the cache and a pool's
      seeding to the file that runs, and its result back through the handler
      and the gateway; [package_to_container] is the part without HTTP; [processBuildJob_log],
      [processBuildJob_artifacts], [handleCreateFunction_queues] and
      [handleCreateFunction_once] are its build side,
      [Execute_runs_function_code], [run_acquired_gives_back],
      [exec_script_no_injection], [extractOutput_last_line] and
      [HandleInvoke_outcomes] its run side.
    - Pools: [DockerPool_safety] (bound, exclusive use, no leak, nothing sent
      after closing but by goroutines that looked before, for every
      interleaving), [Start_terminates_iff], [configured_pool_starts],
      [acquired_pod_exclusive]; the races of the shutdown are
      [Release_Shutdown_race] and [enqueueNew_Shutdown_race].
    - Admission: [CB_opens_exactly_at_threshold], [CB_open_call],
      [CB_closed_below_threshold], [TB_rate_bound], [BRL_window_refines_spec],
      [HandleInvokeFunction_forwards], [GW_invoke_load_bound], and
      [configured_load_bound] from the settings of the gateway.
    - The services together: [invoke_end_to_end] (an invocation from the
      gateway to the function and back), [gateway_records_status] and
      [stream_lifts_deadline] (the handlers behind the middleware),
      [default_counters_exact], [lambda_main_starts], [worker_main_starts],
      [lambda_shutdown_terminates], [publisher_one_connection].
    - Storage: [db_constraints_hold], [PG_Delete_cascades],
      [S3_Retrieve_integrity], [S3_Store_Retrieve], [FS_keeps_code], [FS_Create_then_Get],
      [Cached_coherent_at_rest], [invocation_results_separate],
      [extractZIP_confined], [seed_then_found].
    - Messages: [reconnect_resumes], [redial_connects], [Consume_connections],
      [HandleRequest_authentication], [HandleBuildLogs_streams],
      [Logger_log_writes].
    - Behaviour the code does not intend is stated as theorems too, for
      instance [slow_functions_block_all], [limiter_aliases],
      [cron_events_dropped], [worker_survives_signal],
      [log_Error_hides_error], [serve_exit_cuts], [FS_Delete_breaks_sharers],
      [Cached_GetFunction_poisons_cache], [failed_event_fate],
      [PG_Retry_fails], [published_event_fanout], [rebuild_not_registered],
      [code_bytes_never_acquired], [cold_pod_shared] and
      [custom_image_never_run].

    ** Not modelled

    The helpers of the end-to-end tests.  Getters, interface declarations and
    constructors that only store their arguments have no definition of their
    own.  Of the libraries: the exposition format of the metrics, the text of
    JSON values and of times, the TLS and connection handling of net/http,
    and the drivers.  What a function's code does inside its container is the
    daemon's answer to the exec; that it may change the files of its container
    is not modelled.  Floating-point statistics and durations are exact
    rationals.

    ** Next

    Overlapping calls of Subscribe, Unsubscribe and resubscribeAll on the event
    bus, split at its locks; the execution context of an invocation whose
    client goes away. *)

From Stdlib Require Import ZArith Lia Ascii.
From stdpp Require Import base strings gmap list numbers.

Declare Scope golang_scope.
Delimit Scope golang_scope with go.

(** ** Machine integers, durations and instants *)

(** Go's [int], [int64] and [time.Duration] are 64-bit two's complement. *)
Definition int64_max : Z := (2 ^ 63 - 1)%Z.
Definition int64_min : Z := (- 2 ^ 63)%Z.

(** The value a 64-bit signed result wraps to. *)
Definition wrap64 (z : Z) : Z := ((z + 2 ^ 63) mod 2 ^ 64 - 2 ^ 63)%Z.

Definition is_int64 (z : Z) : Prop := (int64_min ≤ z ≤ int64_max)%Z.

(** Units of [time.Duration] (nanoseconds). *)
Definition Nanosecond : Z := 1.
Definition Millisecond : Z := 1000000.
Definition Second : Z := 1000000000.
Definition Minute : Z := (60 * Second)%Z.
Definition Hour : Z := (60 * Minute)%Z.

(** An instant is the number of nanoseconds since Go's zero time (year 1),
    so [time.Time{}] is [0]. *)
Definition time_zero : Z := 0.

(** [t.Sub(u)]: the difference, saturated to the range of [Duration]. *)
Definition time_Sub (t u : Z) : Z :=
  Z.max int64_min (Z.min int64_max (t - u)).

(** [d.Seconds()] converted to [int], for the non-negative durations the
    code uses: truncation toward zero. *)
Definition duration_int_seconds (d : Z) : Z := Z.quot d Second.

(** [d.Milliseconds()]. *)
Definition duration_Milliseconds (d : Z) : Z := Z.quot d Millisecond.

(** ** Errors and outcomes *)

(** A Go [error] value.  [Sentinel] is a package-level variable, compared by
    identity; [NewError] a fresh value built from a message; [Wrap msg e] is
    [fmt.Errorf("msg: %w", e)]. *)
Inductive error : Type :=
  | Sentinel (id : string) (msg : string)
  | NewError (msg : string)
  | Wrap (msg : string) (inner : error).

#[export] Instance error_eq_dec : EqDecision error.
Proof. solve_decision. Defined.

(** [err.Error()]. *)
Fixpoint error_Error (e : error) : string :=
  match e with
  | Sentinel _ m => m
  | NewError m => m
  | Wrap m i => m +:+ ": " +:+ error_Error i
  end.

(** [errors.Is(e, target)] for a sentinel named [id]. *)
Fixpoint errors_Is (e : error) (id : string) : bool :=
  match e with
  | Sentinel i _ => bool_decide (i = id)
  | NewError _ => false
  | Wrap _ i => errors_Is i id
  end.

Definition context_Canceled : error := Sentinel "context.Canceled" "context canceled".
Definition context_DeadlineExceeded : error :=
  Sentinel "context.DeadlineExceeded" "context deadline exceeded".

(** What a call ends with: a value, a non-nil error, or a panic. *)
Inductive outcome (A : Type) : Type :=
  | Ok (a : A)
  | Err (e : error)
  | Panic (why : string).
Arguments Ok {A} a.
Arguments Err {A} e.
Arguments Panic {A} why.

Definition outcome_bind {A B} (m : outcome A) (k : A → outcome B) : outcome B :=
  match m with
  | Ok a => k a
  | Err e => Err e
  | Panic w => Panic w
  end.

Definition is_Ok {A} (m : outcome A) : bool :=
  match m with Ok _ => true | _ => false end.

(** [err] re-wrapped on the way out: [fmt.Errorf("msg: %w", err)]. *)
Definition wrap_err {A} (msg : string) (m : outcome A) : outcome A :=
  match m with
  | Err e => Err (Wrap msg e)
  | _ => m
  end.

(** ** State-and-error monad

    [St S A] threads a state [S]; effects persist when the outcome is an
    error, as they do in Go. *)
Definition St (S A : Type) : Type := S → outcome A * S.

Definition st_ret {S A} (a : A) : St S A := λ s, (Ok a, s).
Definition st_fail {S A} (e : error) : St S A := λ s, (Err e, s).
Definition st_bind {S A B} (m : St S A) (k : A → St S B) : St S B := λ s,
  match m s with
  | (Ok a, s') => k a s'
  | (Err e, s') => (Err e, s')
  | (Panic w, s') => (Panic w, s')
  end.
(** Run [m] and hand its outcome, error included, to [k] (the shape
    [if err := f(); err != nil { ... }]). *)
Definition st_try {S A B} (m : St S A) (k : outcome A → St S B) : St S B := λ s,
  let '(r, s') := m s in
  match r with
  | Panic w => (Panic w, s')
  | _ => k r s'
  end.
Definition st_get {S} : St S S := λ s, (Ok s, s).
Definition st_modify {S} (f : S → S) : St S unit := λ s, (Ok tt, f s).
Definition st_lift {S A} (m : outcome A) : St S A := λ s, (m, s).
Definition st_wrap {S A} (msg : string) (m : St S A) : St S A := λ s,
  let '(r, s') := m s in (wrap_err msg r, s').

(** A computation on one half of a state. *)
Definition st_fst {S T A} (m : St S A) : St (S * T) A := λ s,
  let '(r, s1) := m s.1 in (r, (s1, s.2)).
Definition st_snd {S T A} (m : St T A) : St (S * T) A := λ s,
  let '(r, s2) := m s.2 in (r, (s.1, s2)).
(** Run [m] for its effect and drop its error (a call whose result the code
    does not look at). *)
Definition st_ignore {S A} (m : St S A) : St S unit := λ s,
  match m s with
  | (Panic w, s') => (Panic w, s')
  | (_, s') => (Ok tt, s')
  end.

Notation "x <-! m ;; k" := (st_bind m (λ x, k))
  (at level 100, m at next level, right associativity) : golang_scope.
Notation "m ;;! k" := (st_bind m (λ _, k))
  (at level 100, right associativity) : golang_scope.
Notation "x <-? m ;; k" := (st_try m (λ x, k))
  (at level 100, m at next level, right associativity) : golang_scope.

(** ** Byte strings

    Go strings and byte slices are sequences of bytes: [string]. *)

Fixpoint str_drop (n : nat) (s : string) : string :=
  match n, s with
  | O, _ => s
  | S n', String _ s' => str_drop n' s'
  | S _, EmptyString => EmptyString
  end.

Fixpoint str_take (n : nat) (s : string) : string :=
  match n, s with
  | S n', String a s' => String a (str_take n' s')
  | _, _ => EmptyString
  end.

(** [strings.HasPrefix(s, p)]. *)
Fixpoint HasPrefix (s p : string) : bool :=
  match p, s with
  | EmptyString, _ => true
  | String a p', String b s' => bool_decide (a = b) && HasPrefix s' p'
  | _, EmptyString => false
  end.

(** [strings.HasSuffix(s, suf)]. *)
Definition HasSuffix (s suf : string) : bool :=
  bool_decide (String.length suf ≤ String.length s)
  && bool_decide (str_drop (String.length s - String.length suf) s = suf).

Definition TrimPrefix (s p : string) : string :=
  if HasPrefix s p then str_drop (String.length p) s else s.
Definition TrimSuffix (s suf : string) : string :=
  if HasSuffix s suf then str_take (String.length s - String.length suf) s else s.

Fixpoint TrimLeft (s : string) (c : ascii) : string :=
  match s with
  | String a s' => if bool_decide (a = c) then TrimLeft s' c else s
  | EmptyString => EmptyString
  end.
Fixpoint TrimRight (s : string) (c : ascii) : string :=
  match s with
  | EmptyString => EmptyString
  | String a s' =>
      let r := TrimRight s' c in
      if bool_decide (a = c) && bool_decide (r = EmptyString) then EmptyString
      else String a r
  end.
(** [strings.Trim(s, "c")] for a one-byte cutset. *)
Definition Trim (s : string) (c : ascii) : string := TrimRight (TrimLeft s c) c.

(** [strings.Contains(s, "c")] for a one-byte needle. *)
Fixpoint ContainsChar (s : string) (c : ascii) : bool :=
  match s with
  | EmptyString => false
  | String a s' => bool_decide (a = c) || ContainsChar s' c
  end.

(** [strings.Split(s, "c")] for a one-byte separator. *)
Fixpoint Split (s : string) (c : ascii) : list string :=
  match s with
  | EmptyString => [EmptyString]
  | String a s' =>
      if bool_decide (a = c) then EmptyString :: Split s' c
      else match Split s' c with
           | [] => [String a EmptyString]
           | p :: ps => String a p :: ps
           end
  end.

(** [strings.ReplaceAll(s, "x", "y")] for one-byte strings. *)
Fixpoint ReplaceAllChar (s : string) (x y : ascii) : string :=
  match s with
  | EmptyString => EmptyString
  | String a s' => String (if bool_decide (a = x) then y else a) (ReplaceAllChar s' x y)
  end.

(** [hex.EncodeToString]. *)
Definition hex_digit (n : nat) : ascii :=
  if bool_decide (n < 10)%nat then ascii_of_nat (48 + n) else ascii_of_nat (87 + n).
Fixpoint hex_EncodeToString (s : string) : string :=
  match s with
  | EmptyString => EmptyString
  | String a s' =>
      let n := nat_of_ascii a in
      String (hex_digit (n / 16)) (String (hex_digit (n mod 16)) (hex_EncodeToString s'))
  end.

Definition slash : ascii := "/"%char.
Definition newline : ascii := "010"%char.
Definition newline_str : string := String newline EmptyString.

(** ** Automation *)

Create HintDb go discriminated.
#[export] Hint Constants Opaque : go.
Create Rewrite HintDb go.

(** Split boolean conjunctions and disjunctions, and turn [bool_decide]
    hypotheses into the propositions they decide. *)
Ltac bools :=
  repeat match goal with
  | H : (_ && _)%bool = true |- _ => apply andb_true_iff in H; destruct H
  | H : (_ || _)%bool = false |- _ => apply orb_false_iff in H; destruct H
  | H : negb _ = true |- _ => apply negb_true_iff in H
  | H : negb _ = false |- _ => apply negb_false_iff in H
  | H : bool_decide _ = true |- _ => apply bool_decide_eq_true in H
  | H : bool_decide _ = false |- _ => apply bool_decide_eq_false in H
  | H : is_true _ |- _ => unfold is_true in H
  end.

(** Case analysis on every [if]/[match] scrutinee of the goal, then clean up. *)
Ltac cases :=
  repeat (case_match; simplify_eq/=; bools; try done).

(** Unfold the 64-bit bounds for [lia]. *)
Ltac i64 := unfold is_int64, int64_min, int64_max, wrap64 in *.

(** ** Generic lemmas: invariants of step relations *)

Lemma rtc_preserves {A} (R : A → A → Prop) (P : A → Prop) x y :
  (∀ a b, P a → R a b → P b) → P x → rtc R x y → P y.
Proof. intros Hstep Hx Hr. induction Hr; eauto. Qed.

(** ** Generic lemmas: weakest preconditions of [St] *)

(** [Q] holds of the outcome and the final state of [m] run from [s]. *)
Definition st_wp {S A} (m : St S A) (Q : outcome A → S → Prop) (s : S) : Prop := Q (m s).1 (m s).2.

Section WP.
Context {S : Type}.
Implicit Types s : S.

Lemma st_wp_mono {A} (m : St S A) (P Q : outcome A → S → Prop) s :
  st_wp m P s → (∀ r s', P r s' → Q r s') → st_wp m Q s.
Proof. unfold st_wp. auto. Qed.

Lemma st_wp_run {A} (m : St S A) (Q : outcome A → S → Prop) s r s' :
  st_wp m Q s → m s = (r, s') → Q r s'.
Proof. unfold st_wp. intros H E. by rewrite E in H. Qed.

Lemma st_wp_bind {A B} (m : St S A) (k : A → St S B) Q s :
  st_wp m (λ r s', match r with
                   | Ok a => st_wp (k a) Q s'
                   | Err e => Q (Err e) s'
                   | Panic w => Q (Panic w) s'
                   end) s →
  st_wp (st_bind m k) Q s.
Proof. unfold st_wp, st_bind. by destruct (m s) as [[] ?]. Qed.

Lemma st_wp_try {A B} (m : St S A) (k : outcome A → St S B) Q s :
  st_wp m (λ r s', match r with
                   | Panic w => Q (Panic w) s'
                   | _ => st_wp (k r) Q s'
                   end) s →
  st_wp (st_try m k) Q s.
Proof. unfold st_wp, st_try. by destruct (m s) as [[] ?]. Qed.

Lemma st_wp_ignore {A} (m : St S A) Q s :
  st_wp m (λ r s', match r with Panic w => Q (Panic w) s' | _ => Q (Ok tt) s' end) s →
  st_wp (st_ignore m) Q s.
Proof. unfold st_wp, st_ignore. by destruct (m s) as [[] ?]. Qed.

(** Runs that end well. *)
Lemma st_bind_Ok {A B} (m : St S A) (k : A → St S B) s b s' :
  st_bind m k s = (Ok b, s') → ∃ a s1, m s = (Ok a, s1) ∧ k a s1 = (Ok b, s').
Proof. unfold st_bind. destruct (m s) as [[a|e|w] s1]; [eauto|done..]. Qed.

Lemma st_wrap_Ok {A} msg (m : St S A) s a s' : st_wrap msg m s = (Ok a, s') → m s = (Ok a, s').
Proof. unfold st_wrap. destruct (m s) as [[] ?]; simpl; congruence. Qed.

Lemma st_wp_wrap {A} msg (m : St S A) Q s :
  st_wp m (λ r s', Q (wrap_err msg r) s') s → st_wp (st_wrap msg m) Q s.
Proof. unfold st_wp, st_wrap. by destruct (m s) as [[] ?]. Qed.
End WP.

(** Every run of [m] relates its first and its last state by [R]. *)
Definition st_keeps {S A} (R : S → S → Prop) (m : St S A) : Prop := ∀ s, st_wp m (λ _ s', R s s') s.

Create HintDb keeps discriminated.

Section Keeps.
Context {S : Type} (R : S → S → Prop) `{!PreOrder R}.

Lemma st_keeps_lift {A} (r : outcome A) : st_keeps R (st_lift r).
Proof. intros s. unfold st_wp. simpl. reflexivity. Qed.
Lemma st_keeps_ret {A} (a : A) : st_keeps R (st_ret a).
Proof. apply (st_keeps_lift (Ok a)). Qed.
Lemma st_keeps_fail {A} e : st_keeps R (@st_fail S A e).
Proof. apply (st_keeps_lift (Err e)). Qed.

Lemma st_keeps_bind {A B} (m : St S A) (k : A → St S B) :
  st_keeps R m → (∀ a, st_keeps R (k a)) → st_keeps R (st_bind m k).
Proof.
  intros Hm Hk s. apply st_wp_bind. eapply st_wp_mono; [apply Hm|].
  intros [a|e|w] s' H; [|done..]. eapply st_wp_mono; [apply Hk|]. intros r s'' H'. by transitivity s'.
Qed.

Lemma st_keeps_try {A B} (m : St S A) (k : outcome A → St S B) :
  st_keeps R m → (∀ r, st_keeps R (k r)) → st_keeps R (st_try m k).
Proof.
  intros Hm Hk s. apply st_wp_try. eapply st_wp_mono; [apply Hm|].
  intros [a|e|w] s' H; [| |done]; (eapply st_wp_mono; [apply Hk|]); intros r s'' H'; by transitivity s'.
Qed.

Lemma st_keeps_ignore {A} (m : St S A) : st_keeps R m → st_keeps R (st_ignore m).
Proof. intros Hm s. apply st_wp_ignore. eapply st_wp_mono; [apply Hm|]. by intros []. Qed.

Lemma st_keeps_wrap {A} msg (m : St S A) : st_keeps R m → st_keeps R (st_wrap msg m).
Proof. intros Hm s. apply st_wp_wrap. eapply st_wp_mono; [apply Hm|]. done. Qed.

Lemma st_keeps_run {A} (m : St S A) s r s' : st_keeps R m → m s = (r, s') → R s s'.
Proof. intros Hm. apply (st_wp_run _ _ _ _ _ (Hm s)). Qed.
End Keeps.

(** One half of a pair of states. *)
Lemma st_keeps_snd {S T A} (R : T → T → Prop) (m : St T A) :
  st_keeps R m → st_keeps (λ s s' : S * T, R s.2 s'.2) (st_snd m).
Proof. intros Hm [s t]. specialize (Hm t). unfold st_wp, st_snd in *. simpl. by destruct (m t). Qed.
Lemma st_keeps_fst {S T A} (R : T → T → Prop) `{!Reflexive R} (m : St S A) :
  st_keeps (λ s s' : S * T, R s.2 s'.2) (st_fst m).
Proof. intros [s t]. unfold st_wp, st_fst. simpl. destruct (m s). simpl. reflexivity. Qed.
#[export] Instance snd_preorder {S T} (R : T → T → Prop) `{!PreOrder R} : PreOrder (λ s s' : S * T, R s.2 s'.2).
Proof. split; [by intros [s t]|]. intros [s1 t1] [s2 t2] [s3 t3]. simpl. intros. by transitivity t2. Qed.

#[export] Hint Resolve st_keeps_snd st_keeps_fst : keeps.
#[export] Hint Resolve st_keeps_lift st_keeps_ret st_keeps_fail st_keeps_bind st_keeps_try
  st_keeps_ignore st_keeps_wrap : keeps.
Ltac keeps := by eauto 60 with keeps typeclass_instances.

(** ** Generic lemmas: 64-bit integers *)

Lemma wrap64_id z : is_int64 z → wrap64 z = z.
Proof. i64. intros H. rewrite Z.mod_small; lia. Qed.

Lemma wrap64_range z : is_int64 (wrap64 z).
Proof.
  i64. pose proof (Z.mod_pos_bound (z + 2 ^ 63) (2 ^ 64)). lia.
Qed.

Lemma time_Sub_exact t u : is_int64 (t - u) → time_Sub t u = (t - u)%Z.
Proof. unfold time_Sub. i64. lia. Qed.

Lemma time_Sub_range t u : is_int64 (time_Sub t u).
Proof. unfold time_Sub. i64. lia. Qed.

#[export] Hint Resolve wrap64_range time_Sub_range : go.

(** ** Generic lemmas: byte strings *)

#[local] Arguments String.append !_ _ / : assert.

Lemma str_app_cons a (s t : string) : String a s +:+ t = String a (s +:+ t).
Proof. done. Qed.

Lemma str_app_nil_r (s : string) : s +:+ "" = s.
Proof. induction s as [|a s IH]; [done|]. simpl. by rewrite IH. Qed.

Lemma str_app_assoc (a b c : string) : a +:+ (b +:+ c) = (a +:+ b) +:+ c.
Proof. induction a as [|x a IH]; [done|]. simpl. by rewrite IH. Qed.

Lemma str_length_app (a b : string) :
  String.length (a +:+ b) = String.length a + String.length b.
Proof. induction a as [|x a IH]; [done|]. simpl. by rewrite IH. Qed.

Lemma str_app_inj_l (a b c : string) : a +:+ b = a +:+ c → b = c.
Proof. induction a as [|x a IH]; [done|]. simpl. intros [= H]. auto. Qed.

Lemma str_drop_app (a b : string) : str_drop (String.length a) (a +:+ b) = b.
Proof. induction a as [|x a IH]; [done|]. done. Qed.

Lemma str_take_app (a b : string) : str_take (String.length a) (a +:+ b) = a.
Proof. induction a as [|x a IH]; simpl; [by destruct b|]. by rewrite IH. Qed.

Lemma str_take_drop n (s : string) : str_take n s +:+ str_drop n s = s.
Proof.
  revert s. induction n as [|n IH]; intros [|a s]; try done.
  simpl. by rewrite IH.
Qed.

Lemma str_length_take n (s : string) :
  n ≤ String.length s → String.length (str_take n s) = n.
Proof.
  revert s. induction n as [|n IH]; intros [|a s] H; simpl in *; try lia.
  rewrite IH; lia.
Qed.

Lemma str_app_inj (a b c d : string) :
  String.length a = String.length c → a +:+ b = c +:+ d → a = c ∧ b = d.
Proof.
  revert c. induction a as [|x a IH]; intros [|y c] Hl H; simpl in *; try lia; [done|].
  injection H as -> H. destruct (IH c) as [-> ->]; auto with lia.
Qed.

Lemma str_app_inj_r (a b c : string) : a +:+ c = b +:+ c → a = b.
Proof.
  intros H. apply (str_app_inj a c b c); [|done].
  apply (f_equal String.length) in H. rewrite !str_length_app in H. lia.
Qed.

Lemma HasPrefix_spec s p : HasPrefix s p = true ↔ ∃ r, s = p +:+ r.
Proof.
  revert s. induction p as [|a p IH]; intros s; simpl.
  - split; [by exists s | destruct s; done].
  - destruct s as [|b s].
    + split; [done | by intros [r ?]].
    + simpl. rewrite andb_true_iff, bool_decide_eq_true, IH. split.
      * intros [-> [r ->]]. by exists r.
      * intros [r [= -> ->]]. eauto.
Qed.

Lemma HasPrefix_app p r : HasPrefix (p +:+ r) p = true.
Proof. apply HasPrefix_spec. eauto. Qed.

Lemma HasSuffix_spec s suf : HasSuffix s suf = true ↔ ∃ r, s = r +:+ suf.
Proof.
  unfold HasSuffix. rewrite andb_true_iff, !bool_decide_eq_true. split.
  - intros [_ <-]. eexists. symmetry. apply str_take_drop.
  - intros [r ->]. rewrite str_length_app. split; [lia|].
    replace (String.length r + String.length suf - String.length suf)
      with (String.length r) by lia. apply str_drop_app.
Qed.

Lemma HasSuffix_app r suf : HasSuffix (r +:+ suf) suf = true.
Proof. apply HasSuffix_spec. eauto. Qed.

Lemma TrimPrefix_app p r : TrimPrefix (p +:+ r) p = r.
Proof. unfold TrimPrefix. rewrite HasPrefix_app. apply str_drop_app. Qed.

Lemma TrimSuffix_app r suf : TrimSuffix (r +:+ suf) suf = r.
Proof.
  unfold TrimSuffix. rewrite HasSuffix_app, str_length_app.
  replace (String.length r + String.length suf - String.length suf)
    with (String.length r) by lia. apply str_take_app.
Qed.

Lemma ContainsChar_app a b c :
  ContainsChar (a +:+ b) c = ContainsChar a c || ContainsChar b c.
Proof. induction a as [|x a IH]; [done|]. simpl. by rewrite IH, orb_assoc. Qed.

(** A string of copies of one byte: what [Trim] removes. *)
Fixpoint str_rep (n : nat) (c : ascii) : string :=
  match n with O => EmptyString | S n' => String c (str_rep n' c) end.

Lemma TrimLeft_spec s c : ∃ n, s = str_rep n c +:+ TrimLeft s c.
Proof.
  induction s as [|a s [n IH]]; simpl; [by exists 0|].
  case_bool_decide as Ha; [subst | by exists 0].
  exists (S n). simpl. by rewrite <- IH.
Qed.

Lemma TrimRight_spec s c : ∃ n, s = TrimRight s c +:+ str_rep n c.
Proof.
  induction s as [|a s [n IH]]; simpl; [by exists 0|].
  case_bool_decide as Ha; simpl.
  - case_bool_decide as Hr; simpl.
    + exists (S n). rewrite Hr in IH. simpl in *. congruence.
    + exists n. simpl. congruence.
  - exists n. simpl. congruence.
Qed.

Lemma Trim_spec s c : ∃ n m, s = str_rep n c +:+ Trim s c +:+ str_rep m c.
Proof.
  destruct (TrimLeft_spec s c) as [n Hn].
  destruct (TrimRight_spec (TrimLeft s c) c) as [m Hm].
  exists n, m. unfold Trim. rewrite <- Hm. done.
Qed.

Lemma TrimLeft_id s c : ContainsChar s c = false → TrimLeft s c = s.
Proof. destruct s; [done|]. simpl. intros H. by cases. Qed.

Lemma TrimRight_id s c : ContainsChar s c = false → TrimRight s c = s.
Proof.
  induction s as [|a s IH]; [done|]. simpl. intros H. bools.
  rewrite IH by done. by rewrite bool_decide_eq_false_2.
Qed.

Lemma Trim_id s c : ContainsChar s c = false → Trim s c = s.
Proof. intros H. unfold Trim. by rewrite TrimLeft_id, TrimRight_id. Qed.

Lemma Split_nonempty s c : Split s c ≠ [].
Proof. destruct s; simpl; [done|]. by cases. Qed.

Lemma Split_no_char s c : ContainsChar s c = false → Split s c = [s].
Proof.
  induction s as [|a s IH]; [done|]. simpl. intros H. bools.
  rewrite bool_decide_eq_false_2 by done. by rewrite IH.
Qed.

Lemma Split_app s c r : ContainsChar s c = false →
  Split (s +:+ String c r) c = s :: Split r c.
Proof.
  induction s as [|a s IH]; simpl.
  - by rewrite bool_decide_eq_true_2.
  - intros H. bools. rewrite bool_decide_eq_false_2 by done. by rewrite IH.
Qed.

Lemma Split_parts_no_char s c : Forall (λ p, ContainsChar p c = false) (Split s c).
Proof.
  induction s as [|a s IH]; simpl; [by repeat constructor|].
  case_bool_decide as Ha; [by constructor|].
  destruct (Split s c) as [|p ps]; simpl; inversion IH; subst; constructor; try done.
  - simpl. by rewrite bool_decide_eq_false_2.
  - simpl. by rewrite bool_decide_eq_false_2.
Qed.

Lemma ReplaceAllChar_gone s x y : x ≠ y → ContainsChar (ReplaceAllChar s x y) x = false.
Proof.
  intros Hxy. induction s as [|a s IH]; [done|]. simpl. rewrite IH, orb_false_r.
  apply bool_decide_eq_false. case_bool_decide; congruence.
Qed.

Lemma ReplaceAllChar_id s x y : ContainsChar s x = false → ReplaceAllChar s x y = s.
Proof.
  induction s as [|a s IH]; [done|]. simpl. intros H. bools.
  rewrite bool_decide_eq_false_2 by done. by rewrite IH.
Qed.

Lemma hex_length s : String.length (hex_EncodeToString s) = (2 * String.length s)%nat.
Proof. induction s as [|a s IH]; simpl; lia. Qed.

(** The sixteen digits are distinct and are not slashes. *)
Lemma hex_digit_inj n m :
  (n < 16)%nat → (m < 16)%nat → hex_digit n = hex_digit m → n = m.
Proof.
  unfold hex_digit. intros Hn Hm H. apply (f_equal nat_of_ascii) in H. revert H.
  repeat case_bool_decide; rewrite !nat_ascii_embedding; lia.
Qed.

Lemma hex_digit_no_slash n : (n < 16)%nat → hex_digit n ≠ slash.
Proof.
  unfold hex_digit. intros Hn H. apply (f_equal nat_of_ascii) in H. revert H.
  change (nat_of_ascii slash) with 47.
  case_bool_decide; rewrite nat_ascii_embedding; lia.
Qed.

Lemma ascii_nibbles a : (nat_of_ascii a / 16 < 16)%nat ∧ (nat_of_ascii a mod 16 < 16)%nat.
Proof.
  pose proof (nat_ascii_bounded a). split; [|by apply Nat.mod_upper_bound].
  by apply Nat.Div0.div_lt_upper_bound.
Qed.

Lemma hex_inj s t : hex_EncodeToString s = hex_EncodeToString t → s = t.
Proof.
  revert t. induction s as [|a s IH]; intros [|b t]; cbn [hex_EncodeToString]; try done.
  intros [= H1 H2 H3]. destruct (ascii_nibbles a), (ascii_nibbles b).
  assert (nat_of_ascii a / 16 = nat_of_ascii b / 16) by by apply hex_digit_inj.
  assert (nat_of_ascii a mod 16 = nat_of_ascii b mod 16) by by apply hex_digit_inj.
  f_equal; [|by apply IH].
  rewrite <- (ascii_nat_embedding a), <- (ascii_nat_embedding b). f_equal.
  pose proof (Nat.div_mod_eq (nat_of_ascii a) 16).
  pose proof (Nat.div_mod_eq (nat_of_ascii b) 16). lia.
Qed.

Lemma hex_no_slash s : ContainsChar (hex_EncodeToString s) slash = false.
Proof.
  induction s as [|a s IH]; [done|]. cbn [hex_EncodeToString ContainsChar].
  destruct (ascii_nibbles a).
  by rewrite !bool_decide_eq_false_2 by (by apply hex_digit_no_slash).
Qed.

(** ** Generic lemmas: errors *)

Lemma errors_Is_Wrap m e id : errors_Is (Wrap m e) id = errors_Is e id.
Proof. done. Qed.

#[export] Hint Rewrite str_length_app str_drop_app str_take_app errors_Is_Wrap : go.
