(* ===== verification/Backoff.v ===== *)
(** * Reconnect backoff (shared/queue/backoff.go)

    Decorrelated-jitter backoff used by the build-service publisher and
    consumer and by the lambda-service event bus.  All arithmetic is 64-bit;
    [rand.Int63n] is a draw from [0, n) and panics for [n <= 0]. *)

From Stdlib Require Import ZArith Lia.
From stdpp Require Import base strings gmap list numbers.
From S2P Require Import Prelude.
Open Scope Z_scope.

(** ** Model *)

Definition DefaultBackoffBase : Z := 500 * Millisecond.
Definition DefaultBackoffCap : Z := 30 * Second.

(** [has_rng] is [b.rng != nil]. *)
Record Backoff := mkBackoff {
  Base : Z;
  Cap : Z;
  has_rng : bool;
  prev : Z
}.

Definition NewBackoff : Backoff :=
  {| Base := DefaultBackoffBase; Cap := DefaultBackoffCap; has_rng := false; prev := 0 |}.

Definition NewBackoffWithRand (base cap : Z) : Backoff :=
  {| Base := base; Cap := cap; has_rng := true; prev := 0 |}.

Definition Backoff_Reset (b : Backoff) : Backoff :=
  {| Base := Base b; Cap := Cap b; has_rng := has_rng b; prev := 0 |}.

(** [rand.Int63n(n)], with [draw n] the number the generator yields. *)
Definition Int63n (draw : Z → Z) (n : Z) : outcome Z :=
  if bool_decide (n ≤ 0) then Panic "invalid argument to Int63n" else Ok (draw n).

(** The generator's documented range. *)
Definition draw_ok (draw : Z → Z) : Prop := ∀ n, 0 < n → 0 ≤ draw n < n.

(** [base] and [maxCap] of [Next], after the defaults are applied. *)
Definition eff_base (b : Backoff) : Z :=
  if bool_decide (Base b ≤ 0) then DefaultBackoffBase else Base b.
Definition eff_cap (b : Backoff) : Z :=
  if bool_decide (Cap b ≤ 0) then DefaultBackoffCap else Cap b.

Definition Backoff_Next (own global : Z → Z) (b : Backoff) : outcome Z * Backoff :=
  let base := eff_base b in
  let maxCap := eff_cap b in
  let prev0 := if bool_decide (prev b < base) then base else prev b in
  let hi := wrap64 (prev0 * 3) in
  let span := wrap64 (hi - base) in
  let sleep0 :=
    if bool_decide (span ≤ 0) then Ok base
    else outcome_bind
           (if has_rng b then Int63n own span else Int63n global span)
           (λ n, Ok (wrap64 (base + n))) in
  match sleep0 with
  | Ok sleep =>
      let sleep1 := if bool_decide (sleep > maxCap) then maxCap else sleep in
      let sleep2 := if bool_decide (sleep1 < base) then base else sleep1 in
      (Ok sleep2,
       {| Base := Base b; Cap := Cap b; has_rng := has_rng b; prev := sleep2 |})
  | Err e => (Err e, b)
  | Panic w => (Panic w, b)
  end.

(** The sleeps of successive calls, one pair of draws per call. *)
Fixpoint Backoff_run (draws : list ((Z → Z) * (Z → Z))) (b : Backoff) : list (outcome Z) :=
  match draws with
  | [] => []
  | (own, global) :: ds =>
      let '(d, b') := Backoff_Next own global b in d :: Backoff_run ds b'
  end.

(** ** Lemmas *)

Lemma eff_base_pos b : 0 < eff_base b.
Proof. unfold eff_base, DefaultBackoffBase, Millisecond. case_bool_decide; lia. Qed.

(** The value drawn before clamping never comes from a panicking [Int63n]. *)
Lemma Int63n_guarded draw span : ¬ span ≤ 0 → Int63n draw span = Ok (draw span).
Proof. intros H. unfold Int63n. by rewrite bool_decide_eq_false_2. Qed.

(** The clamps of [Next] on any candidate [sleep]. *)
Definition clamp (base cap sleep : Z) : Z :=
  let s1 := if bool_decide (sleep > cap) then cap else sleep in
  if bool_decide (s1 < base) then base else s1.

Lemma clamp_bounds base cap sleep :
  base ≤ clamp base cap sleep
  ∧ (base ≤ cap → clamp base cap sleep ≤ cap)
  ∧ (cap < base → clamp base cap sleep = base).
Proof. unfold clamp. repeat case_bool_decide; lia. Qed.

Lemma clamp_le base cap sleep bound :
  base ≤ bound → sleep ≤ bound → clamp base cap sleep ≤ bound.
Proof. unfold clamp. repeat case_bool_decide; lia. Qed.

(** [Next] always returns, and its result is a clamped candidate that is
    [base] itself or [base] plus a draw below the span. *)
Lemma Backoff_Next_clamp own global b :
  ∃ s,
    Backoff_Next own global b =
      (Ok (clamp (eff_base b) (eff_cap b) s),
       mkBackoff (Base b) (Cap b) (has_rng b) (clamp (eff_base b) (eff_cap b) s))
    ∧ let hi := wrap64 (Z.max (prev b) (eff_base b) * 3) in
      let span := wrap64 (hi - eff_base b) in
      (span ≤ 0 ∧ s = eff_base b
       ∨ 0 < span ∧ s = wrap64 (eff_base b + (if has_rng b then own else global) span)).
Proof.
  unfold Backoff_Next.
  replace (if bool_decide (prev b < eff_base b) then eff_base b else prev b)
    with (Z.max (prev b) (eff_base b)) by (case_bool_decide; lia).
  set (span := wrap64 (wrap64 _ - _)).
  destruct (bool_decide (span ≤ 0)) eqn:Hs; bools.
  - exists (eff_base b). split; [done|]. left. by split.
  - exists (wrap64 (eff_base b + (if has_rng b then own else global) span)).
    split; [|right; split; [lia | done]].
    destruct (has_rng b); rewrite (Int63n_guarded _ span Hs); done.
Qed.

(** ** Properties *)

(** For every configuration and every pair of draws, [Next] returns a
    sleep without panicking; the sleep is at least the effective base, at most
    the effective cap whenever the cap is at least the base (and exactly the
    base otherwise), and it becomes the remembered previous sleep. *)
Theorem Backoff_Next_bounds own global b :
  ∃ d, Backoff_Next own global b = (Ok d, mkBackoff (Base b) (Cap b) (has_rng b) d)
    ∧ eff_base b ≤ d
    ∧ (eff_base b ≤ eff_cap b → d ≤ eff_cap b)
    ∧ (eff_cap b < eff_base b → d = eff_base b).
Proof.
  destruct (Backoff_Next_clamp own global b) as (s & -> & _).
  eexists. split; [done|]. apply clamp_bounds.
Qed.

(** One step of the growth bound, away from overflow. *)
Lemma Backoff_Next_growth own global b bound :
  draw_ok own → draw_ok global →
  0 < Base b → 0 < Cap b →
  eff_base b ≤ bound → prev b ≤ bound → bound * 3 ≤ int64_max →
  ∃ d, Backoff_Next own global b = (Ok d, mkBackoff (Base b) (Cap b) (has_rng b) d)
    ∧ d ≤ bound * 3.
Proof.
  intros Ho Hg HB HC Hb Hp Hi.
  destruct (Backoff_Next_clamp own global b) as (s & -> & Hs).
  eexists. split; [done|]. pose proof (eff_base_pos b).
  apply clamp_le; [lia|].
  cbv zeta in Hs. set (p := Z.max _ _) in Hs. assert (Hpb : eff_base b ≤ p ≤ bound) by lia.
  rewrite (wrap64_id (p * 3)) in Hs by (i64; lia).
  rewrite (wrap64_id (p * 3 - eff_base b)) in Hs by (i64; lia).
  destruct Hs as [[_ ->] | [Hspan ->]]; [lia|].
  assert (Hd : ∀ f, draw_ok f → 0 ≤ f (p * 3 - eff_base b) < p * 3 - eff_base b)
    by (intros f Hf; by apply Hf).
  pose proof (Hd _ Ho). pose proof (Hd _ Hg).
  destruct (has_rng b); rewrite wrap64_id by (i64; lia); lia.
Qed.

Lemma Backoff_run_growth draws b k :
  Forall (λ p, draw_ok p.1 ∧ draw_ok p.2) draws →
  0 < Base b ≤ Cap b → Cap b * 3 ≤ int64_max →
  prev b ≤ Z.min (Cap b) (Base b * 3 ^ Z.of_nat k) →
  ∀ i o, Backoff_run draws b !! i = Some o →
  ∃ d, o = Ok d ∧ Base b ≤ d ≤ Z.min (Cap b) (Base b * 3 ^ Z.of_nat (k + S i)).
Proof.
  revert b k. induction draws as [|[own global] ds IH]; intros b k HF HB HC Hp i o Hi; [done|].
  inversion HF as [|? ? [Ho Hg] HF']; subst.
  assert (Heb : eff_base b = Base b) by (unfold eff_base; case_bool_decide; lia).
  assert (Hec : eff_cap b = Cap b) by (unfold eff_cap; case_bool_decide; lia).
  assert (H3 : 0 < 3 ^ Z.of_nat k) by lia.
  destruct (Backoff_Next_growth own global b (Z.min (Cap b) (Base b * 3 ^ Z.of_nat k)))
    as (d & Hd & Hdle); auto with lia; [nia..|].
  destruct (Backoff_Next_bounds own global b) as (d' & Hd' & Hge & Hle & _).
  rewrite Hd in Hd'. injection Hd' as <-. rewrite Heb, Hec in *.
  assert (Hpow : 3 ^ Z.of_nat (k + 1) = 3 * 3 ^ Z.of_nat k).
  { replace (Z.of_nat (k + 1)) with (Z.succ (Z.of_nat k)) by lia.
    rewrite Z.pow_succ_r by lia. done. }
  simpl in Hi. rewrite Hd in Hi.
  destruct i as [|i]; simpl in Hi.
  - injection Hi as <-. exists d. split; [done|].
    rewrite Hpow. specialize (Hle ltac:(lia)). lia.
  - apply IH with (k := (k + 1)%nat) in Hi; simpl; try done.
    + destruct Hi as (e & -> & He). exists e. split; [done|].
      replace (k + S (S i))%nat with (k + 1 + S i)%nat by lia. done.
    + rewrite Hpow. specialize (Hle ltac:(lia)). lia.
Qed.

(** After [Reset], the [i]-th sleep of any run (from 0) lies between the
    base and the smaller of the cap and base * 3^(i+1), for every in-range
    draw and every configuration with 0 < base <= cap whose cap cannot
    overflow when tripled: a past incident never inflates a later backoff. *)
Theorem Backoff_run_after_Reset draws b i o :
  Forall (λ p, draw_ok p.1 ∧ draw_ok p.2) draws →
  0 < Base b ≤ Cap b → Cap b * 3 ≤ int64_max →
  Backoff_run draws (Backoff_Reset b) !! i = Some o →
  ∃ d, o = Ok d ∧ Base b ≤ d ≤ Z.min (Cap b) (Base b * 3 ^ Z.of_nat (S i)).
Proof.
  intros HF HB HC Hi.
  apply (Backoff_run_growth draws (Backoff_Reset b) 0 HF HB HC) in Hi; [done|].
  simpl. lia.
Qed.

(** The default configuration satisfies the hypotheses, with draws in the
    middle of the range: the second sleep of a default backoff. *)
Lemma Backoff_run_after_Reset_witness :
  let draw := λ n, n / 2 in
  ∃ d, Ok (1 * Second) = Ok d
    ∧ Base NewBackoff ≤ d ≤ Z.min (Cap NewBackoff) (Base NewBackoff * 3 ^ Z.of_nat 1).
Proof.
  intros draw.
  assert (Hok : draw_ok draw).
  { intros n Hn. unfold draw. split; [apply Z.div_pos; lia | apply Z.div_lt; lia]. }
  apply (Backoff_run_after_Reset [(draw, draw); (draw, draw)] NewBackoff 0).
  - constructor; [split; exact Hok|]. constructor; [split; exact Hok|]. constructor.
  - vm_compute. split; congruence.
  - vm_compute. congruence.
  - vm_compute. reflexivity.
Defined.
