(* ===== verification/CircuitBreaker.v ===== *)
(** * Gateway circuit breaker (services/gateway/internal/circuitbreaker)

    [CircuitBreaker] and its [Registry].  [CB_Call] is one call run without
    interference; [cb_do] gives the lock-protected sections of the same code
    as separate atomic actions, so that [cb_step] interleaves any number of
    in-flight calls. *)

From Stdlib Require Import ZArith Lia.
From stdpp Require Import base strings gmap list numbers.
From S2P Require Import Prelude.
Open Scope Z_scope.

(** ** Model *)

Inductive State := StateClosed | StateOpen | StateHalfOpen.

#[export] Instance State_eq_dec : EqDecision State.
Proof. solve_decision. Defined.

Definition State_String (s : State) : string :=
  match s with
  | StateClosed => "CLOSED"
  | StateOpen => "OPEN"
  | StateHalfOpen => "HALF-OPEN"
  end.

Record CircuitBreaker := mkCB {
  maxFailures : Z;
  resetTimeout : Z;
  state : State;
  failures : Z;
  lastFailureTime : Z
}.

Definition NewCircuitBreaker (maxFailures resetTimeout : Z) : CircuitBreaker :=
  mkCB maxFailures resetTimeout StateClosed 0 time_zero.

Definition set_state (s : State) (cb : CircuitBreaker) : CircuitBreaker :=
  mkCB (maxFailures cb) (resetTimeout cb) s (failures cb) (lastFailureTime cb).

Definition CB_getState (cb : CircuitBreaker) : State := state cb.

(** [recordResult(err)] at instant [now]. *)
Definition CB_recordResult (now : Z) (err : option error) (cb : CircuitBreaker)
    : CircuitBreaker :=
  match err with
  | Some _ =>
      let f := wrap64 (failures cb + 1) in
      let cb1 := mkCB (maxFailures cb) (resetTimeout cb) (state cb) f now in
      if bool_decide (maxFailures cb ≤ f) then set_state StateOpen cb1 else cb1
  | None =>
      let s := if bool_decide (state cb = StateHalfOpen) then StateClosed else state cb in
      mkCB (maxFailures cb) (resetTimeout cb) s 0 (lastFailureTime cb)
  end.

Definition ErrCircuitOpen : error := NewError "circuit breaker is open".

(** One call.  [fn] runs on the caller's world [W]; [t_check] is the clock
    in [handleOpen], [t_done] the clock in [recordResult]. *)
Section Call.
Context {W : Type}.

Definition CB_handleClosed (t_done : Z) (fn : W → option error * W)
    (cb : CircuitBreaker) (w : W) : option error * CircuitBreaker * W :=
  let '(err, w') := fn w in (err, CB_recordResult t_done err cb, w').

Definition CB_handleHalfOpen (t_done : Z) (fn : W → option error * W)
    (cb : CircuitBreaker) (w : W) : option error * CircuitBreaker * W :=
  let '(err, w') := fn w in (err, CB_recordResult t_done err cb, w').

Definition CB_handleOpen (t_check t_done : Z) (fn : W → option error * W)
    (cb : CircuitBreaker) (w : W) : option error * CircuitBreaker * W :=
  if bool_decide (time_Sub t_check (lastFailureTime cb) ≤ resetTimeout cb)
  then (Some ErrCircuitOpen, cb, w)
  else CB_handleHalfOpen t_done fn (set_state StateHalfOpen cb) w.

Definition CB_Call (t_check t_done : Z) (fn : W → option error * W)
    (cb : CircuitBreaker) (w : W) : option error * CircuitBreaker * W :=
  match CB_getState cb with
  | StateOpen => CB_handleOpen t_check t_done fn cb w
  | StateHalfOpen => CB_handleHalfOpen t_done fn cb w
  | StateClosed => CB_handleClosed t_done fn cb w
  end.
End Call.

(** *** Registry *)

Record Registry := mkRegistry { breakers : gmap string CircuitBreaker }.

Definition NewRegistry : Registry := mkRegistry ∅.

Definition Registry_Register (serviceName : string) (maxFailures resetTimeout : Z)
    (r : Registry) : CircuitBreaker * Registry :=
  let cb := NewCircuitBreaker maxFailures resetTimeout in
  (cb, mkRegistry (<[serviceName := cb]> (breakers r))).

Definition Registry_Get (serviceName : string) (r : Registry) : outcome CircuitBreaker :=
  match breakers r !! serviceName with
  | Some cb => Ok cb
  | None => Err (NewError ("circuit breaker not found for service: " +:+ serviceName))
  end.

(** Writing through the pointer [Registry_Get] returned. *)
Definition Registry_store (serviceName : string) (cb : CircuitBreaker) (r : Registry) : Registry :=
  mkRegistry (<[serviceName := cb]> (breakers r)).

(** [setupCircuitBreakers] of the gateway's main. *)
Definition setupCircuitBreakers : Registry :=
  let '(_, r1) := Registry_Register "lambda-service" 10 (5 * Second) NewRegistry in
  let '(_, r2) := Registry_Register "build-service" 5 (30 * Second) r1 in
  r2.

(** *** Interleaved calls *)

(** Where an in-flight call is: past [getState] with the state it read,
    inside [fn], or finished. *)
Inductive pc :=
  | PCDispatch (s : State)
  | PCRunning
  | PCDone (err : option error)
  | PCRejected.

Record config := mkConfig {
  c_cb : CircuitBreaker;
  c_now : Z;
  c_threads : gmap nat pc
}.

Inductive cb_action :=
  | ATick (d : Z)                          (* time passes *)
  | AGetState (tid : nat)                  (* a new call reads the state *)
  | ADispatch (tid : nat)                  (* the switch; handleOpen's critical section *)
  | AReturn (tid : nat) (err : option error). (* fn returns; recordResult *)

Definition cb_do (a : cb_action) (c : config) : option config :=
  match a with
  | ATick d =>
      if bool_decide (0 ≤ d) then Some (mkConfig (c_cb c) (c_now c + d) (c_threads c))
      else None
  | AGetState tid =>
      match c_threads c !! tid with
      | None => Some (mkConfig (c_cb c) (c_now c)
                        (<[tid := PCDispatch (CB_getState (c_cb c))]> (c_threads c)))
      | Some _ => None
      end
  | ADispatch tid =>
      match c_threads c !! tid with
      | Some (PCDispatch StateOpen) =>
          if bool_decide (time_Sub (c_now c) (lastFailureTime (c_cb c))
                          ≤ resetTimeout (c_cb c))
          then Some (mkConfig (c_cb c) (c_now c) (<[tid := PCRejected]> (c_threads c)))
          else Some (mkConfig (set_state StateHalfOpen (c_cb c)) (c_now c)
                       (<[tid := PCRunning]> (c_threads c)))
      | Some (PCDispatch _) =>
          Some (mkConfig (c_cb c) (c_now c) (<[tid := PCRunning]> (c_threads c)))
      | _ => None
      end
  | AReturn tid err =>
      match c_threads c !! tid with
      | Some PCRunning =>
          Some (mkConfig (CB_recordResult (c_now c) err (c_cb c)) (c_now c)
                  (<[tid := PCDone err]> (c_threads c)))
      | _ => None
      end
  end.

Definition cb_step (c c' : config) : Prop := ∃ a, cb_do a c = Some c'.

Fixpoint cb_do_all (l : list cb_action) (c : config) : option config :=
  match l with
  | [] => Some c
  | a :: l' => match cb_do a c with Some c' => cb_do_all l' c' | None => None end
  end.

Definition cb_init (max timeout now : Z) : config :=
  mkConfig (NewCircuitBreaker max timeout) now ∅.

(** *** Sequences of calls *)

(** Calls one after another; each entry is (clock at the check, clock at the
    end, what fn returns). *)
Fixpoint CB_run (calls : list (Z * Z * option error)) (cb : CircuitBreaker)
    : list (option error) * CircuitBreaker :=
  match calls with
  | [] => ([], cb)
  | (t0, t1, r) :: rest =>
      let '(e, cb', _) := CB_Call t0 t1 (λ w : unit, (r, w)) cb tt in
      let '(es, cb'') := CB_run rest cb' in (e :: es, cb'')
  end.

(** Length of the run of failures a sequence of results ends with. *)
Fixpoint streak (acc : Z) (rs : list (option error)) : Z :=
  match rs with
  | [] => acc
  | None :: rs' => streak 0 rs'
  | Some _ :: rs' => streak (acc + 1) rs'
  end.

(** No prefix of the results ends with [m] or more failures in a row. *)
Definition never_trips (m : Z) (rs : list (option error)) : Prop :=
  ∀ p, p `prefix_of` rs → streak 0 p < m.

(** ** Lemmas *)

Lemma streak_nonneg acc rs : 0 ≤ acc → 0 ≤ streak acc rs.
Proof. revert acc. induction rs as [|[e|] rs IH]; intros acc H; simpl; auto with lia. Qed.

Lemma streak_app acc l1 l2 : streak acc (l1 ++ l2) = streak (streak acc l1) l2.
Proof. revert acc. induction l1 as [|[e|] l1 IH]; intros acc; simpl; auto. Qed.

Lemma CB_run_app l1 l2 cb :
  CB_run (l1 ++ l2) cb =
    let '(e1, cb1) := CB_run l1 cb in
    let '(e2, cb2) := CB_run l2 cb1 in (e1 ++ e2, cb2).
Proof.
  revert cb. induction l1 as [|[[t0 t1] r] l1 IH]; intros cb; simpl.
  - by destruct (CB_run l2 cb).
  - destruct (CB_Call t0 t1 _ cb tt) as [[e cb'] w]. rewrite IH.
    destruct (CB_run l1 cb') as [e1 cb1]. by destruct (CB_run l2 cb1).
Qed.

Lemma CB_recordResult_params now err cb :
  maxFailures (CB_recordResult now err cb) = maxFailures cb
  ∧ resetTimeout (CB_recordResult now err cb) = resetTimeout cb.
Proof. destruct err; simpl; [case_bool_decide|]; done. Qed.

(** A run that never trips stays closed, executes every call, and the
    failure count is the current streak. *)
Lemma CB_run_closed calls m tmo cb :
  0 < m → is_int64 m →
  cb = mkCB m tmo StateClosed (failures cb) (lastFailureTime cb) →
  failures cb = 0 →
  never_trips m (map snd calls) →
  ∃ lf, CB_run calls cb = (map snd calls, mkCB m tmo StateClosed (streak 0 (map snd calls)) lf).
Proof.
  intros Hm Hi Hcb Hf Hnt. induction calls as [|[[t0 t1] r] l IH] using rev_ind.
  - exists (lastFailureTime cb). simpl. rewrite Hcb, Hf. done.
  - rewrite map_app in *. destruct IH as [lf IH].
    { intros p Hp. apply Hnt. by apply prefix_app_r. }
    rewrite CB_run_app, IH, streak_app. simpl.
    assert (Hst : streak 0 (map snd l ++ [r]) < m) by (by apply Hnt).
    rewrite streak_app in Hst.
    pose proof (streak_nonneg 0 (map snd l) ltac:(lia)).
    destruct r as [e|]; unfold CB_Call, CB_handleClosed; simpl in *.
    + exists t1. rewrite wrap64_id by (i64; lia).
      by rewrite bool_decide_eq_false_2 by lia.
    + by exists lf.
Qed.

(** Actions taken one after another are steps. *)
Lemma cb_do_all_rtc l c c' : cb_do_all l c = Some c' → rtc cb_step c c'.
Proof.
  revert c. induction l as [|a l IH]; simpl; intros c H.
  - injection H as <-. done.
  - destruct (cb_do a c) as [c1|] eqn:E; [|done].
    eapply rtc_l; [by exists a | eauto].
Qed.

(** ** Properties *)

(** C6.  Counting consecutive failures: a fresh breaker with threshold
    [m >= 1] whose results so far never contained [m] failures in a row has
    executed every call and returned its error, and after one more call it is
    OPEN exactly when that call completes a run of [m] consecutive failures
    (and CLOSED otherwise).  The comment at the closed state says that the
    breaker opens if failures exceed the threshold; the code opens it when
    they reach it. *)
Theorem CB_opens_exactly_at_threshold calls t0 t1 r m tmo :
  0 < m → is_int64 m → never_trips m (map snd calls) →
  let '(es, cb) := CB_run (calls ++ [(t0, t1, r)]) (NewCircuitBreaker m tmo) in
  es = map snd calls ++ [r]
  ∧ state cb = (if bool_decide (streak 0 (map snd calls ++ [r]) < m)
                then StateClosed else StateOpen).
Proof.
  intros Hm Hi Hnt.
  destruct (CB_run_closed calls m tmo (NewCircuitBreaker m tmo)) as [lf Hr]; try done.
  rewrite CB_run_app, Hr, streak_app. simpl.
  pose proof (streak_nonneg 0 (map snd calls) ltac:(lia)).
  assert (Hlt : streak 0 (map snd calls) < m) by (by apply Hnt).
  destruct r as [e|]; unfold CB_Call, CB_handleClosed; simpl.
  - rewrite wrap64_id by (i64; lia). split; [done|].
    repeat case_bool_decide; simpl; done || lia.
  - split; [done|]. by rewrite bool_decide_eq_true_2 by lia.
Qed.

Lemma CB_opens_exactly_at_threshold_witness :
  let e := Some (NewError "refused") in
  let '(es, cb) := CB_run ([(1, 2, e); (3, 4, None); (5, 6, e)] ++ [(7, 8, e)])
                          (NewCircuitBreaker 2 Second) in
  es = [e; None; e] ++ [e]
  ∧ state cb = (if bool_decide (streak 0 ([e; None; e] ++ [e]) < 2)
                then StateClosed else StateOpen).
Proof.
  intros e.
  apply (CB_opens_exactly_at_threshold [(1, 2, e); (3, 4, None); (5, 6, e)] 7 8 e 2 Second).
  - lia.
  - i64. lia.
  - intros p [k Hk]. simpl in Hk.
    destruct p as [|a [|b [|d [|? ?]]]]; simplify_eq/=; reflexivity.
Defined.

(** C7.  The open and half-open states.  While the reset timeout has not
    passed since the last failure, a call on an OPEN breaker returns the
    "circuit breaker is open" error, does not run [fn] and changes nothing.
    Once it has passed, [fn] runs once: success closes the breaker with a zero
    failure count, and failure re-opens it and restarts the timeout, provided
    the recorded failures are at least the threshold (as they are whenever
    calls do not overlap). *)
Theorem CB_open_call {W} t0 t1 (fn : W → option error * W) cb w :
  state cb = StateOpen →
  if bool_decide (time_Sub t0 (lastFailureTime cb) ≤ resetTimeout cb)
  then CB_Call t0 t1 fn cb w = (Some ErrCircuitOpen, cb, w)
  else let '(e, cb', w') := CB_Call t0 t1 fn cb w in
       (e, w') = fn w
       ∧ match e with
         | None => state cb' = StateClosed ∧ failures cb' = 0
         | Some _ => maxFailures cb ≤ failures cb < int64_max → is_int64 (failures cb) →
                     state cb' = StateOpen ∧ lastFailureTime cb' = t1
                     ∧ maxFailures cb' ≤ failures cb'
         end.
Proof.
  intros Hs. unfold CB_Call, CB_handleOpen, CB_getState. rewrite Hs. simpl.
  case_bool_decide as Ht; [done|].
  unfold CB_handleHalfOpen. destruct (fn w) as [e w'] eqn:Hfn. split; [done|].
  destruct e as [e|]; simpl; [|done].
  intros Hf Hi. rewrite wrap64_id by (i64; lia).
  rewrite bool_decide_eq_true_2 by lia. simpl. auto with lia.
Qed.

Lemma CB_open_call_witness :
  let cb := mkCB 1 Second StateOpen 1 0 in
  let '(e, cb', w') := CB_Call (2 * Second) (3 * Second) (λ w : nat, (None, S w)) cb 0%nat in
  (e, w') = (None, 1%nat) ∧ state cb' = StateClosed ∧ failures cb' = 0.
Proof.
  pose proof (CB_open_call (2 * Second) (3 * Second) (λ w : nat, (None, S w))
                (mkCB 1 Second StateOpen 1 0) 0%nat eq_refl) as H.
  vm_compute in H |- *. destruct H as [_ [_ _]]. repeat split; reflexivity.
Defined.

(** The invariant of interleaved execution. *)
Definition cb_inv (m : Z) (c : config) : Prop :=
  maxFailures (c_cb c) = m
  ∧ (state (c_cb c) = StateClosed → 0 ≤ failures (c_cb c) < m).

Lemma cb_recordResult_inv m now err cb :
  0 < m → is_int64 m → maxFailures cb = m →
  (state cb = StateClosed → 0 ≤ failures cb < m) →
  state (CB_recordResult now err cb) = StateClosed →
  0 ≤ failures (CB_recordResult now err cb) < m.
Proof.
  intros Hm Hi Hmax Hc. destruct err as [e|]; simpl; [|lia].
  case_bool_decide as Hge; simpl; [done|]. intros Hs. specialize (Hc Hs).
  rewrite wrap64_id in * by (i64; lia). lia.
Qed.

Lemma cb_step_inv m c c' :
  0 < m → is_int64 m → cb_inv m c → cb_step c c' → cb_inv m c'.
Proof.
  intros Hm Hi [Hmax Hc] [a Ha]. unfold cb_inv.
  destruct a as [d|tid|tid|tid err]; simpl in Ha.
  - case_bool_decide; simplify_eq/=. done.
  - case_match; simplify_eq/=. done.
  - repeat case_match; simplify_eq/=; try done; (split; [done|]); done.
  - case_match; simplify_eq/=. case_match; simplify_eq/=.
    split; [by rewrite (proj1 (CB_recordResult_params _ _ _))|].
    by apply cb_recordResult_inv.
Qed.

(** C27.  Under any interleaving of concurrent calls, the failure counter of a
    CLOSED breaker is not negative and below the threshold: no breaker is ever
    left closed with as many recorded failures as should have opened it. *)
Theorem CB_closed_below_threshold m tmo now c :
  0 < m → is_int64 m → rtc cb_step (cb_init m tmo now) c →
  maxFailures (c_cb c) = m ∧ (state (c_cb c) = StateClosed → 0 ≤ failures (c_cb c) < m).
Proof.
  intros Hm Hi Hr.
  apply (rtc_preserves cb_step (cb_inv m) (cb_init m tmo now) c); [|split; simpl; auto with lia|done].
  intros a b. by apply cb_step_inv.
Qed.

Lemma CB_closed_below_threshold_witness :
  ∃ c, cb_do_all [AGetState 0; AGetState 1; ADispatch 0; ADispatch 1;
                  AReturn 0 (Some ErrCircuitOpen); AReturn 1 (Some ErrCircuitOpen)]
         (cb_init 3 Second 0) = Some c
    ∧ maxFailures (c_cb c) = 3
    ∧ (state (c_cb c) = StateClosed → 0 ≤ failures (c_cb c) < 3).
Proof.
  eexists. split; [vm_compute; reflexivity|].
  eapply (CB_closed_below_threshold 3 Second 0); [lia | i64; lia |].
  eapply (cb_do_all_rtc [AGetState 0; AGetState 1; ADispatch 0; ADispatch 1;
                  AReturn 0 (Some ErrCircuitOpen); AReturn 1 (Some ErrCircuitOpen)]).
  vm_compute. reflexivity.
Defined.

(** A call run alone takes only steps of the interleaved model: for
    every breaker, clock and result, [CB_Call] ends in the breaker reached by
    the corresponding atomic actions of one thread. *)
Theorem CB_Call_is_interleaving cb t0 t1 r threads tid :
  0 ≤ t1 - t0 → threads !! tid = None →
  ∃ p, rtc cb_step (mkConfig cb t0 threads)
         (let '(_, cb', _) := CB_Call t0 t1 (λ w : unit, (r, w)) cb tt in
          mkConfig cb' (match p with PCRejected => t0 | _ => t1 end) (<[tid := p]> threads)).
Proof.
  intros Ht Htid. unfold CB_Call, CB_handleClosed, CB_handleHalfOpen.
  assert (Hrun : ∀ s cb', state cb = s →
            cb_do (ADispatch tid) (mkConfig cb t0 (<[tid := PCDispatch s]> threads))
              = Some (mkConfig cb' t0 (<[tid := PCRunning]> (<[tid := PCDispatch s]> threads))) →
            rtc cb_step (mkConfig cb t0 threads)
              (mkConfig (CB_recordResult t1 r cb') t1 (<[tid := PCDone r]> threads))).
  { intros s cb' Hs Hd.
    eapply rtc_l; [exists (AGetState tid); simpl; rewrite Htid; reflexivity|].
    unfold CB_getState. rewrite Hs.
    eapply rtc_l; [exists (ADispatch tid); exact Hd|].
    eapply rtc_l; [exists (ATick (t1 - t0)); simpl; by rewrite bool_decide_eq_true_2|].
    apply rtc_once. exists (AReturn tid r). simpl. rewrite lookup_insert_eq.
    replace (t0 + (t1 - t0)) with t1 by lia. by rewrite !insert_insert_eq. }
  destruct (CB_getState cb) eqn:Hs; unfold CB_getState in Hs; simpl.
  - exists (PCDone r). eapply Hrun; [done|]. simpl. by rewrite lookup_insert_eq.
  - unfold CB_handleOpen. case_bool_decide as Hto.
    + exists PCRejected. apply (cb_do_all_rtc [AGetState tid; ADispatch tid]).
      simpl. rewrite Htid. simpl. rewrite lookup_insert_eq. unfold CB_getState. rewrite Hs.
      rewrite bool_decide_eq_true_2 by done. simpl. by rewrite insert_insert_eq.
    + exists (PCDone r). simpl. eapply Hrun; [done|]. simpl.
      rewrite lookup_insert_eq. by rewrite bool_decide_eq_false_2.
  - exists (PCDone r). eapply Hrun; [done|]. simpl. by rewrite lookup_insert_eq.
Qed.

Lemma CB_Call_is_interleaving_witness :
  ∃ p, rtc cb_step (mkConfig (NewCircuitBreaker 2 Second) 10 ∅)
         (let '(_, cb', _) := CB_Call 10 20 (λ w : unit, (None, w)) (NewCircuitBreaker 2 Second) tt in
          mkConfig cb' (match p with PCRejected => 10 | _ => 20 end) (<[0%nat := p]> ∅)).
Proof. apply (CB_Call_is_interleaving (NewCircuitBreaker 2 Second) 10 20 None ∅ 0); [lia | reflexivity]. Defined.

(** Overlapping calls can leave a HALF-OPEN breaker half-open after a
    failed trial call, although a failed trial is documented to re-open it:
    with threshold 2 and a one-second timeout, a call that started before the
    breaker opened succeeds while it is OPEN and zeroes the failure count, so
    the later trial's failure no longer reaches the threshold. *)
Theorem CB_half_open_failure_need_not_reopen :
  ∃ c c' tid err,
    rtc cb_step (cb_init 2 Second 0) c
    ∧ state (c_cb c) = StateHalfOpen
    ∧ cb_do (AReturn tid (Some err)) c = Some c'
    ∧ state (c_cb c') = StateHalfOpen.
Proof.
  set (e := Some (NewError "dial tcp: refused")).
  set (acts := [AGetState 0; ADispatch 0; AGetState 1; ADispatch 1; AGetState 2; ADispatch 2;
                AReturn 1 e; AReturn 2 e; AReturn 0 None;
                ATick (2 * Second); AGetState 3; ADispatch 3]).
  destruct (cb_do_all acts (cb_init 2 Second 0)) as [c|] eqn:Hc; [|vm_compute in Hc; done].
  exists c. eexists _, 3%nat, (NewError "dial tcp: refused").
  split; [by eapply cb_do_all_rtc|].
  vm_compute in Hc. injection Hc as <-.
  split; [reflexivity|]. split; vm_compute; reflexivity.
Qed.
