(* ===== verification/Redis.v ===== *)
(** * Redis, as the services use it

    Redis is an external service.  What the code relies on is stated as a
    class of operations on numeric keys ([RedisKV]) with the documented
    behaviour of the commands as laws ([RedisKVLaws]); the components are
    verified against the laws.  [redis_mem] is a concrete store that satisfies
    them.  Instants are nanoseconds of the server's clock, and a key whose
    deadline has been reached does not exist. *)

From Stdlib Require Import ZArith Lia.
From stdpp Require Import base strings gmap list numbers.
From S2P Require Import Prelude.
Open Scope Z_scope.

(** Commands on keys that hold integers (Redis keeps them as decimal strings,
    and [tonumber] or [Sscanf] reads back the same integer). *)
Class RedisKV (R : Type) := {
  redis_GET : R → Z → string → option Z;
  redis_SET : R → string → Z → R;
  redis_INCR : R → Z → string → Z * R;
  redis_EXPIRE : R → Z → string → Z → R;
  redis_DEL : R → string → R
}.

Class RedisKVLaws (R : Type) `{!RedisKV R} := {
  (* SET stores the value and clears any deadline *)
  redis_get_set_eq r t k v : redis_GET (redis_SET r k v) t k = Some v;
  redis_get_set_ne r t k k' v : k ≠ k' → redis_GET (redis_SET r k v) t k' = redis_GET r t k';
  (* DEL removes the key *)
  redis_get_del_eq r t k : redis_GET (redis_DEL r k) t k = None;
  redis_get_del_ne r t k k' : k ≠ k' → redis_GET (redis_DEL r k) t k' = redis_GET r t k';
  (* EXPIRE s at instant t0 makes the key die at t0 + s seconds *)
  redis_get_expire_eq r t0 t k s : 0 < s → t0 ≤ t →
    redis_GET (redis_EXPIRE r t0 k s) t k
      = (if bool_decide (t < t0 + s * Second) then redis_GET r t0 k else None);
  redis_get_expire_ne r t0 t k k' s : k ≠ k' →
    redis_GET (redis_EXPIRE r t0 k s) t k' = redis_GET r t k';
  (* INCR counts from 0 when the key does not exist and keeps a deadline *)
  redis_incr_val r t k : (redis_INCR r t k).1 = default 0 (redis_GET r t k) + 1;
  redis_incr_new r t t' k : redis_GET r t k = None → t ≤ t' →
    redis_GET (redis_INCR r t k).2 t' k = Some 1;
  redis_incr_old r t t' k v : redis_GET r t k = Some v → t ≤ t' →
    redis_GET (redis_INCR r t k).2 t' k
      = (match redis_GET r t' k with Some _ => Some (v + 1) | None => None end);
  redis_get_incr_ne r t t' k k' : k ≠ k' →
    redis_GET (redis_INCR r t k).2 t' k' = redis_GET r t' k'
}.

(** ** A concrete store *)

(** Value and deadline, if any, of each key. *)
Abbreviation redis_mem := (gmap string (Z * option Z)).

Definition mem_alive (d : option Z) (t : Z) : bool :=
  match d with Some dl => bool_decide (t < dl) | None => true end.

Definition mem_GET (r : redis_mem) (t : Z) (k : string) : option Z :=
  match r !! k with
  | Some (v, d) => if mem_alive d t then Some v else None
  | None => None
  end.
Definition mem_SET (r : redis_mem) (k : string) (v : Z) : redis_mem := <[k := (v, None)]> r.
Definition mem_INCR (r : redis_mem) (t : Z) (k : string) : Z * redis_mem :=
  match r !! k with
  | Some (v, d) => if mem_alive d t then (v + 1, <[k := (v + 1, d)]> r)
                   else (1, <[k := (1, None)]> r)
  | None => (1, <[k := (1, None)]> r)
  end.
Definition mem_EXPIRE (r : redis_mem) (t : Z) (k : string) (s : Z) : redis_mem :=
  match r !! k with
  | Some (v, d) => if mem_alive d t then <[k := (v, Some (t + s * Second))]> r else r
  | None => r
  end.
Definition mem_DEL (r : redis_mem) (k : string) : redis_mem := delete k r.

#[export] Instance redis_mem_kv : RedisKV redis_mem := {
  redis_GET := mem_GET;
  redis_SET := mem_SET;
  redis_INCR := mem_INCR;
  redis_EXPIRE := mem_EXPIRE;
  redis_DEL := mem_DEL
}.

Lemma mem_alive_mono d t t' : t ≤ t' → mem_alive d t' = true → mem_alive d t = true.
Proof. destruct d; simpl; [|done]. intros Ht H. bools. apply bool_decide_eq_true. lia. Qed.

Lemma mem_dead_mono d t t' : t ≤ t' → mem_alive d t = false → mem_alive d t' = false.
Proof.
  intros Ht H. destruct (mem_alive d t') eqn:E; [|done].
  by rewrite (mem_alive_mono d t t') in H.
Qed.

Ltac mem_lookup :=
  simpl;
  repeat match goal with
  | |- context [<[?k := _]> _ !! ?k] => rewrite lookup_insert_eq
  | H : ?k ≠ ?k' |- context [<[?k := _]> _ !! ?k'] => rewrite (lookup_insert_ne _ _ _ _ H)
  end.

#[export] Instance redis_mem_laws : RedisKVLaws redis_mem.
Proof.
  split; simpl; unfold mem_GET, mem_SET, mem_INCR, mem_EXPIRE, mem_DEL; intros.
  - by rewrite lookup_insert_eq.
  - by rewrite lookup_insert_ne.
  - by rewrite lookup_delete_eq.
  - by rewrite lookup_delete_ne.
  - destruct (r !! k) as [[v d]|] eqn:E; [|rewrite E; by case_bool_decide].
    destruct (mem_alive d t0) eqn:Ha; [by mem_lookup|].
    rewrite E, (mem_dead_mono d t0 t) by done. by case_bool_decide.
  - destruct (r !! k) as [[v d]|]; [|done]. destruct (mem_alive d t0); by mem_lookup.
  - destruct (r !! k) as [[v d]|]; [|done]. by destruct (mem_alive d t).
  - destruct (r !! k) as [[v d]|] eqn:E; [|by mem_lookup].
    destruct (mem_alive d t); [done|]. by mem_lookup.
  - destruct (r !! k) as [[v' d]|] eqn:E; [|done].
    destruct (mem_alive d t) eqn:Ha; simplify_eq/=. mem_lookup. by destruct (mem_alive d t').
  - destruct (r !! k) as [[v d]|]; [destruct (mem_alive d t)|]; simpl; by mem_lookup.
Qed.
