(* ===== verification/RateLimit.v ===== *)
(** * Gateway rate limiters (services/gateway/internal/ratelimit)

    [TokenBucketLimiter] (invocations), [BuildRateLimiter] (function
    creation) and the [RateLimiter] interface the router is written against.
    The Lua scripts are translated command by command against the Redis laws
    of [Redis]; Lua numbers are exact for the integers involved (below 2^53).
    The in-memory fallback limiter is the third-party [x/time/rate], a
    parameter. *)

From Stdlib Require Import ZArith Lia Sorting.Sorted.
From stdpp Require Import base strings gmap list numbers.
From S2P Require Import Prelude.
From S2P Require Import Redis.
Open Scope Z_scope.

(** ** The interface *)

(** [ratelimit.RateLimiter], over the limiter's own state. *)
Class RateLimiter (S : Type) := {
  RateLimiter_Allow : string → St S bool;
  RateLimiter_Close : St S unit
}.

(** ** Token bucket *)

(** [golang.org/x/time/rate]: [rate.NewLimiter(limit, burst)] and
    [limiter.Allow()] at an instant. *)
Class RateLib (L : Type) := {
  rate_NewLimiter : Z → Z → L;
  rate_Allow : Z → L → bool * L
}.

Section TokenBucket.
Context {R : Type} `{!RedisKV R} {L : Type} `{!RateLib L}.

Record TokenBucketLimiter := mkTB {
  capacity : Z;
  refillRate : Z;
  refillPeriod : Z;
  fallbackMap : gmap string L
}.

Definition NewTokenBucketLimiter (capacity refillRate : Z) : TokenBucketLimiter :=
  mkTB capacity refillRate Second ∅.

Definition bucketKey (key : string) : string := "ratelimit:bucket:" +:+ key.
Definition timestampKey (key : string) : string := "ratelimit:timestamp:" +:+ key.

(** The Lua script of [Allow], run by the server at its instant [tr]. *)
Definition TB_script (tr : Z) (bucket_key timestamp_key : string)
    (cap refill_rate now : Z) (r : R) : Z * R :=
  let tokens := match redis_GET r tr bucket_key with Some v => v | None => cap end in
  let last_refill := match redis_GET r tr timestamp_key with Some v => v | None => now end in
  let elapsed := now - last_refill in
  let tokens_to_add := elapsed * refill_rate in
  let tokens := Z.min cap (tokens + tokens_to_add) in
  if bool_decide (tokens = 0) then (0, r)
  else
    let tokens := tokens - 1 in
    let r := redis_SET r bucket_key tokens in
    let r := redis_SET r timestamp_key now in
    let r := redis_EXPIRE r tr bucket_key 3600 in
    let r := redis_EXPIRE r tr timestamp_key 3600 in
    (1, r).

(** [allowFallback(key)] at the gateway's instant [t]. *)
Definition TB_allowFallback (t : Z) (key : string) (tb : TokenBucketLimiter)
    : bool * TokenBucketLimiter :=
  let limiter :=
    match fallbackMap tb !! key with
    | Some l => l
    | None => rate_NewLimiter (refillRate tb) (capacity tb)
    end in
  let '(b, l') := rate_Allow t limiter in
  (b, mkTB (capacity tb) (refillRate tb) (refillPeriod tb) (<[key := l']> (fallbackMap tb))).

(** [Allow(ctx, key)]: [now] is the gateway's [time.Now().Unix()], [t] the
    same clock in nanoseconds, [tr] the server's clock, [eval_err] the error
    of the script call, if any. *)
Definition TB_Allow (tr t now : Z) (eval_err : option error) (key : string)
    (s : TokenBucketLimiter * R) : outcome bool * (TokenBucketLimiter * R) :=
  let '(tb, r) := s in
  match eval_err with
  | Some _ => let '(b, tb') := TB_allowFallback t key tb in (Ok b, (tb', r))
  | None =>
      let '(result, r') :=
        TB_script tr (bucketKey key) (timestampKey key) (capacity tb) (refillRate tb) now r in
      (Ok (bool_decide (result = 1)), (tb, r'))
  end.

(** [GetTokens(ctx, key)]; [err1] and [err2] are the errors of the two GETs. *)
Definition TB_GetTokens (tr now : Z) (err1 err2 : option error) (key : string)
    (tb : TokenBucketLimiter) (r : R) : outcome Z :=
  match err1 with
  | Some e => Err e
  | None =>
      match redis_GET r tr (bucketKey key) with
      | None => Ok (capacity tb)
      | Some tokens =>
          match err2 with
          | Some e => Err e
          | None =>
              match redis_GET r tr (timestampKey key) with
              | None => Ok tokens
              | Some lastRefill =>
                  let elapsed := wrap64 (now - lastRefill) in
                  let tokensToAdd := wrap64 (elapsed * refillRate tb) in
                  Ok (Z.min (capacity tb) (wrap64 (tokens + tokensToAdd)))
              end
          end
      end
  end.

(** [Reset(ctx, key)], the pipeline having succeeded. *)
Definition TB_Reset (key : string) (r : R) : R :=
  redis_DEL (redis_DEL r (bucketKey key)) (timestampKey key).

(** The limiter as a [RateLimiter], in an environment that fixes the clocks
    and the script's error for each call. *)
Definition TB_RateLimiter (tr t now : Z) (err : option error)
    : RateLimiter (TokenBucketLimiter * R) := {|
  RateLimiter_Allow := λ key s, TB_Allow tr t now err key s;
  RateLimiter_Close := λ s, (Ok tt, s)
|}.

(** Requests for one key, the gateway's clock agreeing with the server's: the
    instant of each, and the error of its script call, if it fails. *)
Fixpoint TB_run (key : string) (reqs : list (Z * option error)) (s : TokenBucketLimiter * R) : list bool :=
  match reqs with
  | [] => []
  | (tr, err) :: rest =>
      let '(o, s') := TB_Allow tr tr (tr / Second) err key s in
      (match o with Ok b => b | _ => false end) :: TB_run key rest s'
  end.
End TokenBucket.
Arguments TokenBucketLimiter : clear implicits.

(** ** Build limiter *)

Definition GlobalBuildLimit : Z := 20.
Definition GlobalBuildWindow : Z := Minute.
Definition UserBuildLimit : Z := 5.
Definition UserBuildWindow : Z := Minute.

Section Build.
Context {R : Type} `{!RedisKV R}.

(** The limiter's world: the store and the rejections counted by
    [metrics.RateLimitRejectionsTotal] (label pairs, latest first). *)
Record BuildWorld := mkBW { bw_redis : R; bw_rejections : list (string * string) }.

(** [checkLimit(ctx, key, limit, window)], the Lua script at instant [tr]. *)
Definition BRL_checkLimit (tr : Z) (eval_err : option error) (key : string)
    (limit window : Z) : St BuildWorld bool := λ w,
  match eval_err with
  | Some e => (Err e, w)
  | None =>
      let '(current, r1) := redis_INCR (bw_redis w) tr key in
      let r2 := if bool_decide (current = 1)
                then redis_EXPIRE r1 tr key (duration_int_seconds window) else r1 in
      let val := if bool_decide (current ≤ limit) then 1 else 0 in
      (Ok (bool_decide (val = 1)), mkBW r2 (bw_rejections w))
  end.

Definition count_rejection (scope : string) (w : BuildWorld) : BuildWorld :=
  mkBW (bw_redis w) (("build-service", scope) :: bw_rejections w).

Definition globalKey : string := "ratelimit:builds:global".
Definition userKey (userID : string) : string := "ratelimit:builds:user:" +:+ userID.

Definition global_msg : string := "Global build rate limit exceeded. Please try again later.".
Definition user_msg : string := "User build rate limit exceeded. Please try again later.".

(** [Allow(ctx, userID)]: (allowed, reason). *)
Definition BRL_Allow (tr : Z) (err_g err_u : option error) (userID : string)
    : St BuildWorld (bool * string) := λ w,
  match BRL_checkLimit tr err_g globalKey GlobalBuildLimit GlobalBuildWindow w with
  | (Ok true, w1) =>
      match BRL_checkLimit tr err_u (userKey userID) UserBuildLimit UserBuildWindow w1 with
      | (Ok true, w2) => (Ok (true, ""), w2)
      | (Ok false, w2) => (Ok (false, user_msg), count_rejection "user" w2)
      | (Err e, w2) => (Err e, w2)
      | (Panic p, w2) => (Panic p, w2)
      end
  | (Ok false, w1) => (Ok (false, global_msg), count_rejection "global" w1)
  | (Err e, w1) => (Err e, w1)
  | (Panic p, w1) => (Panic p, w1)
  end.

(** [BuildRateLimiterAdapter.Allow] drops the reason. *)
Definition Adapter_Allow (tr : Z) (err_g err_u : option error) (key : string)
    : St BuildWorld bool := λ w,
  match BRL_Allow tr err_g err_u key w with
  | (Ok (allowed, _), w') => (Ok allowed, w')
  | (Err e, w') => (Err e, w')
  | (Panic p, w') => (Panic p, w')
  end.

Definition BRL_RateLimiter (tr : Z) (err_g err_u : option error) : RateLimiter BuildWorld := {|
  RateLimiter_Allow := Adapter_Allow tr err_g err_u;
  RateLimiter_Close := λ w, (Ok tt, w)
|}.

(** [GetRemainingQuota]: any error, a missing key included, means a full quota. *)
Definition BRL_GetRemainingQuota (tr : Z) (err : option error) (userID : string) (r : R) : Z :=
  match err, redis_GET r tr (userKey userID) with
  | None, Some current => Z.max 0 (UserBuildLimit - current)
  | _, _ => UserBuildLimit
  end.

(** [GetResetTime] from the answer of TTL, a duration, which is negative for a
    key that does not exist or does not expire. *)
Definition BRL_GetResetTime (now : Z) (ttl : outcome Z) : outcome Z :=
  outcome_bind ttl (λ d, Ok (now + d)).

(** Requests at given instants by given users, without Redis errors; what
    each was answered. *)
Fixpoint BRL_run (reqs : list (Z * string)) (w : BuildWorld) : list (bool * string) * BuildWorld :=
  match reqs with
  | [] => ([], w)
  | (tr, u) :: rest =>
      let '(o, w1) := BRL_Allow tr None None u w in
      let '(os, w2) := BRL_run rest w1 in
      ((match o with Ok a => a | _ => (false, "") end) :: os, w2)
  end.
End Build.
Arguments BuildWorld : clear implicits.
Arguments mkBW {R}.
Arguments bw_redis {R}.
Arguments bw_rejections {R}.

(** ** Token bucket: lemmas *)

Lemma bucket_timestamp_ne k k' : bucketKey k ≠ timestampKey k'.
Proof. done. Qed.

Lemma global_user_ne u : globalKey ≠ userKey u.
Proof. done. Qed.

Lemma userKey_inj u v : userKey u = userKey v → u = v.
Proof. apply str_app_inj_l. Qed.

Section TokenBucketProofs.
Context {R : Type} `{!RedisKV R, !RedisKVLaws R} {L : Type} `{!RateLib L}.
Implicit Types r : R.

(** What both keys of a bucket answer from instant [t0] on: nothing, or
    [tk] tokens stamped with the second of [tr0] until an hour after [tr0]. *)
Definition bucket_dies (tr0 : Z) : Z := tr0 + 3600 * Second.

Definition bucket_state (key : string) (r : R) (t0 : Z) (b : option (Z * Z)) : Prop :=
  ∀ t, t0 ≤ t →
    match b with
    | None => redis_GET r t (bucketKey key) = None ∧ redis_GET r t (timestampKey key) = None
    | Some (tk, tr0) =>
        redis_GET r t (bucketKey key)
          = (if bool_decide (t < bucket_dies tr0) then Some tk else None)
        ∧ redis_GET r t (timestampKey key)
          = (if bool_decide (t < bucket_dies tr0) then Some (tr0 / Second) else None)
    end.

(** Tokens available to a request at instant [t]. *)
Definition avail (cap rate : Z) (b : option (Z * Z)) (t : Z) : Z :=
  match b with
  | None => cap
  | Some (tk, tr0) =>
      if bool_decide (t < bucket_dies tr0)
      then Z.min cap (tk + (t / Second - tr0 / Second) * rate) else cap
  end.

Definition bucket_ok (cap t0 : Z) (b : option (Z * Z)) : Prop :=
  match b with None => True | Some (tk, tr0) => 0 ≤ tk ≤ cap ∧ tr0 ≤ t0 end.

Lemma seconds_mono t t' : t ≤ t' → t / Second ≤ t' / Second.
Proof. apply Z.div_le_mono. done. Qed.

Lemma avail_range cap rate b t0 t :
  0 ≤ cap → 0 ≤ rate → bucket_ok cap t0 b → t0 ≤ t → 0 ≤ avail cap rate b t ≤ cap.
Proof.
  intros Hc Hr Hb Ht. destruct b as [[tk tr0]|]; simpl in *; [|lia].
  pose proof (seconds_mono tr0 t ltac:(lia)). case_bool_decide; nia.
Qed.

(** The script admits exactly when tokens are available, and leaves one
    fewer, stamped now. *)
Lemma TB_script_spec key cap rate r b t :
  0 ≤ cap → 0 ≤ rate → bucket_ok cap t b → bucket_state key r t b →
  let '(res, r') := TB_script t (bucketKey key) (timestampKey key) cap rate (t / Second) r in
  if bool_decide (avail cap rate b t = 0) then res = 0 ∧ r' = r
  else res = 1 ∧ bucket_ok cap t (Some (avail cap rate b t - 1, t))
       ∧ bucket_state key r' t (Some (avail cap rate b t - 1, t)).
Proof.
  intros Hc Hr Hok Hb. unfold TB_script.
  assert (Htok : Z.min cap
       (match redis_GET r t (bucketKey key) with Some v => v | None => cap end
        + (t / Second - match redis_GET r t (timestampKey key) with
                        | Some v => v | None => t / Second end) * rate)
     = avail cap rate b t).
  { specialize (Hb t ltac:(lia)). destruct b as [[tk tr0]|]; simpl.
    - destruct Hb as [-> ->]. case_bool_decide; simpl; lia.
    - destruct Hb as [-> ->]. lia. }
  rewrite Htok. pose proof (avail_range cap rate b t t Hc Hr Hok ltac:(lia)).
  case_bool_decide; [done|]. split; [done|]. split; [simpl; lia|].
  intros t' Ht'. pose proof (bucket_timestamp_ne key key) as Hne.
  assert (Hne' : timestampKey key ≠ bucketKey key) by congruence.
  unfold bucket_dies. split.
  - rewrite (redis_get_expire_ne _ _ _ _ _ _ Hne').
    rewrite redis_get_expire_eq by lia.
    case_bool_decide; [|done].
    by rewrite (redis_get_set_ne _ _ _ _ _ Hne'), redis_get_set_eq.
  - rewrite redis_get_expire_eq by lia.
    case_bool_decide; [|done].
    by rewrite (redis_get_expire_ne _ _ _ _ _ _ Hne), redis_get_set_eq.
Qed.

(** Time refills at most [rate] tokens per second, expiry included. *)
Lemma avail_refill cap rate b t0 t t' :
  0 ≤ cap → 0 ≤ rate → cap ≤ 3600 * rate → bucket_ok cap t0 b → t0 ≤ t → t ≤ t' →
  avail cap rate b t' ≤ avail cap rate b t + (t' / Second - t / Second) * rate.
Proof.
  intros Hc Hr Hcap Hb Ht Htt. pose proof (seconds_mono t t' Htt).
  destruct b as [[tk tr0]|]; simpl in *; [|nia].
  pose proof (seconds_mono tr0 t ltac:(lia)).
  repeat case_bool_decide; try nia.
  assert (tr0 / Second + 3600 ≤ t' / Second).
  { replace (tr0 / Second + 3600) with ((tr0 + 3600 * Second) / Second)
      by (rewrite Z.div_add; done).
    apply seconds_mono. unfold bucket_dies in *. lia. }
  nia.
Qed.

(** Number of admitted requests. *)
Definition admitted (bs : list bool) : Z := Z.of_nat (length (filter (λ b, b = true) bs)).

Lemma admitted_cons b bs : admitted (b :: bs) = (if b then 1 else 0) + admitted bs.
Proof. unfold admitted. rewrite filter_cons. destruct b; simpl; lia. Qed.

(** The requests whose script call failed; they are decided by the limiter
    that the gateway keeps in memory. *)
Definition redis_failures (errs : list (option error)) : Z :=
  Z.of_nat (length (filter (λ err, err ≠ None) errs)).

Lemma redis_failures_cons err errs :
  redis_failures (err :: errs) = (match err with Some _ => 1 | None => 0 end) + redis_failures errs.
Proof. unfold redis_failures. rewrite filter_cons. destruct err; case_decide; simpl; try done; lia. Qed.

Lemma TB_run_bound key reqs tb r b t0 t1 :
  0 ≤ capacity tb → 0 ≤ refillRate tb → capacity tb ≤ 3600 * refillRate tb →
  bucket_ok (capacity tb) t0 b → bucket_state key r t0 b →
  Sorted Z.le (t0 :: reqs.*1) → Forall (λ t, t ≤ t1) (t0 :: reqs.*1) →
  admitted (TB_run key reqs (tb, r))
    ≤ avail (capacity tb) (refillRate tb) b t0 + (t1 / Second - t0 / Second) * refillRate tb
      + redis_failures reqs.*2.
Proof.
  intros Hc Hr Hcap. remember (capacity tb) as cap eqn:Ecap. remember (refillRate tb) as rate eqn:Erate.
  revert tb Ecap Erate r b t0. induction reqs as [|[t err] reqs IH]; intros tb Ecap Erate r b t0 Hok Hb Hs Hle.
  - apply Forall_inv in Hle. pose proof (seconds_mono t0 t1 Hle).
    pose proof (avail_range cap rate b t0 t0 Hc Hr Hok ltac:(lia)).
    unfold admitted, redis_failures. simpl. nia.
  - rewrite !fmap_cons in *. cbn [fst snd] in *. inversion Hs as [|? ? Hs' Hhd]; subst a l. apply HdRel_inv in Hhd.
    apply Forall_inv_tail in Hle as Hle'.
    assert (Hokt : bucket_ok cap t b) by (destruct b as [[? ?]|]; simpl in *; lia).
    assert (Hbt : bucket_state key r t b) by (intros t' Ht'; apply Hb; lia).
    pose proof (avail_refill _ _ b t0 t0 t Hc Hr Hcap Hok ltac:(lia) Hhd) as Hav0.
    rewrite redis_failures_cons. destruct err as [err|]; cbn [TB_run TB_Allow].
    { unfold TB_allowFallback. destruct (rate_Allow t _) as [x l']. rewrite admitted_cons.
      specialize (IH (mkTB (capacity tb) (refillRate tb) (refillPeriod tb) (<[key:=l']> (fallbackMap tb)))
        Ecap Erate r b t Hokt Hbt Hs' Hle').
      destruct x; lia. }
    pose proof (TB_script_spec key cap rate r b t Hc Hr Hokt Hbt) as Hspec. rewrite <- Ecap, <- Erate.
    destruct (TB_script t _ _ cap rate _ r) as [res r'].
    case_bool_decide as Hav; destruct Hspec as [-> Hspec].
    + subst r'. simpl. rewrite admitted_cons. simpl. specialize (IH tb Ecap Erate r b t Hokt Hbt Hs' Hle'). nia.
    + simpl. rewrite admitted_cons. simpl. destruct Hspec as [Hok' Hb'].
      specialize (IH tb Ecap Erate r' _ t Hok' Hb' Hs' Hle'). simpl in IH.
      rewrite bool_decide_eq_true_2 in IH by (unfold bucket_dies, Second; lia).
      rewrite Z.sub_diag, Z.mul_0_l, Z.add_0_r in IH. lia.
Qed.
End TokenBucketProofs.

(** ** Build limiter: the window specification *)

(** Reference answers to the requests of one window, from the number [g] of
    requests counted globally and [cnt u] counted for each user. *)
Fixpoint window_spec (g : Z) (cnt : string → Z) (users : list string) : list (bool * string) :=
  match users with
  | [] => []
  | u :: us =>
      if bool_decide (g + 1 ≤ GlobalBuildLimit)
      then (if bool_decide (cnt u + 1 ≤ UserBuildLimit) then (true, "") else (false, user_msg))
             :: window_spec (g + 1) (λ v, if bool_decide (v = u) then cnt v + 1 else cnt v) us
      else (false, global_msg) :: window_spec (g + 1) cnt us
  end.

(** Requests granted to the users that satisfy [P]. *)
Definition granted (P : string → bool) (users : list string) (answers : list (bool * string)) : Z :=
  Z.of_nat (length (filter (λ p, P p.1 && p.2.1 = true) (zip users answers))).

Lemma granted_cons P u us a as_ :
  granted P (u :: us) (a :: as_) = (if P u && a.1 then 1 else 0) + granted P us as_.
Proof.
  unfold granted. simpl. rewrite filter_cons. simpl.
  case_decide as H; destruct (P u && a.1); simpl; done || lia.
Qed.

Lemma window_spec_global g cnt users :
  0 ≤ g → granted (λ _, true) users (window_spec g cnt users)
          ≤ Z.max 0 (GlobalBuildLimit - g).
Proof.
  revert g cnt. induction users as [|u us IH]; intros g cnt Hg; [unfold granted; simpl; lia|].
  cbn [window_spec]. case_bool_decide; rewrite granted_cons.
  - specialize (IH (g + 1) (λ v, if bool_decide (v = u) then cnt v + 1 else cnt v)).
    case_bool_decide; simpl; lia.
  - specialize (IH (g + 1) cnt). simpl. lia.
Qed.

Lemma window_spec_user u g cnt users :
  0 ≤ cnt u → granted (λ v, bool_decide (v = u)) users (window_spec g cnt users)
              ≤ Z.max 0 (UserBuildLimit - cnt u).
Proof.
  revert g cnt. induction users as [|v us IH]; intros g cnt Hc; [unfold granted; simpl; lia|].
  cbn [window_spec]. case_bool_decide; rewrite granted_cons.
  - specialize (IH (g + 1) (λ w, if bool_decide (w = v) then cnt w + 1 else cnt w)).
    simpl in IH. repeat case_bool_decide; subst; simpl; done || lia.
  - specialize (IH (g + 1) cnt Hc). rewrite andb_false_r. lia.
Qed.

(** Once the global count has reached the limit, further requests are
    refused, whoever sends them. *)
Lemma window_spec_exhausted g cnt us v :
  GlobalBuildLimit ≤ g + Z.of_nat (length us) →
  window_spec g cnt (us ++ [v]) = window_spec g cnt us ++ [(false, global_msg)].
Proof.
  revert g cnt. induction us as [|u us IH]; intros g cnt Hg.
  - cbn [app window_spec length] in *. by rewrite bool_decide_eq_false_2 by lia.
  - cbn [app window_spec length] in *.
    case_bool_decide; rewrite IH by lia; done.
Qed.

Lemma window_spec_length g cnt us : length (window_spec g cnt us) = length us.
Proof.
  revert g cnt. induction us as [|u us IH]; intros g cnt; [done|].
  cbn [window_spec]. case_bool_decide; simpl; by rewrite IH.
Qed.

Lemma granted_app_l P us as_ bs :
  length us = length as_ → granted P us (as_ ++ bs) = granted P us as_.
Proof.
  revert as_. induction us as [|u us IH]; intros [|a as_] Hl; try done.
  rewrite <- app_comm_cons, !granted_cons, IH by (by injection Hl). done.
Qed.

Lemma granted_all_same P u n answers :
  P u = true → granted (λ _, true) (replicate n u) answers = granted P (replicate n u) answers.
Proof.
  intros HP. revert answers. induction n as [|n IH]; intros [|a answers]; try done.
  cbn [replicate]. rewrite !granted_cons, HP, IH. done.
Qed.

Section BuildProofs.
Context {R : Type} `{!RedisKV R, !RedisKVLaws R}.

(** Key [k] reads [n] (nothing for 0) throughout [[t0, tend)]. *)
Definition counter_state (r : R) (t0 tend : Z) (k : string) (n : Z) : Prop :=
  0 ≤ n ∧ ∀ t, t0 ≤ t < tend → redis_GET r t k = (if bool_decide (n = 0) then None else Some n).

Lemma counter_state_weaken r t0 t1 tend k n :
  t0 ≤ t1 → counter_state r t0 tend k n → counter_state r t1 tend k n.
Proof. intros Ht [Hn H]. split; [done|]. intros t Hr. apply H. lia. Qed.

Lemma BRL_checkLimit_counts r ms t tend k n limit :
  t < tend → tend ≤ t + Minute → counter_state r t tend k n →
  ∃ r', BRL_checkLimit t None k limit Minute (mkBW r ms)
          = (Ok (bool_decide (n + 1 ≤ limit)), mkBW r' ms)
    ∧ counter_state r' t tend k (n + 1)
    ∧ ∀ k' m, k ≠ k' → counter_state r t tend k' m → counter_state r' t tend k' m.
Proof.
  intros Ht Hend [Hn Hk]. unfold BRL_checkLimit. simpl.
  pose proof (redis_incr_val r t k) as Hv. rewrite (Hk t) in Hv by lia.
  assert (Hcur : (redis_INCR r t k).1 = n + 1) by (case_bool_decide; simpl in Hv; lia).
  destruct (redis_INCR r t k) as [cur r1] eqn:Hincr. simpl in Hcur. subst cur.
  change (duration_int_seconds Minute) with 60.
  assert (Hother : ∀ k' t', k ≠ k' → redis_GET r1 t' k' = redis_GET r t' k').
  { intros k' t' Hne. pose proof (redis_get_incr_ne r t t' k k' Hne) as H.
    by rewrite Hincr in H. }
  exists (if bool_decide (n + 1 = 1) then redis_EXPIRE r1 t k 60 else r1).
  split; [do 2 f_equal; by destruct (bool_decide (n + 1 ≤ limit))|].
  split.
  - split; [lia|]. intros t' Ht'. rewrite (bool_decide_eq_false_2 (n + 1 = 0)) by lia.
    destruct (decide (n = 0)) as [->|Hn0].
    + rewrite (bool_decide_eq_true_2 (0 + 1 = 1)) by lia.
      rewrite redis_get_expire_eq by lia.
      rewrite bool_decide_eq_true_2 by (unfold Minute in *; lia).
      pose proof (redis_incr_new r t t k ltac:(by rewrite (Hk t) by lia) ltac:(lia)) as H.
      by rewrite Hincr in H.
    + rewrite (bool_decide_eq_false_2 (n + 1 = 1)) by lia.
      assert (Hg : ∀ x, t ≤ x < tend → redis_GET r x k = Some n).
      { intros x Hx. rewrite (Hk x) by done. by rewrite bool_decide_eq_false_2. }
      pose proof (redis_incr_old r t t' k n (Hg t ltac:(lia)) ltac:(lia)) as H.
      rewrite Hincr, (Hg t') in H by lia. done.
  - intros k' m Hne [Hm Hk']. split; [done|]. intros t' Ht'.
    destruct (bool_decide (n + 1 = 1)); [rewrite redis_get_expire_ne by done|];
      rewrite Hother by done; auto.
Qed.

Lemma BRL_run_spec reqs r ms t0 tend g cnt :
  Forall (λ p, t0 ≤ p.1 < tend) reqs → Sorted Z.le (map fst reqs) → tend ≤ t0 + Minute →
  counter_state r t0 tend globalKey g →
  (∀ u, counter_state r t0 tend (userKey u) (cnt u)) →
  (BRL_run reqs (mkBW r ms)).1 = window_spec g cnt (map snd reqs).
Proof.
  intros Hin Hs Hend. revert r ms t0 g cnt Hin Hs Hend.
  induction reqs as [|[t u] reqs IH]; intros r ms t0 g cnt Hin Hs Hend Hg Hu; [done|].
  inversion Hin as [|? ? Ht Hin']; subst. simpl in Ht.
  simpl in Hs. apply Sorted_StronglySorted in Hs; [|intros ???; lia].
  inversion Hs as [|? ? Hs' Hall]; subst. apply StronglySorted_Sorted in Hs'.
  assert (Hin'' : Forall (λ p, t ≤ p.1 < tend) reqs).
  { rewrite Forall_map in Hall. rewrite Forall_forall in *. intros p Hp.
    specialize (Hin' p Hp). specialize (Hall p Hp). simpl in *. lia. }
  apply (counter_state_weaken _ t0 t) in Hg; [|lia].
  assert (Hu' : ∀ v, counter_state r t tend (userKey v) (cnt v))
    by (intros v; apply (counter_state_weaken _ t0 t); [lia | done]).
  destruct (BRL_checkLimit_counts r ms t tend globalKey g GlobalBuildLimit)
    as (r1 & Hc1 & Hg1 & Ho1); [lia|unfold Minute in *; lia|done|].
  cbn [BRL_run map]. unfold BRL_Allow, GlobalBuildWindow. rewrite Hc1. cbn [window_spec snd].
  case_bool_decide as Hgl; cbv beta iota zeta.
  - destruct (BRL_checkLimit_counts r1 ms t tend (userKey u) (cnt u) UserBuildLimit)
      as (r2 & Hc2 & Hu2 & Ho2);
      [lia|unfold Minute in *; lia|by apply Ho1; [apply global_user_ne|]|].
    unfold UserBuildWindow. rewrite Hc2.
    assert (IH2 : ∀ ms', (BRL_run reqs (mkBW r2 ms')).1
       = window_spec (g + 1) (λ v, if bool_decide (v = u) then cnt v + 1 else cnt v) (map snd reqs)).
    { intros ms'. apply (IH r2 ms' t); try done; [unfold Minute in *; lia|..].
      - apply Ho2; [|done]. intros H. by apply (global_user_ne u).
      - intros v. destruct (decide (v = u)) as [->|Hv].
        { by rewrite bool_decide_eq_true_2. }
        rewrite bool_decide_eq_false_2 by done.
        apply Ho2; [by intros H%userKey_inj|]. apply Ho1; [apply global_user_ne|done]. }
    case_bool_decide; cbv beta iota zeta; unfold count_rejection; cbn [bw_redis bw_rejections].
    + specialize (IH2 ms). destruct (BRL_run reqs (mkBW r2 ms)) as [os w2]. simpl in *. by subst.
    + specialize (IH2 (("build-service", "user") :: ms)).
      destruct (BRL_run reqs _) as [os w2]. simpl in *. by subst.
  - unfold count_rejection. cbn [bw_redis bw_rejections].
    assert (IH1 : (BRL_run reqs (mkBW r1 (("build-service", "global") :: ms))).1
                  = window_spec (g + 1) cnt (map snd reqs)).
    { apply (IH r1 _ t); try done; [unfold Minute in *; lia|].
      intros v. apply Ho1; [apply global_user_ne|done]. }
    destruct (BRL_run reqs _) as [os w2]. simpl in *. by subst.
Qed.
End BuildProofs.

(** ** Properties *)

(** A stand-in for the fallback library: admits while the burst lasts. *)
#[local] Instance burst_only : RateLib Z := {
  rate_NewLimiter := λ _ burst, burst;
  rate_Allow := λ _ l, (bool_decide (0 < l), l - 1)
}.

Lemma bucket_state_fresh key t0 : bucket_state (R := redis_mem) key ∅ t0 None.
Proof. intros t _. split; reflexivity. Qed.

(** Rate bound.  Requests for one key at non-decreasing instants between
    [t0] and [t1], starting from any well-formed bucket (absent keys
    included), are admitted at most capacity + refillRate * (seconds from t0
    to t1) times, and once more for each that Redis does not answer, when an
    hour refills the bucket (so that the keys' one-hour expiry gives nothing
    away). *)
Theorem TB_rate_bound {R} `{!RedisKV R, !RedisKVLaws R} {L} `{!RateLib L}
    key reqs (tb : TokenBucketLimiter L) (r : R) b t0 t1 :
  0 ≤ capacity tb → 0 ≤ refillRate tb → capacity tb ≤ 3600 * refillRate tb →
  bucket_ok (capacity tb) t0 b → bucket_state key r t0 b →
  Sorted Z.le (t0 :: reqs.*1) → Forall (λ t, t ≤ t1) (t0 :: reqs.*1) →
  admitted (TB_run key reqs (tb, r))
    ≤ capacity tb + (t1 / Second - t0 / Second) * refillRate tb + redis_failures reqs.*2.
Proof.
  intros Hc Hr Hcap Hok Hb Hs Hle.
  pose proof (TB_run_bound key reqs tb r b t0 t1 Hc Hr Hcap Hok Hb Hs Hle).
  pose proof (avail_range (capacity tb) (refillRate tb) b t0 t0 Hc Hr Hok ltac:(lia)). lia.
Qed.

Lemma TB_rate_bound_witness :
  admitted (TB_run (R := redis_mem) "fn-1" (replicate 5 (0, None))
              (NewTokenBucketLimiter (L := Z) 3 1, ∅)) ≤ 3 + (0 / Second - 0 / Second) * 1 + 0.
Proof.
  apply (TB_rate_bound (R := redis_mem) (L := Z) "fn-1" (replicate 5 (0, None))
           (NewTokenBucketLimiter 3 1) ∅ None 0 0); simpl; try lia.
  - apply bucket_state_fresh.
  - repeat constructor; simpl; lia.
  - repeat constructor; simpl; lia.
Defined.

(** No starvation.  A request that arrives in a later second than the
    last admitted one (or finds no bucket) is admitted, whatever was refused
    in between, when capacity and refill rate are at least 1. *)
Theorem TB_admits_after_refill {R} `{!RedisKV R, !RedisKVLaws R} {L} `{!RateLib L}
    key (tb : TokenBucketLimiter L) (r : R) b t :
  1 ≤ capacity tb → 1 ≤ refillRate tb →
  bucket_ok (capacity tb) t b → bucket_state key r t b →
  (∀ tk tr0, b = Some (tk, tr0) → tr0 / Second < t / Second) →
  (TB_Allow t t (t / Second) None key (tb, r)).1 = Ok true.
Proof.
  intros Hc Hr Hok Hb Hlast.
  pose proof (TB_script_spec key (capacity tb) (refillRate tb) r b t
                ltac:(lia) ltac:(lia) Hok Hb) as Hspec.
  simpl. destruct (TB_script _ _ _ _ _ _ _) as [res r'].
  case_bool_decide as Hav; destruct Hspec as [-> _]; [|done].
  exfalso. destruct b as [[tk tr0]|]; simpl in *; [|lia].
  specialize (Hlast tk tr0 eq_refl). case_bool_decide; nia.
Qed.

Lemma TB_admits_after_refill_witness :
  (TB_Allow (R := redis_mem) (3 * Second) (3 * Second) (3 * Second / Second) None "fn-1"
     (NewTokenBucketLimiter (L := Z) 1 1, ∅)).1 = Ok true.
Proof.
  apply (TB_admits_after_refill (R := redis_mem) (L := Z) "fn-1"
           (NewTokenBucketLimiter 1 1) ∅ None (3 * Second)); simpl; try lia.
  - apply bucket_state_fresh.
  - done.
Defined.

(** [GetTokens] predicts [Allow]: when it returns [n] without error and
    its 64-bit arithmetic does not overflow, a request at the same instant is
    admitted exactly when [n] is not 0 (for a bucket key that has its
    timestamp, or no bucket key). *)
Theorem TB_GetTokens_predicts_Allow {R} `{!RedisKV R} {L} `{!RateLib L}
    key (tb : TokenBucketLimiter L) (r : R) tr t now n :
  (redis_GET r tr (bucketKey key) ≠ None ↔ redis_GET r tr (timestampKey key) ≠ None) →
  (∀ tk last, redis_GET r tr (bucketKey key) = Some tk →
     redis_GET r tr (timestampKey key) = Some last →
     is_int64 (now - last) ∧ is_int64 ((now - last) * refillRate tb)
     ∧ is_int64 (tk + (now - last) * refillRate tb)) →
  TB_GetTokens tr now None None key tb r = Ok n →
  (TB_Allow tr t now None key (tb, r)).1 = Ok (bool_decide (n ≠ 0)).
Proof.
  unfold TB_GetTokens, TB_Allow, TB_script. intros Hiff Hov Hn.
  destruct (redis_GET r tr (bucketKey key)) as [tk|] eqn:Hb;
    destruct (redis_GET r tr (timestampKey key)) as [last|] eqn:Ht.
  - destruct (Hov tk last eq_refl eq_refl) as (H1 & H2 & H3).
    rewrite (wrap64_id _ H1), (wrap64_id _ H2), (wrap64_id _ H3) in Hn. injection Hn as <-.
    repeat case_bool_decide; simpl; done || congruence.
  - exfalso. by apply (proj1 Hiff).
  - exfalso. by apply (proj2 Hiff).
  - injection Hn as <-. rewrite Z.sub_diag, Z.mul_0_l, Z.add_0_r, Z.min_id.
    repeat case_bool_decide; simpl; done || congruence.
Qed.

Lemma TB_GetTokens_predicts_Allow_witness :
  (TB_Allow (R := redis_mem) 0 0 7 None "fn-1"
     (NewTokenBucketLimiter (L := Z) 10 1,
      {[ "ratelimit:bucket:fn-1" := (0, None); "ratelimit:timestamp:fn-1" := (5, None) ]})).1
  = Ok (bool_decide (2 ≠ 0)).
Proof.
  apply (TB_GetTokens_predicts_Allow (R := redis_mem) (L := Z) "fn-1"
           (NewTokenBucketLimiter 10 1)
           {[ "ratelimit:bucket:fn-1" := (0, None); "ratelimit:timestamp:fn-1" := (5, None) ]}
           0 0 7 2).
  - vm_compute. split; congruence.
  - intros tk last H1 H2. vm_compute in H1, H2. injection H1 as <-. injection H2 as <-.
    simpl. i64. lia.
  - vm_compute. reflexivity.
Defined.

(** Clock skew.  A gateway whose clock is behind the bucket's timestamp
    is admitted from an empty bucket: the refill is negative and the script
    refuses only a count of exactly 0. *)
Theorem TB_clock_skew_admits {R} `{!RedisKV R} {L} `{!RateLib L}
    key (tb : TokenBucketLimiter L) (r : R) tr t now last :
  redis_GET r tr (bucketKey key) = Some 0 →
  redis_GET r tr (timestampKey key) = Some last →
  now < last → 0 < refillRate tb → 0 ≤ capacity tb →
  (TB_Allow tr t now None key (tb, r)).1 = Ok true.
Proof.
  intros Hb Ht Hlt Hr Hc. simpl. unfold TB_script. rewrite Hb, Ht. simpl.
  rewrite bool_decide_eq_false_2 by nia. done.
Qed.

Lemma TB_clock_skew_admits_witness :
  (TB_Allow (R := redis_mem) 0 0 99 None "fn-1"
     (NewTokenBucketLimiter (L := Z) 100 10,
      {[ "ratelimit:bucket:fn-1" := (0, None); "ratelimit:timestamp:fn-1" := (100, None) ]})).1
  = Ok true.
Proof.
  apply (TB_clock_skew_admits (R := redis_mem) (L := Z) "fn-1" (NewTokenBucketLimiter 100 10)
           {[ "ratelimit:bucket:fn-1" := (0, None); "ratelimit:timestamp:fn-1" := (100, None) ]}
           0 0 99 100); try (vm_compute; reflexivity); simpl; lia.
Defined.

(** C10.  Refinement of the build limiter.  Starting with no counters, the
    answers to any requests whose instants are non-decreasing and lie within
    one minute are those of the reference [window_spec]: a global counter
    checked first, then a counter per user. *)
Theorem BRL_window_refines_spec {R} `{!RedisKV R, !RedisKVLaws R} reqs (r : R) ms t0 :
  Forall (λ p, t0 ≤ p.1 < t0 + Minute) reqs → Sorted Z.le (map fst reqs) →
  (∀ t, redis_GET r t globalKey = None) → (∀ t u, redis_GET r t (userKey u) = None) →
  (BRL_run reqs (mkBW r ms)).1 = window_spec 0 (λ _, 0) (map snd reqs).
Proof.
  intros Hin Hs Hg Hu. by apply (BRL_run_spec reqs r ms t0 (t0 + Minute)).
Qed.

Lemma BRL_window_refines_spec_witness :
  (BRL_run (R := redis_mem) [(0, "ann"); (1, "bob")] (mkBW ∅ [])).1
  = window_spec 0 (λ _, 0) ["ann"; "bob"].
Proof.
  apply (BRL_window_refines_spec (R := redis_mem) [(0, "ann"); (1, "bob")] ∅ [] 0).
  - repeat constructor; simpl; unfold Minute, Second; lia.
  - repeat constructor; simpl; lia.
  - intros t. reflexivity.
  - intros t u. reflexivity.
Defined.

(** Build quotas.  Within one minute of fresh counters at most 20
    creations are granted in total and at most 5 to any one user; but refused
    requests use up the global quota too: after 20 requests of one user, of
    which at most 5 were granted, any other user's request is refused with
    the global message. *)
Theorem BRL_quotas {R} `{!RedisKV R, !RedisKVLaws R} reqs (r : R) ms t0 :
  Forall (λ p, t0 ≤ p.1 < t0 + Minute) reqs → Sorted Z.le (map fst reqs) →
  (∀ t, redis_GET r t globalKey = None) → (∀ t u, redis_GET r t (userKey u) = None) →
  let users := map snd reqs in
  let answers := (BRL_run reqs (mkBW r ms)).1 in
  granted (λ _, true) users answers ≤ 20
  ∧ (∀ u, granted (λ v, bool_decide (v = u)) users answers ≤ 5)
  ∧ (∀ u v, users = replicate 20 u ++ [v] →
       answers !! 20%nat = Some (false, global_msg)
       ∧ granted (λ _, true) (replicate 20 u) answers ≤ 5).
Proof.
  intros Hin Hs Hg Hu users answers.
  assert (Hans : answers = window_spec 0 (λ _, 0) users).
  { by apply (BRL_run_spec reqs r ms t0 (t0 + Minute)). }
  rewrite Hans. split; [|split].
  - pose proof (window_spec_global 0 (λ _, 0) users ltac:(lia)).
    unfold GlobalBuildLimit in *. lia.
  - intros u. pose proof (window_spec_user u 0 (λ _, 0) users ltac:(lia)).
    unfold UserBuildLimit in *. lia.
  - intros u v Huv. rewrite Huv, window_spec_exhausted by (rewrite length_replicate; done).
    pose proof (window_spec_length 0 (λ _, 0) (replicate 20 u)) as Hlen.
    rewrite length_replicate in Hlen.
    split; [by rewrite lookup_app_r, Hlen by lia|].
    rewrite granted_app_l by (by rewrite Hlen, length_replicate).
    rewrite (granted_all_same (λ w, bool_decide (w = u))) by (by apply bool_decide_eq_true_2).
    pose proof (window_spec_user u 0 (λ _, 0) (replicate 20 u) ltac:(lia)) as Hle.
    unfold UserBuildLimit in Hle. lia.
Qed.

Lemma BRL_quotas_witness :
  let reqs := replicate 20 (0, "ann") ++ [(1, "bob")] in
  let answers := (BRL_run (R := redis_mem) reqs (mkBW ∅ [])).1 in
  answers !! 20%nat = Some (false, global_msg)
  ∧ granted (λ _, true) (replicate 20 "ann") answers ≤ 5.
Proof.
  intros reqs answers.
  destruct (BRL_quotas (R := redis_mem) reqs ∅ [] 0) as (_ & _ & H).
  - repeat constructor; simpl; unfold Minute, Second; lia.
  - repeat constructor; simpl; lia.
  - intros t. reflexivity.
  - intros t u. reflexivity.
  - apply (H "ann" "bob"). reflexivity.
Defined.
