(* ===== verification/Domain.v ===== *)
(** * Shared domain types (shared/domain)

    Functions, executions, triggers, webhooks and events, with their
    validation methods. *)

From Stdlib Require Import ZArith Lia.
From stdpp Require Import base strings gmap list numbers.
From S2P Require Import Prelude.
Open Scope Z_scope.

(** ** Errors *)

(** [NewDomainError(msg)]: a fresh value each time it is called. *)
Definition NewDomainError (msg : string) : error := NewError msg.

Definition ErrInvalidFunctionName : error :=
  Sentinel "domain.ErrInvalidFunctionName" "function name cannot be empty".
Definition ErrInvalidRuntime : error :=
  Sentinel "domain.ErrInvalidRuntime" "runtime must be specified".
Definition ErrEmptyCode : error :=
  Sentinel "domain.ErrEmptyCode" "function code cannot be empty".
Definition ErrInvalidTimeout : error :=
  Sentinel "domain.ErrInvalidTimeout" "timeout must be positive".
Definition ErrInvalidMemory : error :=
  Sentinel "domain.ErrInvalidMemory" "memory must be positive".
Definition ErrTimeoutTooLong : error :=
  Sentinel "domain.ErrTimeoutTooLong" "timeout cannot exceed 15 minutes".
Definition ErrMemoryTooHigh : error :=
  Sentinel "domain.ErrMemoryTooHigh" "memory cannot exceed 10GB".
Definition ErrFunctionNotFound : error :=
  Sentinel "domain.ErrFunctionNotFound" "function not found".

Definition ErrFunctionExists : error :=
  Sentinel "domain.ErrFunctionExists" "function already exists".

Definition ErrInvalidFunctionID : error :=
  Sentinel "domain.ErrInvalidFunctionID" "invalid function id".
Definition ErrStorageUnavailable : error :=
  Sentinel "domain.ErrStorageUnavailable" "storage unavailable".
Definition ErrCodeNotFound : error :=
  Sentinel "domain.ErrCodeNotFound" "function code not found".

Definition ErrRuntimeNotFound : error :=
  Sentinel "domain.ErrRuntimeNotFound" "runtime not found".

(** ** Functions *)

Definition oneGb : Z := 1024.

Record Function := mkFunction {
  fn_ID : string;
  fn_Name : string;
  fn_Runtime : string;
  fn_Handler : string;
  fn_Code : string;
  fn_Timeout : Z;
  fn_Memory : Z;
  fn_Environment : gmap string string;
  fn_CreatedAt : Z;
  fn_UpdatedAt : Z
}.

#[export] Instance Function_eq_dec : EqDecision Function.
Proof. solve_decision. Defined.

(** A copy of [f] with another [Code]. *)
Definition fn_set_Code (code : string) (f : Function) : Function :=
  mkFunction (fn_ID f) (fn_Name f) (fn_Runtime f) (fn_Handler f) code
    (fn_Timeout f) (fn_Memory f) (fn_Environment f) (fn_CreatedAt f) (fn_UpdatedAt f).

Definition Function_Validate (f : Function) : option error :=
  if bool_decide (fn_Name f = "") then Some ErrInvalidFunctionName
  else if bool_decide (fn_Runtime f = "") then Some ErrInvalidRuntime
  else if bool_decide (String.length (fn_Code f) = 0%nat) then Some ErrEmptyCode
  else if bool_decide (fn_Memory f ≤ 0) then Some ErrInvalidMemory
  else if bool_decide (fn_Timeout f > 15 * Minute) then Some ErrTimeoutTooLong
  else if bool_decide (fn_Memory f > 10 * oneGb) then Some ErrMemoryTooHigh
  else None.

(** ** Executions *)

(** [ExecutionStatus] is a string type; these are its named values. *)
Definition ExecutionStatus : Type := string.
Definition StatusPending : ExecutionStatus := "pending".
Definition StatusRunning : ExecutionStatus := "running".
Definition StatusSuccess : ExecutionStatus := "success".
Definition StatusFailed : ExecutionStatus := "failed".
Definition StatusTimeout : ExecutionStatus := "timeout".

Record Execution := mkExecution {
  ex_ID : string;
  ex_FunctionID : string;
  ex_Status : ExecutionStatus;
  ex_Input : string;
  ex_Output : string;
  ex_Error : string;
  ex_IsWarmStart : bool;
  ex_StartedAt : Z;
  ex_CompletedAt : Z;
  ex_Duration : Z;
  ex_MemoryUsed : Z
}.

(** [NewExecution(functionID, input)], with the generated identifier. *)
Definition NewExecution (id functionID input : string) : Execution :=
  mkExecution id functionID StatusPending input "" "" false time_zero time_zero 0 0.

Definition Execution_MarkStarted (now : Z) (e : Execution) : Execution :=
  mkExecution (ex_ID e) (ex_FunctionID e) StatusRunning (ex_Input e) (ex_Output e)
    (ex_Error e) (ex_IsWarmStart e) now (ex_CompletedAt e) (ex_Duration e) (ex_MemoryUsed e).

Definition Execution_MarkSuccess (now : Z) (output : string) (e : Execution) : Execution :=
  mkExecution (ex_ID e) (ex_FunctionID e) StatusSuccess (ex_Input e) output
    (ex_Error e) (ex_IsWarmStart e) (ex_StartedAt e) now (time_Sub now (ex_StartedAt e))
    (ex_MemoryUsed e).

Definition Execution_MarkFailed (now : Z) (err : error) (e : Execution) : Execution :=
  mkExecution (ex_ID e) (ex_FunctionID e) StatusFailed (ex_Input e) (ex_Output e)
    (error_Error err) (ex_IsWarmStart e) (ex_StartedAt e) now (time_Sub now (ex_StartedAt e))
    (ex_MemoryUsed e).

Definition Execution_MarkTimeout (now : Z) (e : Execution) : Execution :=
  mkExecution (ex_ID e) (ex_FunctionID e) StatusTimeout (ex_Input e) (ex_Output e)
    "execution exceeded timeout limit" (ex_IsWarmStart e) (ex_StartedAt e) now
    (time_Sub now (ex_StartedAt e)) (ex_MemoryUsed e).

Definition Execution_IsComplete (e : Execution) : bool :=
  bool_decide (ex_Status e = StatusSuccess) || bool_decide (ex_Status e = StatusFailed)
  || bool_decide (ex_Status e = StatusTimeout).

(** Field updates the services make directly. *)
Definition ex_set_StartedAt (t : Z) (e : Execution) : Execution :=
  mkExecution (ex_ID e) (ex_FunctionID e) (ex_Status e) (ex_Input e) (ex_Output e)
    (ex_Error e) (ex_IsWarmStart e) t (ex_CompletedAt e) (ex_Duration e) (ex_MemoryUsed e).
Definition ex_set_result (mem : Z) (warm : bool) (e : Execution) : Execution :=
  mkExecution (ex_ID e) (ex_FunctionID e) (ex_Status e) (ex_Input e) (ex_Output e)
    (ex_Error e) warm (ex_StartedAt e) (ex_CompletedAt e) (ex_Duration e) mem.

(** [ExecutionResult] of a runtime. *)
Record ExecutionResult := mkResult {
  er_Output : string;
  er_Logs : string;
  er_MemoryUsed : Z;
  er_Duration : Z;
  er_ExitCode : Z;
  er_WasWarmStart : bool
}.

Definition er_set_WasWarmStart (b : bool) (r : ExecutionResult) : ExecutionResult :=
  mkResult (er_Output r) (er_Logs r) (er_MemoryUsed r) (er_Duration r) (er_ExitCode r) b.

Record ResourceLimits := mkLimits {
  rl_MaxMemoryMB : Z;
  rl_MaxCPUPercent : Z;
  rl_TimeoutSeconds : Z;
  rl_MaxProcesses : Z
}.
Definition DefaultLimits : ResourceLimits := mkLimits 128 100 30 256.

(** ** Events *)

(** [EventType] is a string type; these are its named values. *)
Definition EventType : Type := string.
Definition EventTypeHTTP : EventType := "http".
Definition EventTypeCron : EventType := "cron".
Definition EventTypeWebhook : EventType := "webhook".
Definition EventTypeQueue : EventType := "queue".
Definition EventTypeStream : EventType := "stream".

Record Event := mkEvent {
  ev_ID : string;
  ev_Type : EventType;
  ev_FunctionID : string;
  ev_Payload : string;
  ev_Metadata : gmap string string;
  ev_Timestamp : Z;
  ev_RetryCount : Z;
  ev_MaxRetries : Z
}.

Record CronTrigger := mkTrigger {
  tr_ID : string;
  tr_FunctionID : string;
  tr_Name : string;
  tr_CronExpression : string;
  tr_Timezone : string;
  tr_Enabled : bool;
  tr_LastRunAt : Z;
  tr_NextRunAt : Z;
  tr_CreatedAt : Z;
  tr_UpdatedAt : Z
}.

Record Webhook := mkWebhook {
  wh_ID : string;
  wh_FunctionID : string;
  wh_Name : string;
  wh_Path : string;
  wh_Secret : string;
  wh_SignatureHeader : string;
  wh_Enabled : bool;
  wh_Headers : gmap string string;
  wh_CreatedAt : Z;
  wh_UpdatedAt : Z
}.

Record DeadLetterItem := mkDeadLetter {
  dl_ID : string;
  dl_EventID : string;
  dl_FunctionID : string;
  dl_EventType : EventType;
  dl_Payload : string;
  dl_ErrorMessage : string;
  dl_RetryCount : Z;
  dl_MaxRetries : Z;
  dl_FirstAttemptAt : Z;
  dl_LastAttemptAt : Z;
  dl_NextRetryAt : Z;
  dl_Status : string
}.

Record EventAuditLog := mkAudit {
  au_ID : string;
  au_EventID : string;
  au_FunctionID : string;
  au_EventType : EventType;
  au_Status : string;
  au_DurationMs : Z;
  au_ErrorMessage : string;
  au_CreatedAt : Z
}.

Definition CronTrigger_Validate (c : CronTrigger) : option error :=
  if bool_decide (tr_FunctionID c = "") then Some (NewDomainError "function_id is required")
  else if bool_decide (tr_CronExpression c = "")
  then Some (NewDomainError "cron_expression is required")
  else if bool_decide (tr_Name c = "") then Some (NewDomainError "name is required")
  else None.

Definition Webhook_Validate (w : Webhook) : option error :=
  if bool_decide (wh_FunctionID w = "") then Some (NewDomainError "function_id is required")
  else if bool_decide (wh_Name w = "") then Some (NewDomainError "name is required")
  else if bool_decide (wh_Path w = "") then Some (NewDomainError "path is required")
  else if bool_decide (wh_Secret w = "") then Some (NewDomainError "secret is required")
  else if bool_decide (wh_SignatureHeader w = "")
  then Some (NewDomainError "signature_header is required")
  else None.

Record EventSubscription := mkSubscription {
  es_ID : string;
  es_FunctionID : string;
  es_EventType : EventType;
  es_QueueName : string;
  es_RoutingKey : string;
  es_FilterPattern : gmap string string;
  es_Enabled : bool;
  es_CreatedAt : Z
}.

Definition EventSubscription_Validate (e : EventSubscription) : option error :=
  if bool_decide (es_FunctionID e = "") then Some (NewDomainError "function_id is required")
  else if bool_decide (es_EventType e = "") then Some (NewDomainError "event_type is required")
  else if bool_decide (es_QueueName e = "") then Some (NewDomainError "queue_name is required")
  else None.

(** [FunctionBuiltEvent], the message from build-service to lambda-service. *)
Definition FunctionBuiltQueue : string := "function.built".

Record FunctionBuiltEvent := mkBuilt {
  fb_FunctionID : string;
  fb_Name : string;
  fb_Runtime : string;
  fb_Handler : string;
  fb_S3Prefix : string;
  fb_MemoryMB : Z;
  fb_TimeoutSecs : Z;
  fb_BuiltAt : Z
}.

(** ** Lemmas *)

Lemma str_length_0 (s : string) : String.length s = 0%nat ↔ s = "".
Proof. destruct s; simpl; split; congruence. Qed.

(** A valid function has code; this is what the service relies on. *)
Lemma Function_Validate_code f : Function_Validate f = None → fn_Code f ≠ "".
Proof.
  unfold Function_Validate. intros H Hc. rewrite Hc in H. revert H.
  by repeat case_bool_decide.
Qed.
