(* ===== verification/Http.v ===== *)
(** * HTTP server vocabulary (net/http as the services use it)

    Requests, headers, response writers, [http.Error] and [http.NotFound],
    the path cleaning and pattern matching of [http.ServeMux], and the facts
    about them the gateway and the invoke handler share. *)

From Stdlib Require Import ZArith Lia Ascii.
From stdpp Require Import base strings gmap list numbers.
From S2P Require Import Prelude.
Open Scope Z_scope.

(** ** Headers *)

(** [http.Header]: values by canonical key, in order. *)
Abbreviation Header := (gmap string (list string)).

Definition upper_byte (a : ascii) : ascii :=
  let n := nat_of_ascii a in
  if bool_decide (97 ≤ n ≤ 122)%nat then ascii_of_nat (n - 32) else a.
Definition lower_byte (a : ascii) : ascii :=
  let n := nat_of_ascii a in
  if bool_decide (65 ≤ n ≤ 90)%nat then ascii_of_nat (n + 32) else a.

(** [CanonicalHeaderKey] of a key made of token characters: upper case at the
    start and after a hyphen, lower case elsewhere. *)
Fixpoint canonical_from (up : bool) (s : string) : string :=
  match s with
  | EmptyString => EmptyString
  | String a s' =>
      String (if up then upper_byte a else lower_byte a)
        (canonical_from (bool_decide (a = "-"%char)) s')
  end.
Definition CanonicalHeaderKey (s : string) : string := canonical_from true s.

Definition Header_Get (h : Header) (key : string) : string :=
  match h !! CanonicalHeaderKey key with
  | Some (v :: _) => v
  | _ => ""
  end.
Definition Header_Set (h : Header) (key value : string) : Header :=
  <[CanonicalHeaderKey key := [value]]> h.
Definition Header_Add (h : Header) (key value : string) : Header :=
  let k := CanonicalHeaderKey key in
  <[k := default [] (h !! k) ++ [value]]> h.

(** The copy loop [for key, values := range src { for _, v := range values {
    dst.Add(key, v) } }]. *)
Definition Header_copy (src dst : Header) : Header :=
  foldl (λ d kv, foldl (λ d' v, Header_Add d' kv.1 v) d kv.2) dst (map_to_list src).

(** What a server's request parser guarantees of the headers it hands out. *)
Definition header_wf (h : Header) : Prop :=
  ∀ k vs, h !! k = Some vs → CanonicalHeaderKey k = k ∧ vs ≠ [].

(** ** Requests *)

(** A body reader: the bytes it yields and the error it ends with, if it does
    not end with [io.EOF]. *)
Record Body := mkBody { bd_data : string; bd_err : option error }.

(** [io.ReadAll(body)]. *)
Definition io_ReadAll (b : Body) : outcome string :=
  match bd_err b with Some e => Err e | None => Ok (bd_data b) end.

(** [io.LimitReader(body, n)]: the error is not reached once [n] bytes have
    been read. *)
Definition io_LimitReader (b : Body) (n : Z) : Body :=
  if bool_decide (n ≤ Z.of_nat (String.length (bd_data b)))
  then mkBody (str_take (Z.to_nat n) (bd_data b)) None
  else b.

(** A parsed request.  [rq_query] gives the first value of each query
    parameter, as [URL.Query().Get] does. *)
Record Request := mkRequest {
  rq_Method : string;
  rq_Path : string;
  rq_query : gmap string string;
  rq_Header : Header;
  rq_Body : Body;
  rq_RemoteAddr : string
}.

Definition Query_Get (r : Request) (k : string) : string := default "" (rq_query r !! k).

(** ** Response writers *)

(** [rw_status] is [None] until the status line is written; [rw_sent] is the
    header as it was at that moment. *)
Record ResponseWriter := mkRW {
  rw_status : option Z;
  rw_sent : Header;
  rw_header : Header;
  rw_body : string
}.

Definition rw_new : ResponseWriter := mkRW None ∅ ∅ "".

Definition rw_set_header (h : Header) (w : ResponseWriter) : ResponseWriter :=
  mkRW (rw_status w) (rw_sent w) h (rw_body w).

(** Later calls of [WriteHeader] are ignored. *)
Definition rw_WriteHeader (code : Z) (w : ResponseWriter) : ResponseWriter :=
  match rw_status w with
  | Some _ => w
  | None => mkRW (Some code) (rw_header w) (rw_header w) (rw_body w)
  end.

Definition rw_Write (data : string) (w : ResponseWriter) : ResponseWriter :=
  let w := rw_WriteHeader 200 w in
  mkRW (rw_status w) (rw_sent w) (rw_header w) (rw_body w +:+ data).

Definition http_Error (w : ResponseWriter) (msg : string) (code : Z) : ResponseWriter :=
  let h := delete "Content-Length" (rw_header w) in
  let h := Header_Set h "Content-Type" "text/plain; charset=utf-8" in
  let h := Header_Set h "X-Content-Type-Options" "nosniff" in
  rw_Write (msg +:+ newline_str) (rw_WriteHeader code (rw_set_header h w)).

Definition http_NotFound (w : ResponseWriter) : ResponseWriter :=
  http_Error w "404 page not found" 404.

(** ** ServeMux *)

(** The segments a rooted path keeps under [path.Clean]: empty and [.]
    segments vanish, [..] removes the segment before it. *)
Fixpoint clean_segs (acc segs : list string) : list string :=
  match segs with
  | [] => rev acc
  | s :: rest =>
      if bool_decide (s = "") || bool_decide (s = ".") then clean_segs acc rest
      else if bool_decide (s = "..") then clean_segs (tl acc) rest
      else clean_segs (s :: acc) rest
  end.

Fixpoint join_segs (segs : list string) : string :=
  match segs with
  | [] => ""
  | s :: rest => String slash s +:+ join_segs rest
  end.

(** [cleanPath] of net/http. *)
Definition cleanPath (p : string) : string :=
  if bool_decide (p = "") then "/"
  else
    let np := match clean_segs [] (Split p slash) with
              | [] => "/"
              | segs => join_segs segs
              end in
    if HasSuffix p "/" && negb (bool_decide (np = "/")) then np +:+ "/" else np.

(** A pattern without wildcards: a trailing slash matches the whole subtree,
    anything else the exact path. *)
Definition pattern_matches (pat path : string) : bool :=
  if HasSuffix pat "/" then HasPrefix path pat else bool_decide (path = pat).

(** The longest pattern of [pats] that matches. *)
Fixpoint mux_match (pats : list string) (path : string) : option string :=
  match pats with
  | [] => None
  | p :: rest =>
      match mux_match rest path with
      | Some q => if pattern_matches p path && bool_decide (String.length q < String.length p)%nat
                  then Some p else Some q
      | None => if pattern_matches p path then Some p else None
      end
  end.

(** What [ServeMux] does with a request for [path] (no byte of which needs
    escaping): run the handler of a pattern, redirect, or answer 404. *)
Inductive MuxResult :=
  | RtHandler (pat : string)
  | RtRedirect (path : string)
  | RtNotFound.

Definition mux_route (pats : list string) (method path : string) : MuxResult :=
  let path' := if bool_decide (method = "CONNECT") then path else cleanPath path in
  let n := mux_match pats path' in
  if negb (bool_decide (n = Some path')) && negb (HasSuffix path' "/")
     && negb (bool_decide (path' = ""))
     && bool_decide (mux_match pats (path' +:+ "/") = Some (path' +:+ "/"))
  then RtRedirect (path' +:+ "/")
  else if bool_decide (path' ≠ path) then RtRedirect path'
  else match n with Some pat => RtHandler pat | None => RtNotFound end.

(** ** Lemmas *)

Lemma Header_Add_list h k (vs : list string) :
  CanonicalHeaderKey k = k →
  foldl (λ d v, Header_Add d k v) h vs
  = match vs with [] => h | _ => <[k := default [] (h !! k) ++ vs]> h end.
Proof.
  intros Hk. revert h. induction vs as [|v vs IH]; intros h; [done|].
  simpl. rewrite IH. unfold Header_Add. rewrite Hk.
  destruct vs as [|v' vs]; [done|].
  rewrite lookup_insert_eq. simpl.
  by rewrite insert_insert_eq, <- (assoc_L (++)).
Qed.

(** Copying a well-formed header into an empty one reproduces it. *)
Lemma Header_copy_empty src : header_wf src → Header_copy src ∅ = src.
Proof.
  intros Hwf. unfold Header_copy.
  assert (∀ l (d : Header),
    NoDup l.*1 → (∀ k vs, (k, vs) ∈ l → CanonicalHeaderKey k = k ∧ vs ≠ [] ∧ d !! k = None) →
    foldl (λ d kv, foldl (λ d' v, Header_Add d' kv.1 v) d kv.2) d l
    = list_to_map l ∪ d) as Hgen.
  { induction l as [|[k vs] l IH]; intros d Hnd Hl; simpl.
    - by rewrite (left_id_L ∅ (∪)).
    - destruct (Hl k vs (list_elem_of_here _ _)) as (Hk & Hvs & Hd).
      rewrite (Header_Add_list d k vs Hk), Hd. simpl.
      destruct vs as [|v vs]; [done|].
      inversion_clear Hnd as [|?? Hnk Hnd'].
      rewrite IH; [|exact Hnd'|].
      + rewrite <- insert_union_r by (by apply not_elem_of_list_to_map_1).
        by rewrite insert_union_l.
      + intros k' vs' Hin. destruct (Hl k' vs' (list_elem_of_further _ _ _ Hin)) as (? & ? & ?).
        split_and!; try done. rewrite lookup_insert_ne; [done|].
        intros <-. apply Hnk, list_elem_of_fmap. by exists (k, vs'). }
  rewrite Hgen.
  - by rewrite list_to_map_to_list, (right_id_L ∅ (∪)).
  - apply NoDup_fst_map_to_list.
  - intros k vs Hin. apply elem_of_map_to_list in Hin.
    destruct (Hwf k vs Hin). by rewrite lookup_empty.
Qed.

Lemma http_Error_status w msg code :
  rw_status w = None → rw_status (http_Error w msg code) = Some code.
Proof. unfold http_Error, rw_Write, rw_WriteHeader. simpl. by intros ->. Qed.

Lemma http_Error_body w msg code :
  rw_body (http_Error w msg code) = rw_body w +:+ msg +:+ newline_str.
Proof.
  unfold http_Error, rw_Write, rw_WriteHeader. simpl. destruct (rw_status w) eqn:H; simpl.
  - by rewrite H.
  - done.
Qed.

#[export] Hint Resolve http_Error_status : go.
