(* ===== verification/Gateway.v ===== *)
(** * API gateway (services/gateway/internal/router)

    The gateway's handlers, its forwarding path through rate limiter and
    circuit breaker, its routes, and the server-sent-event stream of build
    logs.  A handler maps the gateway's state and a response writer to the
    written response and the new state; [gw_sent] records every request that
    reached the network. *)

From Stdlib Require Import ZArith Lia Ascii Sorting.Sorted.
From stdpp Require Import base strings gmap list numbers.
From S2P Require Import Prelude.
From S2P Require Import CircuitBreaker.
From S2P Require Import Redis.
From S2P Require Import RateLimit.
From S2P Require Import Http.
Open Scope Z_scope.

(** ** Paths *)

Definition functions_prefix : string := "/functions/".
Definition invoke_suffix : string := "/invoke".

Definition parseInvokeFunctionID (path : string) : option string :=
  if negb (HasPrefix path functions_prefix) || negb (HasSuffix path invoke_suffix) then None
  else
    let functionID := TrimSuffix (TrimPrefix path functions_prefix) invoke_suffix in
    let functionID := Trim functionID slash in
    if bool_decide (functionID = "") || ContainsChar functionID slash then None
    else Some functionID.

Definition parseBuildLogsPath (path : string) : option string :=
  match Split (Trim path slash) slash with
  | [p0; p1; p2] =>
      if bool_decide (p0 ≠ "jobs") || bool_decide (p2 ≠ "logs") then None
      else if bool_decide (p1 = "") then None
      else Some p1
  | _ => None
  end.

(** ** State *)

Record ServiceConfig := mkSvcConfig {
  LambdaServiceURL : string;
  BuildServiceURL : string;
  sc_Timeout : Z
}.

(** A request handed to the HTTP client, and what the client returns. *)
Record OutRequest := mkOut {
  or_Method : string;
  or_URL : string;
  or_Header : Header;
  or_Body : string
}.
Record OutResponse := mkResp {
  rs_StatusCode : Z;
  rs_Header : Header;
  rs_Body : string
}.

(** The environment of one handler run: the client's answers, the errors of
    [http.NewRequestWithContext], and the clock at the breaker's two reads. *)
Record Env := mkEnv {
  env_NewRequest_err : string → string → option error;
  env_Do : OutRequest → error + OutResponse;
  env_t_check : Z;
  env_t_done : Z
}.

Section Gateway.
Context {SI SB : Type}.

Record GatewayState := mkGW {
  gw_config : ServiceConfig;
  gw_invokeLimiter : SI;
  gw_buildLimiter : SB;
  gw_cbRegistry : Registry;
  gw_redisClient : bool;
  gw_sent : list OutRequest
}.

Definition NewGateway (config : ServiceConfig) (invokeLimiter : SI) (buildLimiter : SB)
    (cbRegistry : Registry) (redisClient : bool) : GatewayState :=
  mkGW config invokeLimiter buildLimiter cbRegistry redisClient [].

Definition gw_set_invoke (s : SI) (g : GatewayState) : GatewayState :=
  mkGW (gw_config g) s (gw_buildLimiter g) (gw_cbRegistry g) (gw_redisClient g) (gw_sent g).
Definition gw_set_build (s : SB) (g : GatewayState) : GatewayState :=
  mkGW (gw_config g) (gw_invokeLimiter g) s (gw_cbRegistry g) (gw_redisClient g) (gw_sent g).
Definition gw_set_cb (r : Registry) (g : GatewayState) : GatewayState :=
  mkGW (gw_config g) (gw_invokeLimiter g) (gw_buildLimiter g) r (gw_redisClient g) (gw_sent g).
Definition gw_set_sent (l : list OutRequest) (g : GatewayState) : GatewayState :=
  mkGW (gw_config g) (gw_invokeLimiter g) (gw_buildLimiter g) (gw_cbRegistry g)
    (gw_redisClient g) l.

(** ** Forwarding *)

(** [httpClient.Do(req)] as the breaker runs it: the world is the log of sent
    requests and the response variable the closure assigns. *)
Definition client_Do (e : Env) (req : OutRequest)
    (w : list OutRequest * option OutResponse)
    : option error * (list OutRequest * option OutResponse) :=
  match env_Do e req with
  | inl err => (Some err, (w.1 ++ [req], None))
  | inr resp => (None, (w.1 ++ [req], Some resp))
  end.

Definition forwarded_header (h : Header) : Header :=
  Header_Set (Header_copy h ∅) "X-Forwarded-By" "mini-lambda-gateway".

Definition forwardRequest (e : Env) (w : ResponseWriter) (r : Request)
    (targetURL serviceName : string) (g : GatewayState) : ResponseWriter * GatewayState :=
  match io_ReadAll (rq_Body r) with
  | Ok bodyBytes =>
      match env_NewRequest_err e (rq_Method r) targetURL with
      | Some _ => (http_Error w "Internal server error" 500, g)
      | None =>
          let req := mkOut (rq_Method r) targetURL (forwarded_header (rq_Header r)) bodyBytes in
          match Registry_Get serviceName (gw_cbRegistry g) with
          | Ok cb =>
              let '(err, cb', (sent, resp)) :=
                CB_Call (env_t_check e) (env_t_done e) (client_Do e req) cb (gw_sent g, None) in
              let g' := gw_set_sent sent
                (gw_set_cb (Registry_store serviceName cb' (gw_cbRegistry g)) g) in
              match err, resp with
              | None, Some rs =>
                  let w := rw_set_header (Header_copy (rs_Header rs) (rw_header w)) w in
                  (rw_Write (rs_Body rs) (rw_WriteHeader (rs_StatusCode rs) w), g')
              | _, _ => (http_Error w "Service unavailable" 503, g')
              end
          | _ => (http_Error w "Internal server error" 500, g)
          end
      end
  | _ => (http_Error w "Failed to read request body" 400, g)
  end.

(** ** Handlers *)

Context `{!RateLimiter SI} `{!RateLimiter SB}.

Definition HandleInvokeFunction (e : Env) (w : ResponseWriter) (r : Request)
    (g : GatewayState) : ResponseWriter * GatewayState :=
  if bool_decide (rq_Method r ≠ "POST") then (http_Error w "Method not allowed" 405, g)
  else
    match parseInvokeFunctionID (rq_Path r) with
    | None => (http_NotFound w, g)
    | Some functionID =>
        let '(allowed, s') := RateLimiter_Allow functionID (gw_invokeLimiter g) in
        let g := gw_set_invoke s' g in
        match allowed with
        | Ok true =>
            forwardRequest e w r (LambdaServiceURL (gw_config g) +:+ rq_Path r) "lambda-service" g
        | Ok false =>
            let w := rw_set_header (Header_Set (rw_header w) "X-RateLimit-Retry-After" "1") w in
            (http_Error w "Rate limit exceeded" 429, g)
        | _ => (http_Error w "Internal server error" 500, g)
        end
    end.

(** The handler that no route leads to.  [decode] is the JSON decoder: the
    function identifier, and what it leaves of the body, which is all that
    [forwardRequest] then finds. *)
Definition GW_HandleInvoke (decode : Body → outcome string * Body) (e : Env) (w : ResponseWriter) (r : Request)
    (g : GatewayState) : ResponseWriter * GatewayState :=
  if bool_decide (rq_Method r ≠ "POST") then (http_Error w "Method not allowed" 405, g)
  else
    let '(d, body) := decode (rq_Body r) in
    let r := mkRequest (rq_Method r) (rq_Path r) (rq_query r) (rq_Header r) body (rq_RemoteAddr r) in
    match d with
    | Ok functionID =>
        let '(allowed, s') := RateLimiter_Allow functionID (gw_invokeLimiter g) in
        let g := gw_set_invoke s' g in
        match allowed with
        | Ok true => forwardRequest e w r (LambdaServiceURL (gw_config g) +:+ "/invoke") "lambda-service" g
        | Ok false =>
            let w := rw_set_header (Header_Set (rw_header w) "X-RateLimit-Retry-After" "1") w in
            (http_Error w "Rate limit exceeded" 429, g)
        | _ => (http_Error w "Internal server error" 500, g)
        end
    | _ => (http_Error w "Invalid request body" 400, g)
    end.

Definition HandleCreateFunction (e : Env) (w : ResponseWriter) (r : Request)
    (g : GatewayState) : ResponseWriter * GatewayState :=
  if bool_decide (rq_Method r ≠ "POST") then (http_Error w "Method not allowed" 405, g)
  else
    let userID := Header_Get (rq_Header r) "X-User-ID" in
    let userID := if bool_decide (userID = "") then "default_user" else userID in
    let '(allowed, s') := RateLimiter_Allow userID (gw_buildLimiter g) in
    let g := gw_set_build s' g in
    match allowed with
    | Ok true => forwardRequest e w r (BuildServiceURL (gw_config g) +:+ "/functions") "build-service" g
    | Ok false =>
        let w := rw_set_header (Header_Set (rw_header w) "X-RateLimit-Retry-After" "60") w in
        (http_Error w "Build rate limit exceeded. Max 5 per minute per user." 429, g)
    | _ => (http_Error w "Internal server error" 500, g)
    end.

Definition HandleGetFunction (e : Env) (w : ResponseWriter) (r : Request)
    (g : GatewayState) : ResponseWriter * GatewayState :=
  if bool_decide (rq_Method r ≠ "GET") then (http_Error w "Method not allowed" 405, g)
  else
    let functionID := Query_Get r "id" in
    if bool_decide (functionID = "") then (http_Error w "Missing function_id parameter" 400, g)
    else
      forwardRequest e w r (LambdaServiceURL (gw_config g) +:+ "/functions?id=" +:+ functionID)
        "lambda-service" g.

Definition HandleListFunctions (e : Env) (w : ResponseWriter) (r : Request)
    (g : GatewayState) : ResponseWriter * GatewayState :=
  if bool_decide (rq_Method r ≠ "GET") then (http_Error w "Method not allowed" 405, g)
  else forwardRequest e w r (LambdaServiceURL (gw_config g) +:+ "/functions") "lambda-service" g.

(** [checkServiceHealth]: the probe also goes over the network, but not
    through a breaker. *)
Definition checkServiceHealth (e : Env) (healthURL : string) (g : GatewayState)
    : string * GatewayState :=
  match env_NewRequest_err e "GET" healthURL with
  | Some _ => ("unhealthy", g)
  | None =>
      let req := mkOut "GET" healthURL ∅ "" in
      let g := gw_set_sent (gw_sent g ++ [req]) g in
      match env_Do e req with
      | inl _ => ("unhealthy", g)
      | inr resp => (if bool_decide (rs_StatusCode resp = 200) then "healthy" else "unhealthy", g)
      end
  end.

(** A double quote, so that JSON text can be written down. *)
Definition dq : string := String "034"%char "".

(** The encoder prints map keys in sorted order and ends with a newline. *)
Definition health_json (lambda build : string) : string :=
  "{" +:+ dq +:+ "gateway" +:+ dq +:+ ":" +:+ dq +:+ "healthy" +:+ dq +:+ ","
  +:+ dq +:+ "services" +:+ dq +:+ ":{"
  +:+ dq +:+ "build-service" +:+ dq +:+ ":" +:+ dq +:+ build +:+ dq +:+ ","
  +:+ dq +:+ "lambda-service" +:+ dq +:+ ":" +:+ dq +:+ lambda +:+ dq +:+ "}}" +:+ newline_str.

Definition HandleHealth (e : Env) (w : ResponseWriter) (g : GatewayState)
    : ResponseWriter * GatewayState :=
  let '(l, g) := checkServiceHealth e (LambdaServiceURL (gw_config g) +:+ "/health") g in
  let '(b, g) := checkServiceHealth e (BuildServiceURL (gw_config g) +:+ "/health") g in
  let w := rw_set_header (Header_Set (rw_header w) "Content-Type" "application/json") w in
  (rw_Write (health_json l b) w, g).

(** ** Build log streaming *)

(** One turn of the polling loop: the clock, whether the request's context is
    done, and what Redis answers to XREAD of a stream after an entry id.
    [XNil] is [redis.Nil], the timeout of a blocking read. *)
Inductive XResult :=
  | XNil
  | XErr (e : error)
  | XMsgs (ms : list (string * option string)).
Record Poll := mkPoll {
  pl_now : Z;
  pl_ctx_done : bool;
  pl_xread : string → string → XResult
}.

(** [buildlog.StreamKey]. *)
Definition StreamKey (jobID : string) : string := "build_logs:" +:+ jobID.

Definition sse_frame (logLine : string) : string :=
  "data: " +:+ ReplaceAllChar logLine newline " "%char +:+ newline_str +:+ newline_str.

Definition is_sentinel (logLine : string) : bool :=
  bool_decide (logLine = "__BUILD_DONE__") || HasPrefix logLine "__BUILD_FAILED__:".

(** The inner loop over a batch: the writer, the last id, and whether a
    sentinel ended the stream. *)
Fixpoint sse_batch (ms : list (string * option string)) (lastID : string) (w : ResponseWriter)
    : ResponseWriter * string * bool :=
  match ms with
  | [] => (w, lastID, false)
  | (id, v) :: rest =>
      let logLine := default "" v in
      let w := rw_Write (sse_frame logLine) w in
      if is_sentinel logLine then (w, id, true) else sse_batch rest id w
  end.

(** The outer loop over the polls that happen; [None] for the ending means
    the handler is still waiting when they run out. *)
Inductive SseEnd := EndDeadline | EndCtx | EndError | EndSentinel.

Fixpoint sse_loop (deadline : Z) (streamName : string) (polls : list Poll)
    (lastID : string) (w : ResponseWriter) : ResponseWriter * option SseEnd :=
  match polls with
  | [] => (w, None)
  | p :: rest =>
      if bool_decide (deadline < pl_now p) then (w, Some EndDeadline)
      else if pl_ctx_done p then (w, Some EndCtx)
      else
        match pl_xread p streamName lastID with
        | XNil => sse_loop deadline streamName rest lastID w
        | XErr _ => (w, Some EndError)
        | XMsgs [] => sse_loop deadline streamName rest lastID w
        | XMsgs ms =>
            let '(w, lastID, fin) := sse_batch ms lastID w in
            if fin then (w, Some EndSentinel)
            else sse_loop deadline streamName rest lastID w
        end
  end.

Definition sse_headers (h : Header) : Header :=
  let h := Header_Set h "Content-Type" "text/event-stream" in
  let h := Header_Set h "Cache-Control" "no-cache" in
  let h := Header_Set h "Connection" "keep-alive" in
  Header_Set h "X-Accel-Buffering" "no".

(** [HandleBuildLogs]; [flusher] says whether the writer can flush, [now] is
    the clock when the deadline is computed. *)
Definition HandleBuildLogs (now : Z) (polls : list Poll) (flusher : bool)
    (w : ResponseWriter) (r : Request) (g : GatewayState) : ResponseWriter * option SseEnd :=
  match parseBuildLogsPath (rq_Path r) with
  | None => (http_Error w "invalid path: expected /jobs/{job_id}/logs" 400, Some EndError)
  | Some jobID =>
      if negb (gw_redisClient g) then
        (http_Error w "log streaming unavailable" 503, Some EndError)
      else if negb flusher then
        (http_Error w "streaming not supported" 500, Some EndError)
      else
        let w := rw_set_header (sse_headers (rw_header w)) w in
        sse_loop (now + 30 * Minute) (StreamKey jobID) polls "0-0" w
  end.

(** ** Routes *)

Definition routes : list string :=
  ["/functions/"; "/functions"; "/jobs/"; "/health"; "/metrics"].

(** What the mux runs for a request: the metrics page is the Prometheus
    library's and is left as a parameter. *)
Definition SetupRoutes (e : Env) (metrics_page : ResponseWriter → ResponseWriter)
    (now : Z) (polls : list Poll) (flusher : bool)
    (w : ResponseWriter) (r : Request) (g : GatewayState) : ResponseWriter * GatewayState :=
  match mux_route routes (rq_Method r) (rq_Path r) with
  | RtRedirect p =>
      (rw_WriteHeader 301 (rw_set_header (Header_Set (rw_header w) "Location" p) w), g)
  | RtNotFound => (http_NotFound w, g)
  | RtHandler pat =>
      if bool_decide (pat = "/functions/") then HandleInvokeFunction e w r g
      else if bool_decide (pat = "/functions") then
        if bool_decide (rq_Method r = "POST") then HandleCreateFunction e w r g
        else if bool_decide (rq_Method r = "GET") then
          if bool_decide (Query_Get r "id" ≠ "") then HandleGetFunction e w r g
          else HandleListFunctions e w r g
        else (http_Error w "Method not allowed" 405, g)
      else if bool_decide (pat = "/jobs/") then
        ((HandleBuildLogs now polls flusher w r g).1, g)
      else if bool_decide (pat = "/health") then HandleHealth e w g
      else (metrics_page w, g)
  end.
End Gateway.
Arguments GatewayState : clear implicits.

(** A sequence of requests to the invoke endpoint with the token bucket as the
    limiter: the instant of each, on the clock that the gateway and Redis
    share, the error of its call to Redis, if it fails, and what else it
    meets. *)
Record InvokeReq := mkInvoke {
  iq_at : Z;
  iq_redis_err : option error;
  iq_env : Env;
  iq_req : Request
}.

Fixpoint GW_invoke_run {R L SB} `{!RedisKV R, !RateLib L} (reqs : list InvokeReq)
    (g : GatewayState (TokenBucketLimiter L * R) SB) : GatewayState (TokenBucketLimiter L * R) SB :=
  match reqs with
  | [] => g
  | q :: rest =>
      let g' := (HandleInvokeFunction (RateLimiter0 := TB_RateLimiter (iq_at q) (iq_at q) (iq_at q / Second) (iq_redis_err q))
                   (iq_env q) rw_new (iq_req q) g).2 in
      GW_invoke_run rest g'
  end.

(** Invocations under one parsed name. *)
Definition invokes (id : string) (q : InvokeReq) : Prop :=
  rq_Method (iq_req q) = "POST" ∧ parseInvokeFunctionID (rq_Path (iq_req q)) = Some id.

(** ** Lemmas: paths *)

Lemma TrimLeft_rep n c s : TrimLeft (str_rep n c +:+ s) c = TrimLeft s c.
Proof. induction n as [|n IH]; [done|]. simpl. by rewrite bool_decide_eq_true_2. Qed.

Lemma TrimRight_rep m c : TrimRight (str_rep m c) c = "".
Proof.
  induction m as [|m IH]; [done|]. simpl. rewrite IH.
  by rewrite !bool_decide_eq_true_2.
Qed.

Lemma TrimRight_app_rep s c m :
  ContainsChar s c = false → TrimRight (s +:+ str_rep m c) c = s.
Proof.
  induction s as [|a s IH]; intros H; [by apply TrimRight_rep|].
  simpl in H. bools. rewrite str_app_cons. simpl. rewrite IH by done.
  by rewrite bool_decide_eq_false_2.
Qed.

(** Trimming removes exactly the copies around a string without them. *)
Lemma Trim_rep s c n m :
  ContainsChar s c = false → Trim (str_rep n c +:+ s +:+ str_rep m c) c = s.
Proof.
  intros H. unfold Trim. rewrite TrimLeft_rep. destruct s as [|a s].
  - change ("" +:+ str_rep m c) with (str_rep m c).
    replace (str_rep m c) with (str_rep m c +:+ "") by apply str_app_nil_r.
    by rewrite TrimLeft_rep.
  - transitivity (TrimRight (String a s +:+ str_rep m c) c); [|by apply TrimRight_app_rep].
    f_equal. rewrite str_app_cons. simpl in *. bools.
    by rewrite bool_decide_eq_false_2.
Qed.

(** A path with the two affixes either has room for both or is the one path
    where they share a slash. *)
Lemma affixes path :
  HasPrefix path functions_prefix = true → HasSuffix path invoke_suffix = true →
  path = "/functions/invoke" ∨ ∃ x, path = functions_prefix +:+ x +:+ invoke_suffix.
Proof.
  intros [r ->]%HasPrefix_spec [q Hq]%HasSuffix_spec.
  destruct (decide (String.length r < 7)%nat) as [Hlt|Hge].
  - left. assert (Hlen := f_equal String.length Hq).
    rewrite !str_length_app in Hlen. unfold functions_prefix, invoke_suffix in *.
    cbn [String.length] in Hlen.
    rewrite <- (str_take_drop (String.length q) ("/functions/" +:+ r)) in Hq.
    apply str_app_inj in Hq as [_ Hq].
    2:{ rewrite str_length_take; [done|]. rewrite str_length_app. cbn [String.length]. lia. }
    destruct r as [|c1 [|c2 [|c3 [|c4 [|c5 [|c6 [|c7 r]]]]]]]; cbn [String.length] in *; try lia;
      replace (String.length q) with (4 + (String.length q - 4))%nat in Hq by lia;
      [ replace (String.length q - 4)%nat with 0%nat in Hq by lia
      | replace (String.length q - 4)%nat with 1%nat in Hq by lia
      | replace (String.length q - 4)%nat with 2%nat in Hq by lia
      | replace (String.length q - 4)%nat with 3%nat in Hq by lia
      | replace (String.length q - 4)%nat with 4%nat in Hq by lia
      | replace (String.length q - 4)%nat with 5%nat in Hq by lia
      | replace (String.length q - 4)%nat with 6%nat in Hq by lia ];
      vm_compute in Hq; simplify_eq; done.
  - right. assert (Hlen := f_equal String.length Hq). rewrite !str_length_app in Hlen.
    exists (str_take (String.length r - 7) r). f_equal.
    rewrite <- (str_take_drop (String.length r - 7) r) in Hq at 1.
    rewrite str_app_assoc in Hq. apply str_app_inj in Hq as [_ Hq].
    + by rewrite <- Hq, str_take_drop.
    + rewrite str_length_app, str_length_take by lia.
      unfold functions_prefix, invoke_suffix in *. cbn [String.length] in *. lia.
Qed.

(** ** Lemmas: forwarding *)

(** Whether the breaker lets a call at instant [t] reach [fn]. *)
Definition cb_admits (t : Z) (cb : CircuitBreaker) : bool :=
  negb (bool_decide (state cb = StateOpen)
        && bool_decide (time_Sub t (lastFailureTime cb) ≤ resetTimeout cb)).

Lemma CB_Call_runs {W} t0 t1 (fn : W → option error * W) cb w :
  cb_admits t0 cb = true →
  ∃ cb', CB_Call t0 t1 fn cb w = ((fn w).1, cb', (fn w).2).
Proof.
  unfold cb_admits, CB_Call, CB_handleOpen, CB_handleClosed, CB_handleHalfOpen, CB_getState.
  destruct (fn w) as [e w'] eqn:Hfn. intros H.
  destruct (state cb) eqn:Hs; simpl in *; rewrite ?Hfn; eauto.
  destruct (bool_decide (time_Sub t0 _ ≤ _)); simpl in *; [done|]. eauto.
Qed.

Lemma CB_Call_rejects {W} t0 t1 (fn : W → option error * W) cb w :
  cb_admits t0 cb = false → CB_Call t0 t1 fn cb w = (Some ErrCircuitOpen, cb, w).
Proof.
  unfold cb_admits, CB_Call, CB_handleOpen, CB_getState. intros H. bools.
  rewrite H. by rewrite bool_decide_eq_true_2.
Qed.

(** Step over the breaker's call in the goal, given that it admits. *)
Ltac run_breaker Hadm :=
  match goal with
  | |- context [CB_Call ?a ?b ?f ?cb ?w] =>
      let cb' := fresh "cb'" in
      destruct (CB_Call_runs a b f cb w Hadm) as [cb' ->]
  end.

Lemma forwarded_header_spec h :
  header_wf h → forwarded_header h = <["X-Forwarded-By" := ["mini-lambda-gateway"]]> h.
Proof. intros H. unfold forwarded_header. by rewrite Header_copy_empty. Qed.

Section Forward.
Context {SI SB : Type}.
Implicit Types (g : GatewayState SI SB).

(** What forwarding does: either one request goes out, the client's own with
    the gateway's tag, and its response or a 503 comes back; or nothing goes
    out and the status says why. *)
Definition relayed (e : Env) (w w' : ResponseWriter) (req : OutRequest) : Prop :=
  match env_Do e req with
  | inl _ => rw_status w' = Some 503
  | inr rs =>
      rw_status w' = Some (rs_StatusCode rs) ∧ rw_body w' = rw_body w +:+ rs_Body rs
      ∧ rw_sent w' = Header_copy (rs_Header rs) (rw_header w)
  end.

(** The breaker of a service is there and lets a call through. *)
Definition breaker_admits (e : Env) (svc : string) g : Prop :=
  ∃ cb, breakers (gw_cbRegistry g) !! svc = Some cb ∧ cb_admits (env_t_check e) cb = true.

(** The status of a request that is not sent. *)
Definition unsent_status (e : Env) (r : Request) (url svc : string) g : Z :=
  match bd_err (rq_Body r), env_NewRequest_err e (rq_Method r) url, breakers (gw_cbRegistry g) !! svc with
  | Some _, _, _ => 400
  | None, Some _, _ => 500
  | None, None, None => 500
  | None, None, Some _ => 503
  end.

Lemma forwardRequest_spec e w r url svc g :
  header_wf (rq_Header r) → rw_status w = None →
  let '(w', g') := forwardRequest e w r url svc g in
  let req := mkOut (rq_Method r) url
    (<["X-Forwarded-By" := ["mini-lambda-gateway"]]> (rq_Header r)) (bd_data (rq_Body r)) in
  (bd_err (rq_Body r) = None ∧ env_NewRequest_err e (rq_Method r) url = None ∧ breaker_admits e svc g
   ∧ gw_sent g' = gw_sent g ++ [req] ∧ relayed e w w' req)
  ∨ (¬ (bd_err (rq_Body r) = None ∧ env_NewRequest_err e (rq_Method r) url = None ∧ breaker_admits e svc g)
     ∧ gw_sent g' = gw_sent g ∧ rw_status w' = Some (unsent_status e r url svc g)).
Proof.
  intros Hwf Hw. unfold forwardRequest, io_ReadAll, Registry_Get, unsent_status, breaker_admits.
  destruct (bd_err (rq_Body r)) as [err|] eqn:Hb; cbv iota beta.
  { right. split_and!; [naive_solver|done|]. by apply http_Error_status. }
  destruct (env_NewRequest_err e (rq_Method r) url) as [err|] eqn:Hn; cbv iota beta zeta.
  { right. split_and!; [naive_solver|done|]. by apply http_Error_status. }
  destruct (breakers (gw_cbRegistry g) !! svc) as [cb|] eqn:Hcb; cbv iota beta.
  2:{ right. split_and!; [naive_solver|done|]. by apply http_Error_status. }
  rewrite (forwarded_header_spec _ Hwf).
  destruct (cb_admits (env_t_check e) cb) eqn:Hadm.
  - run_breaker Hadm.
    unfold client_Do, relayed. destruct (env_Do e _) as [err|rs]; cbn [fst snd gw_sent gw_set_sent]; left.
    + split_and!; eauto. by apply http_Error_status.
    + unfold rw_WriteHeader, rw_set_header. simpl. rewrite Hw. simpl. eauto 10.
  - rewrite CB_Call_rejects by done. cbn [gw_sent gw_set_sent]. right.
    split_and!; [|done|by apply http_Error_status]. intros (_ & _ & cb0 & [= <-] & Hc). congruence.
Qed.

Context `{!RateLimiter SI} `{!RateLimiter SB}.

(** Nothing is sent for an invocation the limiter does not admit. *)
Lemma HandleInvokeFunction_sent e w r g id :
  parseInvokeFunctionID (rq_Path r) = Some id → rq_Method r = "POST" →
  let '(o, s') := RateLimiter_Allow id (gw_invokeLimiter g) in
  let g' := (HandleInvokeFunction e w r g).2 in
  gw_invokeLimiter g' = s'
  ∧ (length (gw_sent g')
     ≤ length (gw_sent g) + match o with Ok true => 1 | _ => 0 end)%nat.
Proof.
  intros Hp Hm. unfold HandleInvokeFunction. rewrite Hp, Hm. simpl.
  destruct (RateLimiter_Allow id (gw_invokeLimiter g)) as [o s'].
  destruct o as [[]|err|why]; simpl; try (split; [done|lia]).
  unfold forwardRequest. destruct (io_ReadAll _); simpl; try (split; [done|lia]).
  destruct (env_NewRequest_err _ _ _); simpl; [split; [done|lia]|].
  destruct (Registry_Get _ _) as [cb| |]; simpl; try (split; [done|lia]).
  destruct (cb_admits (env_t_check e) cb) eqn:Hadm.
  - run_breaker Hadm.
    unfold client_Do. destruct (env_Do e _); simpl; rewrite length_app; simpl; split; try done; lia.
  - rewrite CB_Call_rejects by done. simpl. split; [done|lia].
Qed.
End Forward.

Lemma GW_invoke_run_sent {R L SB} `{!RedisKV R, !RateLib L} id reqs
    (g : GatewayState (TokenBucketLimiter L * R) SB) :
  Forall (invokes id) reqs →
  Z.of_nat (length (gw_sent (GW_invoke_run reqs g)))
  ≤ Z.of_nat (length (gw_sent g))
    + admitted (TB_run id ((λ q, (iq_at q, iq_redis_err q)) <$> reqs) (gw_invokeLimiter g)).
Proof.
  intros Hr. revert g. induction Hr as [|[t err e r] reqs [Hm Hp] _ IH]; intros g; simpl in *.
  { unfold admitted. simpl. lia. }
  pose proof (HandleInvokeFunction_sent (RateLimiter0 := TB_RateLimiter t t (t / Second) err)
    e rw_new r g id Hp Hm) as Hs. simpl in Hs.
  destruct (TB_Allow t t (t / Second) err id (gw_invokeLimiter g)) as [o s'].
  destruct Hs as [Hl Hs]. specialize (IH (HandleInvokeFunction
    (RateLimiter0 := TB_RateLimiter t t (t / Second) err) e rw_new r g).2).
  rewrite Hl in IH. unfold fmap in IH. rewrite admitted_cons. destruct o as [[]| |]; lia.
Qed.

(** The requests that a run under one name sends. *)
Lemma GW_invoke_run_bound {R} `{!RedisKV R, !RedisKVLaws R} {L} `{!RateLib L} {SB}
    id reqs (g : GatewayState (TokenBucketLimiter L * R) SB) b t0 t1 :
  let tb := (gw_invokeLimiter g).1 in
  Forall (invokes id) reqs →
  0 ≤ capacity tb → 0 ≤ refillRate tb → capacity tb ≤ 3600 * refillRate tb →
  bucket_ok (capacity tb) t0 b → bucket_state id (gw_invokeLimiter g).2 t0 b →
  Sorted Z.le (t0 :: (iq_at <$> reqs)) → Forall (λ t, t ≤ t1) (t0 :: (iq_at <$> reqs)) →
  Z.of_nat (length (gw_sent (GW_invoke_run reqs g)))
  ≤ Z.of_nat (length (gw_sent g))
    + (capacity tb + (t1 / Second - t0 / Second) * refillRate tb) + redis_failures (iq_redis_err <$> reqs).
Proof.
  intros tb Hreq Hc Hr Hcap Hok Hb Hs Hle.
  pose proof (GW_invoke_run_sent id reqs g Hreq) as Hsent. set (rs := (λ q, (iq_at q, iq_redis_err q)) <$> reqs) in *.
  assert (rs.*1 = iq_at <$> reqs ∧ rs.*2 = iq_redis_err <$> reqs) as [H1 H2]
    by (unfold rs; rewrite <- !list_fmap_compose; done).
  pose proof (TB_run_bound id rs tb (gw_invokeLimiter g).2 b t0 t1 Hc Hr Hcap Hok Hb) as Hadm.
  rewrite H1, H2 in Hadm. specialize (Hadm Hs Hle).
  pose proof (avail_range (capacity tb) (refillRate tb) b t0 t0 Hc Hr Hok ltac:(lia)).
  subst tb. rewrite <- surjective_pairing in Hadm. lia.
Qed.

(** ** Lemmas: the log stream *)

Definition line_of (m : string * option string) : string := default "" m.2.

(** The lines a client should see: up to and including the first sentinel. *)
Fixpoint until_sentinel (ls : list string) : list string :=
  match ls with
  | [] => []
  | l :: rest => if is_sentinel l then [l] else l :: until_sentinel rest
  end.

Definition frames (ls : list string) : string :=
  foldr (λ l acc, sse_frame l +:+ acc) "" ls.

(** The id of the last entry of a prefix of the stream. *)
Definition last_id (pre : list (string * option string)) : string :=
  foldl (λ _ m, m.1) "0-0" pre.

(** XREAD's documented behaviour on a stream to which the entries [log] are
    appended, in order, and whose oldest entries are trimmed (the producer
    sets [MaxLen] and [Approx]): asked for what follows an entry, it returns
    the next entries that are there, and skips those that are gone. *)
Definition xread_ok (name : string) (log : list (string * option string)) (p : Poll) : Prop :=
  ∀ pre post, log = pre ++ post →
    match pl_xread p name (last_id pre) with
    | XMsgs ms => ∃ gone rest, post = gone ++ ms ++ rest
    | _ => True
    end.

(** The same while nothing that has not been read is trimmed. *)
Definition xread_gapless (name : string) (log : list (string * option string)) (p : Poll) : Prop :=
  ∀ pre post, log = pre ++ post →
    match pl_xread p name (last_id pre) with
    | XMsgs ms => ms `prefix_of` post
    | _ => True
    end.

(** What Redis answers to a reader that asks at every poll for what follows
    the last entry it was given, until its time is up, its client is gone or
    Redis fails. *)
Fixpoint received (deadline : Z) (name : string) (polls : list Poll) (lastID : string)
    : list (string * option string) :=
  match polls with
  | [] => []
  | p :: rest =>
      if bool_decide (deadline < pl_now p) || pl_ctx_done p then []
      else match pl_xread p name lastID with
           | XNil => received deadline name rest lastID
           | XErr _ => []
           | XMsgs ms => ms ++ received deadline name rest (foldl (λ _ m, m.1) lastID ms)
           end
  end.

(** A poll that finds what is there: all of [log] has been written. *)
Definition xread_live (name : string) (log : list (string * option string)) (p : Poll) : Prop :=
  ∀ pre m post, log = pre ++ m :: post →
    ∃ m' ms, pl_xread p name (last_id pre) = XMsgs (m' :: ms).

Lemma frames_app a b : frames (a ++ b) = frames a +:+ frames b.
Proof. induction a as [|l a IH]; [done|]. simpl. by rewrite IH, str_app_assoc. Qed.

Lemma until_sentinel_app a b :
  Forall (λ l, is_sentinel l = false) a → until_sentinel (a ++ b) = a ++ until_sentinel b.
Proof. induction 1 as [|l a Hl _ IH]; [done|]. simpl. by rewrite Hl, IH. Qed.

Lemma last_id_app a b : last_id (a ++ b) = foldl (λ _ m, m.1) (last_id a) b.
Proof. unfold last_id. by rewrite foldl_app. Qed.

Lemma rw_Write_body d w : rw_body (rw_Write d w) = rw_body w +:+ d.
Proof. unfold rw_Write, rw_WriteHeader. by destruct (rw_status w). Qed.

Lemma sse_batch_spec ms id w post :
  let '(w', id', fin) := sse_batch ms id w in
  if (fin : bool)
  then rw_body w' = rw_body w +:+ frames (until_sentinel (line_of <$> ms ++ post))
       ∧ Exists (λ l, is_sentinel l = true) (line_of <$> ms ++ post)
  else rw_body w' = rw_body w +:+ frames (line_of <$> ms)
       ∧ id' = foldl (λ _ m, m.1) id ms
       ∧ Forall (λ l, is_sentinel l = false) (line_of <$> ms).
Proof.
  revert id w. induction ms as [|[i v] ms IH]; intros id w.
  { cbn. by rewrite str_app_nil_r. }
  cbn [sse_batch]. rewrite fmap_app, !fmap_cons. cbn [app until_sentinel foldl].
  change (line_of (i, v)) with (default "" v).
  destruct (is_sentinel (default "" v)) eqn:Hs.
  - rewrite rw_Write_body. cbn [frames foldr]. rewrite str_app_nil_r. split; [done|]. by left.
  - specialize (IH i (rw_Write (sse_frame (default "" v)) w)). rewrite fmap_app in IH.
    destruct (sse_batch ms i _) as [[w' id'] []].
    + destruct IH as [Hb He]. cbn [frames foldr].
      rewrite Hb, rw_Write_body, str_app_assoc. split; [done|]. by right.
    + destruct IH as (Hb & Hi & Hf). cbn [frames foldr].
      rewrite Hb, rw_Write_body, str_app_assoc. auto.
Qed.

(** The loop sends what it is given, up to the first sentinel. *)
Lemma sse_loop_spec dl name polls id w :
  let '(w', fin) := sse_loop dl name polls id w in
  rw_body w' = rw_body w +:+ frames (until_sentinel (line_of <$> received dl name polls id))
  ∧ (fin = Some EndSentinel ↔ Exists (λ l, is_sentinel l = true) (line_of <$> received dl name polls id)).
Proof.
  assert (∀ w : ResponseWriter, rw_body w = rw_body w +:+ "") as Hnil by (intros w0; by rewrite str_app_nil_r).
  assert (∀ o, o ≠ Some EndSentinel → (o = Some EndSentinel ↔ Exists (λ l, is_sentinel l = true) [])) as Hno.
  { intros o Ho. split; [done|]. intros H. by inversion H. }
  revert id w. induction polls as [|p polls IH]; intros id w; simpl; [split; [done|by apply Hno]|].
  case_bool_decide; simpl; [split; [done|by apply Hno]|].
  destruct (pl_ctx_done p); [split; [done|by apply Hno]|].
  destruct (pl_xread p name id) as [|err|ms]; [apply IH|split; [done|by apply Hno]|].
  destruct ms as [|m ms]; [apply IH|].
  pose proof (sse_batch_spec (m :: ms) id w
    (received dl name polls (foldl (λ _ x, x.1) id (m :: ms)))) as Hb.
  destruct (sse_batch (m :: ms) id w) as [[w1 id1] []].
  - destruct Hb as [Hb He]. done.
  - destruct Hb as (Hb & -> & Hf). specialize (IH (foldl (λ _ x, x.1) id (m :: ms)) w1).
    destruct (sse_loop dl name polls _ w1) as [w' fin]. destruct IH as [IH1 IH2].
    change (foldl (λ (_ : string) (x : string * option string), x.1) m.1 ms)
      with (foldl (λ (_ : string) (x : string * option string), x.1) id (m :: ms)).
    change (m :: ms ++ received dl name polls (foldl (λ _ x, x.1) id (m :: ms)))
      with ((m :: ms) ++ received dl name polls (foldl (λ _ x, x.1) id (m :: ms))).
    rewrite fmap_app, until_sentinel_app by done. split.
    + by rewrite IH1, Hb, frames_app, str_app_assoc.
    + rewrite IH2, Exists_app. split; [by right|]. intros [Hs|]; [|done]. exfalso.
      apply Exists_exists in Hs as (l & Hl & Hs). rewrite Forall_forall in Hf. specialize (Hf l Hl). congruence.
Qed.

Lemma last_id_read pre gone ms : ms ≠ [] → last_id (pre ++ gone ++ ms) = foldl (λ _ m, m.1) (last_id pre) ms.
Proof.
  intros Hne. destruct ms as [|x ms _] using rev_ind; [done|]. unfold last_id.
  rewrite !(assoc_L (++)), !foldl_app. done.
Qed.

(** It is given a part of the log in the log's order, and all of it from the
    beginning on while nothing is trimmed before it was read. *)
Lemma received_sublist dl name log polls pre post :
  log = pre ++ post → Forall (xread_ok name log) polls → received dl name polls (last_id pre) `sublist_of` post.
Proof.
  intros Hlog Hok. revert pre post Hlog. induction Hok as [|p polls Hp _ IH]; intros pre post Hlog; simpl.
  { apply sublist_nil_l. }
  destruct (_ || _); [apply sublist_nil_l|]. specialize (Hp pre post Hlog).
  destruct (pl_xread p name (last_id pre)) as [|err|ms]; [by apply IH|apply sublist_nil_l|].
  destruct Hp as (gone & rest & Hpost). destruct (decide (ms = [])) as [->|Hne]; [by apply IH|].
  rewrite Hpost. apply sublist_inserts_l, sublist_app; [done|]. rewrite <- (last_id_read pre gone ms Hne).
  apply IH. rewrite Hlog, Hpost. by rewrite !(assoc_L (++)).
Qed.

Lemma received_prefix dl name log polls pre post :
  log = pre ++ post → Forall (xread_gapless name log) polls → received dl name polls (last_id pre) `prefix_of` post.
Proof.
  intros Hlog Hok. revert pre post Hlog. induction Hok as [|p polls Hp _ IH]; intros pre post Hlog; simpl.
  { apply prefix_nil. }
  destruct (_ || _); [apply prefix_nil|]. specialize (Hp pre post Hlog).
  destruct (pl_xread p name (last_id pre)) as [|err|ms]; [by apply IH|apply prefix_nil|].
  destruct Hp as [rest ->]. destruct (decide (ms = [])) as [->|Hne]; [by apply IH|].
  apply prefix_app. rewrite <- (last_id_read pre [] ms Hne). apply IH. rewrite Hlog. simpl. by rewrite (assoc_L (++)).
Qed.

Lemma sse_loop_live dl name polls log pre post w :
  log = pre ++ post → Forall (xread_gapless name log) polls → Forall (xread_live name log) polls →
  Forall (λ p, pl_now p ≤ dl ∧ pl_ctx_done p = false) polls →
  Exists (λ l, is_sentinel l = true) (line_of <$> post) →
  (length post ≤ length polls)%nat →
  (sse_loop dl name polls (last_id pre) w).2 = Some EndSentinel.
Proof.
  intros Hlog Hok Hlive Hpoll. revert pre post w Hlog Hlive Hpoll.
  induction Hok as [|p polls Hp Hok IH]; intros pre post w Hlog Hlive Hpoll Hs Hlen; simpl in *.
  { destruct post; [by inversion Hs|simpl in *; lia]. }
  inversion Hlive as [|?? Hlp Hlive']; subst x l. inversion Hpoll as [|?? [Hnow Hctx] Hpoll']; subst x l.
  rewrite bool_decide_eq_false_2 by lia. rewrite Hctx.
  destruct post as [|m0 post]; [by inversion Hs|].
  destruct (Hlp pre m0 post Hlog) as (m & ms & Hx).
  specialize (Hp pre (m0 :: post) Hlog). rewrite Hx in *. destruct Hp as [post' Hpost].
  pose proof (sse_batch_spec (m :: ms) (last_id pre) w post') as Hb.
  destruct (sse_batch (m :: ms) (last_id pre) w) as [[w1 id1] []]; [done|].
  destruct Hb as (Hb & -> & Hf). rewrite <- last_id_app.
  apply (IH (pre ++ m :: ms) post' w1); try done.
  - rewrite Hlog, Hpost. by rewrite <- (assoc_L (++)).
  - rewrite Hpost, fmap_app in Hs. apply Exists_app in Hs as [Hs|]; [|done].
    exfalso. apply Exists_exists in Hs as (l & Hl & Hs).
    rewrite Forall_forall in Hf. specialize (Hf l Hl). congruence.
  - apply (f_equal length) in Hpost. rewrite length_app in Hpost. simpl in *. lia.
Qed.

(** ** Properties *)

(** Which invoke paths the gateway serves: the parsed identifier is
    non-empty and slash-free, and the path is [/functions/<id>/invoke] up to
    extra slashes around the identifier, or the single path
    [/functions/invoke], where prefix and suffix overlap and the identifier
    comes out as [invoke]. *)
Theorem parseInvokeFunctionID_iff path id :
  parseInvokeFunctionID path = Some id ↔
    id ≠ "" ∧ ContainsChar id slash = false
    ∧ ((∃ n m, path = functions_prefix +:+ (str_rep n slash +:+ id +:+ str_rep m slash)
                      +:+ invoke_suffix)
       ∨ (path = "/functions/invoke" ∧ id = "invoke")).
Proof.
  unfold parseInvokeFunctionID. split.
  - destruct (HasPrefix path functions_prefix) eqn:Hp; [|done].
    destruct (HasSuffix path invoke_suffix) eqn:Hs; [|done]. cbn [negb orb].
    destruct (affixes path Hp Hs) as [->|[x ->]].
    + change (Trim _ slash) with "invoke". cbn. intros [= <-]. split_and!; [done|done|]. by right.
    + rewrite TrimPrefix_app, TrimSuffix_app.
      case_bool_decide as Hne; [done|]. cbn [orb].
      destruct (ContainsChar (Trim x slash) slash) eqn:Hc; [done|]. intros [= <-].
      split_and!; [done|done|]. left. destruct (Trim_spec x slash) as (n & m & Hx).
      exists n, m. by rewrite <- Hx.
  - intros (Hne & Hc & [(n & m & ->)|[-> ->]]); [|done].
    rewrite HasPrefix_app, str_app_assoc, HasSuffix_app. cbn [negb orb].
    rewrite <- str_app_assoc, TrimPrefix_app, TrimSuffix_app, Trim_rep by done.
    rewrite bool_decide_eq_false_2 by done. by rewrite Hc.
Qed.

(** The invocations that go through: a POST to an invoke path that the limiter
    admits, whose body can be read and whose request can be made, with a
    breaker that lets it through. *)
Definition forwards {SI SB} `{!RateLimiter SI} (e : Env) (r : Request) (g : GatewayState SI SB) : Prop :=
  rq_Method r = "POST"
  ∧ (∃ id, parseInvokeFunctionID (rq_Path r) = Some id ∧ (RateLimiter_Allow id (gw_invokeLimiter g)).1 = Ok true)
  ∧ bd_err (rq_Body r) = None
  ∧ env_NewRequest_err e (rq_Method r) (LambdaServiceURL (gw_config g) +:+ rq_Path r) = None
  ∧ breaker_admits e "lambda-service" g.

(** What the gateway itself answers to the others, the first obstacle first. *)
Definition invoke_refusal {SI SB} `{!RateLimiter SI} (e : Env) (r : Request) (g : GatewayState SI SB) : Z :=
  if bool_decide (rq_Method r ≠ "POST") then 405
  else match parseInvokeFunctionID (rq_Path r) with
       | None => 404
       | Some id =>
           match (RateLimiter_Allow id (gw_invokeLimiter g)).1 with
           | Ok true => unsent_status e r (LambdaServiceURL (gw_config g) +:+ rq_Path r) "lambda-service" g
           | Ok false => 429
           | _ => 500
           end
       end.

(** C8.  Forwarding an invocation.  Exactly the POSTs to an invoke path that
    the limiter admits, whose body can be read and whose request can be made,
    while the breaker of lambda-service lets calls through, are forwarded.
    Then one request goes out, with the client's own method, path, body and
    headers plus the gateway's tag, and the backend's status, headers and body
    come back (503 if the client failed).  For every other invocation nothing
    goes out, and the status is that of the first obstacle: 405, 404, 429 (or
    500 if the limiter failed), 400 for the body, 500 for the request or a
    missing breaker, 503 for an open one. *)
Theorem HandleInvokeFunction_forwards {SI SB} `{!RateLimiter SI} e w r (g : GatewayState SI SB) :
  header_wf (rq_Header r) → rw_status w = None →
  let '(w', g') := HandleInvokeFunction e w r g in
  let req := mkOut (rq_Method r) (LambdaServiceURL (gw_config g) +:+ rq_Path r)
    (<["X-Forwarded-By" := ["mini-lambda-gateway"]]> (rq_Header r)) (bd_data (rq_Body r)) in
  (forwards e r g → gw_sent g' = gw_sent g ++ [req] ∧ relayed e w w' req)
  ∧ (¬ forwards e r g → gw_sent g' = gw_sent g ∧ rw_status w' = Some (invoke_refusal e r g)).
Proof.
  intros Hwf Hw. unfold HandleInvokeFunction, http_NotFound, invoke_refusal, forwards.
  case_bool_decide as Hm; cbv iota beta.
  { split; [by intros [? _]|]. intros _. split; [done|]. by apply http_Error_status. }
  destruct (parseInvokeFunctionID (rq_Path r)) as [id|] eqn:Hp; cbv iota beta.
  2:{ split; [by intros (_ & (? & ? & _) & _)|]. intros _. split; [done|]. by apply http_Error_status. }
  destruct (RateLimiter_Allow id (gw_invokeLimiter g)) as [o s'] eqn:Ha.
  assert (o = Ok true ∨ o ≠ Ok true) as [->|Hno] by (destruct o as [[]|?|?]; auto).
  2:{ assert (¬ ∃ id0, Some id = Some id0 ∧ (RateLimiter_Allow id0 (gw_invokeLimiter g)).1 = Ok true) as Hnot.
      { intros (id0 & [= <-] & H). rewrite Ha in H. by apply Hno. }
      destruct o as [[]|err|why]; [done| | |]; cbv iota beta zeta; (split; [by intros (_ & H & _)|]);
        intros _; (split; [done|]); by apply http_Error_status. }
  cbv iota beta zeta. cbn [fst].
  pose proof (forwardRequest_spec e w r (LambdaServiceURL (gw_config g) +:+ rq_Path r)
    "lambda-service" (gw_set_invoke s' g) Hwf Hw) as H.
  cbn [gw_config gw_set_invoke] in *.
  destruct (forwardRequest _ _ _ _ _ _) as [w' g'].
  destruct H as [(Hb & Hn & Hcb & Hsent & Hr)|(Hnot & Hsent & Hst)].
  - split; [done|]. intros Hnf. destruct Hnf. split_and!; try done. exists id. by rewrite Ha.
  - split; [intros (_ & _ & H); by destruct Hnot|done].
Qed.

(** C5.  The backend is protected.  Invocations under one parsed name, at
    non-decreasing instants between [t0] and [t1] of a clock that the gateway
    and Redis share, whatever their bodies and whatever the backend answers,
    cause at most capacity + refillRate * (seconds from t0 to t1) requests to
    lambda-service, and one more for each that Redis does not answer (these
    are left to the limiter in the gateway's memory).  Names are limited
    separately, also names of one function; and an hour must refill the
    bucket, so that the expiry of its keys gives nothing away. *)
Theorem GW_invoke_load_bound {R} `{!RedisKV R, !RedisKVLaws R} {L} `{!RateLib L} {SB}
    id reqs (g : GatewayState (TokenBucketLimiter L * R) SB) b t0 t1 :
  let tb := (gw_invokeLimiter g).1 in
  Forall (invokes id) reqs →
  0 ≤ capacity tb → 0 ≤ refillRate tb → capacity tb ≤ 3600 * refillRate tb →
  bucket_ok (capacity tb) t0 b → bucket_state id (gw_invokeLimiter g).2 t0 b →
  Sorted Z.le (t0 :: (iq_at <$> reqs)) → Forall (λ t, t ≤ t1) (t0 :: (iq_at <$> reqs)) →
  Z.of_nat (length (gw_sent (GW_invoke_run reqs g)))
  ≤ Z.of_nat (length (gw_sent g))
    + (capacity tb + (t1 / Second - t0 / Second) * refillRate tb) + redis_failures (iq_redis_err <$> reqs).
Proof. apply GW_invoke_run_bound. Qed.

(** C26.  Server-sent events.  A client is sent one frame for each entry that
    Redis gives the handler, in order, once each, up to and including the
    first sentinel, and the handler ends with a sentinel exactly if it was
    given one.  What it is given is a part of the build's log in the log's
    order; since the producer trims the stream, lines may be missing from it
    (those that were gone before they were read), and while none is trimmed
    unread, it is a prefix of the log. *)
Theorem HandleBuildLogs_streams {SI SB} now polls w r (g : GatewayState SI SB) job :
  parseBuildLogsPath (rq_Path r) = Some job → gw_redisClient g = true →
  let '(w', fin) := HandleBuildLogs now polls true w r g in
  let got := received (now + 30 * Minute) (StreamKey job) polls "0-0" in
  rw_body w' = rw_body w +:+ frames (until_sentinel (line_of <$> got))
  ∧ (fin = Some EndSentinel ↔ Exists (λ l, is_sentinel l = true) (line_of <$> got))
  ∧ ∀ log, (Forall (xread_ok (StreamKey job) log) polls → got `sublist_of` log)
           ∧ (Forall (xread_gapless (StreamKey job) log) polls → got `prefix_of` log).
Proof.
  intros Hp Hr. unfold HandleBuildLogs. rewrite Hp, Hr. cbn [negb].
  pose proof (sse_loop_spec (now + 30 * Minute) (StreamKey job) polls "0-0"
    (rw_set_header (sse_headers (rw_header w)) w)) as Hs.
  destruct (sse_loop _ _ _ _ _) as [w' fin]. destruct Hs as [Hb He]. split_and!; [exact Hb|exact He|]. intros log. split.
  - by apply (received_sublist _ _ _ _ []).
  - by apply (received_prefix _ _ _ _ []).
Qed.

(** Build log delivery.  If the whole log is in the stream with a
    sentinel in it, and the connection stays open for as many polls as there
    are entries before the 30-minute deadline, the handler ends at the
    sentinel. *)
Theorem HandleBuildLogs_delivers {SI SB} now polls w r (g : GatewayState SI SB) job log :
  parseBuildLogsPath (rq_Path r) = Some job → gw_redisClient g = true →
  Forall (xread_gapless (StreamKey job) log) polls → Forall (xread_live (StreamKey job) log) polls →
  Forall (λ p, pl_now p ≤ now + 30 * Minute ∧ pl_ctx_done p = false) polls →
  Exists (λ l, is_sentinel l = true) (line_of <$> log) →
  (length log ≤ length polls)%nat →
  (HandleBuildLogs now polls true w r g).2 = Some EndSentinel.
Proof.
  intros Hp Hr Hok Hlive Hopen Hs Hlen. unfold HandleBuildLogs. rewrite Hp, Hr. cbn [negb].
  by apply (sse_loop_live (now + 30 * Minute) (StreamKey job) polls log [] log).
Qed.

(** Concrete inputs for the properties above. *)
Definition demo_config : ServiceConfig :=
  mkSvcConfig "http://lambda" "http://build" (30 * Second).
Definition demo_env (t : Z) : Env :=
  mkEnv (λ _ _, None) (λ _, inr (mkResp 200 ∅ "ok")) t t.
Definition demo_post (path body : string) : Request :=
  mkRequest "POST" path ∅ {[ "Content-Type" := ["application/json"] ]} (mkBody body None) "10.0.0.1:1".
Definition demo_log : list (string * option string) :=
  [("1-0", Some "building"); ("2-0", Some "__BUILD_DONE__"); ("3-0", Some "late")].
(** A stream that holds all of [demo_log]. *)
Definition demo_xread (name lastID : string) : XResult :=
  if bool_decide (lastID = "0-0") then XMsgs demo_log
  else if bool_decide (lastID = "1-0") then XMsgs (drop 1 demo_log)
  else if bool_decide (lastID = "2-0") then XMsgs (drop 2 demo_log)
  else XNil.
Definition demo_poll : Poll := mkPoll 0 false demo_xread.
Definition demo_limiter : RateLimiter nat := {|
  RateLimiter_Allow := λ _ n, (Ok (bool_decide (0 < n)%nat), Nat.pred n);
  RateLimiter_Close := λ n, (Ok tt, n)
|}.
Definition demo_gateway : GatewayState nat nat :=
  NewGateway demo_config 1%nat 1%nat setupCircuitBreakers true.

Lemma demo_header_wf : header_wf {[ "Content-Type" := ["application/json"] ]}.
Proof. intros k vs [<- <-]%lookup_singleton_Some. done. Qed.

(** Splits of [demo_log], for checking the stream's laws. *)
Lemma demo_log_split pre post : demo_log = pre ++ post →
  ∃ n, (n ≤ 3)%nat ∧ pre = take n demo_log ∧ post = drop n demo_log.
Proof.
  intros H. exists (length pre). split_and!.
  - apply (f_equal length) in H. rewrite length_app in H. simpl in H. lia.
  - by rewrite H, take_app_length.
  - by rewrite H, drop_app_length.
Qed.

Lemma demo_xread_gapless : xread_gapless (StreamKey "j1") demo_log demo_poll.
Proof.
  intros pre post (n & Hn & -> & ->)%demo_log_split.
  destruct n as [|[|[|[|]]]]; try lia; cbn; try done; by exists [].
Qed.

Lemma demo_xread_live : xread_live (StreamKey "j1") demo_log demo_poll.
Proof.
  intros pre m post (n & Hn & -> & Hpost)%demo_log_split.
  destruct n as [|[|[|[|]]]]; try lia; cbn; try done; eauto.
Qed.

Lemma HandleInvokeFunction_forwards_witness :
  let r := demo_post "/functions/f1/invoke" "{}" in
  let '(w', g') := HandleInvokeFunction (RateLimiter0 := demo_limiter) (demo_env 0) rw_new r demo_gateway in
  let req := mkOut "POST" "http://lambda/functions/f1/invoke"
    (<["X-Forwarded-By" := ["mini-lambda-gateway"]]> (rq_Header r)) "{}" in
  gw_sent g' = [req] ∧ rw_status w' = Some 200 ∧ rw_body w' = "ok".
Proof.
  cbv zeta. pose proof (HandleInvokeFunction_forwards (RateLimiter0 := demo_limiter) (demo_env 0) rw_new
    (demo_post "/functions/f1/invoke" "{}") demo_gateway demo_header_wf eq_refl) as H.
  revert H. destruct (HandleInvokeFunction _ _ _ _) as [w' g'] eqn:Heq. intros [H _]. destruct H as [Hs Hr].
  { split_and!; try reflexivity; [exists "f1"; split; reflexivity|]. eexists. split; reflexivity. }
  destruct Hr as (Hst & Hbody & _). split; [exact Hs|]. split; [exact Hst|exact Hbody].
Defined.

#[local] Existing Instance burst_only.

(** Four invocations at one instant, one of which Redis does not answer. *)
Lemma GW_invoke_load_bound_witness :
  let g := NewGateway demo_config (NewTokenBucketLimiter (L := Z) 2 1, (∅ : redis_mem)) 0%nat
             setupCircuitBreakers true in
  let q err := mkInvoke 0 err (demo_env 0) (demo_post "/functions/f1/invoke" "{}") in
  let reqs := [q None; q (Some (NewError "i/o timeout")); q None; q None] in
  Z.of_nat (length (gw_sent (GW_invoke_run reqs g))) ≤ 0 + (2 + (0 / Second - 0 / Second) * 1) + 1.
Proof.
  intros g q reqs.
  apply (GW_invoke_load_bound "f1" reqs g None 0 0); simpl; try lia.
  - repeat constructor.
  - apply bucket_state_fresh.
  - repeat constructor; simpl; lia.
  - repeat constructor; simpl; lia.
Defined.

Lemma HandleBuildLogs_streams_witness :
  let r := mkRequest "GET" "/jobs/j1/logs" ∅ ∅ (mkBody "" None) "10.0.0.1:1" in
  let '(w', fin) := HandleBuildLogs 0 [demo_poll] true rw_new r demo_gateway in
  rw_body w' = frames ["building"; "__BUILD_DONE__"]
  ∧ received (30 * Minute) (StreamKey "j1") [demo_poll] "0-0" `prefix_of` demo_log.
Proof.
  cbv zeta. pose proof (HandleBuildLogs_streams 0 [demo_poll] rw_new
    (mkRequest "GET" "/jobs/j1/logs" ∅ ∅ (mkBody "" None) "10.0.0.1:1") demo_gateway "j1" eq_refl eq_refl) as H.
  destruct (HandleBuildLogs _ _ _ _ _ _) as [w' fin]. destruct H as (Hb & _ & Hlog). split; [exact Hb|].
  apply (proj2 (Hlog demo_log)). constructor; [apply demo_xread_gapless|constructor].
Defined.

Lemma HandleBuildLogs_delivers_witness :
  (HandleBuildLogs 0 [demo_poll; demo_poll; demo_poll] true rw_new
    (mkRequest "GET" "/jobs/j1/logs" ∅ ∅ (mkBody "" None) "10.0.0.1:1") demo_gateway).2
  = Some EndSentinel.
Proof.
  apply (HandleBuildLogs_delivers 0 _ _ _ _ "j1" demo_log); try done.
  - repeat constructor; apply demo_xread_gapless.
  - repeat constructor; apply demo_xread_live.
  - repeat (apply Forall_cons_2; [by vm_compute|]). apply Forall_nil_2.
  - apply Exists_exists. exists "__BUILD_DONE__". split; [set_solver|done].
Defined.
