(* ===== verification/Postgres.v ===== *)
(** * PostgreSQL repository (lambda-service internal/storage/postgres.go, event_repo.go)

    The tables of the lambda-service database with the constraints the schema
    declares (primary keys, unique function names and webhook paths, foreign
    keys with ON DELETE CASCADE, the [updated_at] triggers), the statements the
    repository runs on them, and the repository's methods.  The tables are
    those of the migrations (src/migrations), which the deployments run before
    the service; [initSchema] leaves a table that exists as it is and adds the
    audit log, which no migration creates under its name.

    [now] is the server's CURRENT_TIMESTAMP; [err] is any error of the
    statement the model does not compute (lost connection, a value too long
    for its column), in which case the statement has no effect.  JSON columns
    hold the value that was marshalled into them. *)

From Stdlib Require Import ZArith Lia QArith_base.
From stdpp Require Import base strings gmap list numbers sorting.
From S2P Require Import Prelude.
From S2P Require Import Domain.
Open Scope Z_scope.

(** ** Columns *)

(** A TIMESTAMP column keeps microseconds. *)
Definition pg_timestamp (t : Z) : Z := (t + 500) / 1000 * 1000.

(** An INTEGER column holds 32 bits. *)
Definition pg_int4 (z : Z) : bool := bool_decide (- 2 ^ 31 ≤ z < 2 ^ 31).

(** A zero time is written as NULL, and NULL read back as the zero time. *)
Definition null_time (t : Z) : option Z :=
  if bool_decide (t = time_zero) then None else Some (pg_timestamp t).
Definition from_null_time (t : option Z) : Z := default time_zero t.

(** ** Tables *)

Record FunctionRow := mkFnRow {
  fr_id : string;
  fr_name : string;
  fr_runtime : string;
  fr_handler : string;
  fr_code_key : string;
  fr_timeout_seconds : Z;
  fr_memory_mb : Z;
  fr_environment : option (gmap string string);
  fr_created_at : Z;
  fr_updated_at : Z
}.

Record TriggerRow := mkTrRow {
  trr_id : string;
  trr_function_id : string;
  trr_name : string;
  trr_cron_expression : string;
  trr_timezone : string;
  trr_enabled : bool;
  trr_last_run_at : option Z;
  trr_next_run_at : Z;
  trr_created_at : Z;
  trr_updated_at : Z
}.

Record WebhookRow := mkWhRow {
  whr_id : string;
  whr_function_id : string;
  whr_name : string;
  whr_path : string;
  whr_secret : string;
  whr_signature_header : string;
  whr_enabled : bool;
  whr_headers : gmap string string;
  whr_created_at : Z;
  whr_updated_at : Z
}.

Record ExecutionRow := mkExRow {
  exr_id : string;
  exr_function_id : string;
  exr_status : string;
  exr_is_warm_start : bool;
  exr_duration_ms : Z;
  exr_memory_used_bytes : Z;
  exr_error_message : option string;
  exr_created_at : Z
}.

Record AuditRow := mkAuRow {
  aur_id : string;
  aur_event_id : string;
  aur_function_id : string;
  aur_event_type : string;
  aur_status : string;
  aur_duration_ms : Z;
  aur_error_message : string;
  aur_created_at : Z
}.

Record DlqRow := mkDlRow {
  dlr_id : string;
  dlr_event_id : string;
  dlr_function_id : string;
  dlr_event_type : string;
  dlr_payload : string;
  dlr_error_message : string;
  dlr_retry_count : Z;
  dlr_max_retries : Z;
  dlr_first_attempt_at : Z;
  dlr_last_attempt_at : option Z;
  dlr_next_retry_at : option Z;
  dlr_status : string;
  dlr_created_at : Z
}.

(** Each table by primary key. *)
Record DB := mkDB {
  db_functions : gmap string FunctionRow;
  db_triggers : gmap string TriggerRow;
  db_webhooks : gmap string WebhookRow;
  db_executions : gmap string ExecutionRow;
  db_audit : gmap string AuditRow;
  db_dlq : gmap string DlqRow
}.

(** The tables the migrations and then [initSchema] create, empty. *)
Definition initSchema : DB := mkDB ∅ ∅ ∅ ∅ ∅ ∅.

Definition db_set_functions t d :=
  mkDB t (db_triggers d) (db_webhooks d) (db_executions d) (db_audit d) (db_dlq d).
Definition db_set_triggers t d :=
  mkDB (db_functions d) t (db_webhooks d) (db_executions d) (db_audit d) (db_dlq d).
Definition db_set_webhooks t d :=
  mkDB (db_functions d) (db_triggers d) t (db_executions d) (db_audit d) (db_dlq d).
Definition db_set_executions t d :=
  mkDB (db_functions d) (db_triggers d) (db_webhooks d) t (db_audit d) (db_dlq d).
Definition db_set_audit t d :=
  mkDB (db_functions d) (db_triggers d) (db_webhooks d) (db_executions d) t (db_dlq d).
Definition db_set_dlq t d :=
  mkDB (db_functions d) (db_triggers d) (db_webhooks d) (db_executions d) (db_audit d) t.

(** ** SQL vocabulary *)

Definition unique_violation : error := NewError "pq: duplicate key value violates unique constraint".
Definition foreign_key_violation : error :=
  NewError "pq: insert or update violates foreign key constraint".
(** What the trigger on the dead letter queue raises at every update: its
    function sets [updated_at], a column the table does not have. *)
Definition no_updated_at : error := NewError "pq: record new has no field updated_at".
Definition out_of_range : error := NewError "pq: integer out of range".
Definition sql_ErrNoRows : error := Sentinel "sql.ErrNoRows" "sql: no rows in result set".

(** All rows of a table that satisfy a WHERE clause. *)
Definition sql_rows {A} (P : A → bool) (t : gmap string A) : list A :=
  filter (λ r, P r = true) (map_to_list t).*2.

(** ORDER BY key DESC. *)
Definition desc_by {A} (key : A → Z) (a b : A) : Prop := key b ≤ key a.
#[export] Instance desc_by_dec {A} (key : A → Z) : RelDecision (desc_by key).
Proof. intros a b. unfold desc_by. apply _. Defined.
Definition order_desc {A} (key : A → Z) (l : list A) : list A := merge_sort (desc_by key) l.

(** LIMIT and OFFSET. *)
Definition sql_page {A} (limit offset : Z) (l : list A) : outcome (list A) :=
  if bool_decide (offset < 0) then Err (NewError "pq: OFFSET must not be negative")
  else Ok (take (Z.to_nat limit) (drop (Z.to_nat offset) l)).

(** Run a statement that may violate a constraint, under an error the
    environment may inject, wrapping errors in [msg]. *)
Definition sql_exec (msg : string) (err : option error) (stmt : DB → outcome DB) : St DB unit :=
  λ d, match err with
       | Some e => (Err (Wrap msg e), d)
       | None => match stmt d with
                 | Ok d' => (Ok tt, d')
                 | Err e => (Err (Wrap msg e), d)
                 | Panic w => (Panic w, d)
                 end
       end.
Definition sql_query {A} (msg : string) (err : option error) (q : DB → outcome A) : St DB A :=
  λ d, match err with
       | Some e => (Err (Wrap msg e), d)
       | None => (wrap_err msg (q d), d)
       end.

(** ** Functions *)

Definition function_of_row (r : FunctionRow) : Function :=
  mkFunction (fr_id r) (fr_name r) (fr_runtime r) (fr_handler r) (fr_code_key r)
    (wrap64 (fr_timeout_seconds r * Second)) (fr_memory_mb r) (default ∅ (fr_environment r))
    (fr_created_at r) (fr_updated_at r).

Definition row_of_function (f : Function) : FunctionRow :=
  mkFnRow (fn_ID f) (fn_Name f) (fn_Runtime f) (fn_Handler f) (fn_Code f)
    (duration_int_seconds (fn_Timeout f)) (fn_Memory f)
    (if bool_decide (fn_Environment f = ∅) then None else Some (fn_Environment f))
    (pg_timestamp (fn_CreatedAt f)) (pg_timestamp (fn_UpdatedAt f)).

(** Another row already has the name. *)
Definition name_taken (d : DB) (id name : string) : bool :=
  bool_decide (sql_rows (λ r, bool_decide (fr_name r = name) && bool_decide (fr_id r ≠ id))
                 (db_functions d) ≠ []).

(** INSERT ... ON CONFLICT (id) DO UPDATE: an update keeps [created_at] and
    the trigger stamps [updated_at]. *)
Definition upsert_function (now : Z) (row : FunctionRow) (d : DB) : outcome DB :=
  if negb (pg_int4 (fr_timeout_seconds row)) then Err out_of_range
  else if name_taken d (fr_id row) (fr_name row) then Err unique_violation
  else
    let row' := match db_functions d !! fr_id row with
                | None => row
                | Some old =>
                    mkFnRow (fr_id row) (fr_name row) (fr_runtime row) (fr_handler row)
                      (fr_code_key row) (fr_timeout_seconds row) (fr_memory_mb row)
                      (fr_environment row) (fr_created_at old) (pg_timestamp now)
                end in
    Ok (db_set_functions (<[fr_id row := row']> (db_functions d)) d).

Definition PG_Save (now : Z) (err : option error) (f : Function) : St DB unit :=
  sql_exec "failed to save function" err (upsert_function now (row_of_function f)).

(** [QueryRow(...).Scan(...)] of one function row. *)
Definition query_function (err : option error) (rows : DB → list FunctionRow) : St DB Function :=
  λ d, match err with
       | Some e => (Err (Wrap "failed to query function" e), d)
       | None => match rows d with
                 | [] => (Err ErrFunctionNotFound, d)
                 | r :: _ => (Ok (function_of_row r), d)
                 end
       end.

Definition PG_FindByID (err : option error) (id : string) : St DB Function :=
  query_function err (λ d, sql_rows (λ r, bool_decide (fr_id r = id)) (db_functions d)).

Definition PG_FindByName (err : option error) (name : string) : St DB Function :=
  query_function err (λ d, sql_rows (λ r, bool_decide (fr_name r = name)) (db_functions d)).

Definition PG_List (err : option error) (offset limit : Z) : St DB (list Function) :=
  let limit := if bool_decide (limit ≤ 0) then 100 else limit in
  sql_query "failed to query functions" err (λ d,
    outcome_bind
      (sql_page limit offset (order_desc fr_created_at (sql_rows (λ _, true) (db_functions d))))
      (λ rows, Ok (function_of_row <$> rows))).

(** DELETE FROM functions, with what it cascades to. *)
Definition delete_function (id : string) (d : DB) : DB :=
  mkDB (delete id (db_functions d))
    (filter (λ kv, trr_function_id kv.2 ≠ id) (db_triggers d))
    (filter (λ kv, whr_function_id kv.2 ≠ id) (db_webhooks d))
    (filter (λ kv, exr_function_id kv.2 ≠ id) (db_executions d))
    (db_audit d)
    (filter (λ kv, dlr_function_id kv.2 ≠ id) (db_dlq d)).

Definition PG_Delete (err : option error) (id : string) : St DB unit := λ d,
  match err with
  | Some e => (Err (Wrap "failed to delete function" e), d)
  | None =>
      match db_functions d !! id with
      | None => (Err ErrFunctionNotFound, d)
      | Some _ => (Ok tt, delete_function id d)
      end
  end.

Definition PG_Count (err : option error) : St DB Z :=
  sql_query "failed to count functions" err (λ d,
    Ok (Z.of_nat (length (sql_rows (λ _, true) (db_functions d))))).

Definition PG_Exists (err : option error) (id : string) : St DB bool :=
  sql_query "failed to check existence" err (λ d,
    Ok (bool_decide (sql_rows (λ r, bool_decide (fr_id r = id)) (db_functions d) ≠ []))).

(** ** Executions *)

Definition function_exists (d : DB) (id : string) : bool := bool_decide (is_Some (db_functions d !! id)).

Definition insert_execution (row : ExecutionRow) (d : DB) : outcome DB :=
  match db_executions d !! exr_id row with
  | Some _ => Err unique_violation
  | None =>
      if negb (function_exists d (exr_function_id row)) then Err foreign_key_violation
      else Ok (db_set_executions (<[exr_id row := row]> (db_executions d)) d)
  end.

Definition PG_SaveExecution (err : option error) (e : Execution) : St DB unit :=
  sql_exec "failed to save execution" err (insert_execution
    (mkExRow (ex_ID e) (ex_FunctionID e) (ex_Status e) (ex_IsWarmStart e)
       (duration_Milliseconds (ex_Duration e)) (ex_MemoryUsed e)
       (if bool_decide (ex_Error e = "") then None else Some (ex_Error e))
       (pg_timestamp (ex_StartedAt e)))).

Definition execution_of_row (r : ExecutionRow) : Execution :=
  mkExecution (exr_id r) (exr_function_id r) (exr_status r) "" ""
    (default "" (exr_error_message r)) (exr_is_warm_start r) (exr_created_at r) time_zero
    (wrap64 (exr_duration_ms r * Millisecond)) (exr_memory_used_bytes r).

Definition PG_GetExecutionHistory (err : option error) (functionID : string) (limit offset : Z)
    : St DB (list Execution) :=
  let limit := if bool_decide (limit ≤ 0) then 50 else limit in
  sql_query "failed to query executions" err (λ d,
    outcome_bind
      (sql_page limit offset (order_desc exr_created_at
         (sql_rows (λ r, bool_decide (exr_function_id r = functionID)) (db_executions d))))
      (λ rows, Ok (execution_of_row <$> rows))).

Definition PG_GetRecentExecutions (err : option error) (limit : Z) : St DB (list Execution) :=
  let limit := if bool_decide (limit ≤ 0) then 100 else limit in
  sql_query "failed to query executions" err (λ d,
    outcome_bind
      (sql_page limit 0 (order_desc exr_created_at (sql_rows (λ _, true) (db_executions d))))
      (λ rows, Ok (execution_of_row <$> rows))).

(** Statistics; the averages and rates, [float64] in the code, are exact
    rationals here. *)
Record ExecutionStats := mkStats {
  st_TotalExecutions : Z;
  st_SuccessCount : Z;
  st_FailureCount : Z;
  st_TimeoutCount : Z;
  st_WarmStartCount : Z;
  st_ColdStartCount : Z;
  st_AvgDurationMs : Q;
  st_SuccessRate : Q;
  st_WarmStartRate : Q
}.

Definition count_rows {A} (P : A → bool) (l : list A) : Z :=
  Z.of_nat (length (filter (λ r, P r = true) l)).

Definition rate_percent (part total : Z) : Q := Qmake (part * 100) (Z.to_pos total).

(** The aggregate query over the selected rows.  AVG of no rows is NULL, which
    does not scan into a [float64]. *)
Definition stats_of_rows (rows : list ExecutionRow) : outcome ExecutionStats :=
  let total := Z.of_nat (length rows) in
  if bool_decide (total = 0) then
    Err (NewError "sql: Scan error on column avg_duration_ms: converting NULL to float64 is unsupported")
  else
    let ok := count_rows (λ r, bool_decide (exr_status r = "success")) rows in
    let warm := count_rows exr_is_warm_start rows in
    Ok (mkStats total ok
          (count_rows (λ r, bool_decide (exr_status r = "failed")) rows)
          (count_rows (λ r, bool_decide (exr_status r = "timeout")) rows)
          warm (count_rows (λ r, negb (exr_is_warm_start r)) rows)
          (Qmake (foldr (λ r acc, exr_duration_ms r + acc) 0 rows) (Z.to_pos total))
          (rate_percent ok total) (rate_percent warm total)).

Definition PG_GetExecutionStats (err : option error) (functionID : string) (since : Z)
    : St DB ExecutionStats :=
  sql_query "failed to get execution stats" err (λ d,
    stats_of_rows (sql_rows (λ r, bool_decide (exr_function_id r = functionID)
                                  && bool_decide (since ≤ exr_created_at r)) (db_executions d))).

Definition PG_GetGlobalExecutionStats (err : option error) (since : Z) : St DB ExecutionStats :=
  sql_query "failed to get global execution stats" err (λ d,
    stats_of_rows (sql_rows (λ r, bool_decide (since ≤ exr_created_at r)) (db_executions d))).

(** ** Cron triggers *)

Definition trigger_of_row (r : TriggerRow) : CronTrigger :=
  mkTrigger (trr_id r) (trr_function_id r) (trr_name r) (trr_cron_expression r)
    (trr_timezone r) (trr_enabled r) (from_null_time (trr_last_run_at r)) (trr_next_run_at r)
    (trr_created_at r) (trr_updated_at r).

Definition row_of_trigger (t : CronTrigger) : TriggerRow :=
  mkTrRow (tr_ID t) (tr_FunctionID t) (tr_Name t) (tr_CronExpression t) (tr_Timezone t)
    (tr_Enabled t) (null_time (tr_LastRunAt t)) (pg_timestamp (tr_NextRunAt t))
    (pg_timestamp (tr_CreatedAt t)) (pg_timestamp (tr_UpdatedAt t)).

Definition upsert_trigger (now : Z) (row : TriggerRow) (d : DB) : outcome DB :=
  if negb (function_exists d (trr_function_id row)) then Err foreign_key_violation
  else
    let row' := match db_triggers d !! trr_id row with
                | None => row
                | Some old =>
                    mkTrRow (trr_id row) (trr_function_id row) (trr_name row)
                      (trr_cron_expression row) (trr_timezone row) (trr_enabled row)
                      (trr_last_run_at row) (trr_next_run_at row) (trr_created_at old)
                      (pg_timestamp now)
                end in
    Ok (db_set_triggers (<[trr_id row := row']> (db_triggers d)) d).

Definition PG_SaveTrigger (now : Z) (err : option error) (t : CronTrigger) : St DB unit :=
  sql_exec "failed to save cron trigger" err (upsert_trigger now (row_of_trigger t)).

Definition PG_GetTrigger (err : option error) (triggerID : string) : St DB CronTrigger := λ d,
  match err with
  | Some e => (Err (Wrap "failed to get cron trigger" e), d)
  | None => match db_triggers d !! triggerID with
            | None => (Err (NewError "cron trigger not found"), d)
            | Some r => (Ok (trigger_of_row r), d)
            end
  end.

Definition PG_ListTriggers (err : option error) (functionID : string) : St DB (list CronTrigger) :=
  sql_query "failed to list cron triggers" err (λ d,
    Ok (trigger_of_row <$> order_desc trr_created_at
          (sql_rows (λ r, bool_decide (functionID = "") || bool_decide (trr_function_id r = functionID))
             (db_triggers d)))).

Definition PG_ListAllEnabled (err : option error) : St DB (list CronTrigger) :=
  sql_query "failed to list cron triggers" err (λ d,
    Ok (trigger_of_row <$> order_desc trr_created_at (sql_rows trr_enabled (db_triggers d)))).

Definition PG_DeleteTrigger (err : option error) (triggerID : string) : St DB unit := λ d,
  match err with
  | Some e => (Err (Wrap "failed to delete cron trigger" e), d)
  | None => match db_triggers d !! triggerID with
            | None => (Err (NewError "cron trigger not found"), d)
            | Some _ => (Ok tt, db_set_triggers (delete triggerID (db_triggers d)) d)
            end
  end.

(** An unknown identifier updates no row and is not an error. *)
Definition PG_UpdateNextRun (now : Z) (err : option error) (triggerID : string) (nextRunAt : Z)
    : St DB unit :=
  sql_exec "failed to update next run" err (λ d,
    Ok (db_set_triggers (alter (λ r,
      mkTrRow (trr_id r) (trr_function_id r) (trr_name r) (trr_cron_expression r)
        (trr_timezone r) (trr_enabled r) (Some (pg_timestamp now)) (pg_timestamp nextRunAt)
        (trr_created_at r) (pg_timestamp now)) triggerID (db_triggers d)) d)).

(** ** Event audit log *)

(** [Add] fills in a missing identifier; [uuid] is [uuid.NewV4()]. *)
Definition PG_AddAudit (uuid : outcome string) (err : option error) (a : EventAuditLog)
    : St DB unit := λ d,
  match (if bool_decide (au_ID a = "")
         then wrap_err "failed to generate audit log ID" uuid else Ok (au_ID a)) with
  | Ok id =>
      sql_exec "failed to insert audit log" err (λ d,
        match db_audit d !! id with
        | Some _ => Err unique_violation
        | None =>
            Ok (db_set_audit (<[id := mkAuRow id (au_EventID a) (au_FunctionID a) (au_EventType a)
                                  (au_Status a) (au_DurationMs a) (au_ErrorMessage a)
                                  (pg_timestamp (au_CreatedAt a))]> (db_audit d)) d)
        end) d
  | Err e => (Err e, d)
  | Panic w => (Panic w, d)
  end.

Definition audit_of_row (r : AuditRow) : EventAuditLog :=
  mkAudit (aur_id r) (aur_event_id r) (aur_function_id r) (aur_event_type r) (aur_status r)
    (aur_duration_ms r) (aur_error_message r) (aur_created_at r).

Definition PG_GetAudit (err : option error) (functionID : string) (limit offset : Z)
    : St DB (list EventAuditLog) :=
  let limit := if bool_decide (limit ≤ 0) then 100 else limit in
  sql_query "failed to query audit logs" err (λ d,
    outcome_bind
      (sql_page limit offset (order_desc aur_created_at
         (sql_rows (λ r, bool_decide (aur_function_id r = functionID)) (db_audit d))))
      (λ rows, Ok (audit_of_row <$> rows))).

(** ** Dead letter queue *)

(** INSERT ... ON CONFLICT (id) DO UPDATE: a new item needs its function, and
    the update of an item that is there runs into the trigger. *)
Definition upsert_dlq (now : Z) (id : string) (i : DeadLetterItem) (d : DB) : outcome DB :=
  if negb (pg_int4 (dl_RetryCount i)) || negb (pg_int4 (dl_MaxRetries i)) then Err out_of_range
  else
    match db_dlq d !! id with
    | Some _ => Err no_updated_at
    | None =>
        if negb (function_exists d (dl_FunctionID i)) then Err foreign_key_violation
        else
          let row := mkDlRow id (dl_EventID i) (dl_FunctionID i) (dl_EventType i) (dl_Payload i)
            (dl_ErrorMessage i) (dl_RetryCount i) (dl_MaxRetries i) (pg_timestamp (dl_FirstAttemptAt i))
            (null_time (dl_LastAttemptAt i)) (null_time (dl_NextRetryAt i)) (dl_Status i)
            (pg_timestamp now) in
          Ok (db_set_dlq (<[id := row]> (db_dlq d)) d)
    end.

Definition PG_Push (now : Z) (uuid : outcome string) (err : option error) (i : DeadLetterItem)
    : St DB unit := λ d,
  match (if bool_decide (dl_ID i = "")
         then wrap_err "failed to generate DLQ item ID" uuid else Ok (dl_ID i)) with
  | Ok id => sql_exec "failed to push to DLQ" err (upsert_dlq now id i) d
  | Err e => (Err e, d)
  | Panic w => (Panic w, d)
  end.

(** UPDATE ... RETURNING: [Retry] would mark the item, without publishing the
    event again; the trigger stops the update. *)
Definition PG_Retry (now : Z) (err : option error) (itemID : string) : St DB unit := λ d,
  match err with
  | Some e => (Err e, d)
  | None =>
      match db_dlq d !! itemID with
      | None => (Err sql_ErrNoRows, d)
      | Some r =>
          if negb (pg_int4 (dlr_retry_count r + 1)) then (Err out_of_range, d) else (Err no_updated_at, d)
      end
  end.

Definition dead_letter_of_row (r : DlqRow) : DeadLetterItem :=
  mkDeadLetter (dlr_id r) (dlr_event_id r) (dlr_function_id r) (dlr_event_type r) (dlr_payload r)
    (dlr_error_message r) (dlr_retry_count r) (dlr_max_retries r) (dlr_first_attempt_at r)
    (from_null_time (dlr_last_attempt_at r)) (from_null_time (dlr_next_retry_at r)) (dlr_status r).

Definition PG_ListDeadLetterItems (err : option error) (limit offset : Z)
    : St DB (list DeadLetterItem) :=
  let limit := if bool_decide (limit ≤ 0) then 100 else limit in
  sql_query "failed to list DLQ items" err (λ d,
    outcome_bind
      (sql_page limit offset (order_desc dlr_created_at (sql_rows (λ _, true) (db_dlq d))))
      (λ rows, Ok (dead_letter_of_row <$> rows))).

Definition PG_DeleteDeadLetterItem (err : option error) (itemID : string) : St DB unit :=
  sql_exec "failed to delete DLQ item" err (λ d,
    Ok (db_set_dlq (delete itemID (db_dlq d)) d)).

(** ** Webhooks *)

Definition path_taken (d : DB) (id path : string) : bool :=
  bool_decide (sql_rows (λ r, bool_decide (whr_path r = path) && bool_decide (whr_id r ≠ id))
                 (db_webhooks d) ≠ []).

(** An update leaves the webhook with the function it was created for. *)
Definition upsert_webhook (now : Z) (w : Webhook) (d : DB) : outcome DB :=
  if path_taken d (wh_ID w) (wh_Path w) then Err unique_violation
  else
    match db_webhooks d !! wh_ID w with
    | None =>
        if negb (function_exists d (wh_FunctionID w)) then Err foreign_key_violation
        else
          Ok (db_set_webhooks (<[wh_ID w :=
            mkWhRow (wh_ID w) (wh_FunctionID w) (wh_Name w) (wh_Path w) (wh_Secret w)
              (wh_SignatureHeader w) (wh_Enabled w) (wh_Headers w)
              (pg_timestamp (wh_CreatedAt w)) (pg_timestamp (wh_UpdatedAt w))]> (db_webhooks d)) d)
    | Some old =>
        Ok (db_set_webhooks (<[wh_ID w :=
          mkWhRow (wh_ID w) (whr_function_id old) (wh_Name w) (wh_Path w) (wh_Secret w)
            (wh_SignatureHeader w) (wh_Enabled w) (wh_Headers w)
            (whr_created_at old) (pg_timestamp now)]> (db_webhooks d)) d)
    end.

Definition PG_SaveWebhook (now : Z) (err : option error) (w : Webhook) : St DB unit :=
  sql_exec "failed to save webhook" err (upsert_webhook now w).

Definition webhook_of_row (r : WebhookRow) : Webhook :=
  mkWebhook (whr_id r) (whr_function_id r) (whr_name r) (whr_path r) (whr_secret r)
    (whr_signature_header r) (whr_enabled r) (whr_headers r) (whr_created_at r) (whr_updated_at r).

(** No row is [(nil, nil)], not an error. *)
Definition PG_GetWebhookByPath (err : option error) (path : string) : St DB (option Webhook) := λ d,
  match err with
  | Some e => (Err (Wrap "failed to get webhook" e), d)
  | None =>
      match sql_rows (λ r, bool_decide (whr_path r = path)) (db_webhooks d) with
      | [] => (Ok None, d)
      | r :: _ => (Ok (Some (webhook_of_row r)), d)
      end
  end.

Definition PG_DeleteWebhook (err : option error) (id : string) : St DB unit := λ d,
  match err with
  | Some e => (Err (Wrap "failed to delete webhook" e), d)
  | None => match db_webhooks d !! id with
            | None => (Err (NewError "webhook not found"), d)
            | Some _ => (Ok tt, db_set_webhooks (delete id (db_webhooks d)) d)
            end
  end.

(** ** The repository as a step relation *)

Inductive db_call :=
  | CSave (f : Function)
  | CDelete (id : string)
  | CSaveExecution (e : Execution)
  | CSaveTrigger (t : CronTrigger)
  | CDeleteTrigger (id : string)
  | CUpdateNextRun (id : string) (next : Z)
  | CAddAudit (a : EventAuditLog)
  | CPush (i : DeadLetterItem)
  | CRetry (id : string)
  | CDeleteDeadLetterItem (id : string)
  | CSaveWebhook (w : Webhook)
  | CDeleteWebhook (id : string).

Definition db_run (now : Z) (uuid : outcome string) (err : option error) (c : db_call) : St DB unit :=
  match c with
  | CSave f => PG_Save now err f
  | CDelete id => PG_Delete err id
  | CSaveExecution e => PG_SaveExecution err e
  | CSaveTrigger t => PG_SaveTrigger now err t
  | CDeleteTrigger id => PG_DeleteTrigger err id
  | CUpdateNextRun id next => PG_UpdateNextRun now err id next
  | CAddAudit a => PG_AddAudit uuid err a
  | CPush i => PG_Push now uuid err i
  | CRetry id => PG_Retry now err id
  | CDeleteDeadLetterItem id => PG_DeleteDeadLetterItem err id
  | CSaveWebhook w => PG_SaveWebhook now err w
  | CDeleteWebhook id => PG_DeleteWebhook err id
  end.

(** One committed call, whatever the environment did. *)
Inductive db_step : DB → DB → Prop :=
  | db_step_call d now uuid err c : db_step d (db_run now uuid err c d).2.

(** ** Invariant *)

(** Rows sit under their primary key. *)
Definition keyed {A} (pk : A → string) (t : gmap string A) : Prop :=
  ∀ k r, t !! k = Some r → pk r = k.
(** No two rows agree on a UNIQUE column. *)
Definition unique_on {A} (col : A → string) (t : gmap string A) : Prop :=
  ∀ k1 k2 r1 r2, t !! k1 = Some r1 → t !! k2 = Some r2 → col r1 = col r2 → k1 = k2.
(** Every row refers to a function. *)
Definition refers {A} (fk : A → string) (t : gmap string A) (fs : gmap string FunctionRow) : Prop :=
  ∀ k r, t !! k = Some r → is_Some (fs !! fk r).

Record db_inv (d : DB) : Prop := {
  inv_functions_pk : keyed fr_id (db_functions d);
  inv_names : unique_on fr_name (db_functions d);
  inv_triggers_pk : keyed trr_id (db_triggers d);
  inv_triggers_fk : refers trr_function_id (db_triggers d) (db_functions d);
  inv_webhooks_pk : keyed whr_id (db_webhooks d);
  inv_paths : unique_on whr_path (db_webhooks d);
  inv_webhooks_fk : refers whr_function_id (db_webhooks d) (db_functions d);
  inv_executions_pk : keyed exr_id (db_executions d);
  inv_executions_fk : refers exr_function_id (db_executions d) (db_functions d);
  inv_dlq_pk : keyed dlr_id (db_dlq d);
  inv_dlq_fk : refers dlr_function_id (db_dlq d) (db_functions d)
}.

Section Tables.
Context {A : Type}.
Implicit Types (t : gmap string A).

Lemma elem_of_sql_rows P t (r : A) :
  r ∈ sql_rows P t ↔ P r = true ∧ ∃ k, t !! k = Some r.
Proof.
  unfold sql_rows. rewrite list_elem_of_filter, list_elem_of_fmap. split.
  - intros [HP ([k r'] & -> & Hin)]. apply elem_of_map_to_list in Hin. eauto.
  - intros [HP [k Hk]]. split; [done|]. exists (k, r). by rewrite elem_of_map_to_list.
Qed.

Lemma sql_rows_nil P t k (r : A) : sql_rows P t = [] → t !! k = Some r → P r = false.
Proof.
  intros Hn Hk. destruct (P r) eqn:HP; [|done]. exfalso.
  assert (r ∈ sql_rows P t) by (apply elem_of_sql_rows; eauto). rewrite Hn in *. set_solver.
Qed.

Lemma sql_rows_filtered P t :
  (∀ k (r : A), t !! k = Some r → P r = false) → sql_rows P t = [].
Proof.
  intros H. destruct (sql_rows P t) as [|r l] eqn:Hrows; [done|].
  assert (r ∈ r :: l) as Hin by set_solver. rewrite <- Hrows in Hin.
  apply elem_of_sql_rows in Hin as [HP [k Hk]]. apply H in Hk. congruence.
Qed.

(** A query by primary key finds the row, or there is none. *)
Lemma sql_rows_pk pk t id : keyed pk t →
  (sql_rows (λ r, bool_decide (pk r = id)) t = [] ∧ t !! id = None)
  ∨ ∃ r l, sql_rows (λ r, bool_decide (pk r = id)) t = r :: l ∧ t !! id = Some r.
Proof.
  intros Hk. destruct (sql_rows _ t) as [|r l] eqn:Hrows.
  - left. split; [done|]. destruct (t !! id) as [r|] eqn:Hr; [|done].
    apply (sql_rows_nil _ _ _ _ Hrows) in Hr as Hf. apply Hk in Hr. bools. congruence.
  - right. exists r, l. split; [done|].
    assert (r ∈ r :: l) as Hin by set_solver. rewrite <- Hrows in Hin.
    apply elem_of_sql_rows in Hin as [HP [k Hr]]. bools. by rewrite <- HP, (Hk _ _ Hr).
Qed.

Lemma keyed_insert pk t k (r : A) : keyed pk t → pk r = k → keyed pk (<[k := r]> t).
Proof. intros Ht Hr k' r' [[<- <-]|[? ?]]%lookup_insert_Some; eauto. Qed.

Lemma keyed_filter pk t (P : string * A → Prop) `{!∀ x, Decision (P x)} :
  keyed pk t → keyed pk (filter P t).
Proof. intros Ht k r [? _]%map_lookup_filter_Some. eauto. Qed.

Lemma unique_filter col t (P : string * A → Prop) `{!∀ x, Decision (P x)} :
  unique_on col t → unique_on col (filter P t).
Proof.
  intros Ht k1 k2 r1 r2 [? _]%map_lookup_filter_Some [? _]%map_lookup_filter_Some. eauto.
Qed.

Lemma unique_insert pk col t k (r : A) :
  keyed pk t → unique_on col t →
  sql_rows (λ x, bool_decide (col x = col r) && bool_decide (pk x ≠ k)) t = [] →
  unique_on col (<[k := r]> t).
Proof.
  intros Hk Hu Hn.
  assert (∀ k' r', t !! k' = Some r' → col r' = col r → k' = k) as Hother.
  { intros k' r' Hr' Hc. apply (sql_rows_nil _ _ _ _ Hn) in Hr' as Hf.
    rewrite bool_decide_eq_true_2 in Hf by done. simpl in Hf.
    apply bool_decide_eq_false, dec_stable in Hf. rewrite <- Hf. symmetry. by apply Hk. }
  intros k1 k2 r1 r2 [[<- <-]|[? ?]]%lookup_insert_Some [[<- <-]|[? ?]]%lookup_insert_Some Hc;
    eauto. symmetry. eauto.
Qed.

Lemma refers_insert fk t fs k (r : A) :
  refers fk t fs → is_Some (fs !! fk r) → refers fk (<[k := r]> t) fs.
Proof. intros Ht Hr k' r' [[<- <-]|[? ?]]%lookup_insert_Some; eauto. Qed.

(** Dropping a function together with the rows that refer to it. *)
Lemma refers_cascade fk t fs id :
  refers fk t fs → refers fk (filter (λ kv, fk kv.2 ≠ id) t) (delete id fs).
Proof.
  intros Ht k r [Hr Hne]%map_lookup_filter_Some. rewrite lookup_delete_ne by (simpl in *; congruence).
  eauto.
Qed.

Lemma refers_more fk t fs k x : refers fk t fs → refers fk t (<[k := x]> fs).
Proof.
  intros Ht k' r Hr. destruct (decide (k = fk r)) as [->|].
  - by rewrite lookup_insert_eq.
  - rewrite lookup_insert_ne by done. eauto.
Qed.
End Tables.

Lemma keyed_delete {A} (pk : A → string) t k : keyed pk t → keyed pk (delete k t).
Proof. intros Ht k' r [_ ?]%lookup_delete_Some. eauto. Qed.
Lemma unique_delete {A} (col : A → string) t k : unique_on col t → unique_on col (delete k t).
Proof. intros Ht ???? [_ ?]%lookup_delete_Some [_ ?]%lookup_delete_Some. eauto. Qed.
Lemma refers_delete {A} (fk : A → string) t fs k : refers fk t fs → refers fk (delete k t) fs.
Proof. intros Ht k' r [_ ?]%lookup_delete_Some. eauto. Qed.

Create HintDb pg discriminated.
#[export] Hint Resolve keyed_insert keyed_filter keyed_delete unique_filter unique_delete
  refers_insert refers_cascade refers_more refers_delete : pg.

Lemma function_exists_spec d id : function_exists d id = true ↔ is_Some (db_functions d !! id).
Proof. apply bool_decide_eq_true. Qed.

Lemma sql_exec_inv msg err stmt d :
  db_inv d → (∀ d', stmt d = Ok d' → db_inv d') → db_inv (sql_exec msg err stmt d).2.
Proof. intros Hd Hs. unfold sql_exec. destruct err; [done|]. destruct (stmt d); eauto. Qed.

Lemma upsert_function_inv now row d d' :
  db_inv d → upsert_function now row d = Ok d' → db_inv d'.
Proof.
  intros []. unfold upsert_function, name_taken.
  destruct (pg_int4 _); simpl; [|done]. case_bool_decide as Hn; [done|].
  intros [= <-]. split; simpl; eauto with pg.
  - apply keyed_insert; [done|]. by destruct (db_functions d !! fr_id row).
  - apply (unique_insert fr_id); [done|done|]. by destruct (db_functions d !! fr_id row).
Qed.

Lemma delete_function_inv id d : db_inv d → db_inv (delete_function id d).
Proof. intros []. split; simpl; eauto with pg. Qed.

Lemma insert_execution_inv row d d' : db_inv d → insert_execution row d = Ok d' → db_inv d'.
Proof.
  intros []. unfold insert_execution. destruct (db_executions d !! _); [done|].
  destruct (function_exists d _) eqn:Hf; simpl; [|done]. apply function_exists_spec in Hf.
  intros [= <-]. split; simpl; eauto with pg.
Qed.

Lemma upsert_trigger_inv now row d d' : db_inv d → upsert_trigger now row d = Ok d' → db_inv d'.
Proof.
  intros []. unfold upsert_trigger.
  destruct (function_exists d _) eqn:Hf; simpl; [|done]. apply function_exists_spec in Hf.
  intros [= <-]. split; simpl; eauto with pg.
  - apply keyed_insert; [done|]. by destruct (db_triggers d !! trr_id row).
  - apply refers_insert; [done|]. by destruct (db_triggers d !! trr_id row).
Qed.

Lemma upsert_webhook_inv now w d d' : db_inv d → upsert_webhook now w d = Ok d' → db_inv d'.
Proof.
  intros Hd. pose proof (inv_webhooks_fk d Hd) as Hfk. destruct Hd.
  unfold upsert_webhook, path_taken. case_bool_decide as Hn; [done|].
  destruct (db_webhooks d !! wh_ID w) as [old|] eqn:Hold.
  - intros [= <-]. split; simpl; eauto with pg; [by apply (unique_insert whr_id)|].
    apply refers_insert; [done|]. simpl. eapply Hfk, Hold.
  - destruct (function_exists d _) eqn:Hf; simpl; [|done]. apply function_exists_spec in Hf.
    intros [= <-]. split; simpl; eauto with pg. by apply (unique_insert whr_id).
Qed.

Lemma UpdateNextRun_inv f id d :
  (∀ r, trr_id (f r) = trr_id r) → (∀ r, trr_function_id (f r) = trr_function_id r) →
  db_inv d → db_inv (db_set_triggers (alter f id (db_triggers d)) d).
Proof.
  intros Hpk Hfk []. split; simpl; eauto with pg.
  - intros k r. rewrite lookup_alter_Some. intros [(<- & r' & Hr & ->)|[_ Hr]]; [|eauto].
    rewrite Hpk. eauto.
  - intros k r. rewrite lookup_alter_Some. intros [(<- & r' & Hr & ->)|[_ Hr]]; [|eauto].
    rewrite Hfk. eauto.
Qed.

Lemma upsert_dlq_inv now id i d d' : db_inv d → upsert_dlq now id i d = Ok d' → db_inv d'.
Proof.
  intros []. unfold upsert_dlq. destruct (negb _ || negb _); [done|]. destruct (db_dlq d !! id); [done|].
  destruct (function_exists d _) eqn:Hf; simpl; [|done]. apply function_exists_spec in Hf.
  intros [= <-]. split; simpl; eauto with pg.
Qed.

(** Changes to the audit log leave the rest alone. *)
Lemma db_set_audit_inv t d : db_inv d → db_inv (db_set_audit t d).
Proof. by intros []. Qed.

#[export] Hint Resolve sql_exec_inv upsert_function_inv delete_function_inv insert_execution_inv
  upsert_trigger_inv upsert_webhook_inv upsert_dlq_inv db_set_audit_inv : pg.

Lemma db_run_inv now uuid err c d : db_inv d → db_inv (db_run now uuid err c d).2.
Proof.
  intros Hd. destruct c; simpl.
  - apply sql_exec_inv; eauto with pg.
  - unfold PG_Delete. destruct err; [done|]. destruct (db_functions d !! id); simpl; eauto with pg.
  - apply sql_exec_inv; eauto with pg.
  - apply sql_exec_inv; eauto with pg.
  - unfold PG_DeleteTrigger. destruct err; [done|]. destruct (db_triggers d !! id); [|done].
    destruct Hd. split; simpl; eauto with pg.
  - apply sql_exec_inv; [done|]. intros d' [= <-]. by apply UpdateNextRun_inv.
  - unfold PG_AddAudit. case_match; simpl; try done.
    apply sql_exec_inv; [done|]. intros d'. destruct (db_audit d !! _); [done|]. intros [= <-]. eauto with pg.
  - unfold PG_Push. case_match; simpl; try done.
    apply sql_exec_inv; eauto with pg.
  - unfold PG_Retry. destruct err; [done|]. destruct (db_dlq d !! id); [|done]. by destruct (negb _).
  - apply sql_exec_inv; [done|]. intros d' [= <-]. destruct Hd. split; simpl; eauto with pg.
  - apply sql_exec_inv; eauto with pg.
  - unfold PG_DeleteWebhook. destruct err; [done|]. destruct (db_webhooks d !! id); [|done].
    destruct Hd. split; simpl; eauto with pg.
Qed.

Lemma initSchema_inv : db_inv initSchema.
Proof. split; intros ? *; simpl; rewrite lookup_empty; done. Qed.

(** ** Lemmas: what the function methods return *)

(** The function as the database gives it back: whole seconds, microseconds,
    and the creation time of the first save. *)
Definition stored (now : Z) (old : option FunctionRow) (f : Function) : Function :=
  mkFunction (fn_ID f) (fn_Name f) (fn_Runtime f) (fn_Handler f) (fn_Code f)
    (Z.quot (fn_Timeout f) Second * Second) (fn_Memory f) (fn_Environment f)
    (match old with Some r => fr_created_at r | None => pg_timestamp (fn_CreatedAt f) end)
    (match old with Some _ => pg_timestamp now | None => pg_timestamp (fn_UpdatedAt f) end).

Lemma default_env (env : gmap string string) :
  default ∅ (if bool_decide (env = ∅) then None else Some env) = env.
Proof. by case_bool_decide. Qed.

Lemma PG_FindByID_spec err id d : keyed fr_id (db_functions d) →
  PG_FindByID err id d =
    (match err with
     | Some e => Err (Wrap "failed to query function" e)
     | None => match db_functions d !! id with
               | Some r => Ok (function_of_row r)
               | None => Err ErrFunctionNotFound
               end
     end, d).
Proof.
  intros Hk. unfold PG_FindByID, query_function. destruct err; [done|].
  destruct (sql_rows_pk fr_id (db_functions d) id Hk) as [[-> ->]|(r & l & -> & ->)]; done.
Qed.

Lemma PG_Save_spec now err f d :
  (PG_Save now err f d).1 = Ok tt →
  err = None ∧ name_taken d (fn_ID f) (fn_Name f) = false
  ∧ ∃ row, function_of_row row = stored now (db_functions d !! fn_ID f) f
    ∧ (PG_Save now err f d).2 = db_set_functions (<[fn_ID f := row]> (db_functions d)) d.
Proof.
  unfold PG_Save, sql_exec, upsert_function. destruct err; [done|].
  destruct (pg_int4 _) eqn:Hi; [|done]. simpl.
  destruct (name_taken d _ _) eqn:Hn; [done|]. simpl. intros _. split_and!; [done|done|].
  apply bool_decide_eq_true in Hi. simpl in Hi. unfold duration_int_seconds in Hi.
  destruct (db_functions d !! fn_ID f) as [old|] eqn:Hold; eexists; (split; [|done]);
    unfold function_of_row, row_of_function, stored, duration_int_seconds; simpl;
    rewrite default_env, wrap64_id by (i64; unfold Second in *; lia); done.
Qed.

(** A name that another row has stops the save. *)
Lemma name_taken_by d id id' r name :
  keyed fr_id (db_functions d) → db_functions d !! id' = Some r → fr_name r = name → id' ≠ id →
  name_taken d id name = true.
Proof.
  intros Hk Hr Hn Hne. apply bool_decide_eq_true. intros Hnil. apply (sql_rows_nil _ _ _ _ Hnil) in Hr as HP.
  apply Hk in Hr. rewrite bool_decide_eq_true_2 in HP by done. simpl in HP.
  rewrite bool_decide_eq_true_2 in HP by congruence. done.
Qed.

Lemma PG_Save_name_taken now err f d :
  name_taken d (fn_ID f) (fn_Name f) = true → ∃ e, PG_Save now err f d = (Err e, d).
Proof.
  intros Hn. unfold PG_Save, sql_exec, upsert_function. destruct err; [by eexists|].
  destruct (pg_int4 _); simpl; [|by eexists]. rewrite Hn. by eexists.
Qed.

Lemma PG_FindByName_found d id r :
  db_inv d → db_functions d !! id = Some r →
  PG_FindByName None (fr_name r) d = (Ok (function_of_row r), d).
Proof.
  intros Hd Hr. unfold PG_FindByName, query_function.
  destruct (sql_rows _ (db_functions d)) as [|r' l] eqn:Hrows.
  - apply (sql_rows_nil _ _ _ _ Hrows) in Hr. by bools.
  - assert (r' ∈ r' :: l) as Hin by set_solver. rewrite <- Hrows in Hin.
    apply elem_of_sql_rows in Hin as [HP [k Hk]]. bools.
    assert (k = id) as -> by by eapply (inv_names d Hd). congruence.
Qed.

(** ** Properties *)

(** Referential integrity.  In every database the repository can
    produce, by any calls in any order with any statement failing, rows sit
    under their keys, function names and webhook paths are unique, and every
    trigger, webhook, execution and dead letter belongs to a function that
    exists. *)
Theorem db_constraints_hold d : rtc db_step initSchema d → db_inv d.
Proof.
  apply rtc_preserves; [|apply initSchema_inv]. intros a b Ha Hs. destruct Hs. by apply db_run_inv.
Qed.

Definition demo_function (id name code : string) : Function :=
  mkFunction id name "python3.9" "main.handler" code (30 * Second) 128 ∅ 1000000 2000000.

Definition demo_db : DB :=
  (db_run 7000000 (Ok "u") None (CSave (demo_function "f1" "hello" "k1")) initSchema).2.

Lemma demo_db_step : rtc db_step initSchema demo_db.
Proof. eapply rtc_once. constructor. Qed.

Lemma demo_db_inv : db_inv demo_db.
Proof. apply db_run_inv, initSchema_inv. Qed.

Lemma db_constraints_hold_witness : db_inv demo_db ∧ is_Some (db_functions demo_db !! "f1").
Proof.
  split; [apply (db_constraints_hold demo_db); apply demo_db_step|]. vm_compute. by eexists.
Defined.

(** Save then find.  A function that was saved is found under its
    identifier and under its name, as [stored] says: timeout in whole
    seconds, times in microseconds, the creation time of the first save; and
    no other function changes. *)
Theorem PG_Save_then_Find now err f d :
  db_inv d → (PG_Save now err f d).1 = Ok tt →
  let d' := (PG_Save now err f d).2 in
  let f' := stored now (db_functions d !! fn_ID f) f in
  PG_FindByID None (fn_ID f) d' = (Ok f', d')
  ∧ PG_FindByName None (fn_Name f) d' = (Ok f', d')
  ∧ ∀ id, id ≠ fn_ID f → (PG_FindByID None id d').1 = (PG_FindByID None id d).1.
Proof.
  intros Hd Hok. cbv zeta. assert (Hd' : db_inv (PG_Save now err f d).2)
    by exact (db_run_inv now (Ok "") err (CSave f) d Hd).
  destruct (PG_Save_spec now err f d Hok) as (_ & _ & row & Hrow & Hs).
  rewrite Hs in Hd' |- *. rewrite <- Hrow.
  assert (Hlook : db_functions (db_set_functions (<[fn_ID f:=row]> (db_functions d)) d) !! fn_ID f
                  = Some row) by (simpl; by rewrite lookup_insert_eq).
  split_and!.
  - by rewrite (PG_FindByID_spec _ _ _ (inv_functions_pk _ Hd')), Hlook.
  - assert (fn_Name f = fr_name row) as -> by (by apply (f_equal fn_Name) in Hrow).
    by apply (PG_FindByName_found _ (fn_ID f)).
  - intros id Hne. rewrite (PG_FindByID_spec _ _ _ (inv_functions_pk _ Hd')).
    rewrite (PG_FindByID_spec _ _ _ (inv_functions_pk _ Hd)). simpl.
    by rewrite lookup_insert_ne.
Qed.

Lemma PG_Save_then_Find_witness :
  let f := demo_function "f1" "hello" "k1" in
  let d' := (PG_Save 0 None f initSchema).2 in
  PG_FindByID None "f1" d' = (Ok f, d') ∧ PG_FindByName None "hello" d' = (Ok f, d')
  ∧ ∀ id, id ≠ "f1" → (PG_FindByID None id d').1 = (PG_FindByID None id initSchema).1.
Proof.
  exact (PG_Save_then_Find 0 None (demo_function "f1" "hello" "k1") initSchema
           initSchema_inv eq_refl).
Defined.

(** Deleting a function.  After a successful delete the function is not
    found and a second delete says so; no trigger, webhook, execution or dead
    letter of it is left; and other functions are untouched. *)
Theorem PG_Delete_cascades err id d :
  db_inv d → (PG_Delete err id d).1 = Ok tt →
  let d' := (PG_Delete err id d).2 in
  PG_FindByID None id d' = (Err ErrFunctionNotFound, d')
  ∧ PG_Delete None id d' = (Err ErrFunctionNotFound, d')
  ∧ (id ≠ "" → (PG_ListTriggers None id d').1 = Ok [])
  ∧ (PG_GetExecutionHistory None id 0 0 d').1 = Ok []
  ∧ (∀ path w, (PG_GetWebhookByPath None path d').1 = Ok (Some w) → wh_FunctionID w ≠ id)
  ∧ (∀ k r, db_dlq d' !! k = Some r → dlr_function_id r ≠ id)
  ∧ (∀ id', id' ≠ id → (PG_FindByID None id' d').1 = (PG_FindByID None id' d).1).
Proof.
  intros Hd Hok. cbv zeta. assert (Hd' : db_inv (PG_Delete err id d).2)
    by exact (db_run_inv 0 (Ok "") err (CDelete id) d Hd).
  assert (Hs : (PG_Delete err id d).2 = delete_function id d).
  { unfold PG_Delete in *. destruct err; [done|]. by destruct (db_functions d !! id). }
  rewrite Hs in Hd' |- *. pose proof (inv_functions_pk _ Hd') as Hpk. split_and!.
  - rewrite (PG_FindByID_spec _ _ _ Hpk). simpl. by rewrite lookup_delete_eq.
  - unfold PG_Delete. simpl. by rewrite lookup_delete_eq.
  - intros Hne. unfold PG_ListTriggers, sql_query. simpl. rewrite sql_rows_filtered; [done|].
    intros k r [_ Hr]%map_lookup_filter_Some. simpl in Hr.
    by rewrite !bool_decide_eq_false_2.
  - unfold PG_GetExecutionHistory, sql_query. simpl. rewrite sql_rows_filtered; [done|].
    intros k r [_ Hr]%map_lookup_filter_Some. simpl in Hr. by rewrite bool_decide_eq_false_2.
  - intros path w. unfold PG_GetWebhookByPath. simpl.
    destruct (sql_rows _ _) as [|r l] eqn:Hrows; [done|]. intros [= <-]. simpl.
    assert (r ∈ r :: l) as Hin by set_solver. rewrite <- Hrows in Hin.
    apply elem_of_sql_rows in Hin as [_ [k [_ Hk]%map_lookup_filter_Some]]. done.
  - by intros k r [_ Hr]%map_lookup_filter_Some.
  - intros id' Hne. rewrite (PG_FindByID_spec _ _ _ Hpk).
    rewrite (PG_FindByID_spec _ _ _ (inv_functions_pk _ Hd)). simpl.
    by rewrite lookup_delete_ne.
Qed.

Lemma PG_Delete_cascades_witness :
  let d' := (PG_Delete None "f1" demo_db).2 in
  PG_FindByID None "f1" d' = (Err ErrFunctionNotFound, d') ∧ PG_Count None d' = (Ok 0, d').
Proof.
  split; [|vm_compute; reflexivity].
  apply (PG_Delete_cascades None "f1" demo_db); [apply demo_db_inv|vm_compute; reflexivity].
Defined.

(** A dead letter cannot be retried: whatever item is named, the method
    reports an error and nothing changes. *)
Theorem PG_Retry_fails now err id d : ∃ e, PG_Retry now err id d = (Err e, d).
Proof.
  unfold PG_Retry. destruct err; [by eexists|]. destruct (db_dlq d !! id) as [r|]; [|by eexists].
  destruct (negb _); by eexists.
Qed.
