(* ===== verification/CodeStorage.v ===== *)
(** * Code storage (lambda-service internal/storage/s3.go)

    [CodeStorage] is the interface the function service uses; [S3Storage] is
    its implementation over an object store.  The object store and the BLAKE3
    digest are not part of the repository: they are the classes [ObjectStore]
    and [Blake3], with the documented behaviour the code relies on as laws. *)

From Stdlib Require Import ZArith Lia.
From stdpp Require Import base strings gmap list numbers.
From S2P Require Import Prelude.
Open Scope Z_scope.

(** ** Interfaces *)

(** [domain.CodeStorage]. *)
Class CodeStorage (S : Type) := {
  cs_Store : string → string → St S string;
  cs_Retrieve : string → St S string;
  cs_Delete : string → St S unit;
  cs_Exists : string → St S bool
}.

(** An object store: the objects of one bucket by key. *)
Class ObjectStore (B : Type) := {
  os_Get : B → string → option string;
  os_Put : B → string → string → B;
  os_Delete : B → string → B
}.
Class ObjectStoreLaws (B : Type) `{!ObjectStore B} := {
  os_get_put b k v : os_Get (os_Put b k v) k = Some v;
  os_get_put_ne b k k' v : k ≠ k' → os_Get (os_Put b k v) k' = os_Get b k';
  os_get_delete b k : os_Get (os_Delete b k) k = None;
  os_get_delete_ne b k k' : k ≠ k' → os_Get (os_Delete b k) k' = os_Get b k'
}.

(** The digest.  Its text is not empty.  That two codes never share a digest is
    an idealization of the collision resistance content addressing relies on:
    a function with finitely many values has collisions, and what is assumed is
    that no two codes the platform meets are one.  Theorems that need it say so
    by [Blake3Laws]. *)
Class Blake3 := { blake3_Sum : string → string }.
Class Blake3Laws `{!Blake3} := {
  blake3_nonempty c : blake3_Sum c ≠ "";
  blake3_collision_free c c' : blake3_Sum c = blake3_Sum c' → c = c'
}.

(** ** S3 storage *)

Record S3Storage := mkS3 { s3_bucket : string; s3_prefix : string; s3_isMinIO : bool }.

Record S3Config := mkS3Config {
  cfg_Region : string;
  cfg_Bucket : string;
  cfg_Endpoint : string;
  cfg_Prefix : string
}.

(** [NewS3Storage]; [load_err] is the error of loading the AWS configuration. *)
Definition NewS3Storage (load_err : option error) (cfg : S3Config) : outcome S3Storage :=
  if bool_decide (cfg_Bucket cfg = "") then Err (NewError "bucket name is required")
  else match load_err with
       | Some e => Err (Wrap "failed to load AWS config" e)
       | None => Ok (mkS3 (cfg_Bucket cfg) (cfg_Prefix cfg)
                       (negb (bool_decide (cfg_Endpoint cfg = ""))))
       end.

(** [hash[:2]] panics on a shorter string. *)
Definition hash_shard (hash : string) : outcome string :=
  if bool_decide (String.length hash < 2)%nat then Panic "slice bounds out of range"
  else Ok (str_take 2 hash).

Definition S3_buildKey (s : S3Storage) (hash : string) : outcome string :=
  outcome_bind (hash_shard hash) (λ shard,
    if bool_decide (s3_prefix s ≠ "")
    then Ok (s3_prefix s +:+ "/" +:+ shard +:+ "/" +:+ hash)
    else Ok (shard +:+ "/" +:+ hash)).

(** What follows the last slash, if there is one. *)
Fixpoint after_last_slash (s : string) : option string :=
  match s with
  | EmptyString => None
  | String a s' =>
      match after_last_slash s' with
      | Some r => Some r
      | None => if bool_decide (a = slash) then Some s' else None
      end
  end.

Definition S3_extractHashFromKey (key : string) : string := default key (after_last_slash key).

Section S3.
Context {B : Type} `{!ObjectStore B} `{!Blake3}.

(** The errors of the requests one call may make. *)
Record S3Env := mkS3Env {
  s3_head_err : option error;
  s3_put_err : option error;
  s3_get_err : option error;
  s3_read_err : option error;
  s3_delete_err : option error
}.

Definition s3_ok : S3Env := mkS3Env None None None None None.

(** Any error of HEAD, network errors included, counts as absence. *)
Definition S3_objectExists (e : S3Env) (key : string) : St B bool := λ b,
  match s3_head_err e, os_Get b key with
  | None, Some _ => (Ok true, b)
  | _, _ => (Ok false, b)
  end.

Definition code_hash (code : string) : string := hex_EncodeToString (blake3_Sum code).

Open Scope golang_scope.

Definition S3_Store (s : S3Storage) (e : S3Env) (functionID code : string) : St B string :=
  if bool_decide (String.length code = 0%nat) then st_fail (NewError "code cannot be empty")
  else
    let hashStr := code_hash code in
    key <-! st_lift (S3_buildKey s hashStr) ;;
    exists_ <-! st_wrap "failed to check object existence" (S3_objectExists e key) ;;
    if (exists_ : bool) then st_ret key
    else
      match s3_put_err e with
      | Some err => st_fail (Wrap "failed to upload to S3" err)
      | None => st_modify (λ b, os_Put b key code) ;;! st_ret key
      end.

(** The bytes of an object, as GetObject and reading its body give them. *)
Definition S3_get (e : S3Env) (msg : string) (key : string) : St B string := λ b,
  match s3_get_err e, os_Get b key with
  | Some err, _ => (Err (Wrap msg err), b)
  | None, None => (Err (Wrap msg (NewError "NoSuchKey")), b)
  | None, Some code => (Ok code, b)
  end.

Definition S3_Retrieve (s : S3Storage) (e : S3Env) (key : string) : St B string :=
  if bool_decide (key = "") then st_fail (NewError "key cannot be empty")
  else
    body <-! S3_get e "failed to retreive from S3" key ;;
    match s3_read_err e with
    | Some err => st_fail (Wrap "failed to read S3 object" err)
    | None =>
        let hashStr := S3_extractHashFromKey key in
        if bool_decide (hashStr ≠ "") && negb (bool_decide (code_hash body = hashStr))
        then st_fail (NewError "code integrity check failed: hash mismatch")
        else st_ret body
    end.

Definition S3_RetrieveRaw (s : S3Storage) (e : S3Env) (key : string) : St B string :=
  if bool_decide (key = "") then st_fail (NewError "key cannot be empty")
  else
    body <-! S3_get e "failed to retrieve raw from S3" key ;;
    match s3_read_err e with
    | Some err => st_fail err
    | None => st_ret body
    end.

(** Deleting an absent object succeeds. *)
Definition S3_Delete (s : S3Storage) (e : S3Env) (key : string) : St B unit :=
  if bool_decide (key = "") then st_fail (NewError "key cannot be empty")
  else
    match s3_delete_err e with
    | Some err => st_fail (Wrap "failed to delete from S3" err)
    | None => st_modify (λ b, os_Delete b key)
    end.

Definition S3_Exists (s : S3Storage) (e : S3Env) (key : string) : St B bool :=
  if bool_decide (key = "") then st_fail (NewError "key cannot be empty")
  else S3_objectExists e key.

(** [S3Storage] as a [CodeStorage]. *)
Definition S3_CodeStorage (s : S3Storage) (e : S3Env) : CodeStorage B := {|
  cs_Store := S3_Store s e;
  cs_Retrieve := S3_Retrieve s e;
  cs_Delete := S3_Delete s e;
  cs_Exists := S3_Exists s e
|}.
End S3.

(** [presign] is the SDK's [PresignGetObject]: bucket, key and life of the
    URL.  The product of the seconds is a 64-bit duration. *)
Definition S3_GetPresignedURL (presign : string → string → Z → error + string) (s : S3Storage) (key : string) (ttl : Z)
    : outcome string :=
  match presign (s3_bucket s) key (wrap64 (ttl * Second)) with
  | inl err => Err (Wrap "failed to generate presigned URL" err)
  | inr url => Ok url
  end.

(** Lives of up to 292 years are passed on as asked for; one second more is
    negative. *)
Lemma presigned_life ttl : 0 ≤ ttl ≤ 9223372037 →
  wrap64 (ttl * Second) = if bool_decide (ttl = 9223372037) then ttl * Second - 2 ^ 64 else ttl * Second.
Proof.
  intros Ht. case_bool_decide as He; [subst ttl; vm_compute; reflexivity|]. apply wrap64_id.
  i64. unfold Second. lia.
Qed.

(** ** Laws the function service relies on

    [code_at s key] is what the storage holds under a key; [inv] is the
    storage's invariant. *)
Class CodeStorageLaws (S : Type) (C : CodeStorage S) (code_at : S → string → option string)
    (inv : S → Prop) := {
  cs_store_ok s fid code key s' : inv s → cs_Store fid code s = (Ok key, s') →
    inv s' ∧ code_at s' key = Some code
    ∧ (∀ k, k ≠ key → code_at s' k = code_at s k);
  cs_store_err s fid code e s' : inv s → cs_Store fid code s = (Err e, s') → s' = s;
  cs_retrieve_code s key code s' : cs_Retrieve key s = (Ok code, s') → s' = s ∧ code_at s key = Some code;
  cs_retrieve_gone s key : code_at s key = None → ∃ e, cs_Retrieve key s = (Err e, s);
  cs_store_no_panic s fid code w : (cs_Store fid code s).1 ≠ Panic w;
  cs_delete_no_panic s key w : (cs_Delete key s).1 ≠ Panic w;
  cs_delete_inv s key : inv s → inv (cs_Delete key s).2;
  cs_delete_other s key k : k ≠ key → code_at (cs_Delete key s).2 k = code_at s k;
  cs_delete_ok s key s' : cs_Delete key s = (Ok tt, s') → code_at s' key = None
}.

(** ** Lemmas *)

Lemma after_last_slash_none s : ContainsChar s slash = false → after_last_slash s = None.
Proof.
  induction s as [|a s IH]; [done|]. simpl. intros H. bools.
  rewrite IH by done. by rewrite bool_decide_eq_false_2.
Qed.

Lemma after_last_slash_app p s :
  ContainsChar s slash = false → after_last_slash (p +:+ String slash s) = Some s.
Proof.
  intros Hs. induction p as [|a p IH].
  - change ("" +:+ String slash s) with (String slash s). simpl.
    by rewrite after_last_slash_none.
  - rewrite str_app_cons. simpl. by rewrite IH.
Qed.

Section Lemmas.
Context {B : Type} `{!ObjectStore B, !ObjectStoreLaws B} `{!Blake3, !Blake3Laws}.

Lemma code_hash_length c : (2 ≤ String.length (code_hash c))%nat.
Proof.
  unfold code_hash. rewrite hex_length. pose proof (blake3_nonempty c).
  destruct (blake3_Sum c); simpl; [done|lia].
Qed.

Lemma code_hash_inj c c' : code_hash c = code_hash c' → c = c'.
Proof. intros Hh. by apply blake3_collision_free, hex_inj. Qed.

(** The key the storage builds for some code. *)
Definition key_of (s : S3Storage) (code : string) : string :=
  (if bool_decide (s3_prefix s ≠ "") then s3_prefix s +:+ "/" else "")
  +:+ str_take 2 (code_hash code) +:+ "/" +:+ code_hash code.

Lemma S3_buildKey_hash s c : S3_buildKey s (code_hash c) = Ok (key_of s c).
Proof.
  unfold S3_buildKey, hash_shard, key_of. pose proof (code_hash_length c).
  rewrite bool_decide_eq_false_2 by lia. simpl. case_bool_decide; [|done].
  by rewrite !str_app_assoc.
Qed.

Lemma extractHash_key_of s c : S3_extractHashFromKey (key_of s c) = code_hash c.
Proof.
  unfold S3_extractHashFromKey, key_of. rewrite str_app_assoc.
  change ("/" +:+ code_hash c) with (String slash (code_hash c)).
  rewrite after_last_slash_app; [done|]. apply hex_no_slash.
Qed.

Lemma key_of_inj s c c' : key_of s c = key_of s c' → c = c'.
Proof.
  intros Hk. apply code_hash_inj. by rewrite <- (extractHash_key_of s c), Hk, extractHash_key_of.
Qed.

Lemma key_of_nonempty s c : key_of s c ≠ "".
Proof.
  intros Hn. pose proof (extractHash_key_of s c) as Hk. rewrite Hn in Hk.
  pose proof (code_hash_length c). change (S3_extractHashFromKey "") with "" in Hk.
  rewrite <- Hk in *. simpl in *. lia.
Qed.

(** Objects under a content key hold that content. *)
Definition content_ok (s : S3Storage) (b : B) : Prop :=
  ∀ c v, os_Get b (key_of s c) = Some v → v = c.

Lemma S3_Store_spec s e fid code b :
  code ≠ "" →
  S3_Store s e fid code b =
    match s3_head_err e, os_Get b (key_of s code) with
    | None, Some _ => (Ok (key_of s code), b)
    | _, _ => match s3_put_err e with
              | Some err => (Err (Wrap "failed to upload to S3" err), b)
              | None => (Ok (key_of s code), os_Put b (key_of s code) code)
              end
    end.
Proof.
  intros Hc. unfold S3_Store. rewrite bool_decide_eq_false_2 by (destruct code; done).
  unfold st_bind, st_lift. rewrite S3_buildKey_hash. unfold st_wrap, S3_objectExists.
  destruct (s3_head_err e); simpl.
  - by destruct (s3_put_err e).
  - destruct (os_Get b (key_of s code)); simpl; [done|]. by destruct (s3_put_err e).
Qed.

Lemma content_ok_put s b code : content_ok s b → content_ok s (os_Put b (key_of s code) code).
Proof.
  intros Hb c v. destruct (decide (key_of s code = key_of s c)) as [Heq|Hne].
  - rewrite <- Heq, os_get_put. intros [= <-]. by apply (key_of_inj s).
  - rewrite os_get_put_ne by done. apply Hb.
Qed.

Lemma S3_Store_empty s e fid b :
  S3_Store s e fid "" b = (Err (NewError "code cannot be empty"), b).
Proof. done. Qed.

Lemma S3_Retrieve_inv s e key b v b' :
  S3_Retrieve s e key b = (Ok v, b') →
  b' = b ∧ os_Get b key = Some v
  ∧ (S3_extractHashFromKey key ≠ "" → code_hash v = S3_extractHashFromKey key).
Proof.
  unfold S3_Retrieve. case_bool_decide as Hk; [done|].
  unfold st_bind, S3_get, st_ret, st_fail.
  destruct (s3_get_err e), (os_Get b key) as [body|]; try done.
  destruct (s3_read_err e); [done|].
  destruct (bool_decide (S3_extractHashFromKey key ≠ "")) eqn:H1; simpl.
  - destruct (bool_decide (code_hash body = _)) eqn:H2; simpl; [|done].
    intros [= -> ->]. bools. done.
  - intros [= -> ->]. bools. done.
Qed.

Lemma S3_Store_key s e fid code b key b' :
  S3_Store s e fid code b = (Ok key, b') → key = key_of s code.
Proof.
  destruct (decide (code = "")) as [->|Hc]; [by rewrite S3_Store_empty|].
  rewrite S3_Store_spec by done. repeat case_match; congruence.
Qed.

Lemma S3_Store_cases s e fid code b :
  (∃ b', S3_Store s e fid code b = (Ok (key_of s code), b')) ∨ (∃ err b', S3_Store s e fid code b = (Err err, b')).
Proof.
  destruct (decide (code = "")) as [->|Hc]; [right; rewrite S3_Store_empty; eauto|].
  rewrite S3_Store_spec by done. repeat case_match; eauto.
Qed.

Lemma S3_RetrieveRaw_cases s e key b :
  (∃ code, S3_RetrieveRaw s e key b = (Ok code, b)) ∨ (∃ err, S3_RetrieveRaw s e key b = (Err err, b)).
Proof.
  unfold S3_RetrieveRaw. case_bool_decide; [right; by eexists|]. unfold st_bind, S3_get.
  destruct (s3_get_err e), (os_Get b key); [right; by eexists..| |right; by eexists].
  destruct (s3_read_err e); [right|left]; by eexists.
Qed.

Lemma S3_Retrieve_present s code b :
  os_Get b (key_of s code) = Some code → S3_Retrieve s s3_ok (key_of s code) b = (Ok code, b).
Proof.
  intros Hg. unfold S3_Retrieve, st_bind, S3_get. simpl.
  rewrite bool_decide_eq_false_2 by apply key_of_nonempty. rewrite Hg, extractHash_key_of.
  rewrite (bool_decide_eq_true_2 (code_hash code = code_hash code)) by done.
  by rewrite andb_false_r.
Qed.

Lemma S3_Retrieve_gone s e key b :
  os_Get b key = None → ∃ err, S3_Retrieve s e key b = (Err err, b).
Proof.
  intros Hk. unfold S3_Retrieve. case_bool_decide; [by eexists|].
  unfold st_bind, S3_get. rewrite Hk. destruct (s3_get_err e); by eexists.
Qed.

Lemma S3_Delete_other s e key k b :
  k ≠ key → os_Get (S3_Delete s e key b).2 k = os_Get b k.
Proof.
  intros Hk. unfold S3_Delete. case_bool_decide; [done|].
  destruct (s3_delete_err e); [done|]. simpl. by rewrite os_get_delete_ne.
Qed.

Lemma S3_Delete_shrinks s e key k v b :
  os_Get (S3_Delete s e key b).2 k = Some v → os_Get b k = Some v.
Proof.
  unfold S3_Delete. case_bool_decide; [done|]. destruct (s3_delete_err e); [done|]. simpl.
  destruct (decide (key = k)) as [->|]; [by rewrite os_get_delete|by rewrite os_get_delete_ne].
Qed.

(** The S3 storage keeps the interface's promises, failing requests included. *)
#[export] Instance S3_laws s e :
  CodeStorageLaws B (S3_CodeStorage s e) os_Get (content_ok s).
Proof.
  split; simpl.
  - intros b fid code key b' Hb Hs.
    destruct (decide (code = "")) as [->|Hc]; [by rewrite S3_Store_empty in Hs|].
    rewrite S3_Store_spec in Hs by done.
    destruct (s3_head_err e); [|destruct (os_Get b (key_of s code)) as [v|] eqn:Hv].
    2:{ simplify_eq. split_and!; [done| |done]. by rewrite Hv, (Hb _ _ Hv). }
    all: destruct (s3_put_err e); simplify_eq; split_and!;
      [by apply content_ok_put|by rewrite os_get_put|].
    all: intros k Hk; by rewrite os_get_put_ne.
  - intros b fid code err b' Hb Hs.
    destruct (decide (code = "")) as [->|Hc]; [rewrite S3_Store_empty in Hs; congruence|].
    rewrite S3_Store_spec in Hs by done. repeat case_match; congruence.
  - intros b key code b' Hr. destruct (S3_Retrieve_inv s e key b code b' Hr) as (? & ? & _). done.
  - intros b key. apply S3_Retrieve_gone.
  - intros b fid code w. destruct (decide (code = "")) as [->|Hc].
    { by rewrite S3_Store_empty. }
    rewrite S3_Store_spec by done.
    destruct (s3_head_err e), (os_Get b (key_of s code)), (s3_put_err e); simpl; congruence.
  - intros b key w. unfold S3_Delete. case_bool_decide; [done|]. by destruct (s3_delete_err e).
  - intros b key Hb c v Hv. by apply Hb, (S3_Delete_shrinks s e key).
  - intros b key k. apply S3_Delete_other.
  - intros b key b'. unfold S3_Delete. case_bool_decide; [done|].
    destruct (s3_delete_err e); [done|]. unfold st_modify. intros [= <-]. apply os_get_delete.
Qed.
End Lemmas.

(** ** A concrete object store and digest *)

#[export] Instance mem_store : ObjectStore (gmap string string) := {
  os_Get := λ b k, b !! k;
  os_Put := λ b k v, <[k := v]> b;
  os_Delete := λ b k, delete k b
}.
#[export] Instance mem_store_laws : ObjectStoreLaws (gmap string string).
Proof.
  split; intros; simpl.
  - apply lookup_insert_eq.
  - by apply lookup_insert_ne.
  - apply lookup_delete_eq.
  - by apply lookup_delete_ne.
Qed.

Definition tagged_digest : Blake3 := {| blake3_Sum := λ c, "#" +:+ c |}.
Lemma tagged_digest_laws : @Blake3Laws tagged_digest.
Proof. split; simpl; [done|]. intros c c' H. by apply (str_app_inj_l "#"). Qed.

(** ** Properties *)

(** C28.  Content addressing.  Whatever the bucket holds and whichever requests
    fail, retrieving the key under which some code was stored returns that
    code or an error, never other bytes. *)
Theorem S3_Retrieve_integrity {B} `{!ObjectStore B} `{!Blake3, !Blake3Laws}
    s e code (b : B) v :
  (S3_Retrieve s e (key_of s code) b).1 = Ok v → v = code.
Proof.
  intros Hr. destruct (S3_Retrieve s e _ b) as [r b'] eqn:Hs. simpl in Hr. subst r.
  destruct (S3_Retrieve_inv s e _ b v b' Hs) as (_ & _ & Hh).
  rewrite extractHash_key_of in Hh. apply code_hash_inj, Hh. intros Hn.
  pose proof (code_hash_length code) as Hl. rewrite Hn in Hl. simpl in Hl. lia.
Qed.

Definition demo_s3 : S3Storage := mkS3 "code" "fn" true.

Lemma S3_Retrieve_integrity_witness :
  let key := key_of (H := tagged_digest) demo_s3 "x=1" in
  let b : gmap string string := <[key := "x=1"]> ∅ in
  ∃ v, (S3_Retrieve (H := tagged_digest) demo_s3 s3_ok key b).1 = Ok v ∧ v = "x=1".
Proof.
  intros key b. exists "x=1". split; [vm_compute; reflexivity|].
  apply (@S3_Retrieve_integrity (gmap string string) _ tagged_digest tagged_digest_laws
    demo_s3 s3_ok "x=1" b "x=1"). vm_compute. reflexivity.
Defined.

(** Store then retrieve.  A successful Store returns the content key;
    retrieving that key returns the code; every other key keeps its object;
    and storing the same code again, even for another function, returns the
    same key and changes nothing. *)
Theorem S3_Store_Retrieve {B} `{!ObjectStore B, !ObjectStoreLaws B} `{!Blake3, !Blake3Laws}
    s e fid fid' code key (b : B) :
  content_ok s b → (S3_Store s e fid code b).1 = Ok key →
  let b' := (S3_Store s e fid code b).2 in
  key = key_of s code
  ∧ S3_Retrieve s s3_ok key b' = (Ok code, b')
  ∧ (∀ k, k ≠ key → os_Get b' k = os_Get b k)
  ∧ S3_Store s s3_ok fid' code b' = (Ok key, b').
Proof.
  intros Hb Hok. destruct (S3_Store s e fid code b) as [r b'] eqn:Hs. simpl in Hok. subst r.
  cbv zeta. cbn [snd].
  destruct (decide (code = "")) as [->|Hc]; [by rewrite S3_Store_empty in Hs|].
  pose proof (S3_Store_key _ _ _ _ _ _ _ Hs) as ->.
  destruct (cs_store_ok (C := S3_CodeStorage s e) b fid code _ b' Hb Hs) as (Hb' & Hg & Ho).
  split_and!; [done|by apply S3_Retrieve_present|done|].
  rewrite S3_Store_spec by done. simpl. by rewrite Hg.
Qed.

Lemma content_ok_empty `{!Blake3} s : content_ok (B := gmap string string) s ∅.
Proof. intros c v. simpl. by rewrite lookup_empty. Qed.

Lemma S3_Store_Retrieve_witness :
  let key := key_of (H := tagged_digest) demo_s3 "x=1" in
  let b' := (S3_Store (B := gmap string string) (H := tagged_digest) demo_s3 s3_ok "f1" "x=1" ∅).2 in
  S3_Retrieve (H := tagged_digest) demo_s3 s3_ok key b' = (Ok "x=1", b').
Proof.
  intros key b'.
  apply (@S3_Store_Retrieve (gmap string string) _ _ tagged_digest tagged_digest_laws
    demo_s3 s3_ok "f1" "f2" "x=1" key ∅ (content_ok_empty _)). vm_compute. reflexivity.
Defined.
