(* ===== verification/FunctionService.v ===== *)
(** * Function service (shared/domain/repository.go)

    [FunctionService] over any [FunctionRepository] and [CodeStorage].  The
    repository keeps metadata whose [Code] field is the storage key; the
    storage keeps the code. *)

From Stdlib Require Import ZArith Lia.
From stdpp Require Import base strings gmap list numbers.
From S2P Require Import Prelude.
From S2P Require Import Domain.
From S2P Require Import Postgres.
From S2P Require Import CodeStorage.
Open Scope Z_scope.

(** ** Interfaces *)

(** [domain.ExecutionRepository], which a repository may also implement. *)
Record ExecutionRepository (S : Type) := mkExecRepo {
  er_SaveExecution : Execution → St S unit;
  er_GetExecutionHistory : string → Z → Z → St S (list Execution);
  er_GetRecentExecutions : Z → St S (list Execution)
}.
Arguments er_SaveExecution {S} _ _.
Arguments er_GetExecutionHistory {S} _ _ _ _.
Arguments er_GetRecentExecutions {S} _ _.

(** [domain.FunctionRepository]; [repo_executions] is what the type assertion
    to [ExecutionRepository] gives. *)
Class FunctionRepository (S : Type) := {
  repo_Save : Function → St S unit;
  repo_FindByID : string → St S Function;
  repo_FindByName : string → St S Function;
  repo_List : Z → Z → St S (list Function);
  repo_Delete : string → St S unit;
  repo_Count : St S Z;
  repo_Exists : string → St S bool;
  repo_executions : option (ExecutionRepository S)
}.

(** The errors the statements of one service call meet, and its clock. *)
Record PgEnv := mkPgEnv {
  pg_now : Z;
  pg_save_err : option error;
  pg_find_err : option error;
  pg_name_err : option error;
  pg_list_err : option error;
  pg_delete_err : option error
}.
Definition pg_ok (now : Z) : PgEnv := mkPgEnv now None None None None None.

Definition PG_executions (e : PgEnv) : ExecutionRepository DB :=
  mkExecRepo DB (PG_SaveExecution (pg_save_err e)) (PG_GetExecutionHistory (pg_list_err e))
    (PG_GetRecentExecutions (pg_list_err e)).

(** [PostgresRepository] implements both interfaces. *)
Definition PG_FunctionRepository (e : PgEnv) : FunctionRepository DB := {|
  repo_Save := PG_Save (pg_now e) (pg_save_err e);
  repo_FindByID := PG_FindByID (pg_find_err e);
  repo_FindByName := PG_FindByName (pg_name_err e);
  repo_List := PG_List (pg_list_err e);
  repo_Delete := PG_Delete (pg_delete_err e);
  repo_Count := PG_Count (pg_list_err e);
  repo_Exists := PG_Exists (pg_find_err e);
  repo_executions := Some (PG_executions e)
|}.

(** ** The service *)

Section Service.
Context {SR SC : Type} {HR : FunctionRepository SR} {HC : CodeStorage SC}.
Open Scope golang_scope.

Definition FS_CreateFunction (f : Function) : St (SR * SC) unit :=
  match Function_Validate f with
  | Some err => st_fail err
  | None =>
      existing <-? st_fst (repo_FindByName (fn_Name f)) ;;
      match existing with
      | Ok _ => st_fail ErrFunctionExists
      | Panic w => st_lift (Panic w)
      | Err err =>
          if bool_decide (err ≠ ErrFunctionNotFound) then st_fail err
          else
            codeKey <-! st_snd (cs_Store (fn_ID f) (fn_Code f)) ;;
            saved <-? st_fst (repo_Save (fn_set_Code codeKey f)) ;;
            match saved with
            | Err err => st_ignore (st_snd (cs_Delete codeKey)) ;;! st_fail err
            | _ => st_ret tt
            end
      end
  end.

Definition FS_GetFunction (id : string) : St (SR * SC) Function :=
  function <-! st_fst (repo_FindByID id) ;;
  code <-! st_snd (cs_Retrieve (fn_Code function)) ;;
  st_ret (fn_set_Code code function).

Definition FS_GetFunctionMeta (id : string) : St (SR * SC) Function := st_fst (repo_FindByID id).

Definition FS_UpdateFunction (f : Function) : St (SR * SC) unit :=
  match Function_Validate f with
  | Some err => st_fail err
  | None =>
      existing <-! st_fst (repo_FindByID (fn_ID f)) ;;
      let oldCodeKey := fn_Code existing in
      newCodeKey <-!
        (if bool_decide (0 < String.length (fn_Code f))%nat then
           k <-! st_snd (cs_Store (fn_ID f) (fn_Code f)) ;;
           (if bool_decide (oldCodeKey ≠ k)
            then st_ignore (st_snd (cs_Delete oldCodeKey)) ;;! st_ret k
            else st_ret k)
         else st_ret oldCodeKey) ;;
      st_fst (repo_Save (fn_set_Code newCodeKey f))
  end.

Definition FS_DeleteFunction (id : string) : St (SR * SC) unit :=
  function <-! st_fst (repo_FindByID id) ;;
  st_fst (repo_Delete id) ;;!
  st_ignore (st_snd (cs_Delete (fn_Code function))) ;;!
  st_ret tt.

Definition FS_ListFunctions (offset limit : Z) : St (SR * SC) (list Function) :=
  st_fst (repo_List offset limit).

Definition FS_SaveExecution (e : Execution) : St (SR * SC) unit :=
  match repo_executions with
  | Some r => st_fst (er_SaveExecution r e)
  | None => st_ret tt
  end.

Definition FS_GetExecutionHistory (functionID : string) (limit offset : Z)
    : St (SR * SC) (list Execution) :=
  match repo_executions with
  | Some r => st_fst (er_GetExecutionHistory r functionID limit offset)
  | None => st_fail (NewError "execution history not supported")
  end.

Definition FS_GetRecentExecutions (limit : Z) : St (SR * SC) (list Execution) :=
  match repo_executions with
  | Some r => st_fst (er_GetRecentExecutions r limit)
  | None => st_fail (NewError "execution history not supported")
  end.
End Service.

(** ** What the service relies on from a repository

    [view s id] is the function the repository has under [id]; [inv] its
    invariant.  Saving may normalise a function but keeps its identifier, its
    name and its code key. *)
Class FunctionRepositoryLaws (S : Type) (HR : FunctionRepository S)
    (view : S → string → option Function) (inv : S → Prop) := {
  repo_find s id r s' : inv s → repo_FindByID id s = (r, s') →
    s' = s ∧ match r with
             | Ok f => view s id = Some f ∧ fn_ID f = id
             | Err e => e = ErrFunctionNotFound → view s id = None
             | Panic _ => False
             end;
  repo_find_name s name r s' : inv s → repo_FindByName name s = (r, s') →
    s' = s ∧ match r with
             | Ok f => view s (fn_ID f) = Some f
             | Err e => e = ErrFunctionNotFound →
                        ∀ id f, view s id = Some f → fn_Name f ≠ name
             | Panic _ => False
             end;
  repo_save s f r s' : inv s → repo_Save f s = (r, s') →
    match r with
    | Ok _ => inv s' ∧ (∃ f', view s' (fn_ID f) = Some f' ∧ fn_ID f' = fn_ID f
                             ∧ fn_Name f' = fn_Name f ∧ fn_Runtime f' = fn_Runtime f
                             ∧ fn_Handler f' = fn_Handler f ∧ fn_Code f' = fn_Code f
                             ∧ fn_Memory f' = fn_Memory f ∧ fn_Environment f' = fn_Environment f
                             ∧ Z.quot (fn_Timeout f') Second = Z.quot (fn_Timeout f) Second)
              ∧ (∀ id, id ≠ fn_ID f → view s' id = view s id)
    | Err _ => s' = s
    | Panic _ => False
    end;
  repo_delete s id r s' : inv s → repo_Delete id s = (r, s') →
    match r with
    | Ok _ => inv s' ∧ view s' id = None ∧ (∀ id', id' ≠ id → view s' id' = view s id')
    | Err _ => s' = s
    | Panic _ => False
    end
}.

(** The database as such a repository. *)
Definition PG_view (d : DB) (id : string) : option Function := function_of_row <$> db_functions d !! id.

Lemma PG_FindByName_inv err name d r d' :
  db_inv d → PG_FindByName err name d = (r, d') →
  d' = d ∧ match r with
           | Ok f => PG_view d (fn_ID f) = Some f
           | Err e => e = ErrFunctionNotFound →
                      ∀ id f, PG_view d id = Some f → fn_Name f ≠ name
           | Panic _ => False
           end.
Proof.
  intros Hd. unfold PG_FindByName, query_function. destruct err; [by intros [= <- <-]|].
  destruct (sql_rows _ _) as [|row l] eqn:Hrows; intros [= <- <-]; (split; [done|]).
  - intros _ id f Hf Hn. unfold PG_view in Hf.
    apply fmap_Some in Hf as (row & Hrow & ->).
    apply (sql_rows_nil _ _ _ _ Hrows) in Hrow. bools. done.
  - assert (row ∈ row :: l) as Hin by set_solver. rewrite <- Hrows in Hin.
    apply elem_of_sql_rows in Hin as [_ [k Hk]].
    unfold PG_view. simpl. by rewrite (inv_functions_pk d Hd _ _ Hk), Hk.
Qed.

#[export] Instance PG_laws e : FunctionRepositoryLaws DB (PG_FunctionRepository e) PG_view db_inv.
Proof.
  split; simpl.
  - intros d id r d' Hd. rewrite (PG_FindByID_spec _ _ _ (inv_functions_pk d Hd)).
    intros [= <- <-]. split; [done|]. destruct (pg_find_err e); [done|]. unfold PG_view.
    destruct (db_functions d !! id) as [row|] eqn:Hrow; simpl; [|done].
    split; [done|]. by apply (inv_functions_pk d Hd).
  - intros d name r d' Hd. by apply PG_FindByName_inv.
  - intros d f r d' Hd Hs. assert (Hd' : db_inv d').
    { pose proof (db_run_inv (pg_now e) (Ok "") (pg_save_err e) (CSave f) d Hd) as Hi.
      simpl in Hi. by rewrite Hs in Hi. }
    destruct r as [[]|err|w].
    + assert (Hok : (PG_Save (pg_now e) (pg_save_err e) f d).1 = Ok tt) by by rewrite Hs.
      destruct (PG_Save_spec _ _ _ _ Hok) as (_ & _ & row & Hrow & Hd2). rewrite Hs in Hd2.
      simpl in Hd2. subst d'. split_and!; [done| |].
      * exists (function_of_row row). unfold PG_view. cbn [db_functions db_set_functions].
        rewrite lookup_insert_eq. change (function_of_row <$> Some row) with (Some (function_of_row row)).
        rewrite Hrow. split_and!; [done..|]. cbn [stored fn_Timeout]. by rewrite Z.quot_mul by done.
      * intros id Hne. unfold PG_view. simpl. by rewrite lookup_insert_ne.
    + unfold PG_Save, sql_exec in Hs. repeat case_match; by simplify_eq.
    + unfold PG_Save, sql_exec, upsert_function in Hs. repeat case_match; by simplify_eq.
  - intros d id r d' Hd Hs. assert (Hd' : db_inv d').
    { pose proof (db_run_inv 0 (Ok "") (pg_delete_err e) (CDelete id) d Hd) as Hi.
      simpl in Hi. by rewrite Hs in Hi. }
    unfold PG_Delete in Hs. destruct (pg_delete_err e); [by simplify_eq|].
    destruct (db_functions d !! id); simplify_eq; [|done]. split_and!; [done| |].
    + unfold PG_view. simpl. by rewrite lookup_delete_eq.
    + intros id' Hne. unfold PG_view. simpl. by rewrite lookup_delete_ne.
Qed.

(** ** Lemmas: the service against the interfaces *)

Section ServiceProofs.
Context {SR SC : Type} {HR : FunctionRepository SR} {HC : CodeStorage SC}
  {view : SR → string → option Function} {invR : SR → Prop}
  {code_at : SC → string → option string} {invC : SC → Prop}
  `{!FunctionRepositoryLaws SR HR view invR} `{!CodeStorageLaws SC HC code_at invC}.
Implicit Types (s : SR * SC) (f : Function).

Definition svc_inv s : Prop := invR s.1 ∧ invC s.2.

(** Every function's code is in the storage. *)
Definition codes_present s : Prop :=
  ∀ id f, view s.1 id = Some f → is_Some (code_at s.2 (fn_Code f)).

(** No other function than [id] has its code under [key]. *)
Definition unshared s (id key : string) : Prop :=
  ∀ id' f', id' ≠ id → view s.1 id' = Some f' → fn_Code f' ≠ key.

(** What an ignored storage delete leaves behind. *)
Lemma ignore_delete_spec key (s : SR * SC) :
  st_ignore (st_snd (cs_Delete key)) s = (Ok tt, (s.1, (cs_Delete key s.2).2)).
Proof.
  unfold st_ignore, st_snd. pose proof (cs_delete_no_panic s.2 key) as Hp.
  destruct (cs_Delete key s.2) as [[]]; simpl in *; try done. by edestruct Hp.
Qed.

Lemma FS_DeleteFunction_inv id s r s' :
  svc_inv s → FS_DeleteFunction id s = (r, s') →
  match r with
  | Ok _ => svc_inv s' ∧ ∃ f, view s.1 id = Some f ∧ view s'.1 id = None
              ∧ (∀ id', id' ≠ id → view s'.1 id' = view s.1 id')
              ∧ s'.2 = (cs_Delete (fn_Code f) s.2).2
  | _ => s' = s
  end.
Proof.
  intros [HiR HiC]. unfold FS_DeleteFunction, st_bind, st_fst.
  destruct (repo_FindByID id s.1) as [rf sr] eqn:Hf.
  destruct (repo_find _ _ _ _ HiR Hf) as [-> Hr].
  destruct rf as [f|err|w]; [|intros [= <- <-]; by destruct s|done].
  cbn [fst snd]. destruct (repo_Delete id s.1) as [rd sr'] eqn:Hd.
  pose proof (repo_delete _ _ _ _ HiR Hd) as Hdel.
  destruct rd as [[]|err|w]; [| |done].
  - cbn [fst snd]. rewrite ignore_delete_spec. unfold st_ret. cbn [fst snd].
    intros [= <- <-]. destruct Hdel as (? & ? & ?).
    split; [split; [done|by apply cs_delete_inv]|]. destruct Hr. eauto 10.
  - intros [= <- <-]. simpl. subst. by destruct s.
Qed.

Lemma FS_CreateFunction_inv f s r s' :
  svc_inv s → FS_CreateFunction f s = (r, s') →
  match r with
  | Ok _ => ∃ key, cs_Store (fn_ID f) (fn_Code f) s.2 = (Ok key, s'.2)
              ∧ repo_Save (fn_set_Code key f) s.1 = (Ok tt, s'.1)
  | Err _ => s' = s ∨ ∃ key sc, cs_Store (fn_ID f) (fn_Code f) s.2 = (Ok key, sc)
                       ∧ s' = (s.1, (cs_Delete key sc).2)
  | Panic _ => False
  end.
Proof.
  intros [HiR HiC]. unfold FS_CreateFunction.
  destruct (Function_Validate f); [intros [= <- <-]; by left|].
  unfold st_try at 1, st_fst at 1. destruct (repo_FindByName (fn_Name f) s.1) as [rn sr] eqn:Hn.
  destruct (repo_find_name _ _ _ _ HiR Hn) as [-> Hrn]. destruct rn as [g|err|w]; [| |done].
  { intros [= <- <-]. left. by destruct s. }
  case_bool_decide; [intros [= <- <-]; left; by destruct s|].
  unfold st_bind at 1, st_snd at 1. simpl.
  destruct (cs_Store (fn_ID f) (fn_Code f) s.2) as [[key|err'|w] sc] eqn:Hst.
  - unfold st_try, st_fst. simpl.
    destruct (repo_Save (fn_set_Code key f) s.1) as [rs sr'] eqn:Hsv.
    pose proof (repo_save _ _ _ _ HiR Hsv) as Hsave. destruct rs as [[]|err'|w]; [| |done].
    + intros [= <- <-]. eauto.
    + unfold st_bind. rewrite ignore_delete_spec. intros [= <- <-]. right. subst sr'. eauto.
  - apply cs_store_err in Hst; [|done]. intros [= <- <-]. left. subst. by destruct s.
  - exfalso. apply (cs_store_no_panic s.2 (fn_ID f) (fn_Code f) w). by rewrite Hst.
Qed.

(** An update that got past its store: the new code is in, the old key is
    gone unless it is the same, and the metadata is saved or not. *)
Lemma FS_UpdateFunction_inv f s r s' :
  svc_inv s → FS_UpdateFunction f s = (r, s') →
  (s' = s ∧ ∃ e, r = Err e)
  ∨ ∃ old key sc, view s.1 (fn_ID f) = Some old
      ∧ cs_Store (fn_ID f) (fn_Code f) s.2 = (Ok key, sc) ∧ code_at sc key = Some (fn_Code f)
      ∧ s'.2 = (if bool_decide (fn_Code old = key) then sc else (cs_Delete (fn_Code old) sc).2)
      ∧ (r, s'.1) = repo_Save (fn_set_Code key f) s.1.
Proof.
  intros [HiR HiC]. unfold FS_UpdateFunction.
  destruct (Function_Validate f) as [e|] eqn:Hval; [intros [= <- <-]; left; eauto|].
  apply Function_Validate_code in Hval.
  unfold st_bind at 1, st_fst at 1.
  destruct (repo_FindByID (fn_ID f) s.1) as [rf sr] eqn:Hf.
  destruct (repo_find _ _ _ _ HiR Hf) as [-> Hr].
  destruct rf as [old|err|w]; [|intros [= <- <-]; left; destruct s; eauto|done].
  rewrite bool_decide_eq_true_2 by (destruct (fn_Code f); [done|simpl; lia]).
  unfold st_bind at 1 2, st_snd at 1. cbn [fst snd].
  destruct (cs_Store (fn_ID f) (fn_Code f) s.2) as [[key|err|w] sc] eqn:Hst.
  - destruct (cs_store_ok _ _ _ _ _ HiC Hst) as (_ & Hcode & _). intros Hrun. right.
    exists old, key, sc. assert (Hsame : ∀ sc', st_fst (repo_Save (fn_set_Code key f)) (s.1, sc')
      = (r, s') → (r, s'.1) = repo_Save (fn_set_Code key f) s.1 ∧ s'.2 = sc').
    { unfold st_fst. simpl. intros sc'. destruct (repo_Save _ s.1). by intros [= <- <-]. }
    assert ((r, s'.1) = repo_Save (fn_set_Code key f) s.1
      ∧ s'.2 = if bool_decide (fn_Code old = key) then sc else (cs_Delete (fn_Code old) sc).2)
      as [? ?]; [|destruct Hr; by split_and!].
    destruct (decide (fn_Code old = key)) as [Heq|Hne]; apply Hsame.
    + rewrite bool_decide_eq_false_2 in Hrun by tauto. by rewrite bool_decide_eq_true_2.
    + rewrite bool_decide_eq_true_2 in Hrun by done. rewrite bool_decide_eq_false_2 by done.
      unfold st_bind in Hrun. by rewrite ignore_delete_spec in Hrun.
  - apply cs_store_err in Hst; [|done]. intros [= <- <-]. left. subst. destruct s. eauto.
  - exfalso. apply (cs_store_no_panic s.2 (fn_ID f) (fn_Code f) w). by rewrite Hst.
Qed.

Lemma codes_present_delete s sr' id f :
  codes_present s → view s.1 id = Some f → unshared s id (fn_Code f) →
  view sr' id = None → (∀ id', id' ≠ id → view sr' id' = view s.1 id') →
  codes_present (sr', (cs_Delete (fn_Code f) s.2).2).
Proof.
  intros Hp Hf Hun Hgone Hother id' f' Hf'. simpl in *.
  destruct (decide (id' = id)) as [->|Hne]; [congruence|].
  rewrite Hother in Hf' by done. rewrite cs_delete_other by eauto. eauto.
Qed.

(** C29.  No function loses its code.  Against any repository and storage that
    keep their laws: if every function's code is in the storage, it still is
    after creating a function, whether that succeeds or not; after an update
    that succeeds, and after one that fails it is for every other function;
    and after deleting one, whether that succeeds or not.  All this provided
    the code that is taken away (the old or deleted one, or the one a failed
    creation rolls back) is not also another function's. *)
Theorem FS_keeps_code s f id :
  svc_inv s → codes_present s →
  (∀ r s', FS_CreateFunction f s = (r, s') →
     (∀ key sc, cs_Store (fn_ID f) (fn_Code f) s.2 = (Ok key, sc) →
        r = Ok tt ∨ ∀ id' f', view s.1 id' = Some f' → fn_Code f' ≠ key) →
     codes_present s')
  ∧ (∀ r s', FS_UpdateFunction f s = (r, s') →
     (∀ old, view s.1 (fn_ID f) = Some old → unshared s (fn_ID f) (fn_Code old)) →
     ∀ id' g, view s'.1 id' = Some g → r = Ok tt ∨ id' ≠ fn_ID f → is_Some (code_at s'.2 (fn_Code g)))
  ∧ (∀ r s', FS_DeleteFunction id s = (r, s') →
     (∀ old, view s.1 id = Some old → unshared s id (fn_Code old)) →
     codes_present s').
Proof.
  intros Hi Hp. split_and!.
  - intros r s' Hc Hun. pose proof (FS_CreateFunction_inv f s r s' Hi Hc) as Hinv.
    destruct r as [[]|e|w]; [| |done].
    + destruct Hinv as (key & Hst & Hsv). destruct Hi as [HiR HiC].
      destruct (cs_store_ok _ _ _ _ _ HiC Hst) as (_ & Hcode & Hck).
      destruct (repo_save _ _ _ _ HiR Hsv) as (_ & (f' & Hv & _ & _ & _ & _ & Hk & _) & Ho).
      simpl in *. intros id' g Hg. destruct (decide (id' = fn_ID f)) as [->|Hne].
      { assert (g = f') as -> by congruence. by rewrite Hk, Hcode. }
      rewrite Ho in Hg by done. destruct (decide (fn_Code g = key)) as [->|Hne']; [by rewrite Hcode|].
      rewrite Hck by done. eauto.
    + destruct Hinv as [->|(key & sc & Hst & ->)]; [done|].
      destruct Hi as [_ HiC]. destruct (cs_store_ok _ _ _ _ _ HiC Hst) as (_ & _ & Ho).
      destruct (Hun _ _ Hst) as [|Hfree]; [done|]. intros id' g Hg. simpl in *.
      pose proof (Hfree _ _ Hg). rewrite cs_delete_other, Ho by done. eauto.
  - intros r s' Hu Hun. destruct (FS_UpdateFunction_inv f s _ s' Hi Hu) as [[-> _]|Hinv]; [eauto|].
    destruct Hinv as (old & key & sc & Hold & Hst & Hcode & Hs2 & Hsave).
    destruct Hi as [HiR HiC]. destruct (cs_store_ok _ _ _ _ _ HiC Hst) as (_ & _ & Ho).
    pose proof (repo_save _ _ _ _ HiR (eq_sym Hsave)) as Hsv.
    assert (∀ id', id' ≠ fn_ID f → view s'.1 id' = view s.1 id') as Hoth.
    { destruct r as [[]|e|w]; [apply Hsv|by rewrite Hsv|done]. }
    intros id' g Hg Hr. destruct (decide (id' = fn_ID f)) as [->|Hne].
    + destruct Hr as [->|]; [|done]. destruct Hsv as (_ & (f' & Hf' & _ & _ & _ & _ & Hcd & _) & _).
      simpl in *. assert (g = f') as -> by congruence. rewrite Hs2, Hcd. case_bool_decide; [by rewrite Hcode|].
      rewrite cs_delete_other by done. by rewrite Hcode.
    + rewrite Hoth in Hg by done. specialize (Hun _ Hold _ _ Hne Hg).
      assert (is_Some (code_at sc (fn_Code g))).
      { destruct (decide (fn_Code g = key)) as [->|]; [by rewrite Hcode|]. rewrite Ho by done. eauto. }
      rewrite Hs2. case_bool_decide; [done|]. by rewrite cs_delete_other.
  - intros r s' Hd Hun. pose proof (FS_DeleteFunction_inv id s r s' Hi Hd) as Hinv.
    destruct r as [[]|e|w]; [|by subst|by subst].
    destruct Hinv as (_ & g & Hg & Hgone & Ho & Hs2). destruct s' as [sr' sc']. simpl in *. subst sc'.
    by apply (codes_present_delete s sr' id g); eauto.
Qed.
End ServiceProofs.

(** ** The service on PostgreSQL and S3 *)

Section Stack.
Context {B : Type} `{!ObjectStore B, !ObjectStoreLaws B} `{!Blake3, !Blake3Laws}.
Implicit Types (d : DB) (b : B).

(** The service's operations on the production stack, each with the errors
    its requests meet. *)
Definition stack_Create (s3 : S3Storage) (e : PgEnv) (e3 : S3Env) (f : Function) : St (DB * B) unit :=
  FS_CreateFunction (HR := PG_FunctionRepository e) (HC := S3_CodeStorage s3 e3) f.
Definition stack_Get (s3 : S3Storage) (e : PgEnv) (e3 : S3Env) (id : string) : St (DB * B) Function :=
  FS_GetFunction (HR := PG_FunctionRepository e) (HC := S3_CodeStorage s3 e3) id.
Definition stack_Update (s3 : S3Storage) (e : PgEnv) (e3 : S3Env) (f : Function) : St (DB * B) unit :=
  FS_UpdateFunction (HR := PG_FunctionRepository e) (HC := S3_CodeStorage s3 e3) f.
Definition stack_Delete (s3 : S3Storage) (e : PgEnv) (e3 : S3Env) (id : string) : St (DB * B) unit :=
  FS_DeleteFunction (HR := PG_FunctionRepository e) (HC := S3_CodeStorage s3 e3) id.

Lemma stack_svc_inv s3 d b :
  db_inv d → content_ok s3 b → svc_inv (invR := db_inv) (invC := content_ok s3) (d, b).
Proof. done. Qed.

(** Expose the repository and storage methods behind the interfaces. *)
Ltac stack_cbn :=
  cbn [repo_Save repo_FindByID repo_FindByName repo_Delete PG_FunctionRepository
       cs_Store cs_Retrieve cs_Delete S3_CodeStorage
       fst snd pg_save_err pg_find_err pg_name_err pg_delete_err pg_now pg_ok].

(** Reading a function whose row and whose object are there. *)
Lemma stack_Get_found s3 now d b id row code :
  keyed fr_id (db_functions d) → db_functions d !! id = Some row →
  fr_code_key row = key_of s3 code → os_Get b (key_of s3 code) = Some code →
  stack_Get s3 (pg_ok now) s3_ok id (d, b)
  = (Ok (fn_set_Code code (function_of_row row)), (d, b)).
Proof.
  intros Hk Hrow Hkey Hobj. unfold stack_Get, FS_GetFunction, st_bind, st_fst, st_snd. stack_cbn.
  rewrite PG_FindByID_spec, Hrow by done. stack_cbn. unfold function_of_row at 1. cbn [fn_Code].
  rewrite Hkey. by rewrite S3_Retrieve_present.
Qed.

(** Reading a function whose object is gone. *)
Lemma stack_Get_lost s3 e e3 d b id row :
  keyed fr_id (db_functions d) → db_functions d !! id = Some row →
  os_Get b (fr_code_key row) = None →
  ∃ err, stack_Get s3 e e3 id (d, b) = (Err err, (d, b)).
Proof.
  intros Hk Hrow Hgone. unfold stack_Get, FS_GetFunction, st_bind, st_fst, st_snd. stack_cbn.
  rewrite PG_FindByID_spec, Hrow by done. destruct (pg_find_err e); [by eexists|]. stack_cbn.
  unfold function_of_row at 1. cbn [fn_Code]. destruct (S3_Retrieve_gone s3 e3 _ b Hgone) as [err ->]. by eexists.
Qed.

(** C30.  Create then get.  A function that was created is read back with the
    code it was created with and the metadata the database keeps, when the
    reading requests do not fail. *)
Theorem FS_Create_then_Get s3 e e3 now f d b :
  db_inv d → content_ok s3 b → (stack_Create s3 e e3 f (d, b)).1 = Ok tt →
  let s' := (stack_Create s3 e e3 f (d, b)).2 in
  stack_Get s3 (pg_ok now) s3_ok (fn_ID f) s'
  = (Ok (stored (pg_now e) (db_functions d !! fn_ID f) f), s').
Proof.
  intros Hd Hb Hok. destruct (stack_Create s3 e e3 f (d, b)) as [r [d' b']] eqn:Hc.
  simpl in Hok. subst r. cbv zeta. cbn [snd].
  destruct (FS_CreateFunction_inv f (d, b) _ _ (stack_svc_inv s3 d b Hd Hb) Hc)
    as (key & Hst & Hsv). simpl in Hst, Hsv.
  destruct (cs_store_ok (C := S3_CodeStorage s3 e3) b _ _ _ b' Hb Hst) as (_ & Hobj & _).
  pose proof (S3_Store_key _ _ _ _ _ _ _ Hst) as ->.
  assert (Hok : (PG_Save (pg_now e) (pg_save_err e) (fn_set_Code (key_of s3 (fn_Code f)) f) d).1 = Ok tt)
    by by rewrite Hsv.
  destruct (PG_Save_spec _ _ _ _ Hok) as (_ & _ & row & Hrow & Hd').
  assert (Hinv' : db_inv d').
  { pose proof (db_run_inv (pg_now e) (Ok "") (pg_save_err e)
      (CSave (fn_set_Code (key_of s3 (fn_Code f)) f)) d Hd) as Hi. simpl in Hi. by rewrite Hsv in Hi. }
  rewrite Hsv in Hd'. simpl in Hd'. subst d'.
  erewrite (stack_Get_found s3 now _ b' (fn_ID f) row (fn_Code f)).
  - by rewrite Hrow.
  - apply Hinv'.
  - simpl. by rewrite lookup_insert_eq.
  - by apply (f_equal fn_Code) in Hrow.
  - done.
Qed.

(** Deleting a function whose code another function has too.  The
    storage keeps one object per content, so the delete takes the other
    function's code away: its record stays and reading it fails. *)
Theorem FS_Delete_breaks_sharers s3 e e3 d b id1 id2 r1 r2 :
  db_inv d → content_ok s3 b → s3_delete_err e3 = None →
  db_functions d !! id1 = Some r1 → db_functions d !! id2 = Some r2 → id1 ≠ id2 →
  fr_code_key r1 = fr_code_key r2 → fr_code_key r1 ≠ "" →
  (stack_Delete s3 e e3 id1 (d, b)).1 = Ok tt →
  let '(d', b') := (stack_Delete s3 e e3 id1 (d, b)).2 in
  PG_view d' id2 = Some (function_of_row r2)
  ∧ ∀ e' e3', ∃ err, stack_Get s3 e' e3' id2 (d', b') = (Err err, (d', b')).
Proof.
  intros Hd Hb He3 H1 H2 Hne Hkey Hk Hok.
  destruct (stack_Delete s3 e e3 id1 (d, b)) as [r [d' b']] eqn:Hdel. simpl in Hok. subst r.
  pose proof (stack_svc_inv s3 d b Hd Hb) as Hi.
  destruct (FS_DeleteFunction_inv id1 (d, b) _ _ Hi Hdel) as [[Hd' _] (f & Hf & _ & Ho & Hs2)].
  simpl in *. specialize (Ho id2 ltac:(congruence)). unfold PG_view in *.
  rewrite H1 in Hf. simpl in Hf. injection Hf as <-. rewrite H2 in Ho. simpl in Ho.
  split; [done|]. intros e' e3'. apply fmap_Some in Ho as (r & Hr & Heq).
  apply (stack_Get_lost s3 e' e3' d' b' id2 r); [apply Hd'|done|].
  apply (f_equal fn_Code) in Heq. simpl in Heq.
  rewrite Hs2, <- Heq, <- Hkey. unfold S3_Delete. rewrite bool_decide_eq_false_2 by done.
  rewrite He3. apply os_get_delete.
Qed.

(** An update whose save fails.  The old code is deleted before the new
    metadata is saved, so when the save fails the record still names the
    deleted object and reading the function fails. *)
Theorem FS_failed_Update_loses_code s3 e e3 d b f row key err :
  db_inv d → Function_Validate f = None → db_functions d !! fn_ID f = Some row →
  pg_find_err e = None → pg_save_err e = Some err → s3_delete_err e3 = None →
  (S3_Store s3 e3 (fn_ID f) (fn_Code f) b).1 = Ok key →
  fr_code_key row ≠ key → fr_code_key row ≠ "" →
  let '(r, (d', b')) := stack_Update s3 e e3 f (d, b) in
  r = Err (Wrap "failed to save function" err) ∧ d' = d
  ∧ ∀ e' e3', ∃ err', stack_Get s3 e' e3' (fn_ID f) (d', b') = (Err err', (d', b')).
Proof.
  intros Hd Hval Hrow Hfe Hse Hde Hst Hne Hk. pose proof (Function_Validate_code f Hval) as Hcode.
  destruct (S3_Store s3 e3 (fn_ID f) (fn_Code f) b) as [rs b1] eqn:Hs. simpl in Hst. subst rs.
  unfold stack_Update, FS_UpdateFunction, st_bind, st_fst, st_snd. rewrite Hval. stack_cbn.
  rewrite PG_FindByID_spec, Hfe, Hrow by apply Hd. stack_cbn.
  rewrite bool_decide_eq_true_2 by (destruct (fn_Code f); [done|simpl; lia]).
  stack_cbn. rewrite Hs. unfold function_of_row at 1. cbn [fn_Code].
  rewrite bool_decide_eq_true_2 by done.
  unfold st_ignore, S3_Delete, st_modify, st_ret. stack_cbn. cbn [fn_Code function_of_row].
  rewrite (bool_decide_eq_false_2 (fr_code_key row = "")) by done. rewrite Hde. stack_cbn.
  unfold PG_Save, sql_exec. rewrite Hse. split_and!; [done|done|]. intros e' e3'.
  apply (stack_Get_lost s3 e' e3' d _ (fn_ID f) row); [apply Hd|done|]. apply os_get_delete.
Qed.
End Stack.

(** Concrete inputs for the properties above. *)
Definition demo_new (id name code : string) : Function :=
  mkFunction id name "python3.9" "main.handler" code (30 * Second) 128 ∅ 1000000 2000000.

(** Two functions created with the same code. *)
Definition demo_stack : DB * gmap string string :=
  let create := stack_Create (B := gmap string string) (H := tagged_digest) demo_s3 (pg_ok 0) s3_ok in
  let s1 := (create (demo_new "f1" "hello" "x=1") (initSchema, ∅)).2 in
  (create (demo_new "f2" "world" "x=1") s1).2.

#[local] Existing Instances tagged_digest tagged_digest_laws.

Lemma FS_Create_then_Get_witness :
  let f := demo_new "f1" "hello" "x=1" in
  let s' := (stack_Create (B := gmap string string) demo_s3 (pg_ok 0) s3_ok f (initSchema, ∅)).2 in
  stack_Get demo_s3 (pg_ok 0) s3_ok "f1" s' = (Ok f, s').
Proof.
  apply (FS_Create_then_Get (B := gmap string string) demo_s3 (pg_ok 0) s3_ok 0
    (demo_new "f1" "hello" "x=1") initSchema ∅ initSchema_inv (content_ok_empty _)).
  vm_compute. reflexivity.
Defined.

(** Creating a function keeps the stack well formed. *)
Lemma demo_create_inv f d (b : gmap string string) :
  db_inv d → content_ok demo_s3 b →
  (stack_Create demo_s3 (pg_ok 0) s3_ok f (d, b)).1 = Ok tt →
  db_inv (stack_Create demo_s3 (pg_ok 0) s3_ok f (d, b)).2.1
  ∧ content_ok demo_s3 (stack_Create demo_s3 (pg_ok 0) s3_ok f (d, b)).2.2.
Proof.
  intros Hd Hb Hok.
  destruct (stack_Create demo_s3 (pg_ok 0) s3_ok f (d, b)) as [r [d' b']] eqn:Hc.
  simpl in Hok. subst r. simpl.
  destruct (FS_CreateFunction_inv f (d, b) _ _ (stack_svc_inv demo_s3 d b Hd Hb) Hc)
    as (key & Hst & Hsv). split.
  - exact (proj1 (repo_save d _ _ _ Hd Hsv)).
  - exact (proj1 (cs_store_ok (C := S3_CodeStorage demo_s3 s3_ok) b _ _ _ _ Hb Hst)).
Qed.

(** The demo stack is well formed. *)
Lemma demo_stack_inv : db_inv demo_stack.1 ∧ content_ok demo_s3 demo_stack.2.
Proof.
  unfold demo_stack. cbv zeta.
  set (s1 := (stack_Create demo_s3 (pg_ok 0) s3_ok (demo_new "f1" "hello" "x=1") (initSchema, ∅)).2).
  assert (db_inv s1.1 ∧ content_ok demo_s3 s1.2) as [? ?].
  { apply demo_create_inv; [apply initSchema_inv|apply content_ok_empty|vm_compute; reflexivity]. }
  rewrite (surjective_pairing s1). apply demo_create_inv; [done|done|]. rewrite <- surjective_pairing.
  vm_compute. reflexivity.
Qed.

Definition demo_row (id name : string) : FunctionRow :=
  row_of_function (fn_set_Code (key_of demo_s3 "x=1") (demo_new id name "x=1")).

Lemma demo_row_f1 : db_functions demo_stack.1 !! "f1" = Some (demo_row "f1" "hello").
Proof. vm_compute. reflexivity. Qed.
Lemma demo_row_f2 : db_functions demo_stack.1 !! "f2" = Some (demo_row "f2" "world").
Proof. vm_compute. reflexivity. Qed.

(** Both demo functions have their code. *)
Lemma demo_stack_present : codes_present (view := PG_view) (code_at := os_Get) demo_stack.
Proof.
  intros id f Hf. assert (id = "f1" ∨ id = "f2") as [->| ->].
  { unfold PG_view in Hf. apply fmap_Some in Hf as (row & Hrow & _).
    apply elem_of_map_to_list, list_elem_of_In in Hrow.
    assert (Hall : forallb (λ kv, bool_decide (kv.1 = "f1") || bool_decide (kv.1 = "f2"))
      (map_to_list (db_functions demo_stack.1)) = true) by (vm_compute; reflexivity).
    rewrite forallb_forall in Hall. specialize (Hall _ Hrow). simpl in Hall.
    by apply orb_true_iff in Hall as [?%bool_decide_eq_true|?%bool_decide_eq_true]; [left|right]. }
  - unfold PG_view in Hf. rewrite demo_row_f1 in Hf. injection Hf as <-. vm_compute. by eexists.
  - unfold PG_view in Hf. rewrite demo_row_f2 in Hf. injection Hf as <-. vm_compute. by eexists.
Qed.

(** A third function with code of its own is created and deleted. *)
Definition demo_third : DB * gmap string string :=
  (stack_Create (B := gmap string string) (H := tagged_digest) demo_s3 (pg_ok 0) s3_ok (demo_new "f3" "third" "y=1")
     (demo_stack.1, demo_stack.2)).2.

Lemma FS_keeps_code_witness :
  let s' := (stack_Delete (B := gmap string string) demo_s3 (pg_ok 0) s3_ok "f3" demo_third).2 in
  is_Some (PG_view demo_third.1 "f3") ∧ PG_view s'.1 "f3" = None
  ∧ codes_present (view := PG_view) (code_at := os_Get) s'.
Proof.
  intros s'. split; [vm_compute; by eexists|]. split; [vm_compute; reflexivity|].
  assert (svc_inv (invR := db_inv) (invC := content_ok demo_s3) demo_third) as Hinv.
  { apply demo_create_inv; [apply demo_stack_inv..|vm_compute; reflexivity]. }
  assert (codes_present (view := PG_view) (code_at := os_Get) demo_third) as Hp.
  { refine (proj1 (FS_keeps_code (HR := PG_FunctionRepository (pg_ok 0))
      (HC := S3_CodeStorage demo_s3 s3_ok) (view := PG_view) (invR := db_inv) (code_at := os_Get)
      (invC := content_ok demo_s3) (demo_stack.1, demo_stack.2) (demo_new "f3" "third" "y=1") "f3" demo_stack_inv
      demo_stack_present) (Ok tt) demo_third _ _).
    - transitivity ((stack_Create (B := gmap string string) demo_s3 (pg_ok 0) s3_ok (demo_new "f3" "third" "y=1")
        (demo_stack.1, demo_stack.2)).1, demo_third); [apply surjective_pairing|]. f_equal.
    - intros key sc _. by left. }
  refine (proj2 (proj2 (FS_keeps_code (HR := PG_FunctionRepository (pg_ok 0))
    (HC := S3_CodeStorage demo_s3 s3_ok) (view := PG_view) (invR := db_inv) (code_at := os_Get)
    (invC := content_ok demo_s3) demo_third (demo_new "f3" "third" "y=1") "f3" Hinv Hp))
    _ s' (surjective_pairing _) _).
  intros old Hold id' f' Hne Hf'. unfold PG_view in Hf'. apply fmap_Some in Hf' as (row & Hrow & ->).
  assert (fn_Code old = key_of demo_s3 "y=1") as -> by (vm_compute in Hold; by injection Hold as <-).
  apply elem_of_map_to_list, list_elem_of_In in Hrow.
  assert (Hall : forallb (λ kv, bool_decide (kv.1 = "f3") || bool_decide (fr_code_key kv.2 ≠ key_of demo_s3 "y=1"))
    (map_to_list (db_functions demo_third.1)) = true) by (vm_compute; reflexivity).
  rewrite forallb_forall in Hall. specialize (Hall _ Hrow). simpl in Hall.
  apply orb_true_iff in Hall as [Hid|Hk]; [exfalso; apply Hne; exact (bool_decide_eq_true_1 _ Hid)|].
  exact (bool_decide_eq_true_1 _ Hk).
Defined.

Lemma FS_Delete_breaks_sharers_witness :
  let '(d', b') := (stack_Delete (B := gmap string string) demo_s3 (pg_ok 0) s3_ok "f1"
                      (demo_stack.1, demo_stack.2)).2 in
  PG_view d' "f2" = Some (function_of_row (demo_row "f2" "world"))
  ∧ ∀ e' e3', ∃ err, stack_Get demo_s3 e' e3' "f2" (d', b') = (Err err, (d', b')).
Proof.
  apply (FS_Delete_breaks_sharers (B := gmap string string) demo_s3 (pg_ok 0) s3_ok
    demo_stack.1 demo_stack.2 "f1" "f2" (demo_row "f1" "hello") (demo_row "f2" "world")
    (proj1 demo_stack_inv) (proj2 demo_stack_inv) eq_refl demo_row_f1 demo_row_f2).
  - discriminate.
  - reflexivity.
  - vm_compute. discriminate.
  - vm_compute. reflexivity.
Defined.

Definition demo_failing : PgEnv :=
  mkPgEnv 0 (Some (NewError "connection reset")) None None None None.

Lemma FS_failed_Update_loses_code_witness :
  let '(r, (d', b')) := stack_Update (B := gmap string string) demo_s3 demo_failing s3_ok
    (demo_new "f1" "hello" "x=2") (demo_stack.1, demo_stack.2) in
  r = Err (Wrap "failed to save function" (NewError "connection reset")) ∧ d' = demo_stack.1
  ∧ ∀ e' e3', ∃ err', stack_Get demo_s3 e' e3' "f1" (d', b') = (Err err', (d', b')).
Proof.
  apply (FS_failed_Update_loses_code (B := gmap string string) demo_s3 demo_failing s3_ok
    demo_stack.1 demo_stack.2 (demo_new "f1" "hello" "x=2") (demo_row "f1" "hello")
    (key_of demo_s3 "x=2") (NewError "connection reset") (proj1 demo_stack_inv) eq_refl
    demo_row_f1 eq_refl eq_refl eq_refl).
  - vm_compute. reflexivity.
  - vm_compute. discriminate.
  - vm_compute. discriminate.
Defined.
