(* ===== verification/Cache.v ===== *)
(** * Cached function repository (lambda-service internal/cache)

    [RedisCache] and [CachedFunctionRepository].  Function values live in a
    heap of objects: [FindByID] returns a pointer, the cache write it starts
    runs later, in a goroutine, through the same pointer, and what the caller
    does to the object in between is what gets cached.  Goroutines that have
    been started and have not run yet are the [cr_tasks]. *)

From Stdlib Require Import ZArith Lia Ascii.
From stdpp Require Import base strings gmap list numbers.
From S2P Require Import Prelude.
From S2P Require Import Domain.
From S2P Require Import Postgres.
From S2P Require Import CodeStorage.
From S2P Require Import FunctionService.
Open Scope Z_scope.

(** ** The cache *)

(** Redis string keys: GET, SET with a TTL and DEL at an instant, and
    FLUSHDB. *)
Class RedisBlob (R : Type) := {
  blob_GET : R → Z → string → option string;
  blob_SET : R → Z → string → string → Z → R;
  blob_DEL : R → string → R;
  blob_FLUSHDB : R → R
}.
(** A positive TTL of whole milliseconds is the life of the entry; a TTL of
    zero sets none. *)
Class RedisBlobLaws (R : Type) `{!RedisBlob R} := {
  blob_get_set r t k v ttl t' : 0 < ttl → ttl `mod` Millisecond = 0 →
    blob_GET (blob_SET r t k v ttl) t' k = if bool_decide (t' < t + ttl) then Some v else None;
  blob_get_set_forever r t k v t' : blob_GET (blob_SET r t k v 0) t' k = Some v;
  blob_get_set_only r t k v ttl t' v' : blob_GET (blob_SET r t k v ttl) t' k = Some v' → v' = v;
  blob_get_set_ne r t k k' v ttl t' : k ≠ k' → blob_GET (blob_SET r t k v ttl) t' k' = blob_GET r t' k';
  blob_get_del r k t : blob_GET (blob_DEL r k) t k = None;
  blob_get_del_ne r k k' t : k ≠ k' → blob_GET (blob_DEL r k) t k' = blob_GET r t k';
  blob_get_flush r k t : blob_GET (blob_FLUSHDB r) t k = None
}.

(** [json.Marshal] and [json.Unmarshal] of a [domain.Function]. *)
Class FunctionJSON := {
  fj_Marshal : Function → string;
  fj_Unmarshal : string → outcome Function
}.
Class FunctionJSONLaws `{!FunctionJSON} := {
  fj_roundtrip f : fj_Unmarshal (fj_Marshal f) = Ok f
}.

Definition cache_key (id : string) : string := "function:" +:+ id.
Definition invocation_key (id : string) : string := "invocation:" +:+ id.

Section Cache.
Context {R : Type} `{!RedisBlob R} `{!FunctionJSON}.

(** A miss is [(nil, nil)]. *)
Definition RC_GetFunction (t : Z) (err : option error) (id : string) (r : R)
    : outcome (option Function) :=
  match err with
  | Some e => Err e
  | None =>
      match blob_GET r t (cache_key id) with
      | None => Ok None
      | Some data => outcome_bind (fj_Unmarshal data) (λ fn, Ok (Some fn))
      end
  end.

Definition RC_SetFunctionWithTTL (t : Z) (err : option error) (fn : Function) (ttl : Z) : St R unit :=
  λ r, match err with
       | Some e => (Err e, r)
       | None => (Ok tt, blob_SET r t (cache_key (fn_ID fn)) (fj_Marshal fn) ttl)
       end.

Definition RC_SetFunction (default_ttl t : Z) (err : option error) (fn : Function) : St R unit :=
  RC_SetFunctionWithTTL t err fn default_ttl.

Definition RC_DeleteFunction (err : option error) (id : string) : St R unit :=
  λ r, match err with
       | Some e => (Err e, r)
       | None => (Ok tt, blob_DEL r (cache_key id))
       end.

(** Results of invocations, under keys of their own. *)
Definition RC_GetInvocationResult (t : Z) (err : option error) (invocationID : string) (r : R)
    : outcome (option string) :=
  match err with
  | Some e => Err e
  | None => Ok (blob_GET r t (invocation_key invocationID))
  end.

Definition RC_SetInvocationResult (t : Z) (err : option error) (invocationID result : string) (ttl : Z) : St R unit :=
  λ r, match err with
       | Some e => (Err e, r)
       | None => (Ok tt, blob_SET r t (invocation_key invocationID) result ttl)
       end.

(** [info] is what INFO stats answers. *)
Definition RC_GetStats (info : error + string) : outcome (gmap string string) :=
  match info with
  | inl e => Err e
  | inr s => Ok {["info" := s]}
  end.

Definition RC_Flush (err : option error) : St R unit :=
  λ r, match err with
       | Some e => (Err e, r)
       | None => (Ok tt, blob_FLUSHDB r)
       end.

(** ** The cached repository *)

Definition baseTTL : Z := 5 * Minute.
Definition jitterMax : Z := 60.

(** The TTL of [setWithJitter], for the draw [n] of [rand.Intn(jitterMax)]. *)
Definition jittered_ttl (n : Z) : Z := baseTTL + n * Second.

Inductive task :=
  | TSet (p : nat)
  | TDel (id : string).

Context {S : Type} {HR : FunctionRepository S}.

Record CachedRepo := mkCR {
  cr_repo : S;
  cr_redis : R;
  cr_heap : list Function;
  cr_tasks : list task
}.

Definition NewCachedFunctionRepository (repo : S) (cache : R) : CachedRepo := mkCR repo cache [] [].

(** The errors and the clock of one call. *)
Record CacheEnv := mkCacheEnv {
  ce_now : Z;
  ce_get_err : option error;
  ce_set_err : option error;
  ce_del_err : option error;
  ce_jitter : Z
}.
Definition cache_ok (t : Z) : CacheEnv := mkCacheEnv t None None None 0.

(** A fresh object on the heap. *)
Definition cr_alloc (f : Function) (c : CachedRepo) : nat * CachedRepo :=
  (length (cr_heap c), mkCR (cr_repo c) (cr_redis c) (cr_heap c ++ [f]) (cr_tasks c)).
Definition cr_spawn (k : task) (c : CachedRepo) : CachedRepo :=
  mkCR (cr_repo c) (cr_redis c) (cr_heap c) (cr_tasks c ++ [k]).
Definition cr_set_repo (s : S) (c : CachedRepo) : CachedRepo :=
  mkCR s (cr_redis c) (cr_heap c) (cr_tasks c).
Definition cr_set_redis (r : R) (c : CachedRepo) : CachedRepo :=
  mkCR (cr_repo c) r (cr_heap c) (cr_tasks c).

(** [setWithJitter(ctx, fn)] through the pointer [p]. *)
Definition CR_setWithJitter (e : CacheEnv) (p : nat) (c : CachedRepo) : outcome unit * CachedRepo :=
  match cr_heap c !! p with
  | None => (Panic "nil pointer dereference", c)
  | Some fn =>
      let '(r, redis) := RC_SetFunctionWithTTL (ce_now e) (ce_set_err e) fn
                           (jittered_ttl (ce_jitter e)) (cr_redis c) in
      (r, cr_set_redis redis c)
  end.

(** [FindByID], for a caller whose database read is not shared with another's
    in [singleflight]; the result is a pointer. *)
Definition CR_FindByID (e : CacheEnv) (id : string) : St CachedRepo nat := λ c,
  match RC_GetFunction (ce_now e) (ce_get_err e) id (cr_redis c) with
  | Ok (Some fn) => let '(p, c) := cr_alloc fn c in (Ok p, c)
  | _ =>
      match repo_FindByID id (cr_repo c) with
      | (Ok fn, s) =>
          let '(p, c) := cr_alloc fn (cr_set_repo s c) in
          (Ok p, cr_spawn (TSet p) c)
      | (Err err, s) => (Err err, cr_set_repo s c)
      | (Panic w, s) => (Panic w, cr_set_repo s c)
      end
  end.

Definition CR_FindByName (name : string) : St CachedRepo Function := λ c,
  let '(r, s) := repo_FindByName name (cr_repo c) in (r, cr_set_repo s c).

Definition CR_Save (fn : Function) : St CachedRepo unit := λ c,
  match repo_Save fn (cr_repo c) with
  | (Ok _, s) =>
      let '(p, c) := cr_alloc fn (cr_set_repo s c) in (Ok tt, cr_spawn (TSet p) c)
  | (Err err, s) => (Err err, cr_set_repo s c)
  | (Panic w, s) => (Panic w, cr_set_repo s c)
  end.

Definition CR_Delete (id : string) : St CachedRepo unit := λ c,
  match repo_Delete id (cr_repo c) with
  | (Ok _, s) => (Ok tt, cr_spawn (TDel id) (cr_set_repo s c))
  | (Err err, s) => (Err err, cr_set_repo s c)
  | (Panic w, s) => (Panic w, cr_set_repo s c)
  end.

Definition CR_List (offset limit : Z) : St CachedRepo (list Function) := λ c,
  let '(r, s) := repo_List offset limit (cr_repo c) in (r, cr_set_repo s c).

Definition CR_Count : St CachedRepo Z := λ c,
  let '(r, s) := repo_Count (cr_repo c) in (r, cr_set_repo s c).

Definition CR_Exists (e : CacheEnv) (id : string) : St CachedRepo bool := λ c,
  match RC_GetFunction (ce_now e) (ce_get_err e) id (cr_redis c) with
  | Ok (Some _) => (Ok true, c)
  | _ => let '(r, s) := repo_Exists id (cr_repo c) in (r, cr_set_repo s c)
  end.

(** Running one started goroutine; its error is only logged. *)
Definition run_task (e : CacheEnv) (k : task) (c : CachedRepo) : CachedRepo :=
  match k with
  | TSet p => (CR_setWithJitter e p c).2
  | TDel id => cr_set_redis (RC_DeleteFunction (ce_del_err e) id (cr_redis c)).2 c
  end.

(** Goroutine number [i] runs. *)
Definition CR_run (e : CacheEnv) (i : nat) (c : CachedRepo) : CachedRepo :=
  match cr_tasks c !! i with
  | None => c
  | Some k => run_task e k (mkCR (cr_repo c) (cr_redis c) (cr_heap c) (delete i (cr_tasks c)))
  end.

(** ** The function service above it

    [GetFunction] works on the object it was given: it takes the key from
    [Code] and puts the code in its place. *)
Context {SC : Type} {HC : CodeStorage SC}.

Definition CR_GetFunction (e : CacheEnv) (id : string) : St (CachedRepo * SC) nat := λ s,
  match CR_FindByID e id s.1 with
  | (Ok p, c) =>
      match cr_heap c !! p with
      | None => (Panic "nil pointer dereference", (c, s.2))
      | Some fn =>
          match cs_Retrieve (fn_Code fn) s.2 with
          | (Ok code, sc) =>
              (Ok p, (mkCR (cr_repo c) (cr_redis c)
                        (<[p := fn_set_Code code fn]> (cr_heap c)) (cr_tasks c), sc))
          | (Err err, sc) => (Err err, (c, sc))
          | (Panic w, sc) => (Panic w, (c, sc))
          end
      end
  | (Err err, c) => (Err err, (c, s.2))
  | (Panic w, c) => (Panic w, (c, s.2))
  end.

(** [GetFunctionMeta]: what the pointer points to. *)
Definition CR_GetFunctionMeta (e : CacheEnv) (id : string) : St CachedRepo Function := λ c,
  match CR_FindByID e id c with
  | (Ok p, c) => match cr_heap c !! p with
                 | Some fn => (Ok fn, c)
                 | None => (Panic "nil pointer dereference", c)
                 end
  | (Err err, c) => (Err err, c)
  | (Panic w, c) => (Panic w, c)
  end.
End Cache.
Arguments CachedRepo : clear implicits.

(** ** Coherence *)

(** What a cached copy must agree on with the database: everything but the
    times of creation and update, which the database normalises, the timeout
    to the second, which is how the database keeps it. *)
Definition same_core (f g : Function) : Prop :=
  fn_ID f = fn_ID g ∧ fn_Name f = fn_Name g ∧ fn_Runtime f = fn_Runtime g
  ∧ fn_Handler f = fn_Handler g ∧ fn_Code f = fn_Code g ∧ fn_Memory f = fn_Memory g
  ∧ fn_Environment f = fn_Environment g ∧ Z.quot (fn_Timeout f) Second = Z.quot (fn_Timeout g) Second.

(** The function an entry of the cache holds at an instant. *)
Definition cached {R} `{!RedisBlob R} `{!FunctionJSON} (r : R) (t : Z) (id : string) : option Function :=
  match RC_GetFunction t None id r with Ok fn => fn | _ => None end.

#[export] Instance same_core_equiv : Equivalence same_core.
Proof.
  split.
  - intros f. by split_and!.
  - intros f g (? & ? & ? & ? & ? & ? & ? & ?). by split_and!.
  - intros f g h (? & ? & ? & ? & ? & ? & ? & ?) (? & ? & ? & ? & ? & ? & ? & ?). split_and!; congruence.
Qed.

(** What a pending task will do to the entry of [id]: nothing, set it or
    delete it. *)
Definition effect (heap : list Function) (id : string) (k : task) : option (option Function) :=
  match k with
  | TSet p => match heap !! p with
              | Some f => if bool_decide (fn_ID f = id) then Some (Some f) else None
              | None => None
              end
  | TDel i => if bool_decide (i = id) then Some None else None
  end.

(** The last pending effect on [id]. *)
Fixpoint last_effect (heap : list Function) (id : string) (tasks : list task)
    : option (option Function) :=
  match tasks with
  | [] => None
  | k :: rest =>
      match last_effect heap id rest with
      | Some e => Some e
      | None => effect heap id k
      end
  end.

(** The function whose entry a task is about. *)
Definition target (heap : list Function) (k : task) : option string :=
  match k with TSet p => fn_ID <$> heap !! p | TDel id => Some id end.

Section CacheProofs.
Context {R : Type} `{!RedisBlob R, !RedisBlobLaws R} `{!FunctionJSON, !FunctionJSONLaws}.
Context {S : Type} {HR : FunctionRepository S} {view : S → string → option Function} {inv : S → Prop}
  `{!FunctionRepositoryLaws S HR view inv}.
Implicit Types (c : CachedRepo R S).

(** The repository's calls, and its goroutines, their cache writes succeeding:
    any of those that have been started may run, except that the writes of one
    function run in the order they were started. *)
Inductive cr_step : CachedRepo R S → CachedRepo R S → Prop :=
  | cs_find e id c : cr_step c (CR_FindByID e id c).2
  | cs_save f c : cr_step c (CR_Save f c).2
  | cs_delete id c : cr_step c (CR_Delete id c).2
  | cs_run t j i k c : cr_tasks c !! i = Some k →
      (∀ k', k' ∈ take i (cr_tasks c) → target (cr_heap c) k' ≠ target (cr_heap c) k) →
      cr_step c (CR_run (mkCacheEnv t None None None j) i c).

(** An entry, present or about to be, agrees with the database. *)
Definition agrees (s : S) (id : string) (e : option Function) : Prop :=
  match e with
  | Some f => ∃ g, view s id = Some g ∧ same_core f g
  | None => view s id = None
  end.

Definition coherent (c : CachedRepo R S) : Prop :=
  inv (cr_repo c)
  ∧ (∀ p, TSet p ∈ cr_tasks c → p < length (cr_heap c))%nat
  ∧ ∀ id, match last_effect (cr_heap c) id (cr_tasks c) with
          | Some e => agrees (cr_repo c) id e
          | None => ∀ t f, cached (cr_redis c) t id = Some f →
                           agrees (cr_repo c) id (Some f)
          end.

Lemma cache_key_inj a b : cache_key a = cache_key b → a = b.
Proof. apply str_app_inj_l. Qed.

Lemma cached_set_only r t f ttl t' g :
  cached (blob_SET r t (cache_key (fn_ID f)) (fj_Marshal f) ttl) t' (fn_ID f) = Some g → g = f.
Proof.
  unfold cached, RC_GetFunction. destruct (blob_GET _ _ _) as [data|] eqn:E; [|done].
  apply blob_get_set_only in E as ->. rewrite fj_roundtrip. simpl. by intros [= ->].
Qed.
Lemma cached_set r t f j t' : 0 ≤ j → t ≤ t' < t + baseTTL →
  cached (blob_SET r t (cache_key (fn_ID f)) (fj_Marshal f) (jittered_ttl j)) t' (fn_ID f) = Some f.
Proof.
  intros Hj Ht. unfold cached, RC_GetFunction. rewrite blob_get_set.
  - rewrite bool_decide_eq_true_2 by (unfold jittered_ttl, Second; lia). by rewrite fj_roundtrip.
  - unfold jittered_ttl, baseTTL, Minute, Second. lia.
  - replace (jittered_ttl j) with ((300000 + j * 1000) * Millisecond)
      by (unfold jittered_ttl, baseTTL, Minute, Second, Millisecond; lia). apply Z_mod_mult.
Qed.
Lemma cached_set_ne r t id data ttl t' id' : id ≠ id' →
  cached (blob_SET r t (cache_key id) data ttl) t' id' = cached r t' id'.
Proof. intros Hne. unfold cached, RC_GetFunction. by rewrite blob_get_set_ne by (intros ?%cache_key_inj; done). Qed.
Lemma cached_del r id t : cached (blob_DEL r (cache_key id)) t id = None.
Proof. unfold cached, RC_GetFunction. by rewrite blob_get_del. Qed.
Lemma cached_del_ne r id id' t : id ≠ id' → cached (blob_DEL r (cache_key id)) t id' = cached r t id'.
Proof. intros Hne. unfold cached, RC_GetFunction. by rewrite blob_get_del_ne by (intros ?%cache_key_inj; done). Qed.

Lemma effect_grow heap f id k :
  (∀ p, k = TSet p → p < length heap)%nat → effect (heap ++ [f]) id k = effect heap id k.
Proof.
  destruct k as [p|i]; [|done]. intros Hp. simpl.
  by rewrite lookup_app_l by (by apply Hp).
Qed.

Lemma last_effect_grow heap f id tasks :
  (∀ p, TSet p ∈ tasks → p < length heap)%nat →
  last_effect (heap ++ [f]) id tasks = last_effect heap id tasks.
Proof.
  induction tasks as [|k tasks IH]; intros Hp; [done|]. simpl.
  rewrite IH by (intros p Hin; apply Hp; set_solver).
  rewrite effect_grow; [done|]. intros p ->. apply Hp. set_solver.
Qed.

Lemma last_effect_snoc heap id tasks k :
  last_effect heap id (tasks ++ [k])
  = match effect heap id k with Some e => Some e | None => last_effect heap id tasks end.
Proof.
  induction tasks as [|k' tasks IH]; simpl.
  - by destruct (effect heap id k).
  - rewrite IH. by destruct (effect heap id k).
Qed.

Lemma last_effect_app heap id l l' :
  last_effect heap id (l ++ l')
  = match last_effect heap id l' with Some e => Some e | None => last_effect heap id l end.
Proof.
  induction l as [|k l IH]; simpl; [by destruct (last_effect heap id l')|]. rewrite IH.
  by destruct (last_effect heap id l').
Qed.

Lemma effect_target heap id k : target heap k ≠ Some id → effect heap id k = None.
Proof.
  destruct k as [p|i]; simpl; [destruct (heap !! p); simpl; [|done]|]; intros Hne;
    by rewrite bool_decide_eq_false_2 by congruence.
Qed.

Lemma last_effect_none heap id l : (∀ k, k ∈ l → target heap k ≠ Some id) → last_effect heap id l = None.
Proof.
  induction l as [|k l IH]; intros Hl; simpl; [done|]. rewrite IH by (intros; apply Hl; set_solver).
  apply effect_target, Hl. set_solver.
Qed.

(** A new object that no task refers to changes nothing. *)
Lemma coherent_alloc f s c :
  coherent c → cr_repo c = s → coherent (cr_alloc f c).2.
Proof.
  intros (Hi & Hp & Hc) _. split_and!; [done| |].
  - intros p Hin. simpl in *. rewrite length_app. specialize (Hp p Hin). lia.
  - intros id. simpl. rewrite last_effect_grow by done. apply Hc.
Qed.

(** Starting the write of a fresh object whose value is the database's. *)
Lemma coherent_spawn_set f s' c :
  coherent c → inv s' → agrees s' (fn_ID f) (Some f) →
  (∀ id, id ≠ fn_ID f → view s' id = view (cr_repo c) id) →
  coherent (cr_spawn (TSet (length (cr_heap c))) (cr_alloc f (cr_set_repo s' c)).2).
Proof.
  intros (Hi & Hp & Hc) Hi' Hf Ho. split_and!; [done| |].
  - intros p. simpl. rewrite elem_of_app, list_elem_of_singleton, length_app. simpl.
    intros [Hin|[= ->]]; [specialize (Hp p Hin); lia|lia].
  - intros id. simpl. rewrite last_effect_snoc. simpl.
    rewrite lookup_app_r, Nat.sub_diag by lia. simpl. case_bool_decide as Hid.
    + by subst id.
    + rewrite last_effect_grow by done. specialize (Hc id). unfold agrees in *.
      rewrite Ho by done. done.
Qed.

Lemma coherent_spawn_del id s' c :
  coherent c → inv s' → view s' id = None →
  (∀ id', id' ≠ id → view s' id' = view (cr_repo c) id') →
  coherent (cr_spawn (TDel id) (cr_set_repo s' c)).
Proof.
  intros (Hi & Hp & Hc) Hi' Hgone Ho. split_and!; [done| |].
  - intros p. simpl. rewrite elem_of_app, list_elem_of_singleton. intros [Hin|[=]]. by apply Hp.
  - intros id'. simpl. rewrite last_effect_snoc. simpl. case_bool_decide as Hid.
    + by subst id'.
    + specialize (Hc id'). unfold agrees in *. rewrite Ho by done. done.
Qed.

(** What a task does to the cache. *)
Lemma run_task_cached t j k c id t' f :
  (∀ p, k = TSet p → p < length (cr_heap c))%nat →
  cached (cr_redis (run_task (mkCacheEnv t None None None j) k c)) t' id = Some f →
  match effect (cr_heap c) id k with
  | Some e => e = Some f
  | None => cached (cr_redis c) t' id = Some f
  end.
Proof.
  intros Hp. destruct k as [p|i]; simpl.
  - destruct (lookup_lt_is_Some_2 (cr_heap c) p) as [g Hg]; [by apply Hp|].
    unfold CR_setWithJitter. rewrite Hg. simpl. case_bool_decide as Hid.
    + subst id. by intros ->%cached_set_only.
    + by rewrite cached_set_ne.
  - case_bool_decide as Hid; [subst i; by rewrite cached_del|by rewrite cached_del_ne].
Qed.

Lemma run_task_rest e k c :
  cr_repo (run_task e k c) = cr_repo c ∧ cr_heap (run_task e k c) = cr_heap c ∧ cr_tasks (run_task e k c) = cr_tasks c.
Proof.
  destruct k as [p|i]; simpl; [|done]. unfold CR_setWithJitter. destruct (cr_heap c !! p); [|done].
  by destruct (RC_SetFunctionWithTTL _ _ _ _ _).
Qed.

Lemma coherent_run t j i k c :
  coherent c → cr_tasks c !! i = Some k →
  (∀ k', k' ∈ take i (cr_tasks c) → target (cr_heap c) k' ≠ target (cr_heap c) k) →
  coherent (CR_run (mkCacheEnv t None None None j) i c).
Proof.
  destruct c as [s r heap tasks]. intros (Hi & Hp & Hc) Hk Ho. unfold CR_run. simpl in *. rewrite Hk.
  set (c1 := mkCR s r heap (delete i tasks)). set (c2 := run_task _ k c1).
  destruct (run_task_rest (mkCacheEnv t None None None j) k c1) as (E1 & E2 & E3). fold c2 in E1, E2, E3.
  unfold coherent. rewrite E1, E2, E3. simpl.
  assert (Hdel : tasks = take i tasks ++ k :: drop (Datatypes.S i) tasks) by (symmetry; by apply take_drop_middle).
  split_and!; [done| |].
  - intros p Hin. apply Hp. rewrite Hdel. rewrite delete_take_drop in Hin. set_solver.
  - intros id. specialize (Hc id). rewrite Hdel, last_effect_app in Hc. cbn [last_effect] in Hc.
    rewrite delete_take_drop, last_effect_app.
    destruct (last_effect heap id (drop _ tasks)) as [e|]; [done|].
    pose proof (λ t' f, run_task_cached t j k c1 id t' f) as Hrun. fold c2 in Hrun. simpl in Hrun.
    destruct (effect heap id k) as [e|] eqn:He.
    + rewrite last_effect_none.
      * intros t' f Hf. apply Hrun in Hf; [by subst e|]. intros p ->. apply Hp. rewrite Hdel. set_solver.
      * intros k' Hk'. assert (target heap k = Some id) as <-; [|by apply Ho].
        destruct (decide (target heap k = Some id)); [done|]. by rewrite effect_target in He.
    + destruct (last_effect heap id (take i tasks)) as [e|]; [done|]. intros t' f Hf. apply (Hc t').
      apply Hrun; [|done]. intros p ->. apply Hp. rewrite Hdel. set_solver.
Qed.

Lemma cr_set_repo_id c : cr_set_repo (cr_repo c) c = c.
Proof. by destruct c. Qed.

Lemma cr_step_coherent c c' : coherent c → cr_step c c' → coherent c'.
Proof.
  intros Hc Hs. destruct Hs as [e id c|f c|id c|t j i k c Hk Ho]; pose proof Hc as (Hi & _).
  - unfold CR_FindByID. destruct (RC_GetFunction _ _ _ _) as [[fn|]| |].
    { by apply (coherent_alloc fn (cr_repo c)). }
    all: destruct (repo_FindByID id (cr_repo c)) as [r s'] eqn:Hf;
      destruct (repo_find _ _ _ _ Hi Hf) as [-> Hr];
      (destruct r as [fn|err|w]; [|by rewrite cr_set_repo_id|by rewrite cr_set_repo_id]);
      destruct Hr as [Hv Hid]; subst id;
      apply (coherent_spawn_set fn (cr_repo c) c); try done;
      exists fn; split; [done|reflexivity].
  - unfold CR_Save. destruct (repo_Save f (cr_repo c)) as [r s'] eqn:Hs.
    pose proof (repo_save _ _ _ _ Hi Hs) as Hr.
    destruct r as [[]|err|w]; [|subst; by rewrite cr_set_repo_id|done].
    destruct Hr as (Hi' & (f' & Hv & Hcore) & Ho).
    apply (coherent_spawn_set f s' c); [done|done| |done]. unfold agrees. exists f'. split; [done|].
    destruct Hcore as (? & ? & ? & ? & ? & ? & ? & ?). split_and!; congruence.
  - unfold CR_Delete. destruct (repo_Delete id (cr_repo c)) as [r s'] eqn:Hs.
    pose proof (repo_delete _ _ _ _ Hi Hs) as Hr.
    destruct r as [[]|err|w]; [|subst; by rewrite cr_set_repo_id|done].
    destruct Hr as (Hi' & Hgone & Ho). by apply coherent_spawn_del.
  - by apply (coherent_run t j i k).
Qed.


(** A cached entry is served until it expires. *)
Lemma CR_GetFunctionMeta_hit t id c f :
  cached (cr_redis c) t id = Some f →
  (CR_GetFunctionMeta (cache_ok t) id c).1 = Ok f.
Proof.
  unfold cached. intros Hf. unfold CR_GetFunctionMeta, CR_FindByID. cbn [ce_now ce_get_err cache_ok].
  destruct (RC_GetFunction t None id (cr_redis c)) as [fn|?|?]; [|done..]. subst fn. simpl.
  by rewrite lookup_app_r, Nat.sub_diag by lia.
Qed.

(** Results and functions do not interfere.  A stored result is read back,
    unchanged, until its time is up, a result without a time for ever, and no
    cached function is affected. *)
Theorem invocation_results_separate r t id result ttl r' :
  RC_SetInvocationResult t None id result ttl r = (Ok tt, r') →
  (0 < ttl → ttl `mod` Millisecond = 0 → ∀ t', RC_GetInvocationResult t' None id r'
     = Ok (if bool_decide (t' < t + ttl) then Some result else None))
  ∧ (ttl = 0 → ∀ t', RC_GetInvocationResult t' None id r' = Ok (Some result))
  ∧ ∀ t' fid, RC_GetFunction t' None fid r' = RC_GetFunction t' None fid r.
Proof.
  intros [= <-]. split_and!.
  - intros H1 H2 t'. unfold RC_GetInvocationResult. by rewrite blob_get_set.
  - intros -> t'. unfold RC_GetInvocationResult. by rewrite blob_get_set_forever.
  - intros t' fid. unfold RC_GetFunction. by rewrite blob_get_set_ne by done.
Qed.

(** Flushing empties both. *)
Lemma RC_Flush_empty r r' t id : RC_Flush None r = (Ok tt, r') →
  RC_GetFunction t None id r' = Ok None ∧ RC_GetInvocationResult t None id r' = Ok None.
Proof. intros [= <-]. unfold RC_GetFunction, RC_GetInvocationResult. by rewrite !blob_get_flush. Qed.

Context {SC : Type} {HC : CodeStorage SC}.

(** The cache and the caller share the object.  When [GetFunction] misses
    the cache and finishes before the cache write it started has run, the
    write stores the function with the code bytes in place of its storage
    key, and until the entry expires every lookup for an invocation gets
    those bytes as the key. *)
Theorem Cached_GetFunction_poisons_cache e id s r sc g code sc' t2 j t3 :
  inv s → (∀ t i, blob_GET r t (cache_key i) = None) →
  repo_FindByID id s = (Ok g, s) → cs_Retrieve (fn_Code g) sc = (Ok code, sc') →
  0 ≤ j → t2 ≤ t3 < t2 + baseTTL →
  let s1 := (CR_GetFunction e id (NewCachedFunctionRepository s r, sc)).2 in
  let c2 := CR_run (mkCacheEnv t2 None None None j) 0 s1.1 in
  (CR_GetFunctionMeta (cache_ok t3) id c2).1 = Ok (fn_set_Code code g)
  ∧ view (cr_repo c2) id = Some g.
Proof.
  intros Hi Hr Hf Hret Hj Ht. destruct (repo_find _ _ _ _ Hi Hf) as [_ [Hv Hid]].
  assert (Hget : CR_FindByID e id (NewCachedFunctionRepository s r)
    = (Ok 0%nat, mkCR s r [g] [TSet 0])).
  { unfold CR_FindByID, RC_GetFunction. simpl. rewrite Hr, Hf.
    by destruct (ce_get_err e). }
  unfold CR_GetFunction. simpl. rewrite Hget. simpl. rewrite Hret. simpl.
  split; [|done]. apply CR_GetFunctionMeta_hit. simpl. rewrite <- Hid.
  by apply (cached_set r t2 (fn_set_Code code g)).
Qed.

(** A delete whose cache invalidation overtakes an earlier write.  The
    goroutines are not ordered: if the write started by a save runs after the
    invalidation started by the following delete, the deleted function is
    served from the cache until the entry expires. *)
Theorem Cached_deleted_function_served s r f s1 s2 t j t3 :
  inv s → repo_Save f s = (Ok tt, s1) → repo_Delete (fn_ID f) s1 = (Ok tt, s2) →
  0 ≤ j → t ≤ t3 < t + baseTTL →
  let c := (CR_Delete (fn_ID f) (CR_Save f (NewCachedFunctionRepository s r)).2).2 in
  let c' := CR_run (mkCacheEnv t None None None j) 0 (CR_run (mkCacheEnv t None None None j) 1 c) in
  (CR_GetFunctionMeta (cache_ok t3) (fn_ID f) c').1 = Ok f
  ∧ view (cr_repo c') (fn_ID f) = None ∧ cr_tasks c' = [].
Proof.
  intros Hi Hs Hd Hj Ht. destruct (repo_save _ _ _ _ Hi Hs) as (Hi1 & _ & _).
  pose proof (repo_delete _ _ _ _ Hi1 Hd) as (_ & Hgone & _).
  unfold CR_Save. simpl. rewrite Hs. unfold CR_Delete. simpl. rewrite Hd. simpl.
  split_and!; [|done|done]. apply CR_GetFunctionMeta_hit. simpl.
  apply cached_set; lia.
Qed.
End CacheProofs.

(** ** A concrete store *)

#[export] Instance mem_blob : RedisBlob (gmap string (string * option Z)) := {
  blob_GET := λ r t k, match r !! k with
                       | Some (v, d) => if default true ((λ d, bool_decide (t < d)) <$> d) then Some v else None
                       | None => None
                       end;
  blob_SET := λ r t k v ttl, <[k := (v, if bool_decide (0 < ttl) then Some (t + ttl) else None)]> r;
  blob_DEL := λ r k, delete k r;
  blob_FLUSHDB := λ r, ∅
}.
#[export] Instance mem_blob_laws : RedisBlobLaws (gmap string (string * option Z)).
Proof.
  split; intros; simpl in *.
  - rewrite lookup_insert_eq, bool_decide_eq_true_2 by done. done.
  - by rewrite lookup_insert_eq.
  - rewrite lookup_insert_eq in *. by case_match; simplify_eq.
  - by rewrite lookup_insert_ne.
  - by rewrite lookup_delete_eq.
  - by rewrite lookup_delete_ne.
  - by rewrite lookup_empty.
Qed.

Abbreviation demo_redis := (gmap string (string * option Z)).

(** A text for functions that can be read back: the bits of their number. *)
#[local] Instance function_eq_dec : EqDecision Function.
Proof. solve_decision. Defined.
#[local] Program Instance function_countable : Countable Function :=
  inj_countable' (λ f, (fn_ID f, fn_Name f, fn_Runtime f, fn_Handler f, fn_Code f, fn_Timeout f, fn_Memory f,
                        fn_Environment f, fn_CreatedAt f, fn_UpdatedAt f))
    (λ '(a, b, c, d, e, f, g, h, i, j), mkFunction a b c d e f g h i j) _.
Next Obligation. by intros []. Qed.

Fixpoint pos_text (p : positive) : string :=
  match p with xH => "" | xO p => String "0"%char (pos_text p) | xI p => String "1"%char (pos_text p) end.
Fixpoint text_pos (s : string) : positive :=
  match s with
  | EmptyString => xH
  | String a s => if bool_decide (a = "1"%char) then xI (text_pos s) else xO (text_pos s)
  end.
Lemma text_pos_text p : text_pos (pos_text p) = p.
Proof. induction p as [p IH|p IH|]; simpl; by rewrite ?IH. Qed.

#[local] Instance bit_json : FunctionJSON := {|
  fj_Marshal f := pos_text (encode f);
  fj_Unmarshal s := match decode (text_pos s) with Some f => Ok f | None => Err (NewError "invalid character") end
|}.
#[local] Instance bit_json_laws : FunctionJSONLaws.
Proof. split. intros f. simpl. by rewrite text_pos_text, decode_encode. Qed.

#[local] Instance demo_repo : FunctionRepository DB := PG_FunctionRepository (pg_ok 0).

Lemma demo_redis_empty t id : blob_GET (∅ : demo_redis) t (cache_key id) = None.
Proof. simpl. by rewrite lookup_empty. Qed.


#[local] Existing Instances tagged_digest tagged_digest_laws.

Lemma Cached_GetFunction_poisons_cache_witness :
  let hc := S3_CodeStorage (B := gmap string string) demo_s3 s3_ok in
  let f := demo_function "f1" "hello" (key_of demo_s3 "x=1") in
  let d := (PG_Save 0 None f initSchema).2 in
  let b : gmap string string := <[key_of demo_s3 "x=1" := "x=1"]> ∅ in
  let s1 := (CR_GetFunction (HC := hc) (cache_ok 0) "f1"
               (NewCachedFunctionRepository d (∅ : demo_redis), b)).2 in
  let c2 := CR_run (mkCacheEnv 1 None None None 0) 0 s1.1 in
  (CR_GetFunctionMeta (cache_ok 2) "f1" c2).1 = Ok (fn_set_Code "x=1" f)
  ∧ PG_view (cr_repo c2) "f1" = Some f.
Proof.
  intros hc f d b.
  assert (Hd : db_inv d) by (apply (db_run_inv 0 (Ok "") None (CSave f)), initSchema_inv).
  apply (Cached_GetFunction_poisons_cache (R := demo_redis) (HC := hc) (view := PG_view)
    (inv := db_inv) (cache_ok 0) "f1" d ∅ b f "x=1" b 1 0 2 Hd demo_redis_empty).
  - refine (eq_trans (PG_FindByID_spec None "f1" d (inv_functions_pk d Hd)) _). reflexivity.
  - apply S3_Retrieve_present. simpl. apply lookup_insert_eq.
  - lia.
  - unfold baseTTL, Minute, Second. lia.
Defined.

Lemma Cached_deleted_function_served_witness :
  let f := demo_function "f1" "hello" "k1" in
  let c := (CR_Delete "f1" (CR_Save f (NewCachedFunctionRepository initSchema (∅ : demo_redis))).2).2 in
  let c' := CR_run (mkCacheEnv 0 None None None 0) 0 (CR_run (mkCacheEnv 0 None None None 0) 1 c) in
  (CR_GetFunctionMeta (cache_ok 1) "f1" c').1 = Ok f
  ∧ PG_view (cr_repo c') "f1" = None ∧ cr_tasks c' = [].
Proof.
  intros f.
  apply (Cached_deleted_function_served (R := demo_redis) (view := PG_view) (inv := db_inv)
    initSchema ∅ f (PG_Save 0 None f initSchema).2
    (PG_Delete None "f1" (PG_Save 0 None f initSchema).2).2 0 0 1 initSchema_inv).
  - reflexivity.
  - reflexivity.
  - lia.
  - unfold baseTTL, Minute, Second. lia.
Defined.
