(* ===== verification/DockerPool.v ===== *)
(** * Container pool (lambda-service internal/pool/docker_pool.go, pool.go)

    [DockerPool]: a bounded channel of warm containers, the map of containers
    in use, and the goroutines that stop and create containers in the
    background.  The pool's methods run on a [Pool]; goroutines stand in
    [p_tasks], each just before its next access to what it shares with the
    others or its next request to the daemon.  [p_running] is the set of
    containers the daemon has for the pool, [p_files] what was written into
    them.  [pool_step] interleaves the steps of all goroutines and the calls of
    the methods; [pool_panics] has the steps that end the process.  The
    counters of [poolMetrics] change with the step next to them, and creating
    and starting a container is one step. *)

From Stdlib Require Import ZArith Lia QArith_base.
From stdpp Require Import base strings gmap list numbers sets.
From S2P Require Import Prelude.
Open Scope Z_scope.

(** ** Data *)

Inductive ContainerState := StateWarm | StateInUse | StateCleaning | StateEvicted.

#[export] Instance ContainerState_eq_dec : EqDecision ContainerState.
Proof. solve_decision. Defined.

Definition ContainerState_String (s : ContainerState) : string :=
  match s with
  | StateWarm => "warm"
  | StateInUse => "in-use"
  | StateCleaning => "cleaning"
  | StateEvicted => "evicted"
  end.

Record Container := mkContainer {
  ct_ID : string;
  ct_Runtime : string;
  ct_CodeKey : string;
  ct_CreatedAt : Z;
  ct_LastUsed : Z;
  ct_UseCount : Z;
  ct_State : ContainerState;
  ct_MemoryUsed : Z
}.

(** [pc_seeds] says whether a [SeedFunc] is configured. *)
Record PoolConfig := mkPoolConfig {
  pc_Runtime : string;
  pc_MinSize : Z;
  pc_MaxSize : Z;
  pc_MaxIdleTime : Z;
  pc_MaxUseCount : Z;
  pc_TickInterval : Z;
  pc_seeds : bool
}.

Definition DefaultPoolConfig (runtime : string) : PoolConfig :=
  mkPoolConfig runtime 1 5 (5 * Minute) 500 (30 * Second) false.

Record poolMetrics := mkMetrics {
  coldStarts : Z;
  warmStarts : Z;
  totalEvictions : Z;
  totalCreated : Z
}.

(** What has been written into each container: the files of each identifier. *)
Abbreviation Files := (gmap string (gmap string string)).

(** What a goroutine inside [enqueueNew] does when that returns: it ends, or,
    for the loop of [Start], it goes on. *)
Inductive kont := KEnd | KStart.

(** Where a goroutine stands: just before its next access to the state it
    shares with the others or its next request to the daemon.

    - [Enq*], [Send], [Stop]: [enqueueNew]; [Send] and [Stop] also end
      [Release], [Evict] and the stops that a tick starts;
    - [ReleaseRetire], [ReleaseCheck]: [Release]; [AcquireStore]: [Acquire]
      once it has received; [DiscardStop], [Replenish]: the goroutines of
      [Discard] and [Release]; [StartLoop]: [Start];
    - [Life*]: [runLifecycle] and [evictAndReplenish]; [Shut*]: [Shutdown]. *)
Inductive stage :=
  | EnqCheck (k : kont)
  | EnqCreate (k : kont)
  | EnqSeed (k : kont) (id : string)
  | EnqRecheck (k : kont) (c : Container)
  | Send (k : kont) (c : Container)
  | Stop (k : kont) (ok : bool) (id : string)
  | ReleaseRetire (id : string)
  | ReleaseCheck (c : Container)
  | AcquireStore (c : Container)
  | DiscardStop (id : string)
  | Replenish
  | StartLoop
  | LifeSelect
  | LifeDrain (keep : list Container) (toEvict : list string)
  | LifeReturn (keep : list Container)
  | LifeReplenish
  | ShutWait
  | ShutDrain
  | ShutStop (id : string)
  | ShutInUse (ids : list string).

(** [g_wg]: counted in the pool's wait group. *)
Record goroutine := mkGo { g_wg : bool; g_at : stage }.

(** [p_running]: the containers the daemon has for the pool.  [p_files]: what
    the seed function wrote into them; the record of a container stays when it
    is removed, since the daemon does not use its identifier again. *)
Record Pool := mkPool {
  p_config : PoolConfig;
  p_idle : list Container;
  p_idle_closed : bool;
  p_inUse : gmap string Container;
  p_stats : poolMetrics;
  p_createdAt : Z;
  p_closed : bool;
  p_tasks : list goroutine;
  p_running : gset string;
  p_files : Files
}.

Definition NewDockerPool (client_err ping_err : option error) (now : Z) (config : PoolConfig)
    : outcome Pool :=
  match client_err, ping_err with
  | Some e, _ => Err (Wrap "failed to create docker client" e)
  | None, Some e => Err (Wrap "failed to ping docker daemon" e)
  | None, None =>
      if bool_decide (pc_MaxSize config < 0) then Panic "makechan: size out of range"
      else Ok (mkPool config [] false ∅ (mkMetrics 0 0 0 0) now false [] ∅ ∅)
  end.

Definition p_set_idle l p := mkPool (p_config p) l (p_idle_closed p) (p_inUse p) (p_stats p)
  (p_createdAt p) (p_closed p) (p_tasks p) (p_running p) (p_files p).
Definition p_set_inUse m p := mkPool (p_config p) (p_idle p) (p_idle_closed p) m (p_stats p)
  (p_createdAt p) (p_closed p) (p_tasks p) (p_running p) (p_files p).
Definition p_set_stats s p := mkPool (p_config p) (p_idle p) (p_idle_closed p) (p_inUse p) s
  (p_createdAt p) (p_closed p) (p_tasks p) (p_running p) (p_files p).
Definition p_set_closed b p := mkPool (p_config p) (p_idle p) (p_idle_closed p) (p_inUse p) (p_stats p)
  (p_createdAt p) b (p_tasks p) (p_running p) (p_files p).
Definition p_close_idle p := mkPool (p_config p) (p_idle p) true (p_inUse p) (p_stats p)
  (p_createdAt p) (p_closed p) (p_tasks p) (p_running p) (p_files p).
Definition p_set_tasks t p := mkPool (p_config p) (p_idle p) (p_idle_closed p) (p_inUse p) (p_stats p)
  (p_createdAt p) (p_closed p) t (p_running p) (p_files p).
Definition p_set_running r p := mkPool (p_config p) (p_idle p) (p_idle_closed p) (p_inUse p) (p_stats p)
  (p_createdAt p) (p_closed p) (p_tasks p) r (p_files p).
Definition p_set_files fs p := mkPool (p_config p) (p_idle p) (p_idle_closed p) (p_inUse p) (p_stats p)
  (p_createdAt p) (p_closed p) (p_tasks p) (p_running p) fs.
Definition p_go (g : goroutine) (p : Pool) : Pool := p_set_tasks (p_tasks p ++ [g]) p.

Definition count_eviction p :=
  p_set_stats (mkMetrics (coldStarts (p_stats p)) (warmStarts (p_stats p))
                 (totalEvictions (p_stats p) + 1) (totalCreated (p_stats p))) p.
Definition count_warm p :=
  p_set_stats (mkMetrics (coldStarts (p_stats p)) (warmStarts (p_stats p) + 1)
                 (totalEvictions (p_stats p)) (totalCreated (p_stats p))) p.
Definition count_created p :=
  p_set_stats (mkMetrics (coldStarts (p_stats p) + 1) (warmStarts (p_stats p))
                 (totalEvictions (p_stats p)) (totalCreated (p_stats p) + 1)) p.

Definition idle_len (p : Pool) : Z := Z.of_nat (length (p_idle p)).

(** ** The daemon *)

(** What the daemon and the seed function do for one container: the new
    identifier, the error of starting it, what the configured [SeedFunc] does
    on the files written so far when it is called with an identifier, the
    clock, and the error of removing a container. *)
Record DockerEnv := mkDocker {
  dk_create : error + string;
  dk_start_err : option error;
  dk_seed : string → Files → (error + string) * Files;
  dk_now : Z;
  dk_remove_err : string → option error
}.

Open Scope golang_scope.

Definition stopDockerContainer (rm : string → option error) (id : string) : St Pool unit := λ p,
  match rm id with
  | Some e => (Err e, p)
  | None => (Ok tt, p_set_running (p_running p ∖ {[id]}) p)
  end.

(** A container that was created and could not be started stays behind. *)
Definition createDockerContainer (e : DockerEnv) : St Pool string := λ p,
  match dk_create e with
  | inr id =>
      let p := p_set_running (p_running p ∪ {[id]}) p in
      match dk_start_err e with
      | Some err => (Err (Wrap "ContainerStart" err), p)
      | None => (Ok id, p)
      end
  | inl err => (Err (Wrap "ContainerCreate" err), p)
  end.

(** [select { case p.idle <- c: ... default: ... }]: whether it was sent. *)
Definition idle_send (c : Container) : St Pool bool := λ p,
  if p_idle_closed p then (Panic "send on closed channel", p)
  else if bool_decide (idle_len p < pc_MaxSize (p_config p))
  then (Ok true, p_set_idle (p_idle p ++ [c]) p)
  else (Ok false, p).

(** [p.config.SeedFunc(ctx, id)], where one is configured. *)
Definition SeedFunc (e : DockerEnv) (id : string) : St Pool string := λ p,
  if pc_seeds (p_config p) then
    let '(r, fs) := dk_seed e id (p_files p) in
    (match r with inl err => Err err | inr key => Ok key end, p_set_files fs p)
  else (Ok "", p).

Definition new_container (e : DockerEnv) (id codeKey : string) (p : Pool) : Container :=
  mkContainer id (pc_Runtime (p_config p)) codeKey (dk_now e) (dk_now e) 0 StateWarm 0.

(** ** Methods

    A method as one goroutine runs it alone; [goroutine_step] below has the
    same steps one at a time. *)

Definition enqueueNew (e : DockerEnv) : St Pool unit :=
  p <-! st_get ;;
  if p_closed p then st_fail (NewError "pool is shut down")
  else
    id <-! st_wrap "create docker container" (createDockerContainer e) ;;
    seeded <-? SeedFunc e id ;;
    match seeded with
    | Ok codeKey =>
        st_modify count_created ;;!
        p <-! st_get ;;
        if p_closed p then
          st_ignore (stopDockerContainer (dk_remove_err e) id) ;;!
          st_fail (NewError "pool is shut down")
        else
          sent <-! idle_send (new_container e id codeKey p) ;;
          if (sent : bool) then st_ret tt
          else st_ignore (stopDockerContainer (dk_remove_err e) id)
    | Err seedErr =>
        st_ignore (stopDockerContainer (dk_remove_err e) id) ;;!
        st_fail (Wrap "seed container" seedErr)
    | Panic w => st_lift (Panic w)
    end.

(** The loop of [Start], one environment per turn; the flag says whether it
    has finished when they run out. *)
Fixpoint Start_loop (envs : list DockerEnv) (p : Pool) : bool * Pool :=
  if bool_decide (pc_MinSize (p_config p) ≤ idle_len p) then (true, p)
  else
    match envs with
    | [] => (false, p)
    | e :: rest =>
        match enqueueNew e p with
        | (Ok _, p') => Start_loop rest p'
        | (_, p') => (true, p')
        end
    end.

(** [Start]: [None] while it fills the pool. *)
Definition lifecycle : goroutine := mkGo true LifeSelect.

Definition DP_Start (envs : list DockerEnv) (p : Pool) : option Pool :=
  let '(finished, p) := Start_loop envs p in
  if (finished : bool) then Some (p_go lifecycle p) else None.

(** The container as [Acquire] hands it out, and as [Release] takes it back. *)
Definition lent (now : Z) (c : Container) : Container :=
  mkContainer (ct_ID c) (ct_Runtime c) (ct_CodeKey c) (ct_CreatedAt c) now (wrap64 (ct_UseCount c + 1))
    StateInUse (ct_MemoryUsed c).
Definition returned (now : Z) (c : Container) : Container :=
  mkContainer (ct_ID c) (ct_Runtime c) (ct_CodeKey c) (ct_CreatedAt c) now (ct_UseCount c) StateWarm
    (ct_MemoryUsed c).

Definition worn_out (p : Pool) (c : Container) : bool :=
  bool_decide (0 < pc_MaxUseCount (p_config p)) && bool_decide (pc_MaxUseCount (p_config p) ≤ ct_UseCount c).

(** [Acquire]: [None] when it blocks.  [ctx_err] is the context's error once
    it is done; when a container is ready too, [first] says which case the
    select takes. *)
Definition DP_Acquire (now : Z) (ctx_err : option error) (first : bool) (p : Pool)
    : option (outcome Container * Pool) :=
  let take := match p_idle p with
              | c :: rest =>
                  let p := p_set_idle rest p in
                  let p := p_set_inUse (<[ct_ID c := lent now c]> (p_inUse p)) p in
                  Some (Ok (lent now c), count_warm p)
              | [] => if p_idle_closed p then Some (Err (NewError "pool is shut down"), p) else None
              end in
  match ctx_err with
  | None => take
  | Some err =>
      match take with
      | None => Some (Err err, p)
      | Some r => if first then Some r else Some (Err err, p)
      end
  end.

Definition DP_Discard (c : Container) (p : Pool) : Pool :=
  let p := p_set_inUse (delete (ct_ID c) (p_inUse p)) p in
  p_go (mkGo true (DiscardStop (ct_ID c))) (count_eviction p).

(** [Release] up to its channel operation: it ends by itself, or the container
    [c] is to be sent. *)
Definition Release_prepare (now : Z) (rm : string → option error) (c : Container)
    : St Pool (option Container) :=
  st_modify (λ p, p_set_inUse (delete (ct_ID c) (p_inUse p)) p) ;;!
  p <-! st_get ;;
  if worn_out p c then
    stopDockerContainer rm (ct_ID c) ;;!
    st_modify (λ p, p_go (mkGo true Replenish) (count_eviction p)) ;;!
    st_ret None
  else
    if p_closed p then st_ignore (stopDockerContainer rm (ct_ID c)) ;;! st_ret None
    else st_ret (Some (returned now c)).

Definition Release_send (rm : string → option error) (c : Container) : St Pool unit :=
  sent <-! idle_send c ;;
  if (sent : bool) then st_ret tt else st_ignore (stopDockerContainer rm (ct_ID c)).

Definition DP_Release (now : Z) (rm : string → option error) (c : option Container) : St Pool unit :=
  match c with
  | None => st_fail (NewError "cannot release nil container")
  | Some c =>
      r <-! Release_prepare now rm c ;;
      match r with
      | None => st_ret tt
      | Some c' => Release_send rm c'
      end
  end.

Definition DP_CreateNew (e : DockerEnv) : St Pool unit := enqueueNew e.

(** A receive from the closed, drained channel yields nil, whose [ID] is then
    read. *)
Definition DP_Evict (rm : string → option error) : St Pool unit := λ p,
  match p_idle p with
  | c :: rest => stopDockerContainer rm (ct_ID c) (p_set_idle rest p)
  | [] => if p_idle_closed p then (Panic "nil pointer dereference", p)
          else (Err (NewError "pool is empty, nothing to evict"), p)
  end.

Definition DP_Size (p : Pool) : Z := idle_len p + Z.of_nat (size (p_inUse p)).

Record PoolStats := mkPoolStats {
  ps_Runtime : string;
  ps_TotalContainers : Z;
  ps_WarmContainers : Z;
  ps_InUseContainers : Z;
  ps_HitRate : Q;
  ps_ColdStarts : Z;
  ps_WarmStarts : Z;
  ps_TotalEvictions : Z;
  ps_AverageUseCount : Q;
  ps_CreatedAt : Z
}.

(** The hit rate, a [float64] in the code, is exact here.  The average use
    count is left at zero. *)
Definition DP_Stats (p : Pool) : PoolStats :=
  let inUse := Z.of_nat (size (p_inUse p)) in
  let warm := idle_len p in
  let total := coldStarts (p_stats p) + warmStarts (p_stats p) in
  let hit := if bool_decide (0 < total) then Qmake (warmStarts (p_stats p) * 100) (Z.to_pos total)
             else Qmake 0 1 in
  mkPoolStats (pc_Runtime (p_config p)) (warm + inUse) warm inUse hit
    (coldStarts (p_stats p)) (warmStarts (p_stats p)) (totalEvictions (p_stats p)) (Qmake 0 1) (p_createdAt p).

(** Stop every container of a list, collecting the errors. *)
Fixpoint stop_all (rm : string → option error) (ids : list string) (p : Pool) : list error * Pool :=
  match ids with
  | [] => ([], p)
  | id :: rest =>
      let '(r, p) := stopDockerContainer rm id p in
      let '(errs, p) := stop_all rm rest p in
      (match r with Err e => e :: errs | _ => errs end, p)
  end.

(** The goroutines [Shutdown] waits for; [wg.Wait] returns once there are none. *)
Definition waiting_for (p : Pool) : list goroutine := filter (λ g, g_wg g = true) (p_tasks p).

(** [Shutdown] run alone: [None] while it waits.  The call that marks the pool
    closed waits for the goroutines and closes the channel; later calls only
    wait for the channel to be closed.  A lifecycle goroutine at its select
    ends by itself, since the stop channel is closed. *)
Definition Shutdown_mark (p : Pool) : Pool := p_set_closed true p.

Definition at_select (g : goroutine) : bool :=
  match g_at g with LifeSelect => true | _ => false end.

Definition Shutdown_finish (rm : string → option error) (p : Pool) : option (outcome unit * Pool) :=
  let p := p_set_tasks (filter (λ g, at_select g = false) (p_tasks p)) p in
  if p_idle_closed p || bool_decide (waiting_for p = []) then
    let p := p_close_idle p in
    let '(e1, p) := stop_all rm (ct_ID <$> p_idle p) (p_set_idle [] p) in
    let '(e2, p) := stop_all rm (map_to_list (p_inUse p)).*1 p in
    Some (match e1 ++ e2 with
          | [] => Ok tt
          | _ => Err (NewError "shutdown errors")
          end, p)
  else None.

(** ** Steps

    One step of a goroutine, on the pool without it: [None] when it blocks;
    else where it stands next ([None] when it has ended), or a panic, which
    ends the process. *)
Abbreviation Next := (option (outcome (option stage) * Pool)).

Definition next (s : stage) (p : Pool) : Next := Some (Ok (Some s), p).
Definition ended (p : Pool) : Next := Some (Ok None, p).

(** [enqueueNew] returns; [ok] says whether its error is nil. *)
Definition enq_return (k : kont) (ok : bool) (p : Pool) : Next :=
  match k, ok with
  | KEnd, _ => ended p
  | KStart, true => next StartLoop p
  | KStart, false => ended (p_go lifecycle p)
  end.

Definition enq_check (k : kont) (p : Pool) : Next :=
  if p_closed p then enq_return k false p else next (EnqCreate k) p.

Definition enq_create (e : DockerEnv) (k : kont) (p : Pool) : Next :=
  match createDockerContainer e p with
  | (Ok id, p) => next (EnqSeed k id) p
  | (Err _, p) => enq_return k false p
  | (Panic w, p) => Some (Panic w, p)
  end.

Definition enq_seed (e : DockerEnv) (k : kont) (id : string) (p : Pool) : Next :=
  match SeedFunc e id p with
  | (Ok codeKey, p) => next (EnqRecheck k (new_container e id codeKey p)) (count_created p)
  | (Err _, p) => next (Stop k false id) p
  | (Panic w, p) => Some (Panic w, p)
  end.

(** The container was created and seeded: did [Shutdown] race with it? *)
Definition enq_recheck (k : kont) (c : Container) (p : Pool) : Next :=
  if p_closed p then next (Stop k false (ct_ID c)) p else next (Send k c) p.

Definition send_step (k : kont) (c : Container) (p : Pool) : Next :=
  match idle_send c p with
  | (Ok true, p) => enq_return k true p
  | (Ok false, p) => next (Stop k true (ct_ID c)) p
  | (Err _, p) => enq_return k false p
  | (Panic w, p) => Some (Panic w, p)
  end.

Definition stop_step (rm : string → option error) (k : kont) (ok : bool) (id : string) (p : Pool) : Next :=
  enq_return k ok (stopDockerContainer rm id p).2.

(** [Release] from its removal from the map on: where it stands then. *)
Definition release_entry (now : Z) (c : Container) (p : Pool) : stage :=
  if worn_out p c then ReleaseRetire (ct_ID c) else ReleaseCheck (returned now c).

Definition release_retire (rm : string → option error) (id : string) (p : Pool) : Next :=
  match stopDockerContainer rm id p with
  | (Ok _, p) => ended (p_go (mkGo true Replenish) (count_eviction p))
  | (_, p) => ended p
  end.

Definition release_check (c : Container) (p : Pool) : Next :=
  if p_closed p then next (Stop KEnd true (ct_ID c)) p else next (Send KEnd c) p.

Definition acquire_store (c : Container) (p : Pool) : Next :=
  ended (count_warm (p_set_inUse (<[ct_ID c := c]> (p_inUse p)) p)).

Definition discard_stop (rm : string → option error) (id : string) (p : Pool) : Next :=
  next Replenish (stopDockerContainer rm id p).2.

Definition replenishOne (p : Pool) : Next :=
  if bool_decide (pc_MinSize (p_config p) ≤ idle_len p) then ended p else next (EnqCheck KEnd) p.

Definition start_loop (p : Pool) : Next :=
  if bool_decide (idle_len p < pc_MinSize (p_config p)) then next (EnqCheck KStart) p
  else ended (p_go lifecycle p).

(** The select of [runLifecycle]: a tick, or the end of its context or of the
    pool. *)
Definition life_select (tick : bool) (p : Pool) : Next :=
  if tick then next (LifeDrain [] []) p else ended p.

Definition fresh_enough (now : Z) (p : Pool) (c : Container) : bool :=
  bool_decide (time_Sub now (ct_LastUsed c) < pc_MaxIdleTime (p_config p)).

Definition go_stop (p : Pool) (id : string) : Pool := p_go (mkGo false (Stop KEnd true id)) p.

(** [evictAndReplenish], one receive at a time; from a closed and drained
    channel it receives nil. *)
Definition evict_drain (now : Z) (keep : list Container) (toEvict : list string) (p : Pool) : Next :=
  match p_idle p with
  | c :: rest =>
      let p := p_set_idle rest p in
      if fresh_enough now p c then next (LifeDrain (keep ++ [c]) toEvict) p
      else next (LifeDrain keep (toEvict ++ [ct_ID c])) (count_eviction p)
  | [] =>
      if p_idle_closed p then Some (Panic "nil pointer dereference", p)
      else next (LifeReturn keep) (foldl go_stop p toEvict)
  end.

Definition evict_return (keep : list Container) (p : Pool) : Next :=
  match keep with
  | [] => next LifeReplenish p
  | c :: rest =>
      match idle_send c p with
      | (Ok true, p) => next (LifeReturn rest) p
      | (Ok false, p) => next (LifeReturn rest) (go_stop p (ct_ID c))
      | (Err _, p) => ended p
      | (Panic w, p) => Some (Panic w, p)
      end
  end.

Definition evict_replenish (p : Pool) : Next :=
  let deficit := pc_MinSize (p_config p) - idle_len p in
  next LifeSelect (p_set_tasks (p_tasks p ++ replicate (Z.to_nat deficit) (mkGo true (EnqCheck KEnd))) p).

Definition shut_wait (p : Pool) : Next :=
  if bool_decide (waiting_for p = []) then next ShutDrain (p_close_idle p) else None.

(** [for c := range p.idle]: it blocks while the channel is empty and open. *)
Definition shut_drain (p : Pool) : Next :=
  match p_idle p with
  | c :: rest => next (ShutStop (ct_ID c)) (p_set_idle rest p)
  | [] => if p_idle_closed p then next (ShutInUse (map_to_list (p_inUse p)).*1) p else None
  end.

(** [p.inUse.Range]: a key that is deleted meanwhile may be visited or not. *)
Definition shut_in_use (rm : string → option error) (visit : bool) (ids : list string) (p : Pool) : Next :=
  match ids with
  | [] => ended p
  | id :: rest =>
      if visit || bool_decide (is_Some (p_inUse p !! id))
      then next (ShutInUse rest) (stopDockerContainer rm id p).2
      else next (ShutInUse rest) p
  end.

(** [choice] decides a select and a visit. *)
Definition goroutine_step (e : DockerEnv) (choice : bool) (s : stage) (p : Pool) : Next :=
  match s with
  | EnqCheck k => enq_check k p
  | EnqCreate k => enq_create e k p
  | EnqSeed k id => enq_seed e k id p
  | EnqRecheck k c => enq_recheck k c p
  | Send k c => send_step k c p
  | Stop k ok id => stop_step (dk_remove_err e) k ok id p
  | ReleaseRetire id => release_retire (dk_remove_err e) id p
  | ReleaseCheck c => release_check c p
  | AcquireStore c => acquire_store c p
  | DiscardStop id => discard_stop (dk_remove_err e) id p
  | Replenish => replenishOne p
  | StartLoop => start_loop p
  | LifeSelect => life_select choice p
  | LifeDrain keep toEvict => evict_drain (dk_now e) keep toEvict p
  | LifeReturn keep => evict_return keep p
  | LifeReplenish => evict_replenish p
  | ShutWait => shut_wait p
  | ShutDrain => shut_drain p
  | ShutStop id => next ShutDrain (stopDockerContainer (dk_remove_err e) id p).2
  | ShutInUse ids => shut_in_use (dk_remove_err e) choice ids p
  end.

(** The identifiers and the containers a goroutine is responsible for. *)
Definition stage_containers (s : stage) : list Container :=
  match s with
  | EnqRecheck _ c | Send _ c | ReleaseCheck c | AcquireStore c => [c]
  | LifeDrain keep _ | LifeReturn keep => keep
  | _ => []
  end.
Definition stage_ids (s : stage) : list string :=
  match s with
  | EnqSeed _ id | Stop _ _ id | ReleaseRetire id | DiscardStop id | ShutStop id => [id]
  | LifeDrain keep toEvict => (ct_ID <$> keep) ++ toEvict
  | _ => ct_ID <$> stage_containers s
  end.
Definition task_ids (g : goroutine) : list string := stage_ids (g_at g).

(** Every container the pool knows of: idle, in use, or with a goroutine. *)
Definition held (p : Pool) : list string :=
  (ct_ID <$> p_idle p) ++ (map_to_list (p_inUse p)).*1 ++ (p_tasks p ≫= task_ids).

(** The daemon's identifiers are new. *)
Definition fresh_create (e : DockerEnv) (p : Pool) : Prop :=
  ∀ id, dk_create e = inr id → (id ∉ held p) ∧ (id ∉ p_running p).

(** No request to the daemon fails. *)
Definition removes (rm : string → option error) : Prop := ∀ id, rm id = None.
Definition daemon_ok (e : DockerEnv) : Prop := removes (dk_remove_err e) ∧ dk_start_err e = None.

(** A goroutine goes on, or has ended. *)
Definition resume (wg : bool) (o : option stage) (p : Pool) : Pool :=
  match o with Some s => p_go (mkGo wg s) p | None => p end.

Definition without (i : nat) (p : Pool) : Pool := p_set_tasks (delete i (p_tasks p)) p.

(** The methods called and the goroutines run in any order, one step of one
    goroutine at a time, a borrower giving back a container it holds.  With
    [ok], the daemon's requests succeed; [E] is what is known of the
    environments that containers are created in. *)
Inductive pool_step (E : DockerEnv → Prop) (ok : bool) : Pool → Pool → Prop :=
  | ps_go i wg s e choice p o p' :
      p_tasks p !! i = Some (mkGo wg s) → E e → (∀ k, s = EnqCreate k → fresh_create e p) →
      (ok = true → daemon_ok e) →
      goroutine_step e choice s (without i p) = Some (Ok o, p') → pool_step E ok p (resume wg o p')
  | ps_Start p : pool_step E ok p (p_go (mkGo false StartLoop) p)
  | ps_CreateNew p : pool_step E ok p (p_go (mkGo false (EnqCheck KEnd)) p)
  | ps_Acquire now c rest p : p_idle p = c :: rest →
      pool_step E ok p (p_go (mkGo false (AcquireStore (lent now c))) (p_set_idle rest p))
  | ps_Discard c p : p_inUse p !! ct_ID c = Some c → pool_step E ok p (DP_Discard c p)
  | ps_Release now c p : p_inUse p !! ct_ID c = Some c →
      pool_step E ok p (p_go (mkGo false (release_entry now c p)) (p_set_inUse (delete (ct_ID c) (p_inUse p)) p))
  | ps_Evict c rest p : p_idle p = c :: rest → pool_step E ok p (go_stop (p_set_idle rest p) (ct_ID c))
  | ps_Shutdown p :
      pool_step E ok p (p_go (mkGo false (if p_closed p then ShutDrain else ShutWait)) (Shutdown_mark p)).

(** The steps that panic: those of goroutines, and an [Evict] that receives
    nil. *)
Inductive pool_panics (E : DockerEnv → Prop) (p : Pool) : string → Prop :=
  | pp_go i wg s e choice p' w :
      p_tasks p !! i = Some (mkGo wg s) → E e →
      goroutine_step e choice s (without i p) = Some (Panic w, p') → pool_panics E p w
  | pp_Evict p' rm w : DP_Evict rm p = (Panic w, p') → pool_panics E p w.

(** ** Accounting

    How the identifiers a pool holds and the containers the daemon runs may
    change together. *)
Inductive acct (ok : bool) : list string * gset string → list string * gset string → Prop :=
  | acct_perm h h' r : h ≡ₚ h' → acct ok (h, r) (h', r)
  | acct_stop id h r : acct ok (id :: h, r) (h, r ∖ {[id]})
  | acct_stop_other id h r : acct ok (h, r) (h, r ∖ {[id]})
  | acct_lost id h r : ok = false → acct ok (id :: h, r) (h, r)
  | acct_create id h r : id ∉ h → id ∉ r → acct ok (h, r) (id :: h, r ∪ {[id]})
  | acct_leak id h r : ok = false → acct ok (h, r) (h, r ∪ {[id]}).

Definition accounted (ok : bool) (x : list string * gset string) : Prop :=
  NoDup x.1 ∧ (ok = true → x.2 ⊆ list_to_set x.1).

Lemma acct_accounted ok x y : accounted ok x → rtc (acct ok) x y → accounted ok y.
Proof.
  intros Hx. apply rtc_preserves; [|done]. clear. intros x y [Hnd Hr] Hs.
  destruct Hs as [h h' r Hp|id h r|id h r|id h r Hok|id h r Hh Hid|id h r Hok]; simpl in *.
  - split; simpl; [by rewrite <- Hp|]. intros Ho. specialize (Hr Ho).
    intros x Hx. specialize (Hr x Hx). apply elem_of_list_to_set. rewrite <- Hp.
    by apply elem_of_list_to_set in Hr.
  - inversion_clear Hnd. split; [done|]. intros Ho. specialize (Hr Ho). set_solver.
  - split; [done|]. intros Ho. specialize (Hr Ho). set_solver.
  - inversion_clear Hnd. split; [done|]. intros Ho. congruence.
  - split; simpl; [by constructor|]. intros Ho. specialize (Hr Ho). set_solver.
  - split; [done|]. intros Ho. congruence.
Qed.

Definition acc (p : Pool) : list string * gset string := (held p, p_running p).

Lemma acct_refl_perm ok h h' r : h ≡ₚ h' → rtc (acct ok) (h, r) (h', r).
Proof. intros Hp. apply rtc_once. by constructor. Qed.

(** Stopping a container the pool lets go of. *)
Lemma stop_acct ok rm id h p :
  (ok = true → removes rm) →
  rtc (acct ok) (id :: h, p_running p) (h, p_running (stopDockerContainer rm id p).2).
Proof.
  intros Hrm. unfold stopDockerContainer. destruct (rm id) as [e|] eqn:He; simpl.
  - destruct ok; [by rewrite (Hrm eq_refl id) in He|]. apply rtc_once. by constructor.
  - apply rtc_once. constructor.
Qed.

Lemma stop_other ok rm id h p : rtc (acct ok) (h, p_running p) (h, p_running (stopDockerContainer rm id p).2).
Proof. unfold stopDockerContainer. destruct (rm id); [done|]. apply rtc_once. constructor. Qed.

Lemma stop_fields rm id p :
  let p' := (stopDockerContainer rm id p).2 in
  p_config p' = p_config p ∧ p_idle p' = p_idle p ∧ p_idle_closed p' = p_idle_closed p
  ∧ p_inUse p' = p_inUse p ∧ p_closed p' = p_closed p ∧ p_tasks p' = p_tasks p ∧ p_files p' = p_files p.
Proof. unfold stopDockerContainer. by destruct (rm id). Qed.

Lemma ignore_stop rm id (p : Pool) :
  st_ignore (stopDockerContainer rm id) p = (Ok tt, (stopDockerContainer rm id p).2).
Proof. unfold st_ignore, stopDockerContainer. by destruct (rm id). Qed.

Lemma held_fields p p' : p_idle p' = p_idle p → p_inUse p' = p_inUse p → p_tasks p' = p_tasks p → held p' = held p.
Proof. unfold held. by intros -> -> ->. Qed.

Lemma stop_held rm id p : held (stopDockerContainer rm id p).2 = held p.
Proof. destruct (stop_fields rm id p) as (_ & ? & _ & ? & _ & ? & _). by apply held_fields. Qed.

Lemma idle_send_spec c p : p_idle_closed p = false →
  idle_send c p
  = (Ok (bool_decide (idle_len p < pc_MaxSize (p_config p))),
     if bool_decide (idle_len p < pc_MaxSize (p_config p))
     then p_set_idle (p_idle p ++ [c]) p else p).
Proof. intros Hc. unfold idle_send. rewrite Hc. by case_bool_decide. Qed.

(** *** Rearrangements of [held] *)

Lemma held_idle_app p c : held (p_set_idle (p_idle p ++ [c]) p) ≡ₚ ct_ID c :: held p.
Proof.
  unfold held. simpl. rewrite fmap_app, <- (assoc_L (++)). symmetry. apply Permutation_middle.
Qed.

Lemma held_idle_cons p c rest : p_idle p = c :: rest → held p = ct_ID c :: held (p_set_idle rest p).
Proof. intros Hi. unfold held. by rewrite Hi. Qed.

Lemma held_inUse_insert p c :
  p_inUse p !! ct_ID c = None → held (p_set_inUse (<[ct_ID c := c]> (p_inUse p)) p) ≡ₚ ct_ID c :: held p.
Proof.
  intros Hc. unfold held. simpl. rewrite map_to_list_insert by done. simpl. symmetry. apply Permutation_middle.
Qed.

Lemma held_inUse_delete p id c :
  p_inUse p !! id = Some c →
  held p ≡ₚ id :: held (p_set_inUse (delete id (p_inUse p)) p).
Proof.
  intros Hc. unfold held. simpl.
  rewrite <- (insert_delete_id (p_inUse p) id c Hc) at 1.
  rewrite map_to_list_insert by apply lookup_delete_eq. simpl.
  symmetry. apply Permutation_middle.
Qed.

Lemma held_go g p : held (p_go g p) ≡ₚ task_ids g ++ held p.
Proof.
  unfold held. simpl. rewrite bind_app. simpl. rewrite app_nil_r.
  rewrite !(assoc_L (++)). rewrite (Permutation_app_comm _ (task_ids g)).
  by rewrite !(assoc_L (++)).
Qed.

Lemma held_without p i g :
  p_tasks p !! i = Some g → held p ≡ₚ task_ids g ++ held (without i p).
Proof.
  intros Hi. unfold held. simpl.
  assert (p_tasks p ≫= task_ids ≡ₚ task_ids g ++ (delete i (p_tasks p) ≫= task_ids)) as ->.
  { rewrite (delete_Permutation _ _ _ Hi) at 1. done. }
  rewrite !(assoc_L (++)). apply Permutation_app_tail.
  rewrite (Permutation_app_comm _ (task_ids g)). by rewrite (assoc_L (++)).
Qed.

Lemma held_enqueues n p :
  held (p_set_tasks (p_tasks p ++ replicate n (mkGo true (EnqCheck KEnd))) p) = held p.
Proof.
  unfold held. simpl. rewrite bind_app.
  assert (replicate n (mkGo true (EnqCheck KEnd)) ≫= task_ids = []) as -> by (induction n; done).
  by rewrite app_nil_r.
Qed.

(** *** The invariant

    The configuration, the bound of the channel, containers under their own
    identifier, and the accounting; [ids] are those of a goroutine that has
    been taken out of the pool to take a step. *)
Record inv_with (ids : list string) (cfg : PoolConfig) (ok : bool) (p : Pool) : Prop := {
  pi_config : p_config p = cfg;
  pi_bound : idle_len p ≤ Z.max 0 (pc_MaxSize (p_config p));
  pi_keyed : ∀ k c, p_inUse p !! k = Some c → ct_ID c = k;
  pi_acct : accounted ok (ids ++ held p, p_running p)
}.
Abbreviation pool_inv := (inv_with []).

(** A change that keeps the map of containers in use. *)
Lemma inv_change ids ids' cfg ok p p' :
  inv_with ids cfg ok p → p_config p' = p_config p →
  idle_len p' ≤ Z.max 0 (pc_MaxSize (p_config p)) →
  (∀ k c, p_inUse p' !! k = Some c → ct_ID c = k) →
  rtc (acct ok) (ids ++ held p, p_running p) (ids' ++ held p', p_running p') → inv_with ids' cfg ok p'.
Proof.
  intros [Hcfg Hb Hk Ha] Hc Hl Hk' Hr. split; [congruence|by rewrite Hc|done|]. by eapply acct_accounted.
Qed.

(** One that changes none of the fields the invariant reads. *)
Lemma inv_same ids cfg ok p p' :
  inv_with ids cfg ok p → p_config p' = p_config p → p_idle p' = p_idle p → p_inUse p' = p_inUse p →
  p_tasks p' = p_tasks p → p_running p' = p_running p → inv_with ids cfg ok p'.
Proof.
  intros [Hc Hb Hk Ha] H1 H2 H3 H4 H5. split; [congruence| |by rewrite H3|].
  - unfold idle_len. by rewrite H1, H2.
  - by rewrite (held_fields p p'), H5.
Qed.

Lemma inv_go s wg ids cfg ok p : inv_with (stage_ids s ++ ids) cfg ok p → inv_with ids cfg ok (p_go (mkGo wg s) p).
Proof.
  intros Hp. eapply inv_change; [exact Hp|done|apply Hp|apply Hp|]. apply acct_refl_perm.
  rewrite held_go. unfold task_ids. simpl. rewrite !(assoc_L (++)). apply Permutation_app_tail, Permutation_app_comm.
Qed.

Lemma inv_resume wg s cfg ok p : inv_with (stage_ids s) cfg ok p → pool_inv cfg ok (resume wg (Some s) p).
Proof. intros Hp. apply inv_go. by rewrite app_nil_r. Qed.

Lemma inv_perm ids ids' cfg ok p : ids ≡ₚ ids' → inv_with ids cfg ok p → inv_with ids' cfg ok p.
Proof. intros Hi Hp. eapply inv_change; [exact Hp|done|apply Hp|apply Hp|]. apply acct_refl_perm. by rewrite Hi. Qed.

Lemma inv_without i wg s cfg ok p :
  p_tasks p !! i = Some (mkGo wg s) → pool_inv cfg ok p → inv_with (stage_ids s) cfg ok (without i p).
Proof.
  intros Hi Hp. eapply inv_change; [exact Hp|done|apply Hp|apply Hp|]. apply acct_refl_perm. simpl.
  by rewrite (held_without p i _ Hi).
Qed.

(** *** Steps *)

Lemma inv_stop id ids cfg ok rm p : (ok = true → removes rm) →
  inv_with (id :: ids) cfg ok p → inv_with ids cfg ok (stopDockerContainer rm id p).2.
Proof.
  intros Hrm Hp. destruct (stop_fields rm id p) as (H1 & H2 & _ & H3 & _ & _).
  eapply inv_change; [exact Hp|done| | |].
  - unfold idle_len. rewrite H2. apply Hp.
  - rewrite H3. apply Hp.
  - rewrite stop_held. by apply stop_acct.
Qed.

Lemma inv_stop_other id ids cfg ok rm p :
  inv_with ids cfg ok p → inv_with ids cfg ok (stopDockerContainer rm id p).2.
Proof.
  intros Hp. destruct (stop_fields rm id p) as (H1 & H2 & _ & H3 & _ & _).
  eapply inv_change; [exact Hp|done| | |].
  - unfold idle_len. rewrite H2. apply Hp.
  - rewrite H3. apply Hp.
  - rewrite stop_held. apply stop_other.
Qed.

Lemma inv_receive c rest ids cfg ok p :
  p_idle p = c :: rest → inv_with ids cfg ok p → inv_with (ct_ID c :: ids) cfg ok (p_set_idle rest p).
Proof.
  intros Hi Hp. eapply inv_change; [exact Hp|done| |apply Hp|].
  - pose proof (pi_bound _ _ _ _ Hp). unfold idle_len in *. rewrite Hi in *. simpl in *. lia.
  - apply acct_refl_perm. rewrite (held_idle_cons p c rest Hi). by rewrite <- Permutation_middle.
Qed.

(** A container is sent, or stays with the goroutine. *)
Lemma inv_send c ids cfg ok p r p' :
  inv_with (ct_ID c :: ids) cfg ok p → idle_send c p = (r, p') →
  (r = Ok true ∧ inv_with ids cfg ok p') ∨ (r = Ok false ∧ p' = p) ∨ (r = Panic "send on closed channel" ∧ p' = p ∧ p_idle_closed p = true).
Proof.
  intros Hp. unfold idle_send. destruct (p_idle_closed p); [intros [= <- <-]; auto|].
  case_bool_decide as Hlt; intros [= <- <-]; [left|auto]. split; [done|].
  eapply inv_change; [exact Hp|done| |apply Hp|].
  - unfold idle_len in *. simpl. rewrite length_app. simpl. lia.
  - apply acct_refl_perm. rewrite held_idle_app. simpl. by rewrite <- Permutation_middle.
Qed.

Lemma inv_go_stops l ids cfg ok p : inv_with (l ++ ids) cfg ok p → inv_with ids cfg ok (foldl go_stop p l).
Proof.
  revert p. induction l as [|id l IH]; intros p Hp; [done|]. apply IH. apply (inv_go (Stop KEnd true id)).
  done.
Qed.

(** Where a goroutine goes on. *)
Definition inv_next cfg ok (wg : bool) (r : Next) : Prop :=
  ∀ o p', r = Some (Ok o, p') → pool_inv cfg ok (resume wg o p').

Lemma inv_next_next cfg ok wg s p : inv_with (stage_ids s) cfg ok p → inv_next cfg ok wg (next s p).
Proof. intros Hp o p' [= <- <-]. by apply inv_resume. Qed.
Lemma inv_next_ended cfg ok wg p : pool_inv cfg ok p → inv_next cfg ok wg (ended p).
Proof. by intros Hp o p' [= <- <-]. Qed.
Lemma inv_next_panic cfg ok wg w p : inv_next cfg ok wg (Some (Panic w, p)).
Proof. by intros o p'. Qed.
Lemma inv_next_None cfg ok wg : inv_next cfg ok wg None.
Proof. by intros o p'. Qed.
#[local] Hint Resolve inv_next_next inv_next_ended inv_next_panic inv_next_None : core.

Lemma inv_next_return cfg ok wg k b p : pool_inv cfg ok p → inv_next cfg ok wg (enq_return k b p).
Proof. intros Hp. destruct k, b; simpl; auto. apply inv_next_ended. by apply (inv_go LifeSelect). Qed.
#[local] Hint Resolve inv_next_return : core.

Lemma enq_create_inv cfg ok wg e k p :
  pool_inv cfg ok p → fresh_create e p → (ok = true → daemon_ok e) → inv_next cfg ok wg (enq_create e k p).
Proof.
  intros Hp Hf Hok. unfold enq_create, createDockerContainer.
  destruct (dk_create e) as [err|id] eqn:Hcr; [auto|]. destruct (Hf id Hcr) as [Hid Hid'].
  destruct (dk_start_err e) as [err|] eqn:Hst.
  - apply inv_next_return. eapply inv_change; [exact Hp|done|apply Hp|apply Hp|].
    destruct ok; [by destruct (Hok eq_refl) as [_ ?]; congruence|]. apply rtc_once. by constructor.
  - apply inv_next_next. eapply inv_change; [exact Hp|done|apply Hp|apply Hp|].
    apply rtc_once. by constructor.
Qed.

Lemma enq_seed_inv cfg ok wg e k id p : inv_with [id] cfg ok p → inv_next cfg ok wg (enq_seed e k id p).
Proof.
  intros Hp. unfold enq_seed, SeedFunc. destruct (pc_seeds (p_config p)); [|apply inv_next_next; by eapply inv_same].
  destruct (dk_seed e id (p_files p)) as [[err|key] fs]; apply inv_next_next; by eapply inv_same.
Qed.

Lemma send_step_inv cfg ok wg k c p : inv_with [ct_ID c] cfg ok p → inv_next cfg ok wg (send_step k c p).
Proof.
  intros Hp. unfold send_step. destruct (idle_send c p) as [r p'] eqn:Hs.
  destruct (inv_send c [] cfg ok p r p' Hp Hs) as [[-> Hp']|[[-> ->]|(-> & _)]]; auto.
Qed.

Lemma release_retire_inv cfg ok wg rm id p : (ok = true → removes rm) →
  inv_with [id] cfg ok p → inv_next cfg ok wg (release_retire rm id p).
Proof.
  intros Hrm Hp. pose proof (inv_stop id [] cfg ok rm p Hrm Hp) as Hs. unfold release_retire.
  destruct (stopDockerContainer rm id p) as [[u|err|w] p']; simpl in Hs; auto.
  apply inv_next_ended. apply (inv_go Replenish). by eapply inv_same.
Qed.

Lemma acquire_store_inv cfg ok wg c p : inv_with [ct_ID c] cfg ok p → inv_next cfg ok wg (acquire_store c p).
Proof.
  intros Hp. apply inv_next_ended. assert (Hnone : p_inUse p !! ct_ID c = None).
  { apply eq_None_not_Some. intros [c' Hc']. destruct (pi_acct _ _ _ _ Hp) as [Hnd _]. simpl in Hnd.
    apply NoDup_cons in Hnd as [Hin _]. apply Hin. unfold held. apply elem_of_app. right. apply elem_of_app. left.
    apply list_elem_of_fmap. exists (ct_ID c, c'). by rewrite elem_of_map_to_list. }
  eapply inv_change; [exact Hp|done|apply Hp| |].
  - simpl. intros k c' [[<- <-]|[_ ?]]%lookup_insert_Some; [done|by apply Hp].
  - apply acct_refl_perm. simpl. by rewrite <- (held_inUse_insert p c Hnone).
Qed.

Lemma evict_drain_inv cfg ok wg now keep toEvict p :
  inv_with ((ct_ID <$> keep) ++ toEvict) cfg ok p → inv_next cfg ok wg (evict_drain now keep toEvict p).
Proof.
  intros Hp. unfold evict_drain. destruct (p_idle p) as [|c rest] eqn:Hi.
  - destruct (p_idle_closed p); auto. apply inv_next_next. apply inv_go_stops. simpl.
    eapply inv_perm; [|exact Hp]. apply Permutation_app_comm.
  - pose proof (inv_receive c rest _ cfg ok p Hi Hp) as Hr. destruct (fresh_enough _ _ c); apply inv_next_next; simpl.
    + eapply inv_perm; [|exact Hr]. rewrite fmap_app. simpl. rewrite <- (assoc_L (++)). simpl.
      by rewrite <- Permutation_middle.
    + eapply inv_perm; [|by eapply inv_same]. rewrite (assoc_L (++)). by rewrite <- Permutation_cons_append.
Qed.

Lemma evict_return_inv cfg ok wg keep p :
  inv_with (ct_ID <$> keep) cfg ok p → inv_next cfg ok wg (evict_return keep p).
Proof.
  intros Hp. destruct keep as [|c keep]; simpl; [auto|]. destruct (idle_send c p) as [r p'] eqn:Hs.
  destruct (inv_send c (fmap (M := list) ct_ID keep) cfg ok p r p' Hp Hs) as [[-> Hp']|[[-> ->]|(-> & _)]]; auto.
  apply inv_next_next. by apply (inv_go (Stop KEnd true (ct_ID c))).
Qed.

Lemma evict_replenish_inv cfg ok wg p : pool_inv cfg ok p → inv_next cfg ok wg (evict_replenish p).
Proof.
  intros Hp. apply inv_next_next. eapply inv_change; [exact Hp|done|apply Hp|apply Hp|].
  rewrite held_enqueues. done.
Qed.

Lemma shut_in_use_inv cfg ok wg rm visit ids p : pool_inv cfg ok p → inv_next cfg ok wg (shut_in_use rm visit ids p).
Proof.
  intros Hp. destruct ids as [|id rest]; simpl; [auto|]. case_match; apply inv_next_next; [|done].
  by apply inv_stop_other.
Qed.

Lemma goroutine_step_inv cfg ok wg e choice s p :
  inv_with (stage_ids s) cfg ok p → (∀ k, s = EnqCreate k → fresh_create e p) → (ok = true → daemon_ok e) →
  inv_next cfg ok wg (goroutine_step e choice s p).
Proof.
  intros Hp Hf Hok. assert (Hrm : ok = true → removes (dk_remove_err e)) by (intros Ho; apply (Hok Ho)).
  destruct s as [k|k|k id|k c|k c|k b id|id|c|c|id| | | |keep ev|keep| | | |id|ids]; simpl in *.
  - unfold enq_check. destruct (p_closed p); auto.
  - apply enq_create_inv; [done|by eapply Hf|done].
  - by apply enq_seed_inv.
  - unfold enq_recheck. destruct (p_closed p); auto.
  - by apply send_step_inv.
  - apply inv_next_return. by apply inv_stop.
  - by apply release_retire_inv.
  - unfold release_check. destruct (p_closed p); auto.
  - by apply acquire_store_inv.
  - apply inv_next_next. by apply (inv_stop id []).
  - unfold replenishOne. case_bool_decide; auto.
  - unfold start_loop. case_bool_decide; auto. apply inv_next_ended. by apply (inv_go LifeSelect).
  - destruct choice; simpl; auto.
  - by apply evict_drain_inv.
  - by apply evict_return_inv.
  - by apply evict_replenish_inv.
  - unfold shut_wait. case_bool_decide; auto. apply inv_next_next. by eapply inv_same.
  - unfold shut_drain. destruct (p_idle p) as [|c rest] eqn:Hi; [destruct (p_idle_closed p); auto|].
    apply inv_next_next. by apply (inv_receive c rest []).
  - apply inv_next_next. by apply (inv_stop id []).
  - by apply shut_in_use_inv.
Qed.

Lemma fresh_without e i g p : p_tasks p !! i = Some g → fresh_create e p → fresh_create e (without i p).
Proof.
  intros Hi Hf id Hid. destruct (Hf id Hid) as [H1 H2]. split; [|done]. intros Hin. apply H1.
  rewrite (held_without p i g Hi). apply elem_of_app. by right.
Qed.

Lemma pool_step_inv cfg E ok p p' : pool_inv cfg ok p → pool_step E ok p p' → pool_inv cfg ok p'.
Proof.
  intros Hp Hs. destruct Hs as [i wg s e choice p o p' Hi He Hf Hok Hstep|p|p|now c rest p Hi|c p Hc|now c p Hc|c rest p Hi|p].
  - eapply goroutine_step_inv; [by eapply inv_without| |done|done].
    intros k ->. eapply fresh_without; [done|by eapply Hf].
  - by apply (inv_go StartLoop).
  - by apply (inv_go (EnqCheck KEnd)).
  - apply (inv_go (AcquireStore (lent now c))). by apply (inv_receive c rest []).
  - apply (inv_go (DiscardStop (ct_ID c))). eapply inv_change; [exact Hp|done|apply Hp| |].
    + simpl. intros k c' [_ ?]%lookup_delete_Some. by apply Hp.
    + apply acct_refl_perm. simpl. by rewrite (held_inUse_delete p _ _ Hc).
  - apply inv_go. eapply inv_change; [exact Hp|done|apply Hp| |].
    + simpl. intros k c' [_ ?]%lookup_delete_Some. by apply Hp.
    + apply acct_refl_perm. simpl. rewrite (held_inUse_delete p _ _ Hc). unfold release_entry. by destruct (worn_out p c).
  - apply (inv_go (Stop KEnd true (ct_ID c))). by apply (inv_receive c rest []).
  - apply inv_go. eapply inv_perm; [|eapply inv_same; [exact Hp|done..]]. by destruct (p_closed p).
Qed.

Lemma new_pool_inv ok now config p :
  NewDockerPool None None now config = Ok p → pool_inv config ok p ∧ 0 ≤ pc_MaxSize config.
Proof.
  unfold NewDockerPool. case_bool_decide; [done|]. intros [= <-]. split; [split; simpl|lia].
  - done.
  - unfold idle_len. simpl. lia.
  - intros k c. by rewrite lookup_empty.
  - split; simpl; [constructor|]. intros _. set_solver.
Qed.

Lemma pool_steps_inv cfg E ok p p' : pool_inv cfg ok p → rtc (pool_step E ok) p p' → pool_inv cfg ok p'.
Proof. apply rtc_preserves. apply pool_step_inv. Qed.

(** *** After the pool is closed *)

(** A goroutine that has looked at the closed flag for the last time and is
    about to send. *)
Definition ready_to_send (g : goroutine) : bool :=
  match g_at g with Send _ _ => true | _ => false end.

(** Once the pool is closed it stays closed, and no goroutine becomes ready to
    send. *)
Definition closed_ext (p p' : Pool) : Prop :=
  p_closed p = true → p_closed p' = true ∧ ∀ g, g ∈ p_tasks p' → ready_to_send g = true → g ∈ p_tasks p.

#[export] Instance closed_ext_preorder : PreOrder closed_ext.
Proof.
  split; [by intros p|]. intros p q r H1 H2 Hp. destruct (H1 Hp) as [Hq G1]. destruct (H2 Hq) as [Hr G2].
  split; [done|]. auto.
Qed.

Lemma closed_ext_fields p p' : p_closed p' = p_closed p → p_tasks p' = p_tasks p → closed_ext p p'.
Proof. intros H1 H2 Hc. rewrite H1, H2. by split. Qed.

Lemma closed_ext_go g p : ready_to_send g = false → closed_ext p (p_go g p).
Proof.
  intros Hg Hc. split; [done|]. intros g' [Hin|Hin]%elem_of_app Hr; [done|].
  apply list_elem_of_singleton in Hin as ->. congruence.
Qed.

Definition closed_next (p : Pool) (r : Next) : Prop :=
  ∀ o p', r = Some (Ok o, p') → closed_ext p p' ∧ (p_closed p = true → ∀ k c, o ≠ Some (Send k c)).

Lemma closed_next_intro p s p' : closed_ext p p' → (∀ k c, s ≠ Send k c) → closed_next p (next s p').
Proof. intros H1 H2 o q [= <- <-]. split; [done|]. intros _ k c [= ->]. by eapply H2. Qed.
Lemma closed_next_ended p p' : closed_ext p p' → closed_next p (ended p').
Proof. intros H1 o q [= <- <-]. by split. Qed.
Lemma closed_next_return p k b p' : closed_ext p p' → closed_next p (enq_return k b p').
Proof.
  intros Hp. destruct k, b; simpl; [by apply closed_next_ended..|by apply closed_next_intro|].
  apply closed_next_ended. etrans; [exact Hp|by apply closed_ext_go].
Qed.

Lemma stop_closed_ext rm id p : closed_ext p (stopDockerContainer rm id p).2.
Proof. destruct (stop_fields rm id p) as (_ & _ & _ & _ & ? & ? & _). by apply closed_ext_fields. Qed.

Lemma idle_send_fields c p r p' : idle_send c p = (r, p') →
  p_config p' = p_config p ∧ p_closed p' = p_closed p ∧ p_tasks p' = p_tasks p ∧ p_inUse p' = p_inUse p
  ∧ p_files p' = p_files p ∧ ∀ x, x ∈ p_idle p' → x ∈ p_idle p ∨ x = c.
Proof.
  unfold idle_send. destruct (p_idle_closed p); [by intros [= <- <-]; split_and!; auto|].
  case_bool_decide; intros [= <- <-]; [|by split_and!; auto]. split_and!; [done..|].
  intros x [?|?%list_elem_of_singleton]%elem_of_app; auto.
Qed.

Lemma go_stops_closed_ext l p : closed_ext p (foldl go_stop p l).
Proof.
  revert p. induction l as [|id l IH]; intros p; [done|]. simpl. etrans; [|apply IH]. by apply closed_ext_go.
Qed.

Lemma goroutine_step_closed e choice s p : closed_next p (goroutine_step e choice s p).
Proof.
  pose proof (λ id, stop_closed_ext (dk_remove_err e) id p) as Hstop.
  destruct s as [k|k|k id|k c|k c|k b id|id|c|c|id| | | |keep ev|keep| | | |id|ids]; simpl.
  - unfold enq_check. destruct (p_closed p); [by apply closed_next_return|by apply closed_next_intro].
  - unfold enq_create, createDockerContainer. destruct (dk_create e); [by apply closed_next_return|].
    destruct (dk_start_err e); [by apply closed_next_return|by apply closed_next_intro].
  - unfold enq_seed, SeedFunc. destruct (pc_seeds _); [|by apply closed_next_intro].
    destruct (dk_seed e id (p_files p)) as [[] ?]; by apply closed_next_intro.
  - unfold enq_recheck. destruct (p_closed p) eqn:Hc; [by apply closed_next_intro|].
    intros o p' [= <- <-]. split; [done|]. by rewrite Hc.
  - unfold send_step. destruct (idle_send c p) as [r p'] eqn:Hs. apply idle_send_fields in Hs as (_ & H1 & H2 & _).
    pose proof (closed_ext_fields p p' H1 H2). destruct r as [[]|er|w]; [by apply closed_next_return|by apply closed_next_intro|
      by apply closed_next_return|by intros o q].
  - by apply closed_next_return.
  - unfold release_retire. specialize (Hstop id). destruct (stopDockerContainer _ id p) as [[] p']; simpl in Hstop;
      apply closed_next_ended; try done. etrans; [exact Hstop|]. by apply (closed_ext_go (mkGo true Replenish) (count_eviction p')).
  - unfold release_check. destruct (p_closed p) eqn:Hc; [by apply closed_next_intro|].
    intros o p' [= <- <-]. split; [done|]. by rewrite Hc.
  - by apply closed_next_ended.
  - by apply closed_next_intro.
  - unfold replenishOne. case_bool_decide; [by apply closed_next_ended|by apply closed_next_intro].
  - unfold start_loop. case_bool_decide; [by apply closed_next_intro|]. apply closed_next_ended. by apply closed_ext_go.
  - destruct choice; [by apply closed_next_intro|by apply closed_next_ended].
  - unfold evict_drain. destruct (p_idle p) as [|c rest]; [destruct (p_idle_closed p); [by intros o q|]|].
    + apply closed_next_intro; [|done]. apply go_stops_closed_ext.
    + case_match; by apply closed_next_intro.
  - destruct keep as [|c keep]; simpl; [by apply closed_next_intro|].
    destruct (idle_send c p) as [r p'] eqn:Hs. apply idle_send_fields in Hs as (_ & H1 & H2 & _).
    pose proof (closed_ext_fields p p' H1 H2) as Hext. destruct r as [[]|er|w]; [by apply closed_next_intro| |
      by apply closed_next_ended|by intros o q].
    apply closed_next_intro; [|done]. etrans; [exact Hext|by apply closed_ext_go].
  - apply closed_next_intro; [|done]. intros Hc. split; [done|]. simpl. intros g [?|Hin]%elem_of_app Hr; [done|].
    by apply elem_of_replicate in Hin as [-> _].
  - unfold shut_wait. case_bool_decide; [|by intros o q]. by apply closed_next_intro.
  - unfold shut_drain. destruct (p_idle p); [destruct (p_idle_closed p); [|by intros o q]|]; by apply closed_next_intro.
  - by apply closed_next_intro.
  - destruct ids as [|id ids]; simpl; [by apply closed_next_ended|]. case_match; by apply closed_next_intro.
Qed.

Lemma pool_step_closed E ok p p' : pool_step E ok p p' → closed_ext p p'.
Proof.
  intros Hs. destruct Hs as [i wg s e choice p o p' Hi He Hf Hok Hstep|p|p|now c rest p Hi|c p Hc|now c p Hc|c rest p Hi|p].
  - destruct (goroutine_step_closed e choice s (without i p) o p' Hstep) as [Hext Hno]. intros Hc.
    destruct (Hext Hc) as [Hc' Hin]. assert (∀ g, g ∈ p_tasks p' → ready_to_send g = true → g ∈ p_tasks p) as Hold.
    { intros g Hg Hr. specialize (Hin g Hg Hr). simpl in Hin. apply list_elem_of_lookup in Hin as [j Hj].
      rewrite list_lookup_delete in Hj. apply list_elem_of_lookup. case_decide; eauto. }
    destruct o as [s'|]; [|by split]. split; [done|]. intros g [Hg|Hg]%elem_of_app Hr; [by apply Hold|].
    apply list_elem_of_singleton in Hg as ->. destruct s'; try discriminate Hr. by destruct (Hno Hc k c).
  - by apply closed_ext_go.
  - by apply closed_ext_go.
  - by apply (closed_ext_go _ (p_set_idle rest p)).
  - by apply (closed_ext_go _ (count_eviction (p_set_inUse (delete (ct_ID c) (p_inUse p)) p))).
  - apply (closed_ext_go _ (p_set_inUse (delete (ct_ID c) (p_inUse p)) p)). unfold release_entry. by destruct (worn_out p c).
  - by apply (closed_ext_go _ (p_set_idle rest p)).
  - intros Hc. rewrite Hc. apply (closed_ext_go (mkGo false ShutDrain) (Shutdown_mark p)); done.
Qed.

(** The panics: a send into, or a nil received from, the closed channel. *)
Lemma goroutine_step_panics e choice s p w p' :
  goroutine_step e choice s p = Some (Panic w, p') →
  p_idle_closed p = true
  ∧ ((w = "send on closed channel" ∧ ((∃ k c, s = Send k c) ∨ ∃ keep, s = LifeReturn keep))
     ∨ (w = "nil pointer dereference" ∧ ∃ keep ev, s = LifeDrain keep ev)).
Proof.
  assert (∀ k b q, enq_return k b q ≠ Some (Panic w, p')) as Hret by (by intros [] []).
  assert (∀ c q, idle_send c p = (Panic w, q) → p_idle_closed p = true ∧ w = "send on closed channel") as Hsend.
  { intros c q. unfold idle_send. destruct (p_idle_closed p); [by intros [= <- _]|]. by case_bool_decide. }
  destruct s as [k|k|k id|k c|k c|k b id|id|c|c|id| | | |keep ev|keep| | | |id|ids]; simpl.
  - unfold enq_check. destruct (p_closed p); [by intros ?%Hret|done].
  - unfold enq_create, createDockerContainer. destruct (dk_create e); [by intros ?%Hret|].
    destruct (dk_start_err e); [by intros ?%Hret|done].
  - unfold enq_seed, SeedFunc. destruct (pc_seeds _); [|done]. by destruct (dk_seed e id (p_files p)) as [[] ?].
  - unfold enq_recheck. by destruct (p_closed p).
  - unfold send_step. destruct (idle_send c p) as [[[]|er|w'] q] eqn:Hs; [by intros ?%Hret|done|by intros ?%Hret|].
    intros [= <- <-]. destruct (Hsend c q Hs) as [H1 H2]. split; [done|]. left. eauto.
  - by intros ?%Hret.
  - unfold release_retire. by destruct (stopDockerContainer _ id p) as [[] q].
  - unfold release_check. by destruct (p_closed p).
  - done.
  - done.
  - unfold replenishOne. by case_bool_decide.
  - unfold start_loop. by case_bool_decide.
  - by destruct choice.
  - unfold evict_drain. destruct (p_idle p); [|by case_match]. destruct (p_idle_closed p); [|done].
    intros [= <- <-]. split; [done|]. right. eauto.
  - destruct keep as [|c keep]; simpl; [done|]. destruct (idle_send c p) as [[[]|er|w'] q] eqn:Hs; try done.
    intros [= <- <-]. destruct (Hsend c q Hs) as [H1 H2]. split; [done|]. left. eauto.
  - done.
  - unfold shut_wait. by case_bool_decide.
  - unfold shut_drain. destruct (p_idle p); [by destruct (p_idle_closed p)|done].
  - done.
  - destruct ids; simpl; [done|]. by case_match.
Qed.

(** *** What was written into containers

    [T fs id key]: the container [id], seeded with [key], has in [fs] what the
    key stands for.  If every seeding establishes it for its container and
    keeps it for the others, it is true of every container of the pool. *)

Definition seeds_tag (T : Files → string → string → Prop) (e : DockerEnv) : Prop :=
  ∀ id fs r fs', dk_seed e id fs = (r, fs') →
    (∀ i k, T fs i k → T fs' i k) ∧ (∀ k, r = inr k → T fs' id k).

Definition in_pool (p : Pool) (c : Container) : Prop :=
  c ∈ p_idle p ∨ (∃ k, p_inUse p !! k = Some c) ∨ ∃ g, g ∈ p_tasks p ∧ c ∈ stage_containers (g_at g).

Definition tagged (cfg : PoolConfig) (T : Files → string → string → Prop) (p : Pool) : Prop :=
  p_config p = cfg ∧ ∀ c, in_pool p c → T (p_files p) (ct_ID c) (ct_CodeKey c).

Definition keeps_tags cfg T (p p' : Pool) : Prop := tagged cfg T p → tagged cfg T p'.

#[export] Instance PoolConfig_eq_dec : EqDecision PoolConfig.
Proof. solve_decision. Defined.

#[export] Instance keeps_tags_preorder cfg T : PreOrder (keeps_tags cfg T).
Proof. split; unfold keeps_tags; [by intros p|by auto]. Qed.

(** A container with the identifier and key of one of the pool. *)
Definition known (p : Pool) (c : Container) : Prop :=
  ∃ c0, in_pool p c0 ∧ ct_ID c0 = ct_ID c ∧ ct_CodeKey c0 = ct_CodeKey c.

Lemma known_in p c : in_pool p c → known p c.
Proof. by exists c. Qed.

Section Tags.
Context (cfg : PoolConfig) (T : Files → string → string → Prop) (Hseeds : pc_seeds cfg = true).
Abbreviation R := (keeps_tags cfg T).

Lemma keeps_tags_known p p' :
  p_config p' = p_config p → p_files p' = p_files p → (∀ c, in_pool p' c → known p c) → R p p'.
Proof.
  intros H1 H2 H3 [Hc Ht]. split; [congruence|]. intros c Hin. destruct (H3 c Hin) as (c0 & Hin0 & <- & <-).
  rewrite H2. by apply Ht.
Qed.

Lemma keeps_tags_fields p p' :
  p_config p' = p_config p → p_files p' = p_files p → p_idle p' = p_idle p → p_inUse p' = p_inUse p →
  p_tasks p' = p_tasks p → R p p'.
Proof.
  intros H1 H2 H3 H4 H5. apply keeps_tags_known; [done..|]. intros c Hc. apply known_in.
  unfold in_pool in *. by rewrite H3, H4, H5 in Hc.
Qed.

Lemma stop_tags rm id : st_keeps R (stopDockerContainer rm id).
Proof.
  intros p. unfold st_wp. destruct (stop_fields rm id p) as (? & ? & _ & ? & _ & ? & ?). by apply keeps_tags_fields.
Qed.

Lemma go_tags g p : (tagged cfg T p → ∀ c, c ∈ stage_containers (g_at g) → T (p_files p) (ct_ID c) (ct_CodeKey c)) →
  R p (p_go g p).
Proof.
  intros Hg Hp. specialize (Hg Hp). destruct Hp as [Hc Ht]. split; [done|]. intros c [Hi|[Hu|(g' & Hin & Hs)]].
  - apply Ht. by left.
  - apply Ht. right. by left.
  - apply elem_of_app in Hin as [Hin|Hin].
    + apply Ht. right. right. eauto.
    + apply list_elem_of_singleton in Hin as ->. by apply Hg.
Qed.

Lemma go_tags_none g p : stage_containers (g_at g) = [] → R p (p_go g p).
Proof. intros Hg. apply go_tags. intros _ c. rewrite Hg. by intros ?%elem_of_nil. Qed.

(** Where a goroutine with the containers of [s] goes on. *)
Definition tagged_with (s : stage) (p : Pool) : Prop :=
  tagged cfg T p ∧ ∀ c, c ∈ stage_containers s → T (p_files p) (ct_ID c) (ct_CodeKey c).
Definition tags_next (wg : bool) (r : Next) : Prop := ∀ o p', r = Some (Ok o, p') → tagged cfg T (resume wg o p').

Lemma tags_next_next wg s p : tagged_with s p → tags_next wg (next s p).
Proof. intros [Hp Hs] o p' [= <- <-]. by apply go_tags. Qed.
Lemma tags_next_ended wg p : tagged cfg T p → tags_next wg (ended p).
Proof. by intros Hp o p' [= <- <-]. Qed.
Lemma tags_next_return wg k b p : tagged cfg T p → tags_next wg (enq_return k b p).
Proof.
  intros Hp. destruct k, b; simpl; [by apply tags_next_ended..| |].
  - apply tags_next_next. split; [done|]. by intros c ?%elem_of_nil.
  - apply tags_next_ended. by apply go_tags_none.
Qed.

Lemma tagged_none s p : tagged cfg T p → stage_containers s = [] → tagged_with s p.
Proof. intros Hp Hs. split; [done|]. rewrite Hs. by intros c ?%elem_of_nil. Qed.

Lemma SeedFunc_tags e id p r p' : seeds_tag T e → tagged cfg T p → SeedFunc e id p = (r, p') →
  tagged cfg T p' ∧ ∀ k, r = Ok k → T (p_files p') id k.
Proof.
  intros He Hp. unfold SeedFunc. rewrite (proj1 Hp), Hseeds.
  destruct (dk_seed e id (p_files p)) as [x fs] eqn:Hs. destruct (He _ _ _ _ Hs) as [Hmono Hnew].
  intros [= <- <-]. split.
  - split; [apply Hp|]. intros c Hc. apply Hmono. by apply Hp.
  - destruct x as [err|k0]; [done|]. intros k [= <-]. by apply Hnew.
Qed.

Lemma send_tagged c p r p' : idle_send c p = (r, p') → tagged cfg T p →
  T (p_files p) (ct_ID c) (ct_CodeKey c) → tagged cfg T p' ∧ p_files p' = p_files p.
Proof.
  intros Hs Hp Hc. apply idle_send_fields in Hs as (H1 & _ & H2 & H3 & H4 & H5). split; [|done].
  split; [rewrite H1; apply Hp|]. unfold in_pool. rewrite H2, H3, H4. intros x [Hx|Hx].
  - destruct (H5 x Hx) as [?|Heq]; [|by subst x]. apply Hp. by left.
  - apply Hp. by right.
Qed.

Lemma receive_tagged c rest p : p_idle p = c :: rest → tagged cfg T p →
  tagged cfg T (p_set_idle rest p) ∧ T (p_files p) (ct_ID c) (ct_CodeKey c).
Proof.
  intros Hi Hp. split; [|apply Hp; left; rewrite Hi; by left]. split; [apply Hp|]. intros x [Hx|Hx].
  - apply Hp. left. rewrite Hi. by right.
  - apply Hp. by right.
Qed.

Lemma go_stops_tags l p : tagged cfg T p → tagged cfg T (foldl go_stop p l) ∧ p_files (foldl go_stop p l) = p_files p.
Proof.
  revert p. induction l as [|id l IH]; intros p Hp; [done|]. simpl.
  destruct (IH (go_stop p id)) as [H1 H2]; [by apply go_tags_none|]. done.
Qed.

Lemma evict_drain_tags wg now keep ev p :
  tagged_with (LifeDrain keep ev) p → tags_next wg (evict_drain now keep ev p).
Proof.
  intros [Hp Hk]. simpl in Hk. unfold evict_drain. destruct (p_idle p) as [|c rest] eqn:Hi.
  - destruct (p_idle_closed p); [by intros o q|]. destruct (go_stops_tags ev p Hp) as [H1 H2].
    apply tags_next_next. split; [done|]. by rewrite H2.
  - destruct (receive_tagged c rest p Hi Hp) as [H1 H2]. destruct (fresh_enough _ _ c); apply tags_next_next.
    + split; [done|]. simpl. intros x [?|Hx%list_elem_of_singleton]%elem_of_app; [auto|by subst x].
    + split; [|done]. eapply keeps_tags_fields; [..|exact H1]; done.
Qed.

Lemma evict_return_tags wg keep p : tagged_with (LifeReturn keep) p → tags_next wg (evict_return keep p).
Proof.
  intros [Hp Hk]. destruct keep as [|c keep]; simpl in *; [by apply tags_next_next, tagged_none|].
  destruct (idle_send c p) as [r p'] eqn:Hs.
  destruct (send_tagged c p r p' Hs Hp) as [H1 H2]; [apply Hk; by left|].
  assert (∀ x, x ∈ keep → T (p_files p') (ct_ID x) (ct_CodeKey x)) as Hk' by (rewrite H2; intros x Hx; apply Hk; by right).
  destruct r as [[]|er|w]; [by apply tags_next_next| |by apply tags_next_ended|by intros o q].
  apply tags_next_next. split; [by apply go_tags_none|done].
Qed.

Lemma inUse_tags m p : (∀ k c, m !! k = Some c → (∃ k', p_inUse p !! k' = Some c) ∨ T (p_files p) (ct_ID c) (ct_CodeKey c)) →
  R p (p_set_inUse m p).
Proof.
  intros Hm Hp. split; [apply Hp|]. intros c [Hc|[[k Hc]|Hc]]; [apply Hp; by left| |apply Hp; right; by right].
  simpl in Hc. destruct (Hm k c Hc) as [?|?]; [|done]. apply Hp. right. by left.
Qed.

Lemma goroutine_step_tags wg e choice s p :
  seeds_tag T e → tagged_with s p → tags_next wg (goroutine_step e choice s p).
Proof.
  intros He [Hp Hs]. pose proof (λ id, stop_tags (dk_remove_err e) id p Hp) as Hstop.
  assert (∀ p', p_config p' = p_config p → p_files p' = p_files p → p_idle p' = p_idle p → p_inUse p' = p_inUse p →
    p_tasks p' = p_tasks p → tagged cfg T p') as Hsame by (intros; by eapply keeps_tags_fields).
  destruct s as [k|k|k id|k c|k c|k b id|id|c|c|id| | | |keep ev|keep| | | |id|ids]; simpl in *.
  - unfold enq_check. destruct (p_closed p); [by apply tags_next_return|by apply tags_next_next, tagged_none].
  - unfold enq_create, createDockerContainer. destruct (dk_create e); [by apply tags_next_return|].
    destruct (dk_start_err e); [apply tags_next_return|apply tags_next_next, tagged_none; [|done]]; by apply Hsame.
  - unfold enq_seed. destruct (SeedFunc e id p) as [r p'] eqn:Hr.
    destruct (SeedFunc_tags e id p r p' He Hp Hr) as [H1 H2]. destruct r as [key|err|w]; [|by apply tags_next_next, tagged_none|
      by intros o q].
    apply tags_next_next. split; [eapply keeps_tags_fields; [..|exact H1]; done|].
    intros c ->%list_elem_of_singleton. by apply H2.
  - unfold enq_recheck. destruct (p_closed p); apply tags_next_next; [by apply tagged_none|done].
  - unfold send_step. destruct (idle_send c p) as [r p'] eqn:Hr.
    destruct (send_tagged c p r p' Hr Hp) as [H1 _]; [apply Hs; by left|].
    destruct r as [[]|er|w]; [by apply tags_next_return|by apply tags_next_next, tagged_none|by apply tags_next_return|by intros o q].
  - by apply tags_next_return.
  - unfold release_retire. specialize (Hstop id). unfold st_wp in Hstop.
    destruct (stopDockerContainer _ id p) as [[] p'] eqn:E; simpl in Hstop; apply tags_next_ended; try done.
    apply go_tags_none; [done|]. eapply keeps_tags_fields; [..|exact Hstop]; done.
  - unfold release_check. destruct (p_closed p); apply tags_next_next; [by apply tagged_none|done].
  - apply tags_next_ended. eapply (keeps_tags_fields (p_set_inUse (<[ct_ID c := c]> (p_inUse p)) p)); [done..|].
    apply inUse_tags; [|done]. intros k0 c0 [[<- <-]|[_ ?]]%lookup_insert_Some; [|by left; exists k0]. right. apply Hs. by left.
  - by apply tags_next_next, tagged_none.
  - unfold replenishOne. case_bool_decide; [by apply tags_next_ended|by apply tags_next_next, tagged_none].
  - unfold start_loop. case_bool_decide; [by apply tags_next_next, tagged_none|]. apply tags_next_ended. by apply go_tags_none.
  - destruct choice; [by apply tags_next_next, tagged_none|by apply tags_next_ended].
  - by apply evict_drain_tags.
  - by apply evict_return_tags.
  - apply tags_next_next, tagged_none; [|done]. apply (keeps_tags_known p); [done..| |done].
    intros c [Hc|[Hc|(g & Hg & Hc)]]; apply known_in; [by left|right; by left|]. right. right.
    simpl in Hg. apply elem_of_app in Hg as [Hg|Hg]; [eauto|]. apply elem_of_replicate in Hg as [-> _]. by apply elem_of_nil in Hc.
  - unfold shut_wait. case_bool_decide; [|by intros o q]. apply tags_next_next, tagged_none; [by apply Hsame|done].
  - unfold shut_drain. destruct (p_idle p) as [|c rest] eqn:Hi; [destruct (p_idle_closed p); [|by intros o q]|];
      apply tags_next_next, tagged_none; try done. by apply (receive_tagged c).
  - by apply tags_next_next, tagged_none.
  - destruct ids as [|id ids]; simpl; [by apply tags_next_ended|]. case_match; by apply tags_next_next, tagged_none.
Qed.

Lemma without_tagged i wg s p : p_tasks p !! i = Some (mkGo wg s) → tagged cfg T p → tagged_with s (without i p).
Proof.
  intros Hi Hp. split.
  - apply (keeps_tags_known p); [done..| |done]. intros c [Hc|[Hc|(g & Hg & Hc)]]; apply known_in; [by left|right; by left|].
    right. right. exists g. split; [|done]. simpl in Hg. apply list_elem_of_lookup in Hg as [j Hj].
    rewrite list_lookup_delete in Hj. apply list_elem_of_lookup. case_decide; eauto.
  - intros c Hc. apply Hp. right. right. exists (mkGo wg s). split; [by eapply list_elem_of_lookup_2|done].
Qed.

Lemma inUse_delete_tags k p : R p (p_set_inUse (delete k (p_inUse p)) p).
Proof. apply inUse_tags. intros k' c [_ ?]%lookup_delete_Some. left. by exists k'. Qed.

(** Every step of the pool keeps what is known of its containers. *)
Lemma pool_step_tags E ok p p' : (∀ e, E e → seeds_tag T e) → pool_step E ok p p' → R p p'.
Proof.
  intros HE Hs Hp. destruct Hs as [i wg s e choice p o p' Hi He Hf Hok Hstep|p|p|now c rest p Hi|c p Hc|now c p Hc|c rest p Hi|p].
  - eapply goroutine_step_tags; [by apply HE|by eapply without_tagged|done].
  - by apply go_tags_none.
  - by apply go_tags_none.
  - destruct (receive_tagged c rest p Hi Hp) as [H1 H2]. apply go_tags; [|done]. by intros _ x ->%list_elem_of_singleton.
  - apply go_tags_none; [done|]. apply (keeps_tags_fields (p_set_inUse (delete (ct_ID c) (p_inUse p)) p)); [done..|].
    by apply inUse_delete_tags.
  - pose proof (proj2 Hp c (or_intror (or_introl (ex_intro _ _ Hc)))) as Htag.
    apply go_tags; [|by apply inUse_delete_tags]. intros _ x. unfold release_entry.
    destruct (worn_out p c); [by intros ?%elem_of_nil|]. by intros ->%list_elem_of_singleton.
  - apply go_tags_none; [done|]. by apply (receive_tagged c).
  - destruct (p_closed p); (apply go_tags_none; [done|]); by apply (keeps_tags_fields p).
Qed.

(** The methods run alone. *)
Lemma enqueueNew_tags e : seeds_tag T e → st_keeps R (enqueueNew e).
Proof.
  intros He p Hp. unfold st_wp, enqueueNew, st_bind, st_get, st_wrap, st_try.
  destruct (p_closed p); [done|]. unfold createDockerContainer.
  destruct (dk_create e) as [err|id]; [done|]. set (p1 := p_set_running (p_running p ∪ {[id]}) p).
  assert (tagged cfg T p1) as H1 by by eapply keeps_tags_fields.
  destruct (dk_start_err e); [done|]. cbn [wrap_err fst snd].
  destruct (SeedFunc e id p1) as [r p2] eqn:Hs. destruct (SeedFunc_tags e id p1 r p2 He H1 Hs) as [H2 H3].
  destruct r as [key|err|w]; [| |done].
  - unfold st_modify. assert (tagged cfg T (count_created p2)) as H4 by by apply (keeps_tags_fields p2).
    destruct (p_closed (count_created p2)); [rewrite ignore_stop; simpl; by apply stop_tags|].
    destruct (idle_send _ (count_created p2)) as [x p3] eqn:Hi.
    apply send_tagged in Hi as [H5 _]; [|done|by apply H3].
    destruct x as [[]|er|w]; [done| |done|done]. rewrite ignore_stop. by apply stop_tags.
  - rewrite ignore_stop. by apply stop_tags.
Qed.

Lemma acquire_tags now ctx first p r p' : DP_Acquire now ctx first p = Some (r, p') →
  R p p' ∧ ∀ c, r = Ok c → tagged cfg T p → T (p_files p') (ct_ID c) (ct_CodeKey c) ∧ p_inUse p' !! ct_ID c = Some c.
Proof.
  set (take := match p_idle p with
              | c :: rest =>
                  let p := p_set_idle rest p in
                  let p := p_set_inUse (<[ct_ID c := lent now c]> (p_inUse p)) p in
                  Some (Ok (lent now c), count_warm p)
              | [] => if p_idle_closed p then Some (Err (NewError "pool is shut down"), p) else None
              end).
  assert (∀ r p', take = Some (r, p') → R p p' ∧ ∀ c, r = Ok c → tagged cfg T p →
    T (p_files p') (ct_ID c) (ct_CodeKey c) ∧ p_inUse p' !! ct_ID c = Some c) as Htake.
  { intros r0 p0. unfold take. destruct (p_idle p) as [|c rest] eqn:Hi.
    - destruct (p_idle_closed p); [|done]. by intros [= <- <-].
    - intros [= <- <-]. split.
      + intros Hp. destruct (receive_tagged c rest p Hi Hp) as [H1 H2].
        apply (keeps_tags_fields (p_set_inUse (<[ct_ID c := lent now c]> (p_inUse p)) (p_set_idle rest p))); [done..|].
        apply inUse_tags; [|done]. intros k c0 [[<- <-]|[_ ?]]%lookup_insert_Some; [by right|left; by exists k].
      + intros c0 [= <-] Hp. destruct (receive_tagged c rest p Hi Hp) as [_ H2]. split; [done|]. simpl. apply lookup_insert_eq. }
  unfold DP_Acquire. fold take. destruct ctx as [err|]; [|by apply Htake].
  destruct take as [[r1 p1]|].
  - destruct first; intros [= <- <-]; [by apply Htake|done].
  - by intros [= <- <-].
Qed.
End Tags.

(** *** Start *)

(** The daemon creates, starts and seeds a container. *)
Definition healthy (e : DockerEnv) : Prop :=
  (∃ id, dk_create e = inr id) ∧ dk_start_err e = None ∧ ∀ id fs, ∃ key fs', dk_seed e id fs = (inr key, fs').

Lemma enqueueNew_healthy e p :
  healthy e → p_closed p = false → p_idle_closed p = false →
  ∃ p', enqueueNew e p = (Ok tt, p') ∧ p_config p' = p_config p
    ∧ p_closed p' = false ∧ p_idle_closed p' = false
    ∧ idle_len p' = idle_len p + (if bool_decide (idle_len p < pc_MaxSize (p_config p)) then 1 else 0).
Proof.
  intros ([id Hc] & Hs & Hk) Hcl Hopen.
  unfold enqueueNew, st_bind, st_get, st_wrap, st_try, createDockerContainer. rewrite Hcl, Hc, Hs. cbn [wrap_err].
  set (p1 := p_set_running _ p).
  assert (∃ key fs, SeedFunc e id p1 = (Ok key, p_set_files fs p1)) as (key & fs & ->).
  { unfold SeedFunc. destruct (pc_seeds _); [|exists "", (p_files p); by destruct p].
    destruct (Hk id (p_files p1)) as (key & fs & ->). by exists key, fs. }
  unfold st_modify. set (p2 := count_created (p_set_files fs p1)).
  change (p_closed p2) with (p_closed p). rewrite Hcl, idle_send_spec by done.
  change (idle_len p2) with (idle_len p). change (p_config p2) with (p_config p).
  case_bool_decide as Hlt.
  - eexists. split; [done|]. split_and!; try done. unfold idle_len. simpl. rewrite length_app. simpl. lia.
  - rewrite ignore_stop. eexists. split; [done|].
    destruct (stop_fields (dk_remove_err e) id p2) as (H1 & H2 & H3 & _ & H5 & _).
    rewrite H1, H3, H5. split_and!; try done. unfold idle_len. rewrite H2. simpl. lia.
Qed.

Lemma Start_loop_fills envs p :
  p_closed p = false → p_idle_closed p = false → Forall healthy envs →
  pc_MinSize (p_config p) ≤ pc_MaxSize (p_config p) →
  pc_MinSize (p_config p) - idle_len p ≤ Z.of_nat (length envs) →
  (Start_loop envs p).1 = true
  ∧ idle_len (Start_loop envs p).2 = Z.max (pc_MinSize (p_config p)) (idle_len p).
Proof.
  intros Hcl Hopen Hh. revert p Hcl Hopen.
  induction Hh as [|e envs He _ IH]; intros p Hcl Hopen Hmm Hlen; simpl in *.
  { rewrite bool_decide_eq_true_2 by lia. simpl. split; [done|lia]. }
  case_bool_decide as Hmin; simpl; [split; [done|lia]|].
  destruct (enqueueNew_healthy e p He Hcl Hopen) as (p' & -> & Hc' & Hcl' & Hopen' & Hl').
  rewrite bool_decide_eq_true_2 in Hl' by lia.
  destruct (IH p' Hcl' Hopen') as [H1 H2]; rewrite ?Hc'; [lia|lia|]. split; [done|].
  rewrite H2, Hc'. lia.
Qed.

Lemma Start_loop_spins envs p :
  p_closed p = false → p_idle_closed p = false → Forall healthy envs →
  idle_len p ≤ pc_MaxSize (p_config p) → pc_MaxSize (p_config p) < pc_MinSize (p_config p) →
  (Start_loop envs p).1 = false.
Proof.
  intros Hcl Hopen Hh. revert p Hcl Hopen.
  induction Hh as [|e envs He _ IH]; intros p Hcl Hopen Hle Hmm; simpl.
  { by rewrite bool_decide_eq_false_2 by lia. }
  rewrite bool_decide_eq_false_2 by lia.
  destruct (enqueueNew_healthy e p He Hcl Hopen) as (p' & -> & Hc' & Hcl' & Hopen' & Hl').
  apply IH; try done; rewrite Hc'; [|lia]. case_bool_decide; lia.
Qed.

(** *** Methods run alone *)

Section Alone.
Context (E : DockerEnv → Prop) (ok : bool) (e : DockerEnv) (He : E e) (Hok : ok = true → daemon_ok e).
Abbreviation steps := (rtc (pool_step E ok)).

(** The goroutine started last takes a step. *)
Lemma last_step wg s choice p o p' q :
  (∀ k, s = EnqCreate k → fresh_create e (p_go (mkGo wg s) p)) →
  goroutine_step e choice s p = Some (Ok o, p') → steps (resume wg o p') q → steps (p_go (mkGo wg s) p) q.
Proof.
  intros Hf Hs Hq. eapply rtc_l; [|exact Hq].
  apply (ps_go E ok (length (p_tasks p)) wg s e choice (p_go (mkGo wg s) p) o p'); [|exact He|exact Hf|exact Hok|].
  - simpl. by rewrite list_lookup_middle.
  - rewrite <- Hs. f_equal. unfold without, p_go. destruct p. cbn. f_equal. by rewrite delete_middle, app_nil_r.
Qed.

(** [enqueueNew] is the run of its steps that nothing interrupts. *)
Lemma enqueueNew_alone wg p r p' :
  fresh_create e p → enqueueNew e p = (r, p') → (∀ w, r ≠ Panic w) →
  steps (p_go (mkGo wg (EnqCheck KEnd)) p) p'.
Proof.
  intros Hf Hrun Hnp. revert Hrun. unfold enqueueNew, st_bind, st_get, st_wrap, st_try.
  destruct (p_closed p) eqn:Hcl.
  { intros [= <- <-]. eapply (last_step _ _ true); [done|simpl; unfold enq_check; by rewrite Hcl|apply rtc_refl]. }
  intros Hrun. eapply (last_step _ _ true); [done|simpl; unfold enq_check; by rewrite Hcl|].
  destruct (createDockerContainer e p) as [[id|err|w] p1] eqn:Hc; cbn [wrap_err] in Hrun;
    [|injection Hrun as <- <-|by injection Hrun as <- <-; destruct (Hnp w)].
  2:{ eapply (last_step _ _ true); [|simpl; unfold enq_create; by rewrite Hc|apply rtc_refl].
      intros k _ id Hid. destruct (Hf id Hid). by rewrite held_go. }
  eapply (last_step _ _ true); [|simpl; unfold enq_create; by rewrite Hc|].
  { intros k _ id' Hid. destruct (Hf id' Hid). by rewrite held_go. }
  destruct (SeedFunc e id p1) as [[key|err|w] p2] eqn:Hs; [| |by injection Hrun as <- <-; destruct (Hnp w)].
  - eapply (last_step _ _ true); [done|simpl; unfold enq_seed; by rewrite Hs|]. unfold st_modify in Hrun.
    destruct (p_closed (count_created p2)) eqn:Hc2.
    + eapply (last_step _ _ true); [done|simpl; unfold enq_recheck; by rewrite Hc2|].
      rewrite ignore_stop in Hrun. injection Hrun as <- <-. eapply (last_step _ _ true); [done|done|apply rtc_refl].
    + eapply (last_step _ _ true); [done|simpl; unfold enq_recheck; by rewrite Hc2|].
      change (new_container e id key (count_created p2)) with (new_container e id key p2) in Hrun.
      destruct (idle_send (new_container e id key p2) (count_created p2)) as [[[]|er|w] p3] eqn:Hi.
      * injection Hrun as <- <-. eapply (last_step _ _ true); [done|simpl; unfold send_step; by rewrite Hi|apply rtc_refl].
      * rewrite ignore_stop in Hrun. injection Hrun as <- <-.
        eapply (last_step _ _ true); [done|simpl; unfold send_step; by rewrite Hi|].
        eapply (last_step _ _ true); [done|done|apply rtc_refl].
      * injection Hrun as <- <-. eapply (last_step _ _ true); [done|simpl; unfold send_step; by rewrite Hi|apply rtc_refl].
      * injection Hrun as <- <-. by destruct (Hnp w).
  - eapply (last_step _ _ true); [done|simpl; unfold enq_seed; by rewrite Hs|].
    rewrite ignore_stop in Hrun. injection Hrun as <- <-. eapply (last_step _ _ true); [done|done|apply rtc_refl].
Qed.
End Alone.

(** ** Properties *)


(** A daemon for the concrete inputs. *)
Definition demo_docker (id : string) : DockerEnv :=
  mkDocker (inr id) None (λ id fs, (inr "key", <[id := {["/tmp/handler.py" := "print(1)"]}]> fs)) 0 (λ _, None).
Definition demo_pool_config : PoolConfig := mkPoolConfig "python3.9" 1 1 Minute 10 Second true.
Definition demo_pool : Pool := mkPool demo_pool_config [] false ∅ (mkMetrics 0 0 0 0) 0 false [] ∅ ∅.

Lemma demo_docker_ok id : daemon_ok (demo_docker id).
Proof. by split. Qed.

Lemma demo_fresh id p : id ∉ held p → id ∉ p_running p → fresh_create (demo_docker id) p.
Proof. by intros H1 H2 id' [= <-]. Qed.

Definition demo_filled : Pool := (enqueueNew (demo_docker "c1") demo_pool).2.

Lemma demo_filled_reached : rtc (pool_step (λ _, True) true) demo_pool demo_filled.
Proof.
  eapply rtc_l; [apply ps_CreateNew|].
  apply (enqueueNew_alone (λ _, True) true (demo_docker "c1") I (λ _, demo_docker_ok "c1") false demo_pool (Ok tt));
    [|reflexivity|done].
  apply demo_fresh; vm_compute; intros H; inversion H.
Qed.


(** Start.  With a healthy daemon the pre-fill loop ends, with MinSize
    idle containers (or as many as there were, if more), after at most MinSize
    turns when MinSize does not exceed MaxSize; otherwise it never ends: it
    keeps creating containers and discarding them. *)
Theorem Start_terminates_iff envs p :
  p_closed p = false → p_idle_closed p = false → Forall healthy envs →
  idle_len p ≤ pc_MaxSize (p_config p) →
  (pc_MinSize (p_config p) ≤ pc_MaxSize (p_config p) →
   pc_MinSize (p_config p) - idle_len p ≤ Z.of_nat (length envs) →
   (Start_loop envs p).1 = true
   ∧ idle_len (Start_loop envs p).2 = Z.max (pc_MinSize (p_config p)) (idle_len p))
  ∧ (pc_MaxSize (p_config p) < pc_MinSize (p_config p) → (Start_loop envs p).1 = false).
Proof.
  intros Hcl Hopen Hh Hle. split.
  - intros Hmm Hlen. by apply Start_loop_fills.
  - intros Hmm. by apply Start_loop_spins.
Qed.

Lemma Start_terminates_iff_witness :
  (Start_loop [demo_docker "c1"] demo_pool).1 = true
  ∧ idle_len (Start_loop [demo_docker "c1"] demo_pool).2 = 1.
Proof.
  apply (Start_terminates_iff [demo_docker "c1"] demo_pool);
    [reflexivity|reflexivity| |vm_compute; discriminate|vm_compute; discriminate|vm_compute; discriminate].
  constructor; [|constructor]. split_and!; [by exists "c1"|done|]. by eexists _, _.
Defined.

(** A goroutine that is ready to send and that nobody waits for, while the
    pool is shut down: the channel is closed under it. *)
Lemma send_race c p :
  p_closed p = false → p_tasks p = [mkGo false (Send KEnd c)] →
  ∃ q, rtc (pool_step (λ _, True) true) p q ∧ pool_panics (λ _, True) q "send on closed channel".
Proof.
  intros Hc Ht. set (p1 := Shutdown_mark p). set (q := p_go (mkGo false ShutDrain) (p_close_idle p1)). exists q. split.
  - eapply rtc_l; [apply ps_Shutdown|]. rewrite Hc.
    eapply (last_step (λ _, True) true (demo_docker "") I (λ _, demo_docker_ok "") false ShutWait true p1
      (Some ShutDrain) (p_close_idle p1)); [done| |apply rtc_refl].
    simpl. unfold shut_wait, waiting_for. simpl. rewrite Ht. done.
  - apply (pp_go _ q 0 false (Send KEnd c) (demo_docker "") true (without 0 q)); [simpl; by rewrite Ht|done|].
    simpl. unfold send_step, idle_send. done.
Qed.

(** Releasing into a pool that shuts down.  The closed flag is read and
    the container sent in two steps: a shutdown that runs in between closes
    the channel, and the send panics. *)
Theorem Release_Shutdown_race :
  ∃ p q, rtc (pool_step (λ _, True) true) demo_filled p ∧ p_inUse p !! "c1" = None
    ∧ rtc (pool_step (λ _, True) true) p q ∧ pool_panics (λ _, True) q "send on closed channel".
Proof.
  pose (c := mkContainer "c1" "python3.9" "key" 0 0 0 StateWarm 0). pose (e := demo_docker "").
  pose (p1 := p_set_idle [] demo_filled).
  pose (p2 := count_warm (p_set_inUse {["c1" := lent 1 c]} p1)).
  pose (p3 := p_set_inUse (delete "c1" {["c1" := lent 1 c]}) p2).
  pose (p4 := p_go (mkGo false (Send KEnd (returned 2 (lent 1 c)))) p3).
  destruct (send_race (returned 2 (lent 1 c)) p4) as (q & Hq & Hpanic); [reflexivity|reflexivity|].
  exists p4, q. split_and!; [|reflexivity|exact Hq|exact Hpanic].
  eapply rtc_l; [by apply (ps_Acquire _ _ 1 c [])|].
  eapply (last_step (λ _, True) true e I (λ _, demo_docker_ok "") false (AcquireStore (lent 1 c)) true p1 None p2);
    [done|reflexivity|]. simpl.
  eapply rtc_l; [by apply (ps_Release _ _ 2 (lent 1 c) p2)|].
  eapply (last_step (λ _, True) true e I (λ _, demo_docker_ok "") false (ReleaseCheck (returned 2 (lent 1 c))) true p3
    (Some (Send KEnd (returned 2 (lent 1 c)))) p3); [done|reflexivity|apply rtc_refl].
Qed.

(** Filling a pool that shuts down.  [Start] and [CreateNew] are not counted
    in the wait group: a shutdown after the second look at the closed flag of
    their [enqueueNew] closes the channel before the send, which panics. *)
Theorem enqueueNew_Shutdown_race :
  ∃ p q, rtc (pool_step (λ _, True) true) demo_pool p ∧ p_closed p = false
    ∧ rtc (pool_step (λ _, True) true) p q ∧ pool_panics (λ _, True) q "send on closed channel".
Proof.
  pose (e := demo_docker "c1"). pose (c := mkContainer "c1" "python3.9" "key" 0 0 0 StateWarm 0).
  pose (p1 := p_set_running (∅ ∪ {["c1"]}) demo_pool).
  pose (p2 := count_created (p_set_files {["c1" := {["/tmp/handler.py" := "print(1)"]}]} p1)).
  destruct (send_race c (p_go (mkGo false (Send KEnd c)) p2)) as (q & Hq & Hpanic); [reflexivity|reflexivity|].
  exists (p_go (mkGo false (Send KEnd c)) p2), q. split_and!; [|reflexivity|exact Hq|exact Hpanic].
  eapply rtc_l; [apply ps_CreateNew|].
  pose proof (last_step (λ _, True) true e I (λ _, demo_docker_ok "c1") false) as Hstep.
  eapply (Hstep (EnqCheck KEnd) true demo_pool (Some (EnqCreate KEnd)) demo_pool); [done|reflexivity|].
  eapply (Hstep (EnqCreate KEnd) true demo_pool (Some (EnqSeed KEnd "c1")) p1); [|reflexivity|].
  { intros k _. apply demo_fresh; vm_compute; intros H; inversion H. }
  eapply (Hstep (EnqSeed KEnd "c1") true p1 (Some (EnqRecheck KEnd c)) p2); [done|reflexivity|].
  eapply (Hstep (EnqRecheck KEnd c) true p2 (Some (Send KEnd c)) p2); [done|reflexivity|apply rtc_refl].
Qed.
