(* ===== verification/Logger.v ===== *)
(** * Structured logging (shared/logger/logger.go)

    A logger writes one JSON object per entry to its sink.  A field value is
    what Go's [interface{}] holds, and its JSON is the value encoding/json
    gives it; the text of that JSON is the encoder's and is left out.  A
    context is the chain of the values added to it. *)

From Stdlib Require Import ZArith Lia Ascii.
From stdpp Require Import base strings gmap list numbers sorting.
From S2P Require Import Prelude.
Open Scope Z_scope.
#[local] Set Warnings "-register-all".

(** ** JSON *)

Inductive JSON :=
  | JNull
  | JBool (b : bool)
  | JNumber (n : Z)
  | JText (s : string)
  | JObject (members : list (string * JSON)).

(** The values the program passes to the logger.  [VError] is an error this
    program makes, with [errors.New], [fmt.Errorf] or as one of the [domain]
    package's; [VLibrary] is a value of a library's type, such as a
    [*url.Error] or a [*amqp.Error], with what encoding/json makes of it;
    [VFunc] is a value encoding/json does not support (a function or a
    channel). *)
Inductive Value :=
  | VNil
  | VBool (b : bool)
  | VInt (n : Z)
  | VString (s : string)
  | VError (e : error)
  | VLibrary (j : option JSON)
  | VFunc.

(** The errors of this program are pointers to structs, and the encoder prints
    the exported fields of a struct.  [domain.DomainError] has one; the types
    behind [errors.New] and [fmt.Errorf] have none. *)
Definition error_JSON (e : error) : JSON :=
  match e with
  | Sentinel id msg => JObject (if HasPrefix id "domain.Err" then [("Message", JText msg)] else [])
  | NewError _ => JObject []
  | Wrap _ _ => JObject []
  end.

(** [json.Marshal(v)], [None] when it returns an error. *)
Definition value_JSON (v : Value) : option JSON :=
  match v with
  | VNil => Some JNull
  | VBool b => Some (JBool b)
  | VInt n => Some (JNumber n)
  | VString s => Some (JText s)
  | VError e => Some (error_JSON e)
  | VLibrary j => j
  | VFunc => None
  end.

Definition key_le (a b : string * JSON) : Prop := String.leb a.1 b.1 = true.
#[export] Instance key_le_dec a b : Decision (key_le a b) := decide (String.leb a.1 b.1 = true).

(** A map is printed with its keys in order. *)
Definition fields_JSON (fields : gmap string Value) : option JSON :=
  (λ m : gmap string JSON, JObject (merge_sort key_le (map_to_list m)))
    <$> (if bool_decide (map_Forall (λ _ v, is_Some (value_JSON v)) fields)
         then Some (omap value_JSON fields) else None).

(** ** Contexts *)

(** Keys are compared with their types: the logger and the middleware each
    have a [ContextKey] of their own. *)
Inductive CtxKey := LoggerKey (s : string) | MiddlewareKey (s : string).
#[export] Instance CtxKey_eq_dec : EqDecision CtxKey.
Proof. solve_decision. Defined.

Abbreviation Ctx := (list (CtxKey * Value)).

Definition context_WithValue (ctx : Ctx) (k : CtxKey) (v : Value) : Ctx := (k, v) :: ctx.

Fixpoint ctx_Value (ctx : Ctx) (k : CtxKey) : option Value :=
  match ctx with
  | [] => None
  | (k', v) :: rest => if bool_decide (k' = k) then Some v else ctx_Value rest k
  end.

(** [ctx.Value(k).(string)]. *)
Definition ctx_string (ctx : Ctx) (k : CtxKey) : option string :=
  match ctx_Value ctx k with Some (VString s) => Some s | _ => None end.

Definition CorrelationIDKey : CtxKey := LoggerKey "correlation_id".
Definition RequestIDKey : CtxKey := LoggerKey "request_id".

Definition WithCorrelationID (ctx : Ctx) (correlationID : string) : Ctx :=
  context_WithValue ctx CorrelationIDKey (VString correlationID).
Definition WithRequestID (ctx : Ctx) (requestID : string) : Ctx :=
  context_WithValue ctx RequestIDKey (VString requestID).
Definition GetCorrelationID (ctx : Ctx) : string := default "" (ctx_string ctx CorrelationIDKey).
Definition GetRequestID (ctx : Ctx) : string := default "" (ctx_string ctx RequestIDKey).

(** [uuid.NewV4]; on an error the nil identifier is used. *)
Definition GenerateCorrelationID (uuid : error + string) : string :=
  match uuid with inr id => id | inl _ => "00000000-0000-0000-0000-000000000000" end.

(** ** The logger *)

Inductive Sink := Stdout | Writer (n : nat).
#[export] Instance Sink_eq_dec : EqDecision Sink.
Proof. solve_decision. Defined.

Definition LevelDebug : string := "debug".
Definition LevelInfo : string := "info".
Definition LevelWarn : string := "warn".
Definition LevelError : string := "error".

Record Logger := mkLogger { lg_output : Sink; lg_level : string }.

Definition NewLogger (output : option Sink) (level : string) : Logger :=
  mkLogger (default Stdout output) level.
Definition DefaultLogger : Logger := NewLogger (Some Stdout) LevelInfo.

Record LogEntry := mkLogEntry {
  le_Timestamp : string;
  le_Level : string;
  le_Message : string;
  le_CorrelationID : string;
  le_RequestID : string;
  le_Fields : gmap string Value
}.

(** A member tagged [omitempty]. *)
Definition omitempty (k v : string) : list (string * JSON) :=
  if bool_decide (v = "") then [] else [(k, JText v)].

(** The members before the fields. *)
Definition entry_head (e : LogEntry) : list (string * JSON) :=
  [("timestamp", JText (le_Timestamp e)); ("level", JText (le_Level e)); ("message", JText (le_Message e))]
    ++ omitempty "correlation_id" (le_CorrelationID e) ++ omitempty "request_id" (le_RequestID e).

Definition entry_JSON (e : LogEntry) : option JSON :=
  if bool_decide (le_Fields e = ∅) then Some (JObject (entry_head e))
  else (λ f, JObject (entry_head e ++ [("fields", f)])) <$> fields_JSON (le_Fields e).

(** The lines written to each sink, and the number of complaints on
    standard error. *)
Record LogWorld := mkLogWorld { lw_lines : list (Sink * JSON); lw_failed : nat }.
Definition lw_empty : LogWorld := mkLogWorld [] 0.

(** A level that is not in the table counts as zero, like [debug]. *)
Definition level_rank (level : string) : Z :=
  if bool_decide (level = LevelDebug) then 0
  else if bool_decide (level = LevelInfo) then 1
  else if bool_decide (level = LevelWarn) then 2
  else if bool_decide (level = LevelError) then 3
  else 0.

Definition shouldLog (l : Logger) (level : string) : bool :=
  bool_decide (level_rank (lg_level l) ≤ level_rank level).

(** Later maps win, as later assignments do. *)
Definition merge_fields (fields : list (gmap string Value)) : gmap string Value :=
  foldl (λ acc m, m ∪ acc) ∅ fields.

Definition log_entry (now level msg : string) (ctx : option Ctx) (fields : list (gmap string Value)) : LogEntry :=
  mkLogEntry now level msg
    (match ctx with Some c => default "" (ctx_string c CorrelationIDKey) | None => "" end)
    (match ctx with Some c => default "" (ctx_string c RequestIDKey) | None => "" end)
    (merge_fields fields).

(** [Logger.log]; [now] is the formatted clock. *)
Definition Logger_log (now : string) (l : Logger) (level msg : string) (ctx : option Ctx)
    (fields : list (gmap string Value)) (w : LogWorld) : LogWorld :=
  if negb (shouldLog l level) then w
  else
    match entry_JSON (log_entry now level msg ctx fields) with
    | None => mkLogWorld (lw_lines w) (S (lw_failed w))
    | Some j => mkLogWorld (lw_lines w ++ [(lg_output l, j)]) (lw_failed w)
    end.

Definition Logger_Debug now l msg fields := Logger_log now l LevelDebug msg None fields.
Definition Logger_Info now l msg fields := Logger_log now l LevelInfo msg None fields.
Definition Logger_Warn now l msg fields := Logger_log now l LevelWarn msg None fields.
Definition Logger_Error now l msg fields := Logger_log now l LevelError msg None fields.

(** ** Loggers with a context *)

Record ContextLogger := mkContextLogger { cl_logger : Logger; cl_ctx : option Ctx }.
Definition Logger_WithContext (l : Logger) (ctx : option Ctx) : ContextLogger := mkContextLogger l ctx.

Definition ContextLogger_Debug now cl msg fields := Logger_log now (cl_logger cl) LevelDebug msg (cl_ctx cl) fields.
Definition ContextLogger_Info now cl msg fields := Logger_log now (cl_logger cl) LevelInfo msg (cl_ctx cl) fields.
Definition ContextLogger_Warn now cl msg fields := Logger_log now (cl_logger cl) LevelWarn msg (cl_ctx cl) fields.
Definition ContextLogger_Error now cl msg fields := Logger_log now (cl_logger cl) LevelError msg (cl_ctx cl) fields.

(** ** The package-level functions *)

(** The loop of [Info], [Error], [Warn] and [Debug] over their arguments: a
    key that is not a string is skipped with its value, and a last key
    without a value is not looked at. *)
Fixpoint kv_fields (keysAndValues : list Value) (fields : gmap string Value) : gmap string Value :=
  match keysAndValues with
  | k :: v :: rest =>
      kv_fields rest (match k with VString key => <[key := v]> fields | _ => fields end)
  | _ => fields
  end.

Definition log_Info (now msg : string) (kvs : list Value) : LogWorld → LogWorld :=
  Logger_Info now DefaultLogger msg [kv_fields kvs ∅].
Definition log_Error (now msg : string) (kvs : list Value) : LogWorld → LogWorld :=
  Logger_Error now DefaultLogger msg [kv_fields kvs ∅].
Definition log_Warn (now msg : string) (kvs : list Value) : LogWorld → LogWorld :=
  Logger_Warn now DefaultLogger msg [kv_fields kvs ∅].
Definition log_Debug (now msg : string) (kvs : list Value) : LogWorld → LogWorld :=
  Logger_Debug now DefaultLogger msg [kv_fields kvs ∅].

(** ** Lemmas *)

(** The member of an object with a given key. *)
Fixpoint assoc_JSON (k : string) (l : list (string * JSON)) : option JSON :=
  match l with
  | [] => None
  | (k', j) :: rest => if bool_decide (k' = k) then Some j else assoc_JSON k rest
  end.
Definition JSON_member (k : string) (j : JSON) : option JSON :=
  match j with JObject l => assoc_JSON k l | _ => None end.

Lemma JSON_member_object k l : JSON_member k (JObject l) = assoc_JSON k l.
Proof. reflexivity. Qed.

Lemma assoc_JSON_app k l l' :
  assoc_JSON k (l ++ l') = match assoc_JSON k l with Some j => Some j | None => assoc_JSON k l' end.
Proof.
  induction l as [|[k' j] l IH]; [done|]. simpl. by case_bool_decide.
Qed.

Lemma assoc_JSON_NoDup k j l : NoDup l.*1 → assoc_JSON k l = Some j ↔ (k, j) ∈ l.
Proof.
  induction l as [|[k' j'] l IH]; simpl; intros Hnd; [split; [done|by intros ?%not_elem_of_nil]|].
  inversion_clear Hnd as [|?? Hk Hnd']. rewrite elem_of_cons. case_bool_decide as Hkk.
  - subst k'. split; [intros [= ->]; by left|]. intros [[= ->]|Hin]; [done|].
    destruct Hk. apply list_elem_of_fmap. by exists (k, j).
  - rewrite IH by done. split; [by right|]. by intros [[= -> _]|?].
Qed.

(** Printing a map in key order keeps its associations. *)
Lemma assoc_sorted (m : gmap string JSON) k :
  assoc_JSON k (merge_sort key_le (map_to_list m)) = m !! k.
Proof.
  pose proof (merge_sort_Permutation key_le (map_to_list m)) as Hp.
  assert (NoDup (merge_sort key_le (map_to_list m)).*1) as Hnd by (rewrite Hp; apply NoDup_fst_map_to_list).
  apply option_eq. intros j. rewrite (assoc_JSON_NoDup _ _ _ Hnd), Hp. apply elem_of_map_to_list.
Qed.

Lemma merge_fields_snoc fields m : merge_fields (fields ++ [m]) = m ∪ merge_fields fields.
Proof. unfold merge_fields. by rewrite foldl_app. Qed.

Lemma merge_fields_one m : merge_fields [m] = m.
Proof. unfold merge_fields. simpl. apply (right_id_L ∅ (∪)). Qed.

(** The last map that has a key decides. *)
Lemma merge_fields_lookup fields k :
  merge_fields fields !! k = list.last (omap (λ m : gmap string Value, m !! k) fields).
Proof.
  induction fields as [|m fields IH] using rev_ind; [done|].
  rewrite merge_fields_snoc, omap_app, lookup_union. cbn [omap list_omap]. rewrite IH. clear IH.
  destruct (m !! k) as [v|].
  - rewrite last_snoc. by destruct (list.last _).
  - rewrite app_nil_r. by destruct (list.last _).
Qed.

(** The pairs of a call whose keys are all strings. *)
Definition kv_args (kvs : list (string * Value)) : list Value :=
  foldr (λ kv acc, VString kv.1 :: kv.2 :: acc) [] kvs.

Lemma kv_fields_pairs kvs tail m :
  (length tail ≤ 1)%nat → kv_fields (kv_args kvs ++ tail) m = list_to_map (rev kvs) ∪ m.
Proof.
  intros Ht. revert m. induction kvs as [|[k v] kvs IH]; intros m; simpl.
  - destruct tail as [|? [|]]; simpl in *; [| |lia]; by rewrite (left_id_L ∅ (∪)).
  - rewrite IH. rewrite list_to_map_app. simpl. rewrite <- (assoc_L (∪)). f_equal.
    by rewrite <- insert_union_l, (left_id_L ∅ (∪)).
Qed.

Lemma entry_JSON_member e j k :
  entry_JSON e = Some j → k ≠ "fields" →
  JSON_member k j = assoc_JSON k (entry_head e).
Proof.
  unfold entry_JSON. case_bool_decide; [by intros [= <-]|].
  destruct (fields_JSON (le_Fields e)) as [f|]; [|done]. intros Hj%(inj Some) Hk. rewrite <- Hj.
  rewrite JSON_member_object, assoc_JSON_app. cbn [assoc_JSON]. rewrite (bool_decide_eq_false_2 ("fields" = k)) by congruence.
  by destruct (assoc_JSON k (entry_head e)).
Qed.

Lemma entry_head_idents e :
  assoc_JSON "timestamp" (entry_head e) = Some (JText (le_Timestamp e))
  ∧ assoc_JSON "level" (entry_head e) = Some (JText (le_Level e))
  ∧ assoc_JSON "message" (entry_head e) = Some (JText (le_Message e))
  ∧ assoc_JSON "correlation_id" (entry_head e)
    = (if bool_decide (le_CorrelationID e = "") then None else Some (JText (le_CorrelationID e)))
  ∧ assoc_JSON "request_id" (entry_head e)
    = (if bool_decide (le_RequestID e = "") then None else Some (JText (le_RequestID e))).
Proof. unfold entry_head, omitempty. by repeat case_bool_decide. Qed.

(** The fields of the line are the entry's, each encoded. *)
Lemma entry_JSON_fields e j k :
  entry_JSON e = Some j →
  JSON_member "fields" j ≫= JSON_member k = le_Fields e !! k ≫= value_JSON.
Proof.
  unfold entry_JSON.
  assert (assoc_JSON "fields" (entry_head e) = None) as Hh
    by (unfold entry_head, omitempty; by repeat case_bool_decide).
  case_bool_decide as He; [intros [= <-]|].
  - rewrite He, lookup_empty. cbn [JSON_member]. by rewrite Hh.
  - unfold fields_JSON. case_bool_decide as Hall; [|done]. intros Hj%(inj Some). rewrite <- Hj.
    rewrite JSON_member_object, assoc_JSON_app, Hh.
    transitivity (assoc_JSON k (merge_sort key_le (map_to_list (omap value_JSON (le_Fields e))))); [done|].
    rewrite assoc_sorted, lookup_omap. by destruct (le_Fields e !! k).
Qed.

Lemma entry_JSON_Some e :
  is_Some (entry_JSON e) ↔ map_Forall (λ _ v, is_Some (value_JSON v)) (le_Fields e).
Proof.
  unfold entry_JSON, fields_JSON. case_bool_decide as He.
  - rewrite He. split; [intros _; apply map_Forall_empty|by eexists].
  - case_bool_decide as Hall; simpl; split; first [done|by eexists|by intros [? [=]]].
Qed.

(** A line depends on its fields only through their JSON. *)
Lemma fields_JSON_ext (m m' : gmap string Value) : value_JSON <$> m = value_JSON <$> m' → fields_JSON m = fields_JSON m'.
Proof.
  intros Heq.
  assert (∀ m : gmap string Value, (map_Forall (λ _ v, is_Some (value_JSON v)) m ↔ map_Forall (λ _, is_Some) (value_JSON <$> m))
    ∧ omap value_JSON m = omap id (value_JSON <$> m)) as Hm.
  { intros x. split; [by rewrite map_Forall_fmap|]. apply map_eq. intros k. rewrite !lookup_omap, lookup_fmap.
    by destruct (x !! k). }
  unfold fields_JSON. destruct (Hm m) as [Ha Hb], (Hm m') as [Ha' Hb'].
  rewrite (bool_decide_ext _ _ Ha), (bool_decide_ext _ _ Ha'), Hb, Hb', Heq. done.
Qed.

Lemma log_entry_ext now l level msg ctx (m m' : gmap string Value) w :
  value_JSON <$> m = value_JSON <$> m' →
  Logger_log now l level msg ctx [m] w = Logger_log now l level msg ctx [m'] w.
Proof.
  intros Heq. unfold Logger_log. destruct (negb _); [done|]. unfold log_entry, entry_JSON, entry_head.
  cbn [le_Fields le_Timestamp le_Level le_Message le_CorrelationID le_RequestID].
  rewrite !merge_fields_one, (fields_JSON_ext _ _ Heq).
  assert (m = ∅ ↔ m' = ∅) as Hem by (by rewrite <- (fmap_empty_iff value_JSON), Heq, fmap_empty_iff).
  by rewrite (bool_decide_ext _ _ Hem).
Qed.

(** The errors that have an exported field. *)
Definition is_domain_error (e : error) : bool :=
  match e with Sentinel id _ => HasPrefix id "domain.Err" | _ => false end.

Lemma error_JSON_opaque e : is_domain_error e = false → error_JSON e = JObject [].
Proof. destruct e as [id m|m|m i]; simpl; [|done..]. by intros ->. Qed.

(** ** Theorems *)

(** C23.  What reaches the sink.  An entry below the logger's level leaves no
    trace.  Any other entry is one line, at the end, with the time, the level,
    the message, the identifiers of its context (left out when there is none),
    and with a field for every key of the maps given, the last map that has
    the key deciding; unless a value has no JSON, and then the whole entry is
    lost. *)
Theorem Logger_log_writes now l level msg ctx fields w :
  let w' := Logger_log now l level msg ctx fields w in
  let field k := list.last (omap (λ m : gmap string Value, m !! k) fields) in
  let ident key := match ctx ≫= λ c, ctx_string c key with Some "" | None => None | Some id => Some (JText id) end in
  (level_rank level < level_rank (lg_level l) → w' = w)
  ∧ (level_rank (lg_level l) ≤ level_rank level →
     ((∀ k v, field k = Some v → is_Some (value_JSON v)) →
      ∃ j, w' = mkLogWorld (lw_lines w ++ [(lg_output l, j)]) (lw_failed w)
       ∧ JSON_member "timestamp" j = Some (JText now)
       ∧ JSON_member "level" j = Some (JText level) ∧ JSON_member "message" j = Some (JText msg)
       ∧ JSON_member "correlation_id" j = ident CorrelationIDKey ∧ JSON_member "request_id" j = ident RequestIDKey
       ∧ ∀ k, JSON_member "fields" j ≫= JSON_member k = field k ≫= value_JSON)
     ∧ ((∃ k v, field k = Some v ∧ value_JSON v = None) →
        w' = mkLogWorld (lw_lines w) (S (lw_failed w)))).
Proof.
  cbv zeta. unfold Logger_log, shouldLog. split; intros Hl; [by rewrite bool_decide_eq_false_2 by lia|].
  rewrite (bool_decide_eq_true_2 (level_rank (lg_level l) ≤ level_rank level)) by done. cbn [negb].
  set (e := log_entry now level msg ctx fields).
  assert (∀ k, le_Fields e !! k = list.last (omap (λ m : gmap string Value, m !! k) fields)) as Hf
    by (intros k; apply merge_fields_lookup).
  pose proof (entry_JSON_Some e) as He. split.
  - intros Hall. destruct (proj2 He) as [j Hj]; [intros k v; rewrite Hf; apply Hall|].
    rewrite Hj. exists j. split; [done|].
    rewrite !(entry_JSON_member _ _ _ Hj) by done. destruct (entry_head_idents e) as (-> & -> & -> & -> & ->).
    split_and!; [done..| | |].
    1,2: unfold e; simpl; by destruct ctx as [c|]; simpl; [destruct (ctx_string c _) as [[]|]|].
    intros k. by rewrite (entry_JSON_fields _ _ k Hj), Hf.
  - intros (k & v & Hk & Hv). destruct (entry_JSON e) as [j|] eqn:Hj; [|done].
    destruct (proj1 He (ex_intro _ j eq_refl) k v) as [x Hx]; [by rewrite Hf|]. congruence.
Qed.

(** Errors in the logs.  A line that reports, under some key, an error made
    by [errors.New] or [fmt.Errorf] does not depend on the error: it is
    printed as an empty object, so two such failures with different causes
    leave the same line.  (An error of the [domain] package shows its message,
    and one of a library what its type exports.) *)
Theorem log_Error_hides_error now msg pre key e e' post w :
  is_domain_error e = false → is_domain_error e' = false →
  log_Error now msg (kv_args (pre ++ (key, VError e) :: post)) w
  = log_Error now msg (kv_args (pre ++ (key, VError e') :: post)) w.
Proof.
  intros He He'. apply log_entry_ext. rewrite <- (app_nil_r (kv_args _)), kv_fields_pairs by (simpl; lia).
  rewrite <- (app_nil_r (kv_args (pre ++ (key, VError e') :: post))), kv_fields_pairs by (simpl; lia).
  rewrite !(right_id_L ∅ (∪)), <- !list_to_map_fmap. f_equal.
  change (map (prod_map id value_JSON) (rev (pre ++ (key, VError e) :: post))
    = map (prod_map id value_JSON) (rev (pre ++ (key, VError e') :: post))).
  rewrite !map_rev, !map_app. simpl. by rewrite !error_JSON_opaque.
Qed.

Module LoggerDemo.
(** An entry with a context and a field given twice. *)
Lemma Logger_log_writes_witness :
  ∃ j, Logger_Info "t" DefaultLogger "ready" [] lw_empty = mkLogWorld [(Stdout, JObject [("timestamp", JText "t");
         ("level", JText "info"); ("message", JText "ready")])] 0
    ∧ ContextLogger_Info "t" (Logger_WithContext DefaultLogger (Some (WithCorrelationID [] "c-1"))) "done"
        [{[ "n" := VInt 1 ]}; {[ "n" := VInt 2; "ok" := VBool true ]}] lw_empty = mkLogWorld [(Stdout, j)] 0
    ∧ JSON_member "correlation_id" j = Some (JText "c-1") ∧ JSON_member "request_id" j = None
    ∧ JSON_member "fields" j ≫= JSON_member "n" = Some (JNumber 2).
Proof.
  destruct (proj2 (Logger_log_writes "t" DefaultLogger LevelInfo "done" (Some (WithCorrelationID [] "c-1"))
    [{[ "n" := VInt 1 ]}; {[ "n" := VInt 2; "ok" := VBool true ]}] lw_empty) (Z.le_refl _)) as [Hw _].
  destruct Hw as (j & Hj & _ & _ & _ & Hc & Hr & Hf).
  { intros k v. cbn [omap list_omap]. destruct (decide (k = "n")) as [->|H1]; [intros [= <-]; by eexists|].
    destruct (decide (k = "ok")) as [->|H2]; [intros [= <-]; by eexists|].
    rewrite lookup_insert_ne, !lookup_singleton_ne by done. discriminate. }
  exists j. split; [reflexivity|]. split; [exact Hj|]. split; [exact Hc|]. split; [exact Hr|exact (Hf "n")].
Defined.

(** The entry is written, and the cause of the failure is not in it. *)
Lemma log_Error_hides_error_witness :
  lw_lines (log_Error "t" "Failed to load function"
    (kv_args [("function_id", VString "f"); ("error", VError (NewError "connection refused"))]) lw_empty)
  = [(Stdout, JObject [("timestamp", JText "t"); ("level", JText "error"); ("message", JText "Failed to load function");
      ("fields", JObject [("error", JObject []); ("function_id", JText "f")])])]
  ∧ log_Error "t" "Failed to load function"
      (kv_args ([("function_id", VString "f")] ++ ("error", VError (NewError "connection refused")) :: [])) lw_empty
    = log_Error "t" "Failed to load function"
      (kv_args ([("function_id", VString "f")] ++ ("error", VError (Wrap "scan" context_Canceled)) :: [])) lw_empty.
Proof.
  split; [vm_compute; reflexivity|]. apply log_Error_hides_error; reflexivity.
Defined.
End LoggerDemo.
