(* ===== verification/Metrics.v ===== *)
(** * Metrics (shared/metrics, lambda-service internal/executor/metrics.go)

    The Prometheus families the services declare, and the operations that
    record into them.  A registry maps a family and its label values to a
    value: a counter counts increments, a gauge holds what was last set, a
    histogram keeps its observations.  [float64] values are exact rationals.
    Whether the library accepts a label value (it asks for UTF-8) is a
    parameter. *)

From Stdlib Require Import ZArith Lia Ascii QArith.
From stdpp Require Import base strings gmap list numbers pretty.
From S2P Require Import Prelude.
From S2P Require Import DockerPool.
Open Scope Z_scope.

(** ** Families and registries *)

Inductive VecKind := CounterVec | GaugeVec | HistogramVec (buckets : list Q).

Record Vec := mkVec { vc_name : string; vc_kind : VecKind; vc_labels : list string }.

(** A series: the family's name and the label values. *)
Abbreviation Series := (string * list string)%type.

Record Metrics := mkMetrics {
  mt_counters : gmap (string * list string) Z;
  mt_gauges : gmap (string * list string) Q;
  mt_histograms : gmap (string * list string) (list Q)
}.
Definition mt_empty : Metrics := mkMetrics ∅ ∅ ∅.

(** [prometheus.ExponentialBuckets(start, factor, count)]. *)
Fixpoint ExponentialBuckets (start factor : Q) (count : nat) : list Q :=
  match count with
  | O => []
  | S n => start :: ExponentialBuckets (Qred (start * factor)) factor n
  end.

(** [prometheus.DefBuckets]. *)
Definition DefBuckets : list Q :=
  [5#1000; 1#100; 25#1000; 5#100; 1#10; 25#100; 5#10; 1; 25#10; 5; 10]%Q.

(** [Registry.MustRegister], for families declared one after the other: a
    second family of the same name makes it panic. *)
Fixpoint MustRegister (vs : list Vec) (names : gset string) : outcome (gset string) :=
  match vs with
  | [] => Ok names
  | v :: rest =>
      if bool_decide (vc_name v ∈ names) then Panic "duplicate metrics collector registration attempted"
      else MustRegister rest ({[vc_name v]} ∪ names)
  end.

(** The label values the library accepts. *)
Class PromLib := { label_ok : string → bool }.

(** [duration.Seconds()]. *)
Definition duration_Seconds (d : Z) : Q := Qred (Qmake d 1000000000).

Section Vecs.
Context `{!PromLib}.

(** [vec.WithLabelValues(values...)]. *)
Definition WithLabelValues (v : Vec) (values : list string) : outcome (string * list string) :=
  if bool_decide (length values ≠ length (vc_labels v)) then Panic "inconsistent label cardinality"
  else if forallb label_ok values then Ok (vc_name v, values)
  else Panic "label value is not valid UTF-8".

Definition with_series (v : Vec) (values : list string) (k : string * list string → Metrics → Metrics) : St Metrics unit :=
  λ m, match WithLabelValues v values with
       | Ok s => (Ok tt, k s m)
       | Err e => (Err e, m)
       | Panic w => (Panic w, m)
       end.

(** [Add] of a natural number: the library keeps it in an unsigned 64-bit
    integer. *)
Definition vec_Add (v : Vec) (values : list string) (n : Z) : St Metrics unit :=
  with_series v values (λ s m,
    mkMetrics (<[s := (default 0 (mt_counters m !! s) + n) mod 2 ^ 64]> (mt_counters m)) (mt_gauges m) (mt_histograms m)).
Definition vec_Inc (v : Vec) (values : list string) : St Metrics unit := vec_Add v values 1.
Definition vec_Set (v : Vec) (values : list string) (x : Q) : St Metrics unit :=
  with_series v values (λ s m, mkMetrics (mt_counters m) (<[s := x]> (mt_gauges m)) (mt_histograms m)).
Definition vec_Observe (v : Vec) (values : list string) (x : Q) : St Metrics unit :=
  with_series v values (λ s m,
    mkMetrics (mt_counters m) (mt_gauges m) (<[s := default [] (mt_histograms m !! s) ++ [x]]> (mt_histograms m))).
End Vecs.

(** ** The default registry (prometheus.go, backpressure_metrics.go) *)

Definition HTTPRequestsTotal := mkVec "http_requests_total" CounterVec ["service"; "method"; "path"; "status"].
Definition HTTPRequestDuration :=
  mkVec "http_request_duration_seconds" (HistogramVec DefBuckets) ["service"; "method"; "path"].
Definition FunctionInvocationsTotal :=
  mkVec "function_invocations_total" CounterVec ["function_id"; "function_name"; "status"].
Definition FunctionExecutionDuration :=
  mkVec "function_execution_duration_seconds"
    (HistogramVec [1#1000; 1#100; 1#10; 5#10; 1; 2; 5; 10; 30]%Q) ["function_id"; "function_name"].
Definition FunctionColdStarts := mkVec "function_cold_starts_total" CounterVec ["function_id"; "function_name"].
Definition BuildsTotal := mkVec "builds_total" CounterVec ["runtime"; "status"].
Definition BuildDuration :=
  mkVec "build_duration_seconds" (HistogramVec [1; 5; 10; 30; 60; 120; 300]%Q) ["runtime"].
Definition QueueDepth := mkVec "queue_depth" GaugeVec ["queue_name"].
Definition QueueProcessingTime :=
  mkVec "queue_processing_time_seconds" (HistogramVec DefBuckets) ["queue_name"].
Definition DatabaseQueryDuration :=
  mkVec "database_query_duration_seconds"
    (HistogramVec [1#1000; 5#1000; 1#100; 5#100; 1#10; 5#10; 1]%Q) ["query_type"; "table"].
Definition CacheHitsTotal := mkVec "cache_hits_total" CounterVec ["cache_type"].
Definition CacheMissesTotal := mkVec "cache_misses_total" CounterVec ["cache_type"].
Definition BackpressureRejectionsTotal := mkVec "backpressure_rejections_total" CounterVec ["service"; "reason"].
Definition RateLimitRejectionsTotal := mkVec "ratelimit_rejections_total" CounterVec ["type"; "scope"].
Definition CircuitBreakerStateGauge := mkVec "circuit_breaker_state" GaugeVec ["name"; "state"].
Definition CircuitBreakerFailuresTotal := mkVec "circuit_breaker_failures_total" CounterVec ["name"].
Definition CircuitBreakerSuccessesTotal := mkVec "circuit_breaker_successes_total" CounterVec ["name"].
Definition CircuitBreakerRejectionsTotal := mkVec "circuit_breaker_rejections_total" CounterVec ["name"].

(** What the package registers when it is loaded. *)
Definition default_vecs : list Vec :=
  [BackpressureRejectionsTotal; RateLimitRejectionsTotal; CircuitBreakerStateGauge; CircuitBreakerFailuresTotal;
   CircuitBreakerSuccessesTotal; CircuitBreakerRejectionsTotal;
   HTTPRequestsTotal; HTTPRequestDuration; FunctionInvocationsTotal; FunctionExecutionDuration; FunctionColdStarts;
   BuildsTotal; BuildDuration; QueueDepth; QueueProcessingTime; DatabaseQueryDuration; CacheHitsTotal; CacheMissesTotal].

Open Scope golang_scope.
Section Record_.
Context `{!PromLib}.

Definition RecordHTTPRequest (service method path : string) (status : Z) (duration : Q) : St Metrics unit :=
  vec_Inc HTTPRequestsTotal [service; method; path; pretty status] ;;!
  vec_Observe HTTPRequestDuration [service; method; path] duration.

Definition RecordFunctionInvocation (functionID functionName status : string) (duration : Q) (coldStart : bool)
    : St Metrics unit :=
  vec_Inc FunctionInvocationsTotal [functionID; functionName; status] ;;!
  (vec_Observe FunctionExecutionDuration [functionID; functionName] duration ;;!
   (if coldStart then vec_Inc FunctionColdStarts [functionID; functionName] else st_ret tt)).

Definition RecordBuild (runtime status : string) (duration : Q) : St Metrics unit :=
  vec_Inc BuildsTotal [runtime; status] ;;! vec_Observe BuildDuration [runtime] duration.

Definition RecordQueueDepth (queueName : string) (depth : Q) : St Metrics unit :=
  vec_Set QueueDepth [queueName] depth.

Definition RecordQueueProcessing (queueName : string) (duration : Q) : St Metrics unit :=
  vec_Observe QueueProcessingTime [queueName] duration.
End Record_.

(** ** The collector of the runtimes (metrics.go) *)

Record MetricsCollector := mkCollector {
  poolSize : Vec; poolWarmContainers : Vec; poolInUseContainers : Vec; poolHitRate : Vec;
  poolColdStarts : Vec; poolWarmStarts : Vec; poolEvictions : Vec; poolAvgUseCount : Vec;
  executionsTotal : Vec; executionDuration : Vec; executionPoolAcquire : Vec;
  executionCodeDuration : Vec; executionOutputRead : Vec;
  mc_registry : gset string
}.

(** It has a registry of its own. *)
Definition NewMetricsCollector : outcome MetricsCollector :=
  let size := mkVec "mini_lambda_pool_size" GaugeVec ["runtime"] in
  let warm := mkVec "mini_lambda_pool_warm_containers" GaugeVec ["runtime"] in
  let inUse := mkVec "mini_lambda_pool_in_use_containers" GaugeVec ["runtime"] in
  let hitRate := mkVec "mini_lambda_pool_hit_rate" GaugeVec ["runtime"] in
  let coldStarts := mkVec "mini_lambda_pool_cold_starts_total" CounterVec ["runtime"] in
  let warmStarts := mkVec "mini_lambda_pool_warm_starts_total" CounterVec ["runtime"] in
  let evictions := mkVec "mini_lambda_pool_evictions_total" CounterVec ["runtime"] in
  let avgUseCount := mkVec "mini_lambda_pool_average_use_count" GaugeVec ["runtime"] in
  let total := mkVec "mini_lambda_executions_total" CounterVec ["runtime"; "status"] in
  let duration := mkVec "mini_lambda_execution_duration_seconds"
    (HistogramVec (ExponentialBuckets (1#1000) 2 12)) ["runtime"; "warm_start"] in
  let acquire := mkVec "mini_lambda_execution_pool_acquire_seconds"
    (HistogramVec (ExponentialBuckets (1#10000) 2 10)) ["runtime"] in
  let code := mkVec "mini_lambda_execution_code_duration_seconds"
    (HistogramVec (ExponentialBuckets (1#1000) 2 12)) ["runtime"] in
  let output := mkVec "mini_lambda_execution_output_read_seconds"
    (HistogramVec (ExponentialBuckets (1#10000) 2 10)) ["runtime"] in
  outcome_bind
    (MustRegister [size; warm; inUse; hitRate; coldStarts; warmStarts; evictions; avgUseCount;
                   total; duration; acquire; code; output] ∅)
    (λ registry, Ok (mkCollector size warm inUse hitRate coldStarts warmStarts evictions avgUseCount
                       total duration acquire code output registry)).

Section Collector.
Context `{!PromLib} (mc : MetricsCollector).

Definition RecordPoolStats (runtime : string) (stats : PoolStats) : St Metrics unit :=
  vec_Set (poolSize mc) [runtime] (inject_Z (ps_TotalContainers stats)) ;;!
  (vec_Set (poolWarmContainers mc) [runtime] (inject_Z (ps_WarmContainers stats)) ;;!
  (vec_Set (poolInUseContainers mc) [runtime] (inject_Z (ps_InUseContainers stats)) ;;!
  (vec_Set (poolHitRate mc) [runtime] (ps_HitRate stats) ;;!
  (vec_Set (poolAvgUseCount mc) [runtime] (ps_AverageUseCount stats) ;;!
  (vec_Add (poolColdStarts mc) [runtime] 0 ;;!
  (vec_Add (poolWarmStarts mc) [runtime] 0 ;;!
   vec_Add (poolEvictions mc) [runtime] 0)))))).

Definition RecordColdStart (runtime : string) : St Metrics unit := vec_Inc (poolColdStarts mc) [runtime].
Definition RecordWarmStart (runtime : string) : St Metrics unit := vec_Inc (poolWarmStarts mc) [runtime].
Definition RecordEviction (runtime : string) : St Metrics unit := vec_Inc (poolEvictions mc) [runtime].

Definition RecordExecution (runtime : string) (duration : Z) (warmStart : bool) (status : string) : St Metrics unit :=
  vec_Inc (executionsTotal mc) [runtime; status] ;;!
  vec_Observe (executionDuration mc) [runtime; if warmStart then "true" else "false"] (duration_Seconds duration).

Definition RecordPoolAcquireTime (runtime : string) (duration : Z) : St Metrics unit :=
  vec_Observe (executionPoolAcquire mc) [runtime] (duration_Seconds duration).
Definition RecordCodeExecutionTime (runtime : string) (duration : Z) : St Metrics unit :=
  vec_Observe (executionCodeDuration mc) [runtime] (duration_Seconds duration).
Definition RecordOutputReadTime (runtime : string) (duration : Z) : St Metrics unit :=
  vec_Observe (executionOutputRead mc) [runtime] (duration_Seconds duration).
End Collector.

(** ** Timing of one execution (executor/metrics.go) *)

Record ExecutionMetrics := mkExecutionMetrics {
  em_PoolAcquireTime : Z; em_PoolReleaseTime : Z;
  em_ExecCreateTime : Z; em_ExecAttachTime : Z; em_ExecStartTime : Z; em_ExecWaitTime : Z;
  em_OutputReadTime : Z; em_LogCollectTime : Z;
  em_CodeExecutionTime : Z;
  em_TotalTime : Z;
  em_WasWarmStart : bool;
  em_ContainerID : string
}.

Definition percentage (m : ExecutionMetrics) (d : Z) : Q :=
  if bool_decide (em_TotalTime m = 0) then 0%Q
  else (inject_Z d / inject_Z (em_TotalTime m) * inject_Z 100)%Q.

(** The arguments of the report, in the order of its lines: the container's
    short identifier (a slice that panics on a shorter one), the flag, the
    total, and each part with its share. *)
Definition ExecutionMetrics_String (m : ExecutionMetrics) : outcome (string * bool * Z * list (Z * Q)) :=
  if bool_decide (String.length (em_ContainerID m) < 12)%nat then Panic "slice bounds out of range"
  else
    Ok (str_take 12 (em_ContainerID m), em_WasWarmStart m, em_TotalTime m,
        map (λ d, (d, percentage m d))
          [em_PoolAcquireTime m; em_ExecCreateTime m; em_ExecAttachTime m; em_ExecStartTime m;
           em_CodeExecutionTime m; em_ExecWaitTime m; em_OutputReadTime m; em_PoolReleaseTime m]).

Record Timer := mkTimer { tm_start : Z }.
Definition NewTimer (now : Z) : Timer := mkTimer now.
Definition Elapsed (now : Z) (t : Timer) : Z := time_Sub now (tm_start t).

(** ** What the runtimes record *)

Section Runtimes.
Context `{!PromLib}.

(** After a container was acquired (docker.go, kubernetes_runtime.go). *)
Definition acquire_metrics (collector : option MetricsCollector) (runtime : string) (wasWarmStart : bool)
    : St Metrics unit :=
  match collector with
  | None => st_ret tt
  | Some mc => if wasWarmStart then RecordWarmStart mc runtime else RecordColdStart mc runtime
  end.

(** The end of the deferred function of [DockerRuntime.executeWithPool]. *)
Definition docker_defer_metrics (collector : option MetricsCollector) (runtime : string) (m : ExecutionMetrics)
    (poolStats : option PoolStats) : St Metrics unit :=
  match collector with
  | None => st_ret tt
  | Some mc =>
      RecordPoolAcquireTime mc runtime (em_PoolAcquireTime m) ;;!
      (RecordCodeExecutionTime mc runtime (em_CodeExecutionTime m) ;;!
      (RecordOutputReadTime mc runtime (em_OutputReadTime m) ;;!
       match poolStats with Some stats => RecordPoolStats mc runtime stats | None => st_ret tt end))
  end.

(** The same of [KubernetesRuntime]. *)
Definition kube_defer_metrics (collector : option MetricsCollector) (runtime : string) (m : ExecutionMetrics)
    (stats : PoolStats) : St Metrics unit :=
  match collector with
  | None => st_ret tt
  | Some mc =>
      RecordPoolAcquireTime mc runtime (em_PoolAcquireTime m) ;;!
      (RecordCodeExecutionTime mc runtime (em_CodeExecutionTime m) ;;!
       RecordPoolStats mc runtime stats)
  end.
End Runtimes.

(** ** Histories *)

(** What the program records in the default registry: the middleware, the
    event processor, the build worker, the build limiter and the
    backpressure check. *)
Inductive DefaultOp :=
  | OpHTTP (service method path : string) (status : Z) (duration : Q)
  | OpInvocation (functionID functionName status : string) (duration : Q) (coldStart : bool)
  | OpBuild (runtime status : string) (duration : Q)
  | OpRateLimited (scope : string)
  | OpBackpressure (reason : string)
  | OpQueueDepth (queueName : string) (depth : Q).

(** What the runtimes record in the collector's. *)
Inductive RuntimeOp :=
  | OpAcquired (runtime : string) (wasWarmStart : bool)
  | OpDockerDone (runtime : string) (m : ExecutionMetrics) (poolStats : option PoolStats)
  | OpKubeDone (runtime : string) (m : ExecutionMetrics) (stats : PoolStats).

(** The registries of one process: the default one, which [promhttp.Handler]
    serves, and the runtime manager's, which [MetricsCollector.Handler]
    would serve. *)
Record MetricsWorld := mkMW { mw_default : Metrics; mw_collector : Metrics }.
Definition mw_empty : MetricsWorld := mkMW mt_empty mt_empty.

Section Histories.
Context `{!PromLib}.

Definition default_op (o : DefaultOp) : St Metrics unit :=
  match o with
  | OpHTTP service method path status duration => RecordHTTPRequest service method path status duration
  | OpInvocation fid name status duration coldStart => RecordFunctionInvocation fid name status duration coldStart
  | OpBuild runtime status duration => RecordBuild runtime status duration
  | OpRateLimited scope => vec_Inc RateLimitRejectionsTotal ["build-service"; scope]
  | OpBackpressure reason => vec_Inc BackpressureRejectionsTotal ["build-service"; reason]
  | OpQueueDepth q depth => vec_Set QueueDepth [q] depth
  end.

Definition runtime_op (mc : MetricsCollector) (o : RuntimeOp) : St Metrics unit :=
  match o with
  | OpAcquired runtime warm => acquire_metrics (Some mc) runtime warm
  | OpDockerDone runtime m stats => docker_defer_metrics (Some mc) runtime m stats
  | OpKubeDone runtime m stats => kube_defer_metrics (Some mc) runtime m stats
  end.

Definition metrics_step (mc : MetricsCollector) (o : DefaultOp + RuntimeOp) (w : MetricsWorld) : MetricsWorld :=
  match o with
  | inl o => mkMW (default_op o (mw_default w)).2 (mw_collector w)
  | inr o => mkMW (mw_default w) (runtime_op mc o (mw_collector w)).2
  end.
End Histories.

(** The families a page shows: those with a series. *)
Definition families (m : Metrics) : gset string :=
  set_map fst (dom (mt_counters m)) ∪ set_map fst (dom (mt_gauges m)) ∪ set_map fst (dom (mt_histograms m)).

(** What [GET /metrics] of the lambda service shows. *)
Definition lambda_metrics_page (w : MetricsWorld) : gset string := families (mw_default w).

(** What [MetricsCollector.Handler] would show; no route leads to it. *)
Definition MetricsCollector_Handler (w : MetricsWorld) : gset string := families (mw_collector w).

(** ** Lemmas *)

(** The collector that [NewMetricsCollector] returns. *)
Definition the_collector : MetricsCollector :=
  match NewMetricsCollector with
  | Ok mc => mc
  | _ => mkCollector QueueDepth QueueDepth QueueDepth QueueDepth QueueDepth QueueDepth QueueDepth QueueDepth
           QueueDepth QueueDepth QueueDepth QueueDepth QueueDepth ∅
  end.

Lemma NewMetricsCollector_ok : NewMetricsCollector = Ok the_collector.
Proof. reflexivity. Qed.

Section Lemmas.
Context `{!PromLib}.

(** A computation that keeps a property of the registry, whether or not it
    panics on the way. *)
Definition keeps (P : Metrics → Prop) {A} (c : St Metrics A) : Prop := ∀ m, P m → P (c m).2.

Lemma keeps_ret (P : Metrics → Prop) {A} (a : A) : keeps P (st_ret a).
Proof. by intros m. Qed.

Lemma keeps_bind P {A B} (c : St Metrics A) (k : A → St Metrics B) :
  keeps P c → (∀ a, keeps P (k a)) → keeps P (st_bind c k).
Proof.
  intros Hc Hk m Hm. unfold st_bind. specialize (Hc m Hm). destruct (c m) as [[a|e|w] m']; [|done..].
  by apply Hk.
Qed.

Lemma keeps_series (P : Metrics → Prop) v values k :
  (∀ m, P m → P (k (vc_name v, values) m)) → keeps P (with_series v values k).
Proof.
  intros Hk m Hm. unfold with_series, WithLabelValues. case_bool_decide; [done|].
  destruct (forallb _ _); [by apply Hk|done].
Qed.

Lemma with_series_ok v values k m :
  length values = length (vc_labels v) → forallb label_ok values = true →
  with_series v values k m = (Ok tt, k (vc_name v, values) m).
Proof.
  intros Hlen Hok. unfold with_series, WithLabelValues. rewrite bool_decide_eq_false_2 by auto.
  by rewrite Hok.
Qed.

(** Every series is of one of the families [names]. *)
Definition only (names : list string) (m : Metrics) : Prop :=
  ∀ s, s.1 ∉ names → mt_counters m !! s = None ∧ mt_gauges m !! s = None ∧ mt_histograms m !! s = None.

Lemma only_series names v values k :
  vc_name v ∈ names →
  (∀ s s' m, s ≠ s' → mt_counters (k s m) !! s' = mt_counters m !! s' ∧ mt_gauges (k s m) !! s' = mt_gauges m !! s'
     ∧ mt_histograms (k s m) !! s' = mt_histograms m !! s') →
  keeps (only names) (with_series v values k).
Proof.
  intros Hv Hk. apply keeps_series. intros m Hm s Hs.
  destruct (Hk (vc_name v, values) s m) as (-> & -> & ->); [by intros <-|by apply Hm].
Qed.

Lemma only_Add names v values n : vc_name v ∈ names → keeps (only names) (vec_Add v values n).
Proof. intros Hv. apply only_series; [done|]. intros s s' m Hne. simpl. by rewrite lookup_insert_ne. Qed.
Lemma only_Set names v values x : vc_name v ∈ names → keeps (only names) (vec_Set v values x).
Proof. intros Hv. apply only_series; [done|]. intros s s' m Hne. simpl. by rewrite lookup_insert_ne. Qed.
Lemma only_Observe names v values x : vc_name v ∈ names → keeps (only names) (vec_Observe v values x).
Proof. intros Hv. apply only_series; [done|]. intros s s' m Hne. simpl. by rewrite lookup_insert_ne. Qed.

Lemma only_empty names : only names mt_empty.
Proof. intros s _. simpl. by rewrite !lookup_empty. Qed.

Lemma only_families names m : only names m → families m ⊆ list_to_set names.
Proof.
  intros Ho n Hn. rewrite elem_of_list_to_set. destruct (decide (n ∈ names)) as [|Hno]; [done|exfalso].
  unfold families in Hn. rewrite !elem_of_union, !elem_of_map in Hn.
  destruct Hn as [[Hn|Hn]|Hn]; destruct Hn as (s & -> & Hs); apply elem_of_dom in Hs as [x Hx];
    destruct (Ho s Hno) as (? & ? & ?); congruence.
Qed.

(** The value of a counter, zero before its first increment. *)
Definition counter (m : Metrics) (s : string * list string) : Z := default 0 (mt_counters m !! s).

(** A computation that succeeds and adds [d] to the counter [s]. *)
Definition counts (s : string * list string) (d : Z) (c : St Metrics unit) : Prop :=
  ∀ m, 0 ≤ counter m s → counter m s + d < 2 ^ 64 →
    ∃ m', c m = (Ok tt, m') ∧ counter m' s = counter m s + d.

Lemma counts_ret s : counts s 0 (st_ret tt).
Proof. intros m _ _. exists m. split; [done|lia]. Qed.

Lemma counts_eq s d d' c : d = d' → counts s d c → counts s d' c.
Proof. by intros ->. Qed.

Lemma counts_bind s d d' c c' :
  0 ≤ d → 0 ≤ d' → counts s d c → counts s d' c' → counts s (d + d') (c ;;! c').
Proof.
  intros Hd Hd' Hc Hc' m H0 H1. destruct (Hc m) as (m1 & E1 & C1); [lia..|].
  destruct (Hc' m1) as (m2 & E2 & C2); [lia..|]. exists m2. unfold st_bind. rewrite E1, E2. split; [done|lia].
Qed.

Lemma counts_Add s v values n :
  0 ≤ n → length values = length (vc_labels v) → forallb label_ok values = true →
  counts s (if bool_decide (s = (vc_name v, values)) then n else 0) (vec_Add v values n).
Proof.
  intros Hn Hl Hok m H0 H1. unfold vec_Add. rewrite with_series_ok by done. eexists. split; [done|].
  unfold counter in *. simpl. case_bool_decide as Hs.
  - rewrite <- Hs, lookup_insert_eq. simpl. by rewrite Z.mod_small by lia.
  - rewrite lookup_insert_ne by congruence. lia.
Qed.

Lemma counts_Set s v values x :
  length values = length (vc_labels v) → forallb label_ok values = true → counts s 0 (vec_Set v values x).
Proof.
  intros Hl Hok m H0 H1. unfold vec_Set. rewrite with_series_ok by done. eexists. split; [done|].
  unfold counter. simpl. lia.
Qed.

Lemma counts_Observe s v values x :
  length values = length (vc_labels v) → forallb label_ok values = true → counts s 0 (vec_Observe v values x).
Proof.
  intros Hl Hok m H0 H1. unfold vec_Observe. rewrite with_series_ok by done. eexists. split; [done|].
  unfold counter. simpl. lia.
Qed.
End Lemmas.

(** Break a recording into its updates and close the side conditions that
    are about the names and the number of labels. *)
Ltac keeps_only :=
  repeat first
    [ apply keeps_bind; [|intros _] | apply keeps_ret
    | apply only_Add; by set_unfold; auto 40 | apply only_Set; by set_unfold; auto 40
    | apply only_Observe; by set_unfold; auto 40 ].

Ltac counts_side :=
  first
    [ reflexivity | lia
    | case_bool_decide; lia
    | simpl; repeat match goal with H : label_ok _ = true |- _ => rewrite H end; reflexivity ].

Section Counting.
Context `{!PromLib}.

Lemma default_op_only o : keeps (only (vc_name <$> default_vecs)) (default_op o).
Proof.
  destruct o as [| ??? ? [] | | | |]; simpl;
    unfold RecordHTTPRequest, RecordFunctionInvocation, RecordBuild, vec_Inc; keeps_only.
Qed.

(** The label values of a recording. *)
Definition op_labels (o : DefaultOp) : list string :=
  match o with
  | OpHTTP service method path status _ => [service; method; path; pretty status]
  | OpInvocation fid name status _ _ => [fid; name; status]
  | OpBuild runtime status _ => [runtime; status]
  | OpRateLimited scope => ["build-service"; scope]
  | OpBackpressure reason => ["build-service"; reason]
  | OpQueueDepth q _ => [q]
  end.

(** How often a list of recordings asks for a counter to be incremented. *)
Definition op_increments (s : string * list string) (o : DefaultOp) : Z :=
  match o with
  | OpHTTP service method path status _ =>
      if bool_decide (s = ("http_requests_total", [service; method; path; pretty status])) then 1 else 0
  | OpInvocation fid name status _ coldStart =>
      (if bool_decide (s = ("function_invocations_total", [fid; name; status])) then 1 else 0)
      + (if coldStart && bool_decide (s = ("function_cold_starts_total", [fid; name])) then 1 else 0)
  | OpBuild runtime status _ => if bool_decide (s = ("builds_total", [runtime; status])) then 1 else 0
  | OpRateLimited scope => if bool_decide (s = ("ratelimit_rejections_total", ["build-service"; scope])) then 1 else 0
  | OpBackpressure reason =>
      if bool_decide (s = ("backpressure_rejections_total", ["build-service"; reason])) then 1 else 0
  | OpQueueDepth _ _ => 0
  end.

Fixpoint increments (s : string * list string) (ops : list DefaultOp) : Z :=
  match ops with [] => 0 | o :: rest => op_increments s o + increments s rest end.

Lemma op_increments_nonneg s o : 0 ≤ op_increments s o.
Proof. destruct o as [| ??? ? [] | | | |]; simpl; repeat case_bool_decide; simpl; lia. Qed.

Lemma increments_nonneg s ops : 0 ≤ increments s ops.
Proof. induction ops as [|o ops IH]; simpl; [lia|]. pose proof (op_increments_nonneg s o). lia. Qed.

Lemma default_op_counts s o : forallb label_ok (op_labels o) = true → counts s (op_increments s o) (default_op o).
Proof.
  intros Hok. destruct o as [svc me pa st d|fid name st d cold|rt st d|sc|re|q d]; simpl in Hok; bools;
    cbn [op_increments default_op]; unfold RecordHTTPRequest, RecordFunctionInvocation, RecordBuild, vec_Inc.
  - eapply counts_eq; [|apply counts_bind; [..|apply counts_Add|apply counts_Observe]; try counts_side]. simpl. lia.
  - assert (counts s (if cold && bool_decide (s = ("function_cold_starts_total", [fid; name])) then 1 else 0)
      (if cold then vec_Add FunctionColdStarts [fid; name] 1 else st_ret tt)) as Hcold
      by (destruct cold; cbn [andb]; [apply (counts_Add s FunctionColdStarts [fid; name] 1); counts_side|apply counts_ret]).
    eapply counts_eq;
      [|apply counts_bind; [| |apply counts_Add|apply counts_bind; [| |apply counts_Observe|exact Hcold]]; try counts_side];
      simpl; repeat case_match; lia.
  - eapply counts_eq; [|apply counts_bind; [..|apply counts_Add|apply counts_Observe]; try counts_side]. simpl. lia.
  - apply (counts_Add s RateLimitRejectionsTotal); counts_side.
  - apply (counts_Add s BackpressureRejectionsTotal); counts_side.
  - apply counts_Set; counts_side.
Qed.

Lemma default_ops_count s ops m :
  forallb (λ o, forallb label_ok (op_labels o)) ops = true → 0 ≤ counter m s → counter m s + increments s ops < 2 ^ 64 →
  counter (foldl (λ m o, (default_op o m).2) m ops) s = counter m s + increments s ops.
Proof.
  revert m. induction ops as [|o ops IH]; intros m Hok H0 H1; simpl in *; [lia|]. bools.
  pose proof (op_increments_nonneg s o). pose proof (increments_nonneg s ops).
  destruct (default_op_counts s o) with (m := m) as (m' & -> & Hm'); [done|lia|lia|]. simpl.
  rewrite IH by (done || lia). lia.
Qed.

Lemma metrics_run_default mc ops w :
  mw_default (foldl (λ w o, metrics_step mc o w) w ops)
  = foldl (λ m o, (default_op o m).2) (mw_default w) (omap (λ o, match o with inl o => Some o | inr _ => None end) ops).
Proof. revert w. induction ops as [|[o|o] ops IH]; intros w; [done|..]; simpl; by rewrite IH. Qed.

Lemma metrics_run_only mc ops w :
  only (vc_name <$> default_vecs) (mw_default w) →
  only (vc_name <$> default_vecs) (mw_default (foldl (λ w o, metrics_step mc o w) w ops)).
Proof.
  revert w. induction ops as [|[o|o] ops IH]; intros w Hw; [done|..]; simpl; apply IH; [|done].
  by apply default_op_only.
Qed.

(** No eviction and no execution is counted. *)
Definition unused_counters (m : Metrics) : Prop :=
  ∀ s, (s.1 = "mini_lambda_pool_evictions_total" → counter m s = 0)
     ∧ (s.1 = "mini_lambda_executions_total" → mt_counters m !! s = None).

Lemma unused_Add v values n :
  (vc_name v = "mini_lambda_pool_evictions_total" → n = 0) → vc_name v ≠ "mini_lambda_executions_total" →
  keeps unused_counters (vec_Add v values n).
Proof.
  intros Hn Hv. apply keeps_series. intros m Hm s. destruct (Hm s) as [H1 H2]. unfold counter in *. simpl.
  destruct (decide (s = (vc_name v, values))) as [->|Hne]; [|by rewrite !lookup_insert_ne by congruence].
  rewrite lookup_insert_eq. split; [|done]. intros He. simpl in He, H1. rewrite (Hn He), (H1 He). done.
Qed.
Lemma unused_Set v values x : keeps unused_counters (vec_Set v values x).
Proof. by apply keeps_series. Qed.
Lemma unused_Observe v values x : keeps unused_counters (vec_Observe v values x).
Proof. by apply keeps_series. Qed.

Lemma runtime_op_unused mc o :
  Forall (λ v, vc_name v ≠ "mini_lambda_pool_evictions_total" ∧ vc_name v ≠ "mini_lambda_executions_total")
    [poolColdStarts mc; poolWarmStarts mc] →
  vc_name (poolEvictions mc) ≠ "mini_lambda_executions_total" →
  keeps unused_counters (runtime_op mc o).
Proof.
  intros [[Hc Hc'] [[Hw Hw'] _]%Forall_cons_1]%Forall_cons_1 He.
  destruct o as [rt []|rt m [st|]|rt m st]; cbn [runtime_op acquire_metrics docker_defer_metrics kube_defer_metrics];
    unfold RecordWarmStart, RecordColdStart, RecordPoolAcquireTime, RecordCodeExecutionTime, RecordOutputReadTime,
      RecordPoolStats, vec_Inc;
    repeat match goal with
    | |- keeps _ (st_bind _ _) => apply keeps_bind; [|intros _]
    | |- keeps _ (st_ret _) => apply keeps_ret
    | |- keeps _ (vec_Set _ _ _) => apply unused_Set
    | |- keeps _ (vec_Observe _ _ _) => apply unused_Observe
    | |- keeps _ (vec_Add _ _ _) => apply unused_Add; [done|done]
    end.
Qed.

Lemma the_collector_unused o : keeps unused_counters (runtime_op the_collector o).
Proof.
  apply runtime_op_unused; [|by vm_compute]. repeat constructor; by vm_compute.
Qed.

Lemma RecordPoolStats_size mc n rt stats m :
  vc_name (poolSize mc) = n → label_ok rt = true →
  Forall (λ v, vc_name v ≠ n) [poolWarmContainers mc; poolInUseContainers mc; poolHitRate mc; poolAvgUseCount mc] →
  Forall (λ v, length (vc_labels v) = 1%nat)
    [poolSize mc; poolWarmContainers mc; poolInUseContainers mc; poolHitRate mc; poolAvgUseCount mc;
     poolColdStarts mc; poolWarmStarts mc; poolEvictions mc] →
  mt_gauges (RecordPoolStats mc rt stats m).2 !! (n, [rt]) = Some (inject_Z (ps_TotalContainers stats)).
Proof.
  intros Hn Hrt Hnames Hlabels.
  assert (forallb label_ok [rt] = true) as Hok by (simpl; by rewrite Hrt).
  repeat match goal with H : Forall _ (_ :: _) |- _ => apply Forall_cons_1 in H as [? H] end.
  unfold RecordPoolStats, vec_Set, vec_Add, st_bind. simpl in *.
  rewrite !with_series_ok by done. cbn [fst snd mt_gauges].
  rewrite !lookup_insert_ne by congruence. rewrite <- Hn. apply lookup_insert_eq.
Qed.
End Counting.

(** ** Theorems *)

(** Registration.  The package's families are registered while the process
    starts, and the runtime manager's when it is created: no name occurs
    twice, so neither panics. *)
Theorem registration_succeeds :
  is_Ok (MustRegister default_vecs ∅) = true ∧ is_Ok NewMetricsCollector = true.
Proof. split; vm_compute; reflexivity. Qed.

(** C24.  Counters.  Whatever the services record, and however it interleaves
    with what the runtimes record, a counter of the default registry shows
    exactly how many of the recorded events carry its labels. *)
Theorem default_counters_exact `{!PromLib} mc ops s :
  let own := omap (λ o, match o with inl o => Some o | inr _ => None end) ops in
  forallb (λ o, forallb label_ok (op_labels o)) own = true → increments s own < 2 ^ 64 →
  counter (mw_default (foldl (λ w o, metrics_step mc o w) mw_empty ops)) s = increments s own.
Proof.
  intros own Hok Hlt. rewrite metrics_run_default. rewrite default_ops_count; [done..|done].
Qed.

(** The metrics page.  Whatever the service did, its metrics page shows
    only families of the default registry: no family of the container pools
    or of the executions is ever on it. *)
Theorem pool_metrics_not_served `{!PromLib} mc ops name :
  name ∈ lambda_metrics_page (foldl (λ w o, metrics_step mc o w) mw_empty ops) →
  name ∈ vc_name <$> default_vecs ∧ HasPrefix name "mini_lambda_" = false.
Proof.
  intros Hn. assert (name ∈ vc_name <$> default_vecs) as Hin.
  { apply (elem_of_list_to_set (C := gset string)). eapply only_families; [|exact Hn]. apply metrics_run_only, only_empty. }
  split; [done|].
  assert (Forall (λ n, HasPrefix n "mini_lambda_" = false) (vc_name <$> default_vecs)) as Hall by repeat constructor.
  by apply (proj1 (Forall_forall _ _) Hall).
Qed.

(** The pool counters.  The runtimes never count an eviction or an
    execution, and recording the pool's statistics does not set the counters
    to the pool's totals: whatever the statistics say, evictions stay at
    zero and the execution counter has no series. *)
Theorem evictions_never_counted `{!PromLib} ops w :
  unused_counters (mw_collector w) →
  unused_counters (mw_collector (foldl (λ w o, metrics_step the_collector o w) w ops)).
Proof.
  revert w. induction ops as [|[o|o] ops IH]; intros w Hw; [done|..]; simpl; apply IH; [done|].
  by apply the_collector_unused.
Qed.

(** One gauge for all functions of a runtime: it shows the pool that was
    recorded last. *)
Theorem RecordPoolStats_last_wins `{!PromLib} rt stats stats' m :
  label_ok rt = true →
  mt_gauges (RecordPoolStats the_collector rt stats' (RecordPoolStats the_collector rt stats m).2).2
    !! ("mini_lambda_pool_size", [rt]) = Some (inject_Z (ps_TotalContainers stats')).
Proof. intros Hrt. apply RecordPoolStats_size; [by vm_compute|done|..]; repeat constructor; by vm_compute. Qed.

(** Shares.  When the parts fit in the total, their shares add up to at most
    a hundred per cent. *)
Theorem percentage_sum m ds :
  0 < em_TotalTime m → foldr Z.add 0 ds ≤ em_TotalTime m →
  (foldr Qplus 0 (map (percentage m) ds) <= inject_Z 100)%Q.
Proof.
  intros Ht Hs. assert (~ inject_Z (em_TotalTime m) == 0)%Q as Hnz.
  { intros Heq. unfold Qeq in Heq. simpl in Heq. lia. }
  assert (foldr Qplus 0 (map (percentage m) ds)
          == inject_Z (foldr Z.add 0%Z ds) / inject_Z (em_TotalTime m) * inject_Z 100)%Q as ->.
  { clear Hs. induction ds as [|d ds IH]; cbn [map foldr]; [field; done|].
    rewrite IH, inject_Z_plus. unfold percentage. rewrite bool_decide_eq_false_2 by lia. field. done. }
  rewrite <- (Qmult_1_l (inject_Z 100)) at 2. apply Qmult_le_compat_r; [|done].
  apply Qle_shift_div_r; [|rewrite Qmult_1_l; by rewrite <- Zle_Qle].
  change 0%Q with (inject_Z 0). by rewrite <- Zlt_Qlt.
Qed.

Module MetricsDemo.
#[local] Instance ascii_labels : PromLib := { label_ok s := bool_decide (s ≠ String "255"%char "") }.

Definition demo_stats : PoolStats := mkPoolStats "nodejs18" 3 2 1 (Qmake 50 1) 4 4 7 (Qmake 0 1) 0.
Definition demo_times : ExecutionMetrics := mkExecutionMetrics 1 1 1 1 1 1 1 0 4 20 true "0123456789abcdef".
Definition demo_ops : list (DefaultOp + RuntimeOp) :=
  [inl (OpHTTP "lambda-service" "POST" "/functions/f/invoke" 200 (1#2));
   inr (OpAcquired "nodejs18" true);
   inr (OpDockerDone "nodejs18" demo_times (Some demo_stats));
   inl (OpHTTP "lambda-service" "POST" "/functions/f/invoke" 200 (1#4));
   inl (OpHTTP "lambda-service" "GET" "/health" 200 0)].

Definition demo_series : string * list string :=
  ("http_requests_total", ["lambda-service"; "POST"; "/functions/f/invoke"; "200"]).

Lemma default_counters_exact_witness :
  counter (mw_default (foldl (λ w o, metrics_step the_collector o w) mw_empty demo_ops)) demo_series = 2.
Proof.
  rewrite (default_counters_exact the_collector demo_ops demo_series); [reflexivity..|]. vm_compute. reflexivity.
Defined.

(** The pool families are recorded, but not on the page. *)
Lemma pool_metrics_not_served_witness :
  "mini_lambda_pool_size" ∈ MetricsCollector_Handler (foldl (λ w o, metrics_step the_collector o w) mw_empty demo_ops)
  ∧ HasPrefix "http_requests_total" "mini_lambda_" = false.
Proof.
  split; [vm_compute; set_solver|].
  refine (proj2 (pool_metrics_not_served the_collector demo_ops "http_requests_total" _)).
  unfold lambda_metrics_page, families. rewrite metrics_run_default. apply elem_of_union_l, elem_of_union_l.
  apply elem_of_map. exists demo_series. split; [reflexivity|]. apply elem_of_dom. eexists. vm_compute. reflexivity.
Defined.
End MetricsDemo.
