(* ===== verification/Middleware.v ===== *)
(** * HTTP middleware (shared/middleware)

    The wrappers that the services put around their handlers.  A response
    writer is a class, because the middlewares hand the next handler a writer
    of their own, [responseWriter], around the one they were given; a handler
    is a function that works for every writer.  [Conn] is the writer at the
    bottom: the connection of net/http with its write deadline. *)

From Stdlib Require Import ZArith Lia Ascii QArith.
From stdpp Require Import base strings gmap list numbers pretty.
From S2P Require Import Prelude.
From S2P Require Import Http.
From S2P Require Import Logger.
From S2P Require Import Metrics.
Open Scope Z_scope.

(** ** Writers *)

(** [http.ResponseWriter], with what a type assertion to [http.Flusher]
    finds and what [http.ResponseController] reaches through [Unwrap]. *)
Class HttpWriter (W : Type) := {
  hw_Header : W → Header;
  hw_set_header : Header → W → W;
  hw_WriteHeader : Z → W → W;
  hw_Write : string → W → W;
  hw_Flusher : W → option W;
  hw_SetWriteDeadline : option Z → W → option error * W
}.

(** The connection's own writer.  Flushing sends the header first. *)
Record Conn := mkConn { cn_rw : ResponseWriter; cn_deadline : option Z; cn_flushes : nat }.

Definition cn_update (f : ResponseWriter → ResponseWriter) (c : Conn) : Conn :=
  mkConn (f (cn_rw c)) (cn_deadline c) (cn_flushes c).

#[export] Instance Conn_writer : HttpWriter Conn := {
  hw_Header c := rw_header (cn_rw c);
  hw_set_header h := cn_update (rw_set_header h);
  hw_WriteHeader code := cn_update (rw_WriteHeader code);
  hw_Write data := cn_update (rw_Write data);
  hw_Flusher c := Some (mkConn (rw_WriteHeader 200 (cn_rw c)) (cn_deadline c) (S (cn_flushes c)));
  hw_SetWriteDeadline d c := (None, mkConn (cn_rw c) d (cn_flushes c))
}.

(** The recording writer of the middlewares. *)
Record responseWriter (W : Type) := mkWrapped { wr_ResponseWriter : W; wr_statusCode : Z }.
Arguments mkWrapped {W} _ _.
Arguments wr_ResponseWriter {W} _.
Arguments wr_statusCode {W} _.

Section Wrapped.
Context {W : Type} `{!HttpWriter W}.

Definition wr_inner (f : W → W) (rw : responseWriter W) : responseWriter W :=
  mkWrapped (f (wr_ResponseWriter rw)) (wr_statusCode rw).

Definition wr_WriteHeader (statusCode : Z) (rw : responseWriter W) : responseWriter W :=
  mkWrapped (hw_WriteHeader statusCode (wr_ResponseWriter rw)) statusCode.

Definition wr_Flush (rw : responseWriter W) : responseWriter W :=
  match hw_Flusher (wr_ResponseWriter rw) with
  | Some w => mkWrapped w (wr_statusCode rw)
  | None => rw
  end.

Definition wr_Unwrap (rw : responseWriter W) : W := wr_ResponseWriter rw.

(** Methods that [responseWriter] does not define are those of the writer it
    embeds; it always has [Flush], and a deadline is set on the writer that
    [Unwrap] returns. *)
#[export] Instance responseWriter_writer : HttpWriter (responseWriter W) := {
  hw_Header rw := hw_Header (wr_ResponseWriter rw);
  hw_set_header h := wr_inner (hw_set_header h);
  hw_WriteHeader := wr_WriteHeader;
  hw_Write data := wr_inner (hw_Write data);
  hw_Flusher rw := Some (wr_Flush rw);
  hw_SetWriteDeadline d rw :=
    let '(err, w) := hw_SetWriteDeadline d (wr_Unwrap rw) in (err, mkWrapped w (wr_statusCode rw))
}.
End Wrapped.

(** ** Handlers *)

(** What one process keeps across requests. *)
Record ServerState (A : Type) := mkServer { sv_app : A; sv_metrics : Metrics; sv_log : LogWorld }.
Arguments mkServer {A} _ _ _.
Arguments sv_app {A} _.
Arguments sv_metrics {A} _.
Arguments sv_log {A} _.

(** [http.Handler]: it returns or panics. *)
Definition HandlerFunc (A : Type) : Type :=
  ∀ W : Type, HttpWriter W → Ctx → Request → W → ServerState A → outcome unit * W * ServerState A.

Section Middleware.
Context {A : Type} `{!PromLib}.

(** ** Tracing *)

Definition TraceRequestIDKey : CtxKey := MiddlewareKey "requestID".

(** The request identifier of a request; [uuid] is the one generated when it
    has none. *)
Definition trace_id (uuid : string) (r : Request) : string :=
  let reqID := Header_Get (rq_Header r) "X-Request-ID" in
  if bool_decide (reqID = "") then uuid else reqID.

(** The request with its identifier and its chain of addresses. *)
Definition trace_request (uuid : string) (r : Request) : Request :=
  let h := if bool_decide (Header_Get (rq_Header r) "X-Request-ID" = "")
           then Header_Set (rq_Header r) "X-Request-ID" uuid else rq_Header r in
  let clientIP := rq_RemoteAddr r in
  let xff := Header_Get h "X-Forwarded-For" in
  let h := if bool_decide (xff = "") then Header_Set h "X-Forwarded-For" clientIP
           else Header_Set h "X-Forwarded-For" (xff +:+ ", " +:+ clientIP) in
  mkRequest (rq_Method r) (rq_Path r) (rq_query r) h (rq_Body r) (rq_RemoteAddr r).

Definition TraceMiddleware (uuid : string) (next : HandlerFunc A) : HandlerFunc A :=
  λ W _ ctx r w s,
    let reqID := trace_id uuid r in
    let w := hw_set_header (Header_Set (hw_Header w) "X-Request-ID" reqID) w in
    let ctx := context_WithValue ctx TraceRequestIDKey (VString reqID) in
    next W _ ctx (trace_request uuid r) w s.

Definition Trace_GetRequestID (ctx : Ctx) : string := default "" (ctx_string ctx TraceRequestIDKey).

(** ** Logging *)

(** [t0] and [t1] are the clock before and after the handler, [now] the time
    stamp of the entry. *)
Definition LoggingMiddleware (t0 t1 : Z) (now : string) (next : HandlerFunc A) : HandlerFunc A :=
  λ W _ ctx r w s,
    let '(o, wrapped, s) := next (responseWriter W) _ ctx r (mkWrapped w 200) s in
    match o with
    | Panic why => (Panic why, wr_ResponseWriter wrapped, s)
    | _ =>
        let reqID := Trace_GetRequestID ctx in
        let log := log_Info now "Request"
          [VString "req_id"; VString reqID; VString "method"; VString (rq_Method r);
           VString "path"; VString (rq_Path r); VString "status"; VInt (wr_statusCode wrapped);
           VString "duration_ms"; VInt (duration_Milliseconds (time_Sub t1 t0));
           VString "remote_addr"; VString (rq_RemoteAddr r)] (sv_log s) in
        (Ok tt, wr_ResponseWriter wrapped, mkServer (sv_app s) (sv_metrics s) log)
    end.

(** ** Metrics *)

Definition MetricsMiddleware (serviceName : string) (t0 t1 : Z) (next : HandlerFunc A) : HandlerFunc A :=
  λ W _ ctx r w s,
    let '(o, rw, s) := next (responseWriter W) _ ctx r (mkWrapped w 200) s in
    match o with
    | Panic why => (Panic why, wr_ResponseWriter rw, s)
    | _ =>
        let '(o, m) := RecordHTTPRequest serviceName (rq_Method r) (rq_Path r) (wr_statusCode rw)
                         (duration_Seconds (time_Sub t1 t0)) (sv_metrics s) in
        (o, wr_ResponseWriter rw, mkServer (sv_app s) m (sv_log s))
    end.

(** ** The chains of the services *)

(** The readings of the clock and the identifier of one request. *)
Record ChainEnv := mkChainEnv { ce_uuid : string; ce_start : Z; ce_log_end : Z; ce_end : Z; ce_now : string }.

Definition gateway_chain (e : ChainEnv) (mux : HandlerFunc A) : HandlerFunc A :=
  TraceMiddleware (ce_uuid e)
    (MetricsMiddleware "gateway" (ce_start e) (ce_end e)
       (LoggingMiddleware (ce_start e) (ce_log_end e) (ce_now e) mux)).

Definition lambda_chain (e : ChainEnv) (mux : HandlerFunc A) : HandlerFunc A :=
  MetricsMiddleware "lambda-service" (ce_start e) (ce_end e) mux.

Definition master_chain (e : ChainEnv) (mux : HandlerFunc A) : HandlerFunc A :=
  MetricsMiddleware "build-service-master" (ce_start e) (ce_end e) mux.
End Middleware.

(** ** Handlers as sequences of writer calls *)

(** What a handler does to its writer. *)
Inductive WOp :=
  | WSetHeader (f : Header → Header)
  | WWriteHeader (code : Z)
  | WWrite (data : string)
  | WFlush
  | WSetWriteDeadline (d : option Z).

Definition run_op {W} `{!HttpWriter W} (w : W) (o : WOp) : W :=
  match o with
  | WSetHeader f => hw_set_header (f (hw_Header w)) w
  | WWriteHeader code => hw_WriteHeader code w
  | WWrite data => hw_Write data w
  | WFlush => default w (hw_Flusher w)
  | WSetWriteDeadline d => (hw_SetWriteDeadline d w).2
  end.
Definition run_ops {W} `{!HttpWriter W} (ops : list WOp) (w : W) : W := foldl run_op w ops.

(** A handler that decides from the request and the state what to do to the
    writer. *)
Definition ops_handler {A} (f : Ctx → Request → A → list WOp * outcome unit * A) : HandlerFunc A :=
  λ W _ ctx r w s,
    let '(ops, o, a) := f ctx r (sv_app s) in
    (o, run_ops ops w, mkServer a (sv_metrics s) (sv_log s)).

(** The status a wrapper records: the last one written, 200 without one. *)
Definition last_status (ops : list WOp) : Z :=
  foldl (λ st o, match o with WWriteHeader code => code | _ => st end) 200 ops.

(** At most one status is written, before anything is sent. *)
Fixpoint single_status (ops : list WOp) : bool :=
  match ops with
  | [] => true
  | WSetHeader _ :: rest => single_status rest
  | WSetWriteDeadline _ :: rest => single_status rest
  | WWriteHeader _ :: rest => forallb (λ o, match o with WWriteHeader _ => false | _ => true end) rest
  | WWrite _ :: rest => forallb (λ o, match o with WWriteHeader _ => false | _ => true end) rest
  | WFlush :: rest => forallb (λ o, match o with WWriteHeader _ => false | _ => true end) rest
  end.

(** ** Lemmas *)

Lemma run_ops_app {W} `{!HttpWriter W} a b (w : W) : run_ops (a ++ b) w = run_ops b (run_ops a w).
Proof. apply foldl_app. Qed.

Lemma wrapped_op {W} `{!HttpWriter W} o (rw : responseWriter W) :
  run_op rw o = mkWrapped (run_op (wr_ResponseWriter rw) o)
                  (match o with WWriteHeader code => code | _ => wr_statusCode rw end).
Proof.
  destruct rw as [w st], o as [f|code|data| |d]; simpl; try done.
  - unfold wr_Flush. simpl. by destruct (hw_Flusher w).
  - unfold wr_Unwrap. simpl. by destruct (hw_SetWriteDeadline d w).
Qed.

(** The wrapped writer sees exactly the handler's calls, and the wrapper
    keeps the last status. *)
Lemma wrapped_ops {W} `{!HttpWriter W} ops (w : W) st :
  run_ops ops (mkWrapped w st)
  = mkWrapped (run_ops ops w) (foldl (λ st o, match o with WWriteHeader code => code | _ => st end) st ops).
Proof.
  revert w st. induction ops as [|o ops IH]; intros w st; [done|].
  unfold run_ops in *. cbn [foldl]. rewrite wrapped_op. cbn [wr_ResponseWriter wr_statusCode]. apply IH.
Qed.

Lemma last_status_none st ops :
  forallb (λ o, match o with WWriteHeader _ => false | _ => true end) ops = true →
  foldl (λ st o, match o with WWriteHeader code => code | _ => st end) st ops = st.
Proof.
  revert st. induction ops as [|o ops IH]; intros st; [done|]. simpl. destruct o; [by apply IH|done|by apply IH..].
Qed.

Lemma rw_WriteHeader_keep st code w : rw_status w = Some st → rw_status (rw_WriteHeader code w) = Some st.
Proof. unfold rw_WriteHeader. intros Hw. by rewrite Hw. Qed.

(** Once the status is sent it does not change. *)
Lemma sent_status_keep ops (c : Conn) st :
  rw_status (cn_rw c) = Some st → rw_status (cn_rw (run_ops ops c)) = Some st.
Proof.
  revert c. induction ops as [|o ops IH]; intros c Hc; [done|]. unfold run_ops in *. cbn [foldl]. apply IH.
  destruct o; simpl; try done; by apply rw_WriteHeader_keep.
Qed.

(** What the wrapper recorded is what the client received. *)
Lemma single_status_sent ops (c : Conn) :
  rw_status (cn_rw c) = None → single_status ops = true →
  default 200 (rw_status (cn_rw (run_ops ops c))) = last_status ops.
Proof.
  unfold last_status. revert c. induction ops as [|o ops IH]; intros c Hc Hs; [simpl; by rewrite Hc|].
  assert (∀ st, rw_status (cn_rw (run_op c o)) = Some st →
    forallb (λ o, match o with WWriteHeader _ => false | _ => true end) ops = true →
    default 200 (rw_status (cn_rw (run_ops (o :: ops) c)))
    = foldl (λ st o, match o with WWriteHeader code => code | _ => st end) st ops) as Hsent.
  { intros st Hst Hno. rewrite last_status_none by done.
    change (run_ops (o :: ops) c) with (run_ops ops (run_op c o)). by rewrite (sent_status_keep _ _ _ Hst). }
  destruct o as [f|code|data| |d]; simpl in Hs; [by apply IH| | | |by apply IH];
    (apply Hsent; [|done]); simpl; unfold rw_WriteHeader; by rewrite Hc.
Qed.

Lemma RecordHTTPRequest_ok `{!PromLib} service method path status d m :
  forallb label_ok [service; method; path; pretty status] = true →
  ∃ m', RecordHTTPRequest service method path status d m = (Ok tt, m')
    ∧ mt_counters m' = let series := ("http_requests_total", [service; method; path; pretty status]) in
        <[series := (counter m series + 1) mod 2 ^ 64]> (mt_counters m).
Proof.
  intros Hok. unfold RecordHTTPRequest, st_bind, vec_Inc, vec_Add, vec_Observe.
  rewrite with_series_ok by done. rewrite with_series_ok.
  - by eexists.
  - done.
  - simpl in *. bools. repeat match goal with H : label_ok _ = true |- _ => rewrite H end. done.
Qed.

(** The context and the writer the trace middleware hands on. *)
Definition traced_ctx (uuid : string) (ctx : Ctx) (r : Request) : Ctx :=
  context_WithValue ctx TraceRequestIDKey (VString (trace_id uuid r)).
Definition traced_conn (uuid : string) (r : Request) (c : Conn) : Conn :=
  hw_set_header (Header_Set (hw_Header c) "X-Request-ID" (trace_id uuid r)) c.

(** The line of the logging middleware. *)
Definition request_fields (e : ChainEnv) (reqID : string) (r : Request) (status : Z) : gmap string Value :=
  kv_fields [VString "req_id"; VString reqID; VString "method"; VString (rq_Method r);
    VString "path"; VString (rq_Path r); VString "status"; VInt status;
    VString "duration_ms"; VInt (duration_Milliseconds (time_Sub (ce_log_end e) (ce_start e)));
    VString "remote_addr"; VString (rq_RemoteAddr r)] ∅.

Lemma request_logged e reqID r status w :
  ∃ j, Logger_Info (ce_now e) DefaultLogger "Request" [request_fields e reqID r status] w
       = mkLogWorld (lw_lines w ++ [(Stdout, j)]) (lw_failed w)
    ∧ JSON_member "fields" j ≫= JSON_member "status" = Some (JNumber status)
    ∧ JSON_member "fields" j ≫= JSON_member "req_id" = Some (JText reqID)
    ∧ JSON_member "fields" j ≫= JSON_member "path" = Some (JText (rq_Path r)).
Proof.
  unfold Logger_Info, Logger_log. change (negb (shouldLog DefaultLogger LevelInfo)) with false. cbv iota.
  set (en := log_entry _ _ _ _ _).
  assert (le_Fields en = request_fields e reqID r status) as Hf by (unfold en; simpl; apply merge_fields_one).
  assert (is_Some (entry_JSON en)) as [j Hj].
  { apply entry_JSON_Some. rewrite Hf. unfold request_fields. cbn [kv_fields].
    repeat (apply map_Forall_insert_2; [by eexists|]). apply map_Forall_empty. }
  exists j. rewrite Hj. split; [done|]. rewrite !(entry_JSON_fields _ _ _ Hj), Hf. unfold request_fields.
  generalize (duration_Milliseconds (time_Sub (ce_log_end e) (ce_start e))). intros d.
  split_and!; vm_compute; reflexivity.
Qed.

(** ** Theorems *)

(** The gateway's middleware.  Whatever a handler does to its writer,
    through tracing, metrics and logging the connection sees exactly those
    calls, after a header with the request's identifier; the handler itself
    gets the request with that identifier and the client's address.  One line
    is logged and one request is counted, and if the handler writes at most
    one status, then the status in both is the one the client receives. *)
Theorem gateway_chain_transparent {A} `{!PromLib} (f : Ctx → Request → A → list WOp * outcome unit * A)
    e ctx r (c : Conn) s ops a :
  f (traced_ctx (ce_uuid e) ctx r) (trace_request (ce_uuid e) r) (sv_app s) = (ops, Ok tt, a) →
  forallb label_ok ["gateway"; rq_Method r; rq_Path r; pretty (last_status ops)] = true →
  rw_status (cn_rw c) = None → single_status ops = true →
  let c' := run_ops ops (traced_conn (ce_uuid e) r c) in
  let status := default 200 (rw_status (cn_rw c')) in
  ∃ j m, gateway_chain e (ops_handler f) Conn _ ctx r c s
      = (Ok tt, c', mkServer a m (mkLogWorld (lw_lines (sv_log s) ++ [(Stdout, j)]) (lw_failed (sv_log s))))
    ∧ JSON_member "fields" j ≫= JSON_member "status" = Some (JNumber status)
    ∧ JSON_member "fields" j ≫= JSON_member "req_id" = Some (JText (trace_id (ce_uuid e) r))
    ∧ mt_counters m = let series := ("http_requests_total", ["gateway"; rq_Method r; rq_Path r; pretty status]) in
        <[series := (counter (sv_metrics s) series + 1) mod 2 ^ 64]> (mt_counters (sv_metrics s)).
Proof.
  intros Hf Hok Hc Hs c' status. assert (status = last_status ops) as Hst by (by apply single_status_sent).
  unfold gateway_chain, TraceMiddleware, MetricsMiddleware, LoggingMiddleware, ops_handler.
  fold (traced_ctx (ce_uuid e) ctx r). rewrite Hf, !wrapped_ops.
  cbn [wr_ResponseWriter wr_statusCode sv_app sv_metrics sv_log rq_Method rq_Path rq_RemoteAddr trace_request].
  fold (last_status ops).
  destruct (RecordHTTPRequest_ok "gateway" (rq_Method r) (rq_Path r) (last_status ops)
    (duration_Seconds (time_Sub (ce_end e) (ce_start e))) (sv_metrics s) Hok) as (m & -> & Hm).
  destruct (request_logged e (trace_id (ce_uuid e) r) r (last_status ops) (sv_log s)) as (j & Hj & Hjs & Hji & _).
  exists j, m. rewrite Hst. split_and!; [|done..]. unfold log_Info. rewrite <- Hj. done.
Qed.

(** A path the metrics library does not take.  The path of a request is
    a label value, so a request whose path is not accepted as one (it need
    not be UTF-8) ends in a panic, after the handler has done its work: the
    request is not counted, and net/http drops the connection. *)
Theorem gateway_chain_bad_path {A} `{!PromLib} (f : Ctx → Request → A → list WOp * outcome unit * A)
    e ctx r (c : Conn) s ops a :
  f (traced_ctx (ce_uuid e) ctx r) (trace_request (ce_uuid e) r) (sv_app s) = (ops, Ok tt, a) →
  label_ok (rq_Path r) = false →
  ∃ c' log why, gateway_chain e (ops_handler f) Conn _ ctx r c s = (Panic why, c', mkServer a (sv_metrics s) log).
Proof.
  intros Hf Hbad. unfold gateway_chain, TraceMiddleware, MetricsMiddleware, LoggingMiddleware, ops_handler.
  fold (traced_ctx (ce_uuid e) ctx r). rewrite Hf, !wrapped_ops.
  cbn [wr_ResponseWriter wr_statusCode sv_app sv_metrics sv_log rq_Method rq_Path rq_RemoteAddr trace_request].
  unfold RecordHTTPRequest, st_bind, vec_Inc, vec_Add, with_series, WithLabelValues.
  cbn [length vc_labels HTTPRequestsTotal]. rewrite bool_decide_eq_false_2 by lia.
  assert (forallb label_ok ["gateway"; rq_Method r; rq_Path r; pretty (last_status ops)] = false) as Hno.
  { simpl. rewrite Hbad. by rewrite !andb_false_r. }
  unfold last_status in Hno. rewrite Hno. eauto.
Qed.

(** The request identifier in context logs.  The identifier that the
    trace middleware puts into the context is found by the middleware, but
    not by the logger, which looks under a key of its own: a line written
    with the request's context has no request identifier. *)
Theorem request_id_not_logged uuid r now l msg fields w j :
  Logger_log now l LevelInfo msg (Some (traced_ctx uuid [] r)) fields w
  = mkLogWorld (lw_lines w ++ [(lg_output l, j)]) (lw_failed w) →
  Trace_GetRequestID (traced_ctx uuid [] r) = trace_id uuid r
  ∧ Logger.GetRequestID (traced_ctx uuid [] r) = "" ∧ JSON_member "request_id" j = None.
Proof.
  intros Hj. split_and!; [done..|]. unfold Logger_log in Hj.
  destruct (shouldLog l LevelInfo); simpl in Hj.
  - set (en := log_entry now LevelInfo msg _ fields) in *. destruct (entry_JSON en) as [j'|] eqn:He.
    + injection Hj as Hj. apply app_inv_head in Hj. injection Hj as <-.
      rewrite (entry_JSON_member _ _ _ He) by done. unfold entry_head, omitempty. simpl. reflexivity.
    + injection Hj as Hj _. apply (f_equal length) in Hj. rewrite length_app in Hj. simpl in Hj. lia.
  - apply (f_equal (length ∘ lw_lines)) in Hj. simpl in Hj. rewrite length_app in Hj. simpl in Hj. lia.
Qed.

Module MiddlewareDemo.
#[local] Instance byte_labels : PromLib :=
  { label_ok s := bool_decide (ContainsChar s "255"%char = false) }.

Definition demo_env : ChainEnv := mkChainEnv "uuid-1" 0 5000000 6000000 "now".
Definition demo_request (path : string) : Request := mkRequest "GET" path ∅ ∅ (mkBody "" None) "10.0.0.1:99".
Definition demo_state : ServerState nat := mkServer 0%nat mt_empty lw_empty.
Definition demo_conn : Conn := mkConn rw_new (Some 45) 0.
(** Answers 404 and counts its calls. *)
Definition demo_handler (ctx : Ctx) (r : Request) (n : nat) : list WOp * outcome unit * nat :=
  ([WSetHeader (λ h, Header_Set h "Content-Type" "text/plain"); WWriteHeader 404; WWrite "no"], Ok tt, S n).

Lemma gateway_chain_transparent_witness :
  ∃ j m, (gateway_chain demo_env (ops_handler demo_handler) Conn _ [] (demo_request "/x") demo_conn demo_state).2
         = mkServer 1%nat m (mkLogWorld [(Stdout, j)] 0)
    ∧ JSON_member "fields" j ≫= JSON_member "status" = Some (JNumber 404)
    ∧ counter m ("http_requests_total", ["gateway"; "GET"; "/x"; "404"]) = 1.
Proof.
  destruct (gateway_chain_transparent demo_handler demo_env [] (demo_request "/x") demo_conn demo_state
    [WSetHeader (λ h, Header_Set h "Content-Type" "text/plain"); WWriteHeader 404; WWrite "no"] 1%nat)
    as (j & m & He & Hj & _ & Hm); [reflexivity|vm_compute; reflexivity|reflexivity..|].
  exists j, m. rewrite He. split_and!; [reflexivity|exact Hj|]. unfold counter. rewrite Hm. reflexivity.
Defined.

Lemma gateway_chain_bad_path_witness :
  ∃ c log why, gateway_chain demo_env (ops_handler demo_handler) Conn _ [] (demo_request (String "255"%char ""))
                 demo_conn demo_state = (Panic why, c, mkServer 1%nat mt_empty log).
Proof.
  refine (gateway_chain_bad_path demo_handler demo_env [] (demo_request (String "255"%char "")) demo_conn demo_state
    _ 1%nat _ _); vm_compute; reflexivity.
Defined.

Lemma request_id_not_logged_witness :
  Trace_GetRequestID (traced_ctx "uuid-1" [] (demo_request "/x")) = "uuid-1"
  ∧ Logger.GetRequestID (traced_ctx "uuid-1" [] (demo_request "/x")) = "".
Proof.
  destruct (request_id_not_logged "uuid-1" (demo_request "/x") "now" DefaultLogger "hi" [] lw_empty
    (JObject [("timestamp", JText "now"); ("level", JText "info"); ("message", JText "hi")]))
    as (H1 & H2 & _); [vm_compute; reflexivity|]. split; [exact H1|exact H2].
Defined.
End MiddlewareDemo.
