(* ===== verification/Crypto.v ===== *)
(** * SHA-256 and HMAC (Go's crypto/sha256 and crypto/hmac)

    The webhook code signs with [hmac.New(sha256.New, key)].  Words are 32-bit
    integers in [Z]; messages and digests are byte strings. *)

From Stdlib Require Import ZArith Lia Ascii.
From stdpp Require Import base strings list numbers.
From S2P Require Import Prelude.
Open Scope Z_scope.

(** ** Words *)

Definition w32 (x : Z) : Z := Z.land x 0xffffffff.
Definition add32 (x y : Z) : Z := w32 (x + y).
Definition rotr (x n : Z) : Z := Z.lor (Z.shiftr x n) (w32 (Z.shiftl x (32 - n))).

Definition Sigma0 x := Z.lxor (rotr x 2) (Z.lxor (rotr x 13) (rotr x 22)).
Definition Sigma1 x := Z.lxor (rotr x 6) (Z.lxor (rotr x 11) (rotr x 25)).
Definition sigma0 x := Z.lxor (rotr x 7) (Z.lxor (rotr x 18) (Z.shiftr x 3)).
Definition sigma1 x := Z.lxor (rotr x 17) (Z.lxor (rotr x 19) (Z.shiftr x 10)).
Definition Ch e f g := Z.lxor (Z.land e f) (Z.land (Z.lxor e 0xffffffff) g).
Definition Maj a b c := Z.lxor (Z.land a b) (Z.lxor (Z.land a c) (Z.land b c)).

(** The round constants are the first 32 bits of the fractional parts of the
    cube roots of the first 64 primes, the initial state those of the square
    roots of the first eight. *)
Definition is_prime (n : Z) : bool :=
  bool_decide (2 ≤ n)
  && forallb (λ d, negb (bool_decide (n mod d = 0))) (seqZ 2 (Z.sqrt n - 1)).
Definition primes : list Z := filter (λ n, is_prime n = true) (seqZ 2 310).

(** The integer cube root, by bits from [2 ^ k] down. *)
Fixpoint icbrt (k : nat) (acc n : Z) : Z :=
  let acc' := acc + 2 ^ Z.of_nat k in
  let acc := if bool_decide (acc' * acc' * acc' ≤ n) then acc' else acc in
  match k with
  | O => acc
  | S k' => icbrt k' acc n
  end.

Definition sha256_K : list Z :=
  Eval vm_compute in (λ p, w32 (icbrt 36 0 (p * 2 ^ 96))) <$> take 64 primes.
Definition sha256_H : list Z :=
  Eval vm_compute in (λ p, w32 (Z.sqrt (p * 2 ^ 64))) <$> take 8 primes.

(** ** The hash *)

Record hash_state := mkH { h0 : Z; h1 : Z; h2 : Z; h3 : Z; h4 : Z; h5 : Z; h6 : Z; h7 : Z }.

Definition sha256_init : hash_state :=
  let h k := default 0 (sha256_H !! k) in
  mkH (h 0%nat) (h 1%nat) (h 2%nat) (h 3%nat) (h 4%nat) (h 5%nat) (h 6%nat) (h 7%nat).

Definition string_bytes (s : string) : list Z :=
  (λ a, Z.of_nat (nat_of_ascii a)) <$> String.list_ascii_of_string s.
Definition bytes_string (l : list Z) : string :=
  String.string_of_list_ascii ((λ b, ascii_of_nat (Z.to_nat b)) <$> l).

Definition be_bytes4 (x : Z) : list Z :=
  [Z.land (Z.shiftr x 24) 255; Z.land (Z.shiftr x 16) 255; Z.land (Z.shiftr x 8) 255; Z.land x 255].

(** The message, a one bit, zeros up to 56 modulo 64, the bit length. *)
Definition sha256_pad (m : list Z) : list Z :=
  let n := Z.of_nat (length m) in
  let bits := 8 * n in
  m ++ [128] ++ replicate (Z.to_nat ((55 - n) mod 64)) 0
    ++ be_bytes4 (w32 (Z.shiftr bits 32)) ++ be_bytes4 (w32 bits).

Fixpoint be_words (l : list Z) : list Z :=
  match l with
  | a :: b :: c :: d :: l' =>
      (Z.shiftl a 24 + Z.shiftl b 16 + Z.shiftl c 8 + d) :: be_words l'
  | _ => []
  end.

(** The message schedule, most recent word first. *)
Fixpoint extend (n : nat) (ws : list Z) : list Z :=
  match n with
  | O => ws
  | S n' =>
      let w k := default 0 (ws !! k) in
      extend n' (w32 (sigma1 (w 1%nat) + w 6%nat + sigma0 (w 14%nat) + w 15%nat) :: ws)
  end.

Definition sha256_round (s : hash_state) (kw : Z * Z) : hash_state :=
  let '(mkH a b c d e f g h) := s in
  let t1 := h + Sigma1 e + Ch e f g + kw.1 + kw.2 in
  let t2 := Sigma0 a + Maj a b c in
  mkH (w32 (t1 + t2)) a b c (add32 d t1) e f g.

Definition sha256_block (s : hash_state) (block : list Z) : hash_state :=
  let ws := rev (extend 48 (rev block)) in
  let r := foldl sha256_round s (zip sha256_K ws) in
  mkH (add32 (h0 s) (h0 r)) (add32 (h1 s) (h1 r)) (add32 (h2 s) (h2 r)) (add32 (h3 s) (h3 r))
    (add32 (h4 s) (h4 r)) (add32 (h5 s) (h5 r)) (add32 (h6 s) (h6 r)) (add32 (h7 s) (h7 r)).

Fixpoint sha256_blocks (n : nat) (s : hash_state) (ws : list Z) : hash_state :=
  match n with
  | O => s
  | S n' => sha256_blocks n' (sha256_block s (take 16 ws)) (drop 16 ws)
  end.

Definition digest (s : hash_state) : list Z :=
  be_bytes4 (h0 s) ++ be_bytes4 (h1 s) ++ be_bytes4 (h2 s) ++ be_bytes4 (h3 s)
  ++ be_bytes4 (h4 s) ++ be_bytes4 (h5 s) ++ be_bytes4 (h6 s) ++ be_bytes4 (h7 s).

Definition sha256 (m : list Z) : list Z :=
  let ws := be_words (sha256_pad m) in
  digest (sha256_blocks (length ws / 16) sha256_init ws).

(** ** HMAC *)

Definition hmac_key (key : list Z) : list Z :=
  let k := if bool_decide (64 < length key)%nat then sha256 key else key in
  k ++ replicate (64 - length k) 0.

(** [mac := hmac.New(sha256.New, key); mac.Write(msg); mac.Sum(nil)]. *)
Definition hmac_sha256 (key msg : string) : string :=
  let k := hmac_key (string_bytes key) in
  let inner := sha256 ((Z.lxor 0x36 <$> k) ++ string_bytes msg) in
  bytes_string (sha256 ((Z.lxor 0x5c <$> k) ++ inner)).

(** ** Published test vectors *)

Example sha256_empty :
  hex_EncodeToString (bytes_string (sha256 [])) =
  "e3b0c44298fc1c149afbf4c8996fb92427ae41e4649b934ca495991b7852b855".
Proof. vm_compute. reflexivity. Qed.

Example sha256_two_blocks :
  hex_EncodeToString (bytes_string (sha256 (string_bytes
    "abcdbcdecdefdefgefghfghighijhijkijkljklmklmnlmnomnopnopq"))) =
  "248d6a61d20638b8e5c026930c3e6039a33ce45964ff2167f6ecedd419db06c1".
Proof. vm_compute. reflexivity. Qed.

Example hmac_vector :
  hex_EncodeToString (hmac_sha256 "Jefe" "what do ya want for nothing?") =
  "5bdcc146bf60754e6a042426089575c75a003f089d2739839dec58b964ec3843".
Proof. vm_compute. reflexivity. Qed.

(** ** Lemmas *)

Lemma hmac_sha256_length key msg : String.length (hmac_sha256 key msg) = 32%nat.
Proof. done. Qed.
