(* ===== verification/EventProcessor.v ===== *)
(** * Event processing (lambda-service internal/events/processor.go, and
    handleMessage of rabbitmq.go)

    [DefaultEventProcessor.Process] runs the function an event names and
    records what happened; [handleMessage] decides from its result whether the
    broker forgets the message, delivers it again or dead-letters it.  The
    components the processor calls are a record of operations on a world [W];
    [PG_deps] is the one with the PostgreSQL audit log and dead letter queue. *)

From Stdlib Require Import ZArith Lia.
From stdpp Require Import base strings gmap list numbers.
From S2P Require Import Prelude.
From S2P Require Import Domain.
From S2P Require Import Postgres.
Open Scope Z_scope.

(** ** Interfaces *)

(** [EventBus], as the trigger sources use it. *)
Class EventBus (W : Type) := { eb_Publish : Event → St W unit }.

(** What the processor calls: [FunctionService], [RuntimeManager] (with the
    timeout of the context it gets), the audit repository, which may be nil,
    the dead letter queue, and the invocation metrics. *)
Record ProcessorDeps (W : Type) := mkDeps {
  pd_GetFunction : string → St W Function;
  pd_SaveExecution : Execution → St W unit;
  pd_Execute : Z → Function → string → St W ExecutionResult;
  pd_audit : option (EventAuditLog → St W unit);
  pd_dlq : DeadLetterItem → St W unit;
  pd_metric : string → string → string → Z → bool → W → W
}.
Arguments pd_GetFunction {W} _ _.
Arguments pd_SaveExecution {W} _ _.
Arguments pd_Execute {W} _ _ _ _.
Arguments pd_audit {W} _.
Arguments pd_dlq {W} _ _.
Arguments pd_metric {W} _ _ _ _ _ _ _.

(** The clock at the points where [Process] and [handleError] read it, and
    the identifier generated for the execution. *)
Record ProcEnv := mkProcEnv {
  pe_start : Z;
  pe_executed : Z;
  pe_audit : Z;
  pe_started : Z;
  pe_success : Z;
  pe_failed : Z;
  pe_dlq : Z;
  pe_exec_id : string
}.

(** ** The processor *)

Section Processor.
Context {W : Type} (p : ProcessorDeps W) (e : ProcEnv).
Open Scope golang_scope.

Definition logAudit (auditLog : EventAuditLog) : St W unit :=
  match pd_audit p with
  | None => st_ret tt
  | Some add => st_ignore (add auditLog)
  end.

Definition audit_of (event : Event) (status : string) (duration now : Z) : EventAuditLog :=
  mkAudit "" (ev_ID event) (ev_FunctionID event) (ev_Type event) status
    (duration_Milliseconds duration) "" now.

Definition dlq_item (event : Event) (err : error) : DeadLetterItem :=
  mkDeadLetter "" (ev_ID event) (ev_FunctionID event) (ev_Type event) (ev_Payload event)
    (error_Error err) (ev_RetryCount event) (ev_MaxRetries event) (pe_dlq e) time_zero time_zero
    "failed".

Definition handleError (event : Event) (err : error) : St W unit :=
  let duration := time_Sub (pe_failed e) (pe_start e) in
  logAudit (audit_of event "failed" duration (pe_audit e)) ;;!
  st_modify (pd_metric p (ev_FunctionID event) "unknown" "failed" duration false) ;;!
  if bool_decide (ev_MaxRetries event ≤ ev_RetryCount event) then
    r <-? pd_dlq p (dlq_item event err) ;;
    match r with
    | Err dlqErr => st_fail (Wrap "failed to add event to DLQ" dlqErr)
    | _ => st_ret tt
    end
  else st_ret tt.

(** The record saved for a successful run: it is marked started after the
    function has run. *)
Definition success_execution (function : Function) (event : Event) (result : ExecutionResult)
    : Execution :=
  ex_set_result (er_MemoryUsed result) (er_WasWarmStart result)
    (Execution_MarkSuccess (pe_success e) (er_Output result)
       (Execution_MarkStarted (pe_started e)
          (NewExecution (pe_exec_id e) (fn_ID function) (ev_Payload event)))).

Definition Process (event : Event) : St W unit :=
  r <-? pd_GetFunction p (ev_FunctionID event) ;;
  match r with
  | Panic w => st_lift (Panic w)
  | Err err => handleError event err
  | Ok function =>
      r <-? pd_Execute p (fn_Timeout function) function (ev_Payload event) ;;
      match r with
      | Panic w => st_lift (Panic w)
      | Err err => handleError event err
      | Ok result =>
          let duration := time_Sub (pe_executed e) (pe_start e) in
          logAudit (audit_of event "success" duration (pe_audit e)) ;;!
          st_ignore (pd_SaveExecution p (success_execution function event result)) ;;!
          st_modify (pd_metric p (fn_ID function) (fn_Name function) "success" duration
                       (negb (er_WasWarmStart result))) ;;!
          st_ret tt
      end
  end.

(** ** Message disposition *)

(** [msg.Ack(false)], [msg.Nack(false, true)] and [msg.Nack(false, false)]. *)
Inductive Disposition := Acked | NackRequeue | NackDrop.

(** [decode] is [json.Unmarshal] into an [Event]. *)
Definition handleMessage (decode : string → outcome Event) (body : string) : St W Disposition :=
  match decode body with
  | Panic w => st_lift (Panic w)
  | Err _ => st_ret NackDrop
  | Ok event =>
      r <-? Process event ;;
      match r with
      | Panic w => st_lift (Panic w)
      | Err _ =>
          if bool_decide (ev_RetryCount event < ev_MaxRetries event) then st_ret NackRequeue
          else st_ret NackDrop
      | Ok _ => st_ret Acked
      end
  end.
End Processor.

#[export] Instance Disposition_eq_dec : EqDecision Disposition.
Proof. solve_decision. Defined.

(** ** The processor on PostgreSQL

    The world is the database with the rest, [X].  [uuid] and [err] are what
    the two insertions meet. *)
Record PgEventEnv := mkPgEventEnv {
  pge_now : Z;
  pge_audit_uuid : outcome string;
  pge_audit_err : option error;
  pge_dlq_uuid : outcome string;
  pge_dlq_err : option error
}.

Section PgProcessor.
Context {X : Type}.

Definition PG_deps (g : PgEventEnv) (get : string → St (DB * X) Function)
    (save : Execution → St (DB * X) unit)
    (execute : Z → Function → string → St (DB * X) ExecutionResult)
    (metric : string → string → string → Z → bool → X → X) : ProcessorDeps (DB * X) :=
  mkDeps (DB * X) get save execute
    (Some (λ a, st_fst (PG_AddAudit (pge_audit_uuid g) (pge_audit_err g) a)))
    (λ i, st_fst (PG_Push (pge_now g) (pge_dlq_uuid g) (pge_dlq_err g) i))
    (λ id name status d cold w, (w.1, metric id name status d cold w.2)).
End PgProcessor.

(** ** Lemmas *)

Section Lemmas.
Context {W : Type} (p : ProcessorDeps W) (e : ProcEnv).

(** Getting or running the function failed with [err], which left [w']. *)
Definition run_failed (event : Event) (w : W) (err : error) (w' : W) : Prop :=
  pd_GetFunction p (ev_FunctionID event) w = (Err err, w')
  ∨ ∃ f w1, pd_GetFunction p (ev_FunctionID event) w = (Ok f, w1)
            ∧ pd_Execute p (fn_Timeout f) f (ev_Payload event) w1 = (Err err, w').

Lemma Process_failed event w err w' :
  run_failed event w err w' → Process p e event w = handleError p e event err w'.
Proof.
  unfold Process, st_try. intros [H|(f & w1 & H & Hx)]; rewrite H; [done|].
  cbn beta iota zeta. by rewrite Hx.
Qed.

Lemma handleError_Err event err w er w' :
  handleError p e event err w = (Err er, w') → ev_MaxRetries event ≤ ev_RetryCount event.
Proof.
  unfold handleError, logAudit, st_bind, st_try, st_ignore, st_modify, st_ret, st_fail.
  intros H. by repeat (case_match; simplify_eq/=; bools).
Qed.

(** The processor reports an error only when the retries are used up. *)
Lemma Process_Err event w er w' :
  Process p e event w = (Err er, w') → ev_MaxRetries event ≤ ev_RetryCount event.
Proof.
  unfold Process. unfold st_try at 1.
  destruct (pd_GetFunction p _ w) as [[f|err|?] w1]; [|apply handleError_Err|done].
  unfold st_try. destruct (pd_Execute p _ _ _ w1) as [[res|err|?] w2]; [|apply handleError_Err|done].
  unfold logAudit, st_bind, st_ignore, st_modify, st_ret.
  intros H. by repeat (case_match; simplify_eq/=).
Qed.
End Lemmas.

Lemma PG_AddAudit_dlq uuid err a d :
  (∀ w, uuid ≠ Panic w) →
  (∀ w, (PG_AddAudit uuid err a d).1 ≠ Panic w) ∧ db_dlq (PG_AddAudit uuid err a d).2 = db_dlq d
  ∧ db_functions (PG_AddAudit uuid err a d).2 = db_functions d.
Proof.
  unfold PG_AddAudit, sql_exec, wrap_err. intros Hu.
  destruct (bool_decide (au_ID a = "")), uuid as [id| |w]; simpl; try done;
    try (by destruct (Hu w)); destruct err; simpl; try done;
    by destruct (db_audit d !! _).
Qed.

(** On PostgreSQL the error path is the audit entry, which leaves the dead
    letter queue alone, then the insertion if the retries are used up. *)
Lemma handleError_PG {X} g get save execute metric e event err (s : DB * X) :
  (∀ w, pge_audit_uuid g ≠ Panic w) →
  ∃ d x, db_dlq d = db_dlq s.1 ∧ db_functions d = db_functions s.1
    ∧ handleError (PG_deps g get save execute metric) e event err s =
      if bool_decide (ev_MaxRetries event ≤ ev_RetryCount event) then
        match PG_Push (pge_now g) (pge_dlq_uuid g) (pge_dlq_err g) (dlq_item e event err) d with
        | (Ok _, d') => (Ok tt, (d', x))
        | (Err er, d') => (Err (Wrap "failed to add event to DLQ" er), (d', x))
        | (Panic w, d') => (Panic w, (d', x))
        end
      else (Ok tt, (d, x)).
Proof.
  intros Hu. unfold handleError, logAudit. cbn [pd_audit PG_deps].
  set (a := audit_of _ _ _ _).
  destruct (PG_AddAudit_dlq (pge_audit_uuid g) (pge_audit_err g) a s.1 Hu) as (Hnp & Hdlq & Hfs).
  unfold st_bind at 1, st_ignore, st_fst.
  destruct (PG_AddAudit _ _ a s.1) as [[u|er|w] d]; [| |by destruct (Hnp w)];
    (exists d; eexists; split; [exact Hdlq|split; [exact Hfs|]]); cbn; unfold st_try, st_fst; case_bool_decide; try done;
    by destruct (PG_Push _ _ _ _ _) as [[] ?].
Qed.

(** The insertion of a new item: refused when the function does not exist. *)
Lemma PG_Push_new now id i d :
  dl_ID i = "" → pg_int4 (dl_RetryCount i) = true → pg_int4 (dl_MaxRetries i) = true →
  db_dlq d !! id = None →
  if function_exists d (dl_FunctionID i)
  then ∃ row, PG_Push now (Ok id) None i d = (Ok tt, db_set_dlq (<[id := row]> (db_dlq d)) d)
    ∧ dlr_function_id row = dl_FunctionID i ∧ dlr_event_id row = dl_EventID i ∧ dlr_payload row = dl_Payload i
    ∧ dlr_error_message row = dl_ErrorMessage i
  else PG_Push now (Ok id) None i d = (Err (Wrap "failed to push to DLQ" foreign_key_violation), d).
Proof.
  intros Hi Hr Hm Hd. unfold PG_Push. rewrite Hi, bool_decide_eq_true_2 by done.
  unfold wrap_err, sql_exec, upsert_dlq. rewrite Hr, Hm, Hd. cbn [negb orb].
  destruct (function_exists d _); [|done]. eexists. split; [reflexivity|]. by split_and!.
Qed.

Lemma PG_Push_err now uuid id er i d : dl_ID i = "" → uuid = Ok id →
  PG_Push now uuid (Some er) i d = (Err (Wrap "failed to push to DLQ" er), d).
Proof. intros Hi ->. unfold PG_Push. by rewrite Hi. Qed.

(** ** Theorems *)

(** Redelivery.  No message is ever put back on its queue, whatever the
    function service, the runtime and the repositories do: the branch that
    requeues is unreachable, because [Process] reports an error only when the
    event's retries are used up.  A message is dropped to the dead letter
    exchange only if it does not parse or its retries are used up, and is
    acknowledged otherwise. *)
Theorem handleMessage_never_requeues {W} (p : ProcessorDeps W) e decode body w d w' :
  handleMessage p e decode body w = (Ok d, w') →
  d ≠ NackRequeue
  ∧ (d = NackDrop → match decode body with
                    | Ok event => ev_MaxRetries event ≤ ev_RetryCount event
                    | _ => True
                    end).
Proof.
  unfold handleMessage. destruct (decode body) as [event| |]; intros H.
  - unfold st_try in H. destruct (Process p e event w) as [[[]|er|?] w1] eqn:HP; simplify_eq/=.
    + injection H as <- <-. by split.
    + apply Process_Err in HP. rewrite bool_decide_eq_false_2 in H by lia. injection H as <- <-. by split.
  - injection H as <- <-. by split.
  - done.
Qed.

(** C32.  The fate of an event whose function cannot be loaded or fails.  While
    it has retries left the message is acknowledged and nothing is kept of it
    but an audit entry: it is neither retried nor dead-lettered.  Once its
    retries are used up and its function exists, it becomes a row of the dead
    letter queue, with its payload and the error, and is acknowledged; if the
    function does not exist (the table refers to the functions) or the
    insertion fails, the message is dropped to the broker's dead letter
    exchange and the table does not change. *)
Theorem failed_event_fate {X} g get save execute metric e decode body event (s s1 : DB * X) err :
  let p := PG_deps g get save execute metric in
  decode body = Ok event → run_failed p event s err s1 →
  (∀ w, pge_audit_uuid g ≠ Panic w) →
  let '(r, s2) := handleMessage p e decode body s in
  (ev_RetryCount event < ev_MaxRetries event → r = Ok Acked ∧ db_dlq s2.1 = db_dlq s1.1)
  ∧ (ev_MaxRetries event ≤ ev_RetryCount event → ∀ id, pge_dlq_uuid g = Ok id →
     match pge_dlq_err g with
     | Some _ => r = Ok NackDrop ∧ db_dlq s2.1 = db_dlq s1.1
     | None =>
         pg_int4 (ev_RetryCount event) = true → pg_int4 (ev_MaxRetries event) = true →
         db_dlq s1.1 !! id = None →
         if function_exists s1.1 (ev_FunctionID event)
         then r = Ok Acked
           ∧ ∃ row, db_dlq s2.1 = <[id := row]> (db_dlq s1.1) ∧ dlr_function_id row = ev_FunctionID event
               ∧ dlr_event_id row = ev_ID event ∧ dlr_payload row = ev_Payload event
               ∧ dlr_error_message row = error_Error err
         else r = Ok NackDrop ∧ db_dlq s2.1 = db_dlq s1.1
     end).
Proof.
  intros p Hdec Hrun Hu. unfold handleMessage. rewrite Hdec. unfold st_try.
  rewrite (Process_failed p e event s err s1 Hrun).
  destruct (handleError_PG g get save execute metric e event err s1 Hu) as (d & x & Hd & Hfs & He).
  assert (function_exists s1.1 (ev_FunctionID event) = function_exists d (ev_FunctionID event)) as ->
    by (unfold function_exists; by rewrite Hfs).
  fold p in He. rewrite He, <- Hd. case_bool_decide as Hr; cbn beta iota; [|split; [done|lia]].
  assert (bool_decide (ev_RetryCount event < ev_MaxRetries event) = false) as Hlt by (apply bool_decide_eq_false; lia).
  clear He Hd Hfs. destruct (PG_Push _ _ _ _ d) as [rp d'] eqn:Hp.
  assert (∀ id, pge_dlq_uuid g = Ok id → match pge_dlq_err g with
    | Some _ => (∃ er, rp = Err er) ∧ d' = d
    | None => pg_int4 (ev_RetryCount event) = true → pg_int4 (ev_MaxRetries event) = true → db_dlq d !! id = None →
        if function_exists d (ev_FunctionID event)
        then rp = Ok tt ∧ ∃ row, db_dlq d' = <[id := row]> (db_dlq d) ∧ dlr_function_id row = ev_FunctionID event
             ∧ dlr_event_id row = ev_ID event ∧ dlr_payload row = ev_Payload event
             ∧ dlr_error_message row = error_Error err
        else (∃ er, rp = Err er) ∧ d' = d end) as Hpush.
  { intros id Hid. rewrite Hid in Hp. destruct (pge_dlq_err g) as [er|].
    - rewrite (PG_Push_err _ _ id) in Hp by done. injection Hp as <- <-. eauto.
    - intros H1 H2 H3. pose proof (PG_Push_new (pge_now g) id (dlq_item e event err) d eq_refl H1 H2 H3) as Hn.
      cbn [dl_FunctionID dlq_item] in Hn. destruct (function_exists d _).
      + destruct Hn as (row & Hrow & Hf). rewrite Hrow in Hp. injection Hp as <- <-. eauto.
      + rewrite Hn in Hp. injection Hp as <- <-. eauto. }
  clear Hp. destruct rp as [[]|er|w]; cbn beta iota; rewrite ?Hlt; (split; [lia|]); intros _ id Hid;
    specialize (Hpush id Hid); destruct (pge_dlq_err g) as [er'|]; cbn [fst];
    destruct (function_exists d (ev_FunctionID event)); naive_solver.
Qed.

(** A failing function, with retries left or used up. *)
Definition demo_event (retries : Z) : Event :=
  mkEvent "ev1" EventTypeCron "f1" "{}" ∅ 0 retries 3.
Definition demo_proc_env : ProcEnv := mkProcEnv 0 0 0 0 0 0 0 "x1".
Definition demo_missing : string → St (DB * unit) Function := λ _, st_fail ErrFunctionNotFound.
Definition demo_pg_env : PgEventEnv := mkPgEventEnv 0 (Ok "a1") None (Ok "d1") None.
Definition demo_deps : ProcessorDeps (DB * unit) :=
  PG_deps demo_pg_env demo_missing (λ _, st_ret tt) (λ _ _ _, st_fail ErrRuntimeNotFound)
    (λ _ _ _ _ _ x, x).

Lemma handleMessage_never_requeues_witness :
  Acked ≠ NackRequeue ∧ (Acked = NackDrop → 3 ≤ 0).
Proof.
  exact (handleMessage_never_requeues demo_deps demo_proc_env (λ _, Ok (demo_event 0)) "" (initSchema, tt)
    Acked _ (eq_refl : _ = (Ok Acked, _))).
Defined.

(** A function that fails: its event is kept, and that of a function that is
    not there is dropped. *)
Definition demo_failing : ProcessorDeps (DB * unit) :=
  PG_deps demo_pg_env (λ id, st_fst (PG_FindByID None id)) (λ _, st_ret tt) (λ _ _ _, st_fail ErrRuntimeNotFound)
    (λ _ _ _ _ _ x, x).

Lemma failed_event_fate_witness :
  (handleMessage demo_failing demo_proc_env (λ _, Ok (demo_event 3)) "" (demo_db, tt)).1 = Ok Acked
  ∧ (handleMessage demo_failing demo_proc_env (λ _, Ok (demo_event 3)) "" (initSchema, tt)).1 = Ok NackDrop.
Proof.
  split.
  - pose proof (failed_event_fate demo_pg_env (λ id, st_fst (PG_FindByID None id)) (λ _, st_ret tt)
      (λ _ _ _, st_fail ErrRuntimeNotFound) (λ _ _ _ _ _ x, x) demo_proc_env
      (λ _, Ok (demo_event 3)) "" (demo_event 3) (demo_db, tt) (demo_db, tt) ErrRuntimeNotFound
      eq_refl (or_intror (ex_intro _ _ (ex_intro _ _ (conj eq_refl eq_refl)))) ltac:(discriminate)) as H.
    fold demo_failing in H. destruct (handleMessage demo_failing _ _ _ _) as [r s2].
    exact (proj1 (proj2 H ltac:(discriminate) "d1" eq_refl eq_refl eq_refl eq_refl)).
  - pose proof (failed_event_fate demo_pg_env (λ id, st_fst (PG_FindByID None id)) (λ _, st_ret tt)
      (λ _ _ _, st_fail ErrRuntimeNotFound) (λ _ _ _ _ _ x, x) demo_proc_env
      (λ _, Ok (demo_event 3)) "" (demo_event 3) (initSchema, tt) (initSchema, tt) ErrFunctionNotFound
      eq_refl (or_introl eq_refl) ltac:(discriminate)) as H.
    fold demo_failing in H. destruct (handleMessage demo_failing _ _ _ _) as [r s2].
    exact (proj1 (proj2 H ltac:(discriminate) "d1" eq_refl eq_refl eq_refl eq_refl)).
Defined.
