(* ===== verification/Webhook.v ===== *)
(** * Webhooks (lambda-service internal/events/webhook.go)

    [WebhookHandler] registers endpoints and turns requests into events.
    [ValidateSignature] and the two provider-specific checks use the
    HMAC-SHA256 of Crypto. *)

From Stdlib Require Import ZArith Lia Ascii.
From stdpp Require Import base strings gmap list numbers.
From S2P Require Import Prelude.
From S2P Require Import Domain.
From S2P Require Import Crypto.
From S2P Require Import Postgres.
From S2P Require Import EventProcessor.
Open Scope Z_scope.

(** ** Signatures *)

Definition removePrefix (s prefix : string) : string :=
  if bool_decide (String.length prefix < String.length s)%nat && HasPrefix s prefix
  then str_drop (String.length prefix) s else s.

(** [hex.EncodeToString] of the MAC. *)
Definition expectedMAC (secret payload : string) : string :=
  hex_EncodeToString (hmac_sha256 secret payload).

Definition ValidateSignature (webhook : Webhook) (payload signature : string) : bool :=
  let signature := removePrefix signature "sha256=" in
  let signature := removePrefix signature "sha1=" in
  let signature := removePrefix signature "v0=" in
  bool_decide (signature = expectedMAC (wh_Secret webhook) payload).

Definition ValidateGithubSignature (secret payload signature : string) : bool :=
  if bool_decide (String.length signature < 7)%nat
     || bool_decide (str_take 7 signature ≠ "sha256=") then false
  else bool_decide (signature = expectedMAC secret payload).

Definition ValidateStripeSignature (secret payload signature timestamp : string) : bool :=
  bool_decide (signature = expectedMAC secret (timestamp +:+ "." +:+ payload)).

(** ** The handler *)

Record WebhookRepository (W : Type) := mkWebhookRepo {
  wr_SaveWebhook : Webhook → St W unit;
  wr_GetWebhookByPath : string → St W (option Webhook)
}.
Arguments wr_SaveWebhook {W} _ _.
Arguments wr_GetWebhookByPath {W} _ _.

(** [uuid.Must]. *)
Definition uuid_Must (uuid : outcome string) : outcome string :=
  match uuid with
  | Err e => Panic (error_Error e)
  | r => r
  end.

Section Handler.
Context {W : Type} (repo : WebhookRepository W) `{!EventBus W}.
Open Scope golang_scope.

(** [created] and [updated] are the two readings of the clock. *)
Definition RegisterWebhook (uuid : outcome string) (created updated : Z) (w : Webhook) : St W unit :=
  match Webhook_Validate w with
  | Some err => st_fail err
  | None =>
      id <-! st_lift (if bool_decide (wh_ID w = "") then uuid_Must uuid else Ok (wh_ID w)) ;;
      let header := if bool_decide (wh_SignatureHeader w = "") then "X-Signature"
                    else wh_SignatureHeader w in
      wr_SaveWebhook repo
        (mkWebhook id (wh_FunctionID w) (wh_Name w) (wh_Path w) (wh_Secret w) header
           (wh_Enabled w) (wh_Headers w) created updated)
  end.

Definition request_path (path : string) : string :=
  match path with
  | String a _ => if bool_decide (a ≠ slash) then "/" +:+ path else path
  | EmptyString => path
  end.

Definition webhook_event (id payload : string) (now : Z) (w : Webhook) : Event :=
  let metadata : gmap string string :=
    <["webhook_id" := wh_ID w]> (<["webhook_name" := wh_Name w]>
      (<["webhook_path" := wh_Path w]> ∅)) in
  mkEvent id EventTypeWebhook (wh_FunctionID w) payload
    (foldl (λ m kv, <["header_" +:+ kv.1 := kv.2]> m) metadata (map_to_list (wh_Headers w)))
    now 0 3.

Definition HandleRequest (uuid : outcome string) (now : Z) (path payload : string)
    (headers : gmap string string) : St W unit :=
  found <-! wr_GetWebhookByPath repo (request_path path) ;;
  match found with
  | None => st_fail (NewError "webhook not found")
  | Some webhook =>
      let bad := match headers !! wh_SignatureHeader webhook with
                 | Some signature => negb (ValidateSignature webhook payload signature)
                 | None => false
                 end in
      if (bad : bool) then st_fail (NewError "invalid signature")
      else
        id <-! st_lift (uuid_Must uuid) ;;
        st_wrap "failed to publish event" (eb_Publish (webhook_event id payload now webhook))
  end.
End Handler.

(** The repository on PostgreSQL, in a world with other state [X]. *)
Definition PG_webhooks {X} (now : Z) (save_err get_err : option error) : WebhookRepository (DB * X) :=
  mkWebhookRepo (DB * X) (λ w, st_fst (PG_SaveWebhook now save_err w))
    (λ path, st_fst (PG_GetWebhookByPath get_err path)).

(** ** Lemmas: signatures *)

Lemma hex_digit_code n : (n < 16)%nat →
  (48 ≤ nat_of_ascii (hex_digit n) ≤ 57 ∨ 97 ≤ nat_of_ascii (hex_digit n) ≤ 102)%nat.
Proof. intros H. do 16 (destruct n as [|n]; [vm_compute; lia|]). lia. Qed.

(** A hexadecimal string starts with no prefix that starts otherwise. *)
Lemma hex_not_prefix s a p : (102 < nat_of_ascii a)%nat →
  HasPrefix (hex_EncodeToString s) (String a p) = false.
Proof.
  intros Ha. destruct s as [|b s]; [done|]. cbn [hex_EncodeToString HasPrefix].
  rewrite bool_decide_eq_false_2; [done|]. intros ->.
  destruct (hex_digit_code (nat_of_ascii b / 16)) as [?|?]; [|lia..].
  apply Nat.Div0.div_lt_upper_bound. apply nat_ascii_bounded.
Qed.

Lemma expectedMAC_length secret payload : String.length (expectedMAC secret payload) = 64%nat.
Proof. unfold expectedMAC. by rewrite hex_length, hmac_sha256_length. Qed.

Lemma removePrefix_cases s p r :
  r ≠ "" → HasPrefix r p = false → removePrefix s p = r ↔ s = r ∨ s = p +:+ r.
Proof.
  intros Hr Hp. unfold removePrefix. destruct (HasPrefix s p) eqn:Hs.
  - apply HasPrefix_spec in Hs as [t ->]. rewrite str_length_app. case_bool_decide as Hl; simpl.
    + rewrite str_drop_app. split; [intros ->; by right|]. intros [<-|H].
      * by rewrite HasPrefix_app in Hp.
      * by apply str_app_inj_l in H.
    + assert (t = "") as -> by (destruct t; simpl in *; [done|lia]).
      split; [by left|]. intros [?|H]; [done|]. apply str_app_inj_l in H. by subst r.
  - rewrite andb_false_r. split; [by left|]. intros [?| ->]; [done|]. by rewrite HasPrefix_app in Hs.
Qed.

Lemma expectedMAC_nonempty secret payload : expectedMAC secret payload ≠ "".
Proof. intros H. pose proof (expectedMAC_length secret payload) as Hl. by rewrite H in Hl. Qed.

(** ** Lemmas: the handler *)

Lemma request_path_slash path : request_path path = "" ∨ HasPrefix (request_path path) "/" = true.
Proof.
  destruct path as [|a s]; [by left|right]. unfold request_path. case_bool_decide as Ha; [done|].
  subst a. by destruct s.
Qed.

Lemma request_path_rooted path : HasPrefix path "/" = true → request_path path = path.
Proof.
  destruct path as [|a s]; [done|]. simpl. intros H. bools. subst a.
  by rewrite bool_decide_eq_false_2 by (intros Hn; by apply Hn).
Qed.

(** Looking a path up in a database that has the webhook there. *)
Lemma GetWebhookByPath_found d k row : db_inv d → db_webhooks d !! k = Some row →
  PG_GetWebhookByPath None (whr_path row) d = (Ok (Some (webhook_of_row row)), d).
Proof.
  intros Hd Hk. unfold PG_GetWebhookByPath.
  destruct (sql_rows _ _) as [|r l] eqn:Hr.
  - apply (sql_rows_nil _ _ _ _ Hr) in Hk. by bools.
  - assert (r ∈ r :: l) as Hin by set_solver. rewrite <- Hr in Hin.
    apply elem_of_sql_rows in Hin as [Hp [k' Hk']]. bools.
    assert (k' = k) as -> by (eapply (inv_paths d Hd); eauto). by simplify_eq.
Qed.

Lemma GetWebhookByPath_at d err path w d' :
  PG_GetWebhookByPath err path d = (Ok (Some w), d') → wh_Path w = path.
Proof.
  unfold PG_GetWebhookByPath. destruct err; [done|].
  destruct (sql_rows _ _) as [|r l] eqn:Hr; [done|]. intros [= <- _].
  assert (r ∈ r :: l) as Hin by set_solver. rewrite <- Hr in Hin.
  apply elem_of_sql_rows in Hin as [Hp _]. by bools.
Qed.

Lemma Webhook_Validate_path w : Webhook_Validate w = None → wh_Path w ≠ "".
Proof. unfold Webhook_Validate. intros H Hp. rewrite Hp in H. by repeat case_bool_decide. Qed.

(** A first registration stores the webhook's fields. *)
Lemma upsert_webhook_new now w d d' :
  db_webhooks d !! wh_ID w = None → upsert_webhook now w d = Ok d' →
  ∃ row, db_webhooks d' !! wh_ID w = Some row
    ∧ webhook_of_row row = mkWebhook (wh_ID w) (wh_FunctionID w) (wh_Name w) (wh_Path w)
        (wh_Secret w) (wh_SignatureHeader w) (wh_Enabled w) (wh_Headers w)
        (pg_timestamp (wh_CreatedAt w)) (pg_timestamp (wh_UpdatedAt w)).
Proof.
  intros Hnew. unfold upsert_webhook. rewrite Hnew. destruct (path_taken _ _ _); [done|].
  destruct (function_exists _ _); [|done]. intros [= <-]. eexists. cbn [db_webhooks db_set_webhooks].
  by rewrite lookup_insert_eq.
Qed.

Lemma HandleRequest_found {X} `{!EventBus (DB * X)} now serr id t path payload headers d x k row :
  db_inv d → db_webhooks d !! k = Some row → whr_path row = request_path path →
  HandleRequest (PG_webhooks now serr None) (Ok id) t path payload headers (d, x) =
  if match headers !! whr_signature_header row with
     | Some signature => negb (ValidateSignature (webhook_of_row row) payload signature)
     | None => false
     end
  then (Err (NewError "invalid signature"), (d, x))
  else st_wrap "failed to publish event"
         (eb_Publish (webhook_event id payload t (webhook_of_row row))) (d, x).
Proof.
  intros Hd Hk Hpath. unfold HandleRequest. cbn [wr_GetWebhookByPath PG_webhooks].
  unfold st_bind at 1, st_fst. cbn [fst snd].
  rewrite <- Hpath, (GetWebhookByPath_found d k row Hd Hk). cbn beta iota.
  change (wh_SignatureHeader _) with (whr_signature_header row). by case_match.
Qed.

(** ** Theorems *)

(** Signature check.  A signature is accepted exactly when it is the
    hexadecimal HMAC-SHA256 of the payload under the webhook's secret, behind
    any of the prefixes sha256=, sha1= and v0=, each at most once and in this
    order. *)
Theorem ValidateSignature_iff w payload signature :
  ValidateSignature w payload signature = true ↔
  ∃ a b c, (a = "" ∨ a = "sha256=") ∧ (b = "" ∨ b = "sha1=") ∧ (c = "" ∨ c = "v0=")
    ∧ signature = a +:+ b +:+ c +:+ expectedMAC (wh_Secret w) payload.
Proof.
  unfold ValidateSignature. rewrite bool_decide_eq_true.
  pose proof (expectedMAC_nonempty (wh_Secret w) payload) as Hne.
  set (mac := expectedMAC (wh_Secret w) payload) in *.
  assert (Hm : ∀ a p, (102 < nat_of_ascii a)%nat → HasPrefix mac (String a p) = false)
    by (intros; by apply hex_not_prefix).
  rewrite removePrefix_cases by (done || by apply Hm, Nat.ltb_lt).
  rewrite (removePrefix_cases _ "sha1=" mac) by (done || by apply Hm, Nat.ltb_lt).
  rewrite (removePrefix_cases _ "sha1=" ("v0=" +:+ mac)) by done.
  rewrite (removePrefix_cases _ "sha256=" mac) by (done || by apply Hm, Nat.ltb_lt).
  rewrite !(removePrefix_cases _ "sha256=" (_ +:+ _)) by done.
  clear Hm. clearbody mac. split.
  - intros [[[->| ->]|[->| ->]]|[[->| ->]|[->| ->]]];
      [exists "", "", ""|exists "sha256=", "", ""|exists "", "sha1=", ""|exists "sha256=", "sha1=", ""
      |exists "", "", "v0="|exists "sha256=", "", "v0="|exists "", "sha1=", "v0="
      |exists "sha256=", "sha1=", "v0="]; auto 6.
  - intros (a & b & c & [->| ->] & [->| ->] & [->| ->] & ->);
      [left; left; left|right; left; left|left; right; left|right; right; left
      |left; left; right|right; left; right|left; right; right|right; right; right]; done.
Qed.

(** The GitHub check never succeeds: it demands the sha256= prefix and
    then compares the whole signature, prefix included, with the bare
    hexadecimal MAC. *)
Theorem ValidateGithubSignature_never secret payload signature :
  ValidateGithubSignature secret payload signature = false.
Proof.
  unfold ValidateGithubSignature. repeat case_bool_decide; try done. simpl.
  exfalso. subst signature.
  pose proof (hex_not_prefix (hmac_sha256 secret payload) "s" "ha256=" ltac:(by apply Nat.ltb_lt)) as Hp.
  apply not_true_iff_false in Hp. apply Hp, HasPrefix_spec.
  exists (str_drop 7 (expectedMAC secret payload)).
  match goal with H : str_take 7 _ = _ |- _ => rewrite <- H end.
  symmetry. apply str_take_drop.
Qed.

(** C33.  Authentication.  A request for a stored webhook that carries its
    signature header publishes the event exactly when the signature checks,
    and is refused without any effect otherwise; a request that does not carry
    the header is not checked at all.  Whether the webhook is enabled plays no
    part. *)
Theorem HandleRequest_authentication {X} `{!EventBus (DB * X)} now serr id t path payload headers
    d x k row :
  db_inv d → db_webhooks d !! k = Some row → whr_path row = request_path path →
  let w := webhook_of_row row in
  let run := HandleRequest (PG_webhooks now serr None) (Ok id) t path payload headers (d, x) in
  let publish := st_wrap "failed to publish event" (eb_Publish (webhook_event id payload t w)) (d, x) in
  match headers !! whr_signature_header row with
  | None => run = publish
  | Some signature =>
      if ValidateSignature w payload signature then run = publish
      else run = (Err (NewError "invalid signature"), (d, x))
  end.
Proof.
  intros Hd Hk Hpath w run publish. unfold run.
  rewrite (HandleRequest_found now serr id t path payload headers d x k row Hd Hk Hpath).
  fold w publish. destruct (headers !! _) as [signature|]; [|done].
  by destruct (ValidateSignature w payload signature).
Qed.

(** Reaching a registered webhook.  One registered under a path with a
    leading slash is found by a request for that path; one registered without the slash is accepted too, but no request
    ever reaches it. *)
Theorem RegisterWebhook_reachable {X} now err uuid created updated w d (x : X) s' :
  db_inv d → db_webhooks d !! wh_ID w = None →
  RegisterWebhook (PG_webhooks now err None) uuid created updated w (d, x) = (Ok tt, s') →
  wh_ID w ≠ "" →
  (HasPrefix (wh_Path w) "/" = true →
     ∃ w', PG_GetWebhookByPath None (request_path (wh_Path w)) s'.1 = (Ok (Some w'), s'.1)
       ∧ wh_ID w' = wh_ID w ∧ wh_FunctionID w' = wh_FunctionID w ∧ wh_Secret w' = wh_Secret w)
  ∧ (HasPrefix (wh_Path w) "/" = false →
     ∀ path gerr w' d', PG_GetWebhookByPath gerr (request_path path) s'.1 = (Ok (Some w'), d') →
       wh_Path w' ≠ wh_Path w).
Proof.
  intros Hd Hnew Hreg Hid. unfold RegisterWebhook in Hreg.
  destruct (Webhook_Validate w) eqn:Hval; [done|].
  rewrite bool_decide_eq_false_2 in Hreg by done. cbn in Hreg.
  unfold st_fst, PG_SaveWebhook, sql_exec in Hreg. destruct err; [done|]. cbn [fst snd] in Hreg.
  set (w1 := mkWebhook _ _ _ _ _ _ _ _ _ _) in Hreg.
  destruct (upsert_webhook now w1 d) as [d1|?|?] eqn:Hup; [|done..]. injection Hreg as <-.
  cbn [fst]. split.
  - intros Hp. rewrite request_path_rooted by done.
    destruct (upsert_webhook_new now w1 d d1 Hnew Hup) as (row & Hrow & Hw).
    exists (webhook_of_row row). change (wh_Path w) with (wh_Path w1).
    assert (wh_Path w1 = whr_path row) as -> by (change (whr_path row) with (wh_Path (webhook_of_row row)); by rewrite Hw).
    rewrite (GetWebhookByPath_found d1 (wh_ID w1) row (upsert_webhook_inv _ _ _ _ Hd Hup) Hrow).
    by rewrite Hw.
  - intros Hp path gerr w' d' Hget. apply GetWebhookByPath_at in Hget. rewrite Hget. intros Heq.
    destruct (request_path_slash path) as [Hs|Hs]; rewrite Heq in Hs.
    + by apply (Webhook_Validate_path w).
    + congruence.
Qed.

(** A disabled webhook under two paths, in a database with its function. *)
Definition demo_webhook (path : string) : Webhook :=
  mkWebhook "w1" "f1" "push" path "key" "X-Signature" false ∅ 0 0.
Definition demo_repo : WebhookRepository (DB * list Event) := PG_webhooks 0 None None.
Definition demo_register (path : string) : DB * list Event :=
  (RegisterWebhook demo_repo (Ok "u") 0 0 (demo_webhook path) (demo_db, [])).2.

#[local] Instance demo_bus : EventBus (DB * list Event) :=
  {| eb_Publish ev := λ s, (Ok tt, (s.1, s.2 ++ [ev])) |}.

Lemma RegisterWebhook_reachable_witness :
  ∃ w', (PG_GetWebhookByPath None "/hooks/push" (demo_register "/hooks/push").1).1 = Ok (Some w')
    ∧ wh_ID w' = "w1".
Proof.
  destruct (proj1 (RegisterWebhook_reachable 0 None (Ok "u") 0 0 (demo_webhook "/hooks/push") demo_db []
    (demo_register "/hooks/push") demo_db_inv eq_refl eq_refl ltac:(discriminate)) eq_refl)
    as (w' & Hw & Hid & _).
  exists w'. split; [exact (f_equal fst Hw)|exact Hid].
Defined.

Definition demo_hook_row : WebhookRow :=
  mkWhRow "w1" "f1" "push" "/hooks/push" "key" "X-Signature" false ∅ 0 0.
Definition demo_hook_db : DB := db_set_webhooks {[ "w1" := demo_hook_row ]} demo_db.

Lemma demo_hook_db_inv : db_inv demo_hook_db.
Proof.
  apply (upsert_webhook_inv 0 (demo_webhook "/hooks/push") demo_db); [apply demo_db_inv|].
  reflexivity.
Qed.

Lemma HandleRequest_authentication_witness :
  (HandleRequest demo_repo (Ok "e1") 0 "hooks/push" "{}" ∅ (demo_hook_db, [])).2.2
  = [webhook_event "e1" "{}" 0 (webhook_of_row demo_hook_row)].
Proof.
  exact (f_equal (λ r : outcome unit * (DB * list Event), r.2.2)
    (HandleRequest_authentication 0 None "e1" 0 "hooks/push" "{}" ∅ demo_hook_db [] "w1"
       demo_hook_row demo_hook_db_inv eq_refl eq_refl)).
Defined.
