(* ===== verification/Cron.v ===== *)
(** * Cron triggers (lambda-service internal/events/cron.go, cron_helpers.go)

    [CronScheduler] stores triggers and keeps a job for each in the cron
    library, which is a parameter: its parser and its table of entries, with
    the laws its documentation states.  The scheduler's state is [Sched]; it
    runs beside the world [W] of the repository and the event bus. *)

From Stdlib Require Import ZArith Lia.
From stdpp Require Import base strings gmap list numbers sorting.
From S2P Require Import Prelude.
From S2P Require Import Domain.
From S2P Require Import Postgres.
From S2P Require Import EventProcessor.
Open Scope Z_scope.

(** ** The cron library *)

(** The parser, which gives the next instant after an instant, and the table
    of entries: [AddFunc] schedules a job under an expression, [Remove] takes
    an entry off.  A job is known by the trigger its closure holds. *)
Class CronLib (C : Type) := {
  cron_Parse : string → outcome (Z → Z);
  cron_AddFunc : string → CronTrigger → St C Z;
  cron_Remove : Z → C → C;
  cron_entry : C → Z → option (string * CronTrigger)
}.

Class CronLibLaws (C : Type) `{!CronLib C} := {
  cron_parse_no_panic spec w : cron_Parse spec ≠ Panic w;
  cron_add_ok c spec t id c' : cron_AddFunc spec t c = (Ok id, c') →
    cron_entry c id = None ∧ cron_entry c' id = Some (spec, t)
    ∧ (∀ id', id' ≠ id → cron_entry c' id' = cron_entry c id');
  cron_add_err c spec t e c' : cron_AddFunc spec t c = (Err e, c') → c' = c;
  cron_add_no_panic c spec t w : (cron_AddFunc spec t c).1 ≠ Panic w;
  cron_add_parses c spec t f : cron_Parse spec = Ok f → ∃ id c', cron_AddFunc spec t c = (Ok id, c');
  cron_remove c id : cron_entry (cron_Remove id c) id = None;
  cron_remove_ne c id id' : id' ≠ id → cron_entry (cron_Remove id c) id' = cron_entry c id'
}.

(** ** The scheduler *)

Record CronRepository (W : Type) := mkCronRepo {
  cp_SaveTrigger : CronTrigger → St W unit;
  cp_ListTriggers : string → St W (list CronTrigger);
  cp_DeleteTrigger : string → St W unit;
  cp_UpdateNextRun : string → Z → St W unit
}.
Arguments cp_SaveTrigger {W} _ _.
Arguments cp_ListTriggers {W} _ _.
Arguments cp_DeleteTrigger {W} _ _.
Arguments cp_UpdateNextRun {W} _ _ _.

Record Sched (C : Type) := mkSched { sc_cron : C; sc_entries : gmap string Z }.
Arguments mkSched {C} _ _.
Arguments sc_cron {C} _.
Arguments sc_entries {C} _.

Definition NewCronScheduler {C} (c : C) : Sched C := mkSched c ∅.

Definition tr_set (id : string) (last next created updated : Z) (t : CronTrigger) : CronTrigger :=
  mkTrigger id (tr_FunctionID t) (tr_Name t) (tr_CronExpression t) (tr_Timezone t) (tr_Enabled t)
    last next created updated.

Section Scheduler.
Context {C W : Type} `{!CronLib C} (repo : CronRepository W) `{!EventBus W}.
Open Scope golang_scope.

Definition parseSchedule (spec timezone : string) : outcome (Z → Z) :=
  let spec := if bool_decide (timezone ≠ "") then "CRON_TZ=" +:+ timezone +:+ " " +:+ spec else spec in
  cron_Parse spec.

(** [cron.AddFunc] on the scheduler's cron, and the entry it is recorded as. *)
Definition schedule_job (t : CronTrigger) : St (Sched C) unit := λ s,
  match cron_AddFunc (tr_CronExpression t) t (sc_cron s) with
  | (Ok entryID, c) => (Ok tt, mkSched c (<[tr_ID t := entryID]> (sc_entries s)))
  | (Err e, c) => (Err (Wrap "failed to add cron entry" e), mkSched c (sc_entries s))
  | (Panic w, c) => (Panic w, mkSched c (sc_entries s))
  end.

Definition AddTrigger (uuid : outcome string) (now : Z) (trigger : CronTrigger)
    : St (Sched C * W) unit :=
  match CronTrigger_Validate trigger with
  | Some err => st_fail err
  | None =>
      id <-! st_lift (if bool_decide (tr_ID trigger = "")
                      then wrap_err "failed to generate trigger ID" uuid else Ok (tr_ID trigger)) ;;
      next <-! st_lift (wrap_err "failed to parse schedule"
                          (parseSchedule (tr_CronExpression trigger) (tr_Timezone trigger))) ;;
      let trigger := tr_set id (tr_LastRunAt trigger) (next now) now now trigger in
      st_snd (st_wrap "failed to save trigger" (cp_SaveTrigger repo trigger)) ;;!
      if tr_Enabled trigger then st_fst (schedule_job trigger) else st_ret tt
  end.

(** Take the trigger's entry, if it has one, off the cron. *)
Definition unschedule (triggerID : string) (s : Sched C) : Sched C :=
  match sc_entries s !! triggerID with
  | Some entryID => mkSched (cron_Remove entryID (sc_cron s)) (delete triggerID (sc_entries s))
  | None => s
  end.

Definition RemoveTrigger (triggerID : string) : St (Sched C * W) unit :=
  st_modify (λ s, (unschedule triggerID s.1, s.2)) ;;!
  st_snd (st_wrap "failed to delete trigger" (cp_DeleteTrigger repo triggerID)).

(** The loop of [loadTriggers]: a trigger that cannot be added is logged and
    skipped.  [uuid] is for a stored trigger without an identifier. *)
Fixpoint load_loop (uuid : outcome string) (now : Z) (l : list CronTrigger) : St (Sched C * W) unit :=
  match l with
  | [] => st_ret tt
  | t :: rest =>
      if tr_Enabled t then st_ignore (AddTrigger uuid now t) ;;! load_loop uuid now rest
      else load_loop uuid now rest
  end.

Definition loadTriggers (uuid : outcome string) (now : Z) : St (Sched C * W) unit :=
  triggers <-! st_snd (st_wrap "failed to list triggers" (cp_ListTriggers repo "")) ;;
  load_loop uuid now triggers.

(** The function [createJobFunc] returns, run at [now]; [payload] is what
    [buildCronPayload] gives.  A schedule that no longer parses is nil. *)
Definition cron_event (id payload : string) (now : Z) (t : CronTrigger) : Event :=
  mkEvent id EventTypeCron (tr_FunctionID t) payload
    (<["trigger_id" := tr_ID t]> (<["trigger_name" := tr_Name t]>
       (<["schedule" := tr_CronExpression t]> ∅))) now 0 3.

Definition createJobFunc (uuid : outcome string) (payload : string) (now : Z) (trigger : CronTrigger)
    : St W unit :=
  match uuid with
  | Err e => st_lift (Panic (error_Error e))
  | Panic w => st_lift (Panic w)
  | Ok id =>
      published <-? eb_Publish (cron_event id payload now trigger) ;;
      match published with
      | Err _ => st_ret tt
      | Panic w => st_lift (Panic w)
      | Ok _ =>
          match parseSchedule (tr_CronExpression trigger) (tr_Timezone trigger) with
          | Ok next => st_ignore (cp_UpdateNextRun repo (tr_ID trigger) (next now))
          | _ => st_lift (Panic "nil pointer dereference")
          end
      end
  end.
End Scheduler.

(** The repository on PostgreSQL; [now] is the clock of the statements. *)
Definition PG_cron {X} (now : Z) (save_err list_err del_err upd_err : option error)
    : CronRepository (DB * X) :=
  mkCronRepo (DB * X) (λ t, st_fst (PG_SaveTrigger now save_err t))
    (λ f, st_fst (PG_ListTriggers list_err f)) (λ id, st_fst (PG_DeleteTrigger del_err id))
    (λ id next, st_fst (PG_UpdateNextRun now upd_err id next)).

(** ** Invariant: the recorded entries are live *)

Section Live.
Context {C W : Type} `{!CronLib C, !CronLibLaws C} (repo : CronRepository W).

(** Entry [eid] of the cron runs the job of an enabled trigger [tid] under its
    expression. *)
Definition job_of (c : C) (eid : Z) (tid : string) : Prop :=
  ∃ t, cron_entry c eid = Some (tr_CronExpression t, t) ∧ tr_ID t = tid ∧ tr_Enabled t = true.

Definition entries_live (s : Sched C) : Prop :=
  ∀ tid eid, sc_entries s !! tid = Some eid → job_of (sc_cron s) eid tid.

(** The scheduler's operations, with whatever clock and identifiers. *)
Inductive sched_step : Sched C * W → Sched C * W → Prop :=
  | ss_add uuid now t s : sched_step s (AddTrigger repo uuid now t s).2
  | ss_remove id s : sched_step s (RemoveTrigger repo id s).2
  | ss_load uuid now s : sched_step s (loadTriggers repo uuid now s).2
  | ss_world s w : sched_step s (s.1, w).

Lemma schedule_job_spec t s r s' : schedule_job t s = (r, s') →
  (∃ eid, r = Ok tt ∧ cron_entry (sc_cron s) eid = None
     ∧ cron_entry (sc_cron s') eid = Some (tr_CronExpression t, t)
     ∧ (∀ k, k ≠ eid → cron_entry (sc_cron s') k = cron_entry (sc_cron s) k)
     ∧ sc_entries s' = <[tr_ID t := eid]> (sc_entries s))
  ∨ (∃ e, r = Err e ∧ s' = s).
Proof.
  unfold schedule_job.
  pose proof (cron_add_no_panic (sc_cron s) (tr_CronExpression t) t) as Hp.
  destruct (cron_AddFunc _ _ _) as [[eid|e|w] c] eqn:Ha; intros [= <- <-].
  - left. exists eid. destruct (cron_add_ok _ _ _ _ _ Ha) as (? & ? & ?). by split_and!.
  - right. exists (Wrap "failed to add cron entry" e). split; [done|].
    apply cron_add_err in Ha as ->. by destruct s.
  - by destruct (Hp w).
Qed.

Lemma schedule_job_live t s : tr_Enabled t = true → entries_live s → entries_live (schedule_job t s).2.
Proof.
  intros Ht Hs. destruct (schedule_job t s) as [r s'] eqn:E.
  destruct (schedule_job_spec _ _ _ _ E) as [(eid & _ & Hn & He & Hk & Hen)|(e & _ & ->)]; [|done].
  intros tid k. cbn [snd]. rewrite Hen. intros [[<- <-]|[Hne Hl]]%lookup_insert_Some; [by exists t|].
  destruct (Hs _ _ Hl) as (t' & Ht' & ?). exists t'. simpl. rewrite Hk; [done|]. congruence.
Qed.

(** Either nothing was scheduled, or the trigger's job was. *)
Lemma AddTrigger_sched uuid now t s r s' : AddTrigger repo uuid now t s = (r, s') →
  s'.1 = s.1 ∨ ∃ t', tr_Enabled t' = true ∧ s'.1 = (schedule_job t' s.1).2.
Proof.
  unfold AddTrigger. destruct (CronTrigger_Validate t); [intros [= <- <-]; by left|].
  unfold st_bind, st_lift.
  destruct (if bool_decide (tr_ID t = "") then _ else _) as [id|?|?]; [|intros [= <- <-]; by left..].
  destruct (wrap_err _ (parseSchedule _ _)) as [next|?|?]; [|intros [= <- <-]; by left..].
  unfold st_snd. destruct (st_wrap _ _ s.2) as [[u|?|?] w]; [|intros [= <- <-]; by left..].
  cbn [tr_Enabled tr_set]. destruct (tr_Enabled t) eqn:Hen; [|intros [= <- <-]; by left].
  unfold st_fst. destruct (schedule_job _ _) as [r1 s1] eqn:E. intros [= <- <-].
  right. eexists. split; [|exact (f_equal snd (eq_sym E))]. done.
Qed.

Lemma AddTrigger_live uuid now t s : entries_live s.1 → entries_live (AddTrigger repo uuid now t s).2.1.
Proof.
  intros Hs. destruct (AddTrigger _ _ _ _ s) as [r s'] eqn:E.
  destruct (AddTrigger_sched _ _ _ _ _ _ E) as [H|(t' & Ht' & H)]; simpl; rewrite H; [done|].
  by apply schedule_job_live.
Qed.

Lemma load_loop_live uuid now l s : entries_live s.1 → entries_live (load_loop repo uuid now l s).2.1.
Proof.
  revert s. induction l as [|t l IH]; intros s Hs; [done|]. cbn [load_loop].
  destruct (tr_Enabled t); [|by apply IH]. unfold st_bind, st_ignore.
  pose proof (AddTrigger_live uuid now t s Hs) as Ha.
  destruct (AddTrigger _ _ _ t s) as [[|e|w] s1]; [by apply IH..|done].
Qed.

Lemma unschedule_live id s : entries_live s → entries_live (unschedule id s).
Proof.
  intros Hs. unfold unschedule. destruct (sc_entries s !! id) as [eid|] eqn:He; [|done].
  intros tid k. simpl. intros [Hne Hk]%lookup_delete_Some.
  destruct (Hs _ _ Hk) as (t & Ht & Hid & ?). exists t. rewrite cron_remove_ne; [done|]. intros ->.
  destruct (Hs _ _ He) as (t' & Ht' & Hid' & _). congruence.
Qed.

Lemma sched_step_live s s' : entries_live s.1 → sched_step s s' → entries_live s'.1.
Proof.
  intros Hs Hst. destruct Hst as [uuid now t s|id s|uuid now s|s w].
  - by apply AddTrigger_live.
  - unfold RemoveTrigger, st_bind, st_modify, st_snd. simpl.
    destruct (st_wrap _ _ s.2) as [? ?]. by apply unschedule_live.
  - unfold loadTriggers, st_bind, st_snd. destruct (st_wrap _ _ s.2) as [[l|?|?] w]; [|done..].
    by apply load_loop_live.
  - done.
Qed.
End Live.

(** ** What one operation does *)

Section Ops.
Context {C W : Type} `{!CronLib C, !CronLibLaws C} (repo : CronRepository W).

(** A successful addition: the stored next run follows the trigger's time
    zone, the job is scheduled under the bare expression. *)
Lemma AddTrigger_ok uuid now t s s' : tr_ID t ≠ "" → tr_Enabled t = true →
  AddTrigger repo uuid now t s = (Ok tt, s') →
  ∃ next eid,
    let t' := tr_set (tr_ID t) (tr_LastRunAt t) (next now) now now t in
    parseSchedule (tr_CronExpression t) (tr_Timezone t) = Ok next
    ∧ cron_entry (sc_cron s.1) eid = None
    ∧ cron_entry (sc_cron s'.1) eid = Some (tr_CronExpression t, t')
    ∧ (∀ k, k ≠ eid → cron_entry (sc_cron s'.1) k = cron_entry (sc_cron s.1) k)
    ∧ sc_entries s'.1 = <[tr_ID t := eid]> (sc_entries s.1).
Proof.
  intros Hid Hen. unfold AddTrigger. destruct (CronTrigger_Validate t); [done|].
  unfold st_bind, st_lift. rewrite bool_decide_eq_false_2 by done.
  destruct (parseSchedule _ _) as [next|?|?]; [|done..]. cbn beta iota delta [wrap_err].
  unfold st_snd. destruct (st_wrap _ _ s.2) as [[u|?|?] w]; [|done..].
  cbn [tr_Enabled tr_set]. rewrite Hen. unfold st_fst.
  destruct (schedule_job _ _) as [r1 s1] eqn:E. intros [= -> <-].
  destruct (schedule_job_spec _ _ _ _ E) as [(eid & _ & H)|(e & ? & _)]; [|done].
  exists next, eid. split; [done|]. exact H.
Qed.

(** Removal takes the recorded entry off the cron and nothing else. *)
Lemma RemoveTrigger_cron id s r s' k : RemoveTrigger repo id s = (r, s') →
  sc_entries s.1 !! id ≠ Some k → cron_entry (sc_cron s'.1) k = cron_entry (sc_cron s.1) k.
Proof.
  unfold RemoveTrigger, st_bind, st_modify, st_snd. cbn beta iota. cbn [fst snd].
  destruct (st_wrap _ _ s.2) as [r1 w]. intros [= <- <-] Hk. cbn [fst]. unfold unschedule.
  destruct (sc_entries s.1 !! id) as [eid|] eqn:He; [|done]. apply cron_remove_ne. congruence.
Qed.

Lemma RemoveTrigger_entries id s r s' : RemoveTrigger repo id s = (r, s') →
  sc_entries s'.1 = delete id (sc_entries s.1).
Proof.
  unfold RemoveTrigger, st_bind, st_modify, st_snd. cbn beta iota. cbn [fst snd].
  destruct (st_wrap _ _ s.2) as [r1 w]. intros [= <- <-]. cbn [fst]. unfold unschedule.
  destruct (sc_entries s.1 !! id) as [eid|] eqn:He; [done|]. by rewrite delete_id.
Qed.

Lemma AddTrigger_entries uuid now t s r s' : AddTrigger repo uuid now t s = (r, s') →
  ∀ tid, is_Some (sc_entries s.1 !! tid) → is_Some (sc_entries s'.1 !! tid).
Proof.
  intros E tid Htid. destruct (AddTrigger_sched _ _ _ _ _ _ _ E) as [->|(t' & _ & ->)]; [done|].
  destruct (schedule_job t' s.1) as [r1 s1] eqn:Ej.
  destruct (schedule_job_spec _ _ _ _ Ej) as [(eid & _ & _ & _ & _ & Hs)|(e & _ & ->)]; [|done].
  cbn [snd]. rewrite Hs. rewrite lookup_insert_is_Some. destruct (decide (tr_ID t' = tid)); auto.
Qed.

Lemma load_loop_entries uuid now l s r s' : load_loop repo uuid now l s = (r, s') →
  ∀ tid, is_Some (sc_entries s.1 !! tid) → is_Some (sc_entries s'.1 !! tid).
Proof.
  revert s. induction l as [|t l IH]; cbn [load_loop]; intros s; [by intros [= <- <-]|].
  destruct (tr_Enabled t); [|apply IH]. unfold st_bind, st_ignore.
  destruct (AddTrigger _ _ _ t s) as [r1 s1] eqn:Ea. intros H tid Htid.
  eapply AddTrigger_entries in Htid; [|exact Ea].
  destruct r1; [by apply (IH s1)..|by simplify_eq].
Qed.
End Ops.

(** ** Loading from PostgreSQL *)

Section Load.
Context {C X : Type} `{!CronLib C, !CronLibLaws C}.

(** A stored trigger that can be scheduled. *)
Definition loadable (t : CronTrigger) : Prop :=
  tr_ID t ≠ "" ∧ CronTrigger_Validate t = None
  ∧ is_Ok (parseSchedule (tr_CronExpression t) (tr_Timezone t)) = true
  ∧ is_Ok (cron_Parse (tr_CronExpression t)) = true.

Lemma PG_SaveTrigger_spec tdb t d r d' : PG_SaveTrigger tdb None t d = (r, d') →
  db_functions d' = db_functions d ∧ (∀ w, r ≠ Panic w)
  ∧ (is_Some (db_functions d !! tr_FunctionID t) → r = Ok tt).
Proof.
  unfold PG_SaveTrigger, sql_exec, upsert_trigger. cbn [trr_function_id row_of_trigger].
  destruct (function_exists d _) eqn:Hf; intros [= <- <-]; (split_and!; [done..|]); [done|].
  intros Hs. apply function_exists_spec in Hs. congruence.
Qed.

(** Adding a trigger leaves the functions alone, does not panic, and succeeds
    on a loadable trigger of a stored function. *)
Lemma AddTrigger_PG tdb lerr derr uerr uuid now t (s : Sched C) d (x : X) r s' :
  (∀ w, uuid ≠ Panic w) →
  AddTrigger (PG_cron tdb None lerr derr uerr) uuid now t (s, (d, x)) = (r, s') →
  db_functions s'.2.1 = db_functions d ∧ (∀ w, r ≠ Panic w)
  ∧ (loadable t → tr_Enabled t = true → is_Some (db_functions d !! tr_FunctionID t) → r = Ok tt).
Proof.
  intros Hu. unfold AddTrigger, loadable. destruct (CronTrigger_Validate t).
  { intros [= <- <-]. split_and!; [done..|]. by intros (_ & ? & _). }
  unfold st_bind, st_lift.
  destruct (if bool_decide (tr_ID t = "") then _ else _) as [id|?|w] eqn:Hid.
  2: { intros [= <- <-]. split_and!; [done..|]. intros (Hne & _).
       by rewrite bool_decide_eq_false_2 in Hid. }
  2: { case_bool_decide; [|done]. destruct uuid as [| |w']; [done..|]. by destruct (Hu w'). }
  destruct (parseSchedule _ _) as [next|?|w] eqn:Hps.
  2: { intros [= <- <-]. split_and!; [done..|]. by intros (_ & _ & ? & _). }
  2: { by apply cron_parse_no_panic in Hps. }
  cbn [wrap_err cp_SaveTrigger PG_cron]. unfold st_snd, st_wrap, st_fst. cbn [fst snd].
  set (t' := tr_set _ _ _ _ _ t).
  destruct (PG_SaveTrigger tdb None t' d) as [rs d'] eqn:Hsv.
  destruct (PG_SaveTrigger_spec _ _ _ _ _ Hsv) as (Hd & Hnp & Hok).
  destruct rs as [[]|?|w]; [| |by destruct (Hnp w)].
  2: { intros [= <- <-]. split_and!; [done..|]. intros _ _ Hf. by apply Hok in Hf. }
  change (tr_Enabled t') with (tr_Enabled t). cbn [wrap_err fst snd].
  destruct (tr_Enabled t); [|unfold st_ret; by intros [= <- <-]].
  cbn [fst snd]. destruct (schedule_job t' s) as [rj sj] eqn:Hj. intros [= <- <-]. split_and!; [done|..].
  - destruct (schedule_job_spec _ _ _ _ Hj) as [(? & -> & _)|(? & -> & _)]; done.
  - intros (_ & _ & _ & Hp) _ _. unfold schedule_job in Hj.
    change (tr_CronExpression t') with (tr_CronExpression t) in Hj.
    destruct (cron_Parse (tr_CronExpression t)) as [f| |] eqn:Hpf; [|done..].
    destruct (cron_add_parses (sc_cron s) _ t' f Hpf) as (eid & c & Ha). rewrite Ha in Hj.
    by injection Hj as <- <-.
Qed.

Lemma load_loop_PG tdb lerr derr uerr uuid now l (s : Sched C) d (x : X) r s' :
  (∀ w, uuid ≠ Panic w) →
  load_loop (PG_cron tdb None lerr derr uerr) uuid now l (s, (d, x)) = (r, s') →
  r = Ok tt ∧ ∀ t, t ∈ l → loadable t → tr_Enabled t = true →
    is_Some (db_functions d !! tr_FunctionID t) → is_Some (sc_entries s'.1 !! tr_ID t).
Proof.
  intros Hu. revert s d x. induction l as [|t l IH]; cbn [load_loop]; intros s d x.
  { intros [= <- <-]. split; [done|]. set_solver. }
  destruct (tr_Enabled t) eqn:Hen.
  2: { intros H. apply IH in H as [-> H]. split; [done|].
       intros t' [->|Ht']%elem_of_cons; [congruence|eauto]. }
  unfold st_bind, st_ignore.
  destruct (AddTrigger _ _ _ t (s, (d, x))) as [ra [s1 [d1 x1]]] eqn:Ha.
  destruct (AddTrigger_PG _ _ _ _ _ _ _ _ _ _ _ _ Hu Ha) as (Hd & Hnp & Hok). cbn in Hd.
  intros H. assert (load_loop (PG_cron tdb None lerr derr uerr) uuid now l (s1, (d1, x1)) = (r, s')) as HL
    by (destruct ra as [| |w]; [done..|by destruct (Hnp w)]).
  clear H. destruct (IH _ _ _ HL) as [-> Hrest]. split; [done|].
  intros t' [->|Ht']%elem_of_cons Hload Hen' Hf; [|rewrite <- Hd in Hf; eauto].
  eapply load_loop_entries; [exact HL|]. specialize (Hok Hload Hen Hf). subst ra.
  apply AddTrigger_ok in Ha as (next & eid & _ & _ & _ & _ & ->); [|apply Hload|done].
  rewrite lookup_insert_eq. eauto.
Qed.
End Load.

(** ** Theorems *)

(** Scheduler invariant.  Whatever triggers are added, removed and loaded,
    in any order, and whatever the repository answers: the entry recorded for
    a trigger is a live entry of the cron, it runs that trigger's job under
    its expression, and the trigger is an enabled one. *)
Theorem cron_entries_live {C W} `{!CronLib C, !CronLibLaws C} (repo : CronRepository W) c w s :
  rtc (sched_step repo) (NewCronScheduler c, w) s → entries_live s.1.
Proof.
  apply (rtc_preserves _ (λ s, entries_live s.1)).
  - intros a b. apply sched_step_live.
  - intros tid eid H. cbn in H. by rewrite lookup_empty in H.
Qed.

(** Restart.  Loading from PostgreSQL does not fail once the list is read,
    and afterwards every enabled stored trigger whose schedule parses has a
    live job. *)
Theorem loadTriggers_restores {C X} `{!CronLib C, !CronLibLaws C} tdb derr uerr uuid now
    (s : Sched C) d (x : X) r s' :
  (∀ w, uuid ≠ Panic w) → db_inv d → entries_live s →
  loadTriggers (PG_cron tdb None None derr uerr) uuid now (s, (d, x)) = (r, s') →
  r = Ok tt ∧ ∀ id row, db_triggers d !! id = Some row → trr_enabled row = true →
    loadable (trigger_of_row row) →
    ∃ eid, sc_entries s'.1 !! id = Some eid ∧ job_of (sc_cron s'.1) eid id.
Proof.
  intros Hu Hd Hlive. unfold loadTriggers, st_bind, st_snd, st_wrap.
  cbn [cp_ListTriggers PG_cron]. unfold st_fst, PG_ListTriggers, sql_query. cbn [fst snd wrap_err].
  set (l := trigger_of_row <$> _). intros HL.
  destruct (load_loop_PG _ _ _ _ _ _ _ _ _ _ _ _ Hu HL) as [-> Hall]. split; [done|].
  intros id row Hrow Hen Hload.
  assert (trr_id row = id) as Hid by by apply (inv_triggers_pk d Hd).
  destruct (Hall (trigger_of_row row)) as [eid Heid]; [|done|done| |].
  - apply list_elem_of_fmap. exists row. split; [done|]. unfold order_desc.
    rewrite merge_sort_Permutation. apply elem_of_sql_rows. eauto.
  - by apply (inv_triggers_fk d Hd) in Hrow.
  - change (tr_ID (trigger_of_row row)) with (trr_id row) in Heid. rewrite Hid in Heid.
    exists eid. split; [done|].
    pose proof (load_loop_live (PG_cron tdb None None derr uerr) uuid now l (s, (d, x)) Hlive) as Hl.
    rewrite HL in Hl. by apply Hl.
Qed.

(** A trigger added twice.  The second addition forgets the first job's
    entry without removing it, so after the trigger is removed, and however
    often, the first job is still scheduled. *)
Theorem readded_trigger_survives_removal {C W} `{!CronLib C, !CronLibLaws C} (repo : CronRepository W)
    uuid1 uuid2 now1 now2 t s s1 s2 r s3 :
  tr_ID t ≠ "" → tr_Enabled t = true →
  AddTrigger repo uuid1 now1 t s = (Ok tt, s1) → AddTrigger repo uuid2 now2 t s1 = (Ok tt, s2) →
  RemoveTrigger repo (tr_ID t) s2 = (r, s3) →
  ∃ eid t', cron_entry (sc_cron s3.1) eid = Some (tr_CronExpression t, t') ∧ tr_ID t' = tr_ID t
    ∧ ∀ r' s4, RemoveTrigger repo (tr_ID t) s3 = (r', s4) →
        cron_entry (sc_cron s4.1) eid = Some (tr_CronExpression t, t').
Proof.
  intros Hid Hen H1 H2 H3.
  apply AddTrigger_ok in H1 as (next & eid & _ & _ & He & _ & _); [|done..].
  apply AddTrigger_ok in H2 as (next2 & eid2 & _ & Hnew & _ & Hother & Hen2); [|done..].
  assert (Hne : eid ≠ eid2) by (intros ->; rewrite Hnew in He; done).
  rewrite <- (Hother eid Hne) in He.
  rewrite <- (RemoveTrigger_cron repo (tr_ID t) s2 r s3 eid H3) in He
    by (rewrite Hen2, lookup_insert_eq; congruence).
  exists eid. eexists. split_and!; [exact He|done|]. intros r' s4 H4.
  rewrite <- He. apply (RemoveTrigger_cron repo (tr_ID t) s3 r' s4 eid H4).
  rewrite (RemoveTrigger_entries repo _ _ _ _ H3). by rewrite lookup_delete_eq.
Qed.

(** ** An in-memory cron *)

(** Every expression parses and runs at each second. *)
Definition MemCron : Type := gmap Z (string * CronTrigger).

#[export] Instance mem_cron : CronLib MemCron := {|
  cron_Parse spec := Ok (λ now, now + Second);
  cron_AddFunc spec t := λ c, let id := fresh (dom c) in (Ok id, <[id := (spec, t)]> c);
  cron_Remove id c := delete id c;
  cron_entry c id := c !! id
|}.

#[export] Instance mem_cron_laws : CronLibLaws MemCron.
Proof.
  split; cbn [cron_Parse cron_AddFunc cron_Remove cron_entry mem_cron]; unfold MemCron.
  - done.
  - intros c spec t id c' [= <- <-]. split_and!.
    + apply not_elem_of_dom, is_fresh.
    + by rewrite lookup_insert_eq.
    + intros id' Hne. by rewrite lookup_insert_ne.
  - done.
  - done.
  - eauto.
  - intros c id. by rewrite lookup_delete_eq.
  - intros c id id' Hne. by rewrite lookup_delete_ne.
Qed.

Definition demo_trigger : CronTrigger :=
  mkTrigger "t1" "f1" "nightly" "0 0 0 * * *" "Asia/Kolkata" true 0 0 0 0.
Definition demo_cron : CronRepository (DB * unit) := PG_cron 0 None None None None.
Definition demo_sched : Sched MemCron * (DB * unit) := (NewCronScheduler ∅, (demo_db, tt)).
Definition demo_add (s : Sched MemCron * (DB * unit)) : Sched MemCron * (DB * unit) :=
  (AddTrigger demo_cron (Ok "u") 0 demo_trigger s).2.

Lemma cron_entries_live_witness : entries_live (demo_add demo_sched).1.
Proof.
  apply (cron_entries_live demo_cron ∅ (demo_db, tt)).
  apply rtc_once. exact (ss_add demo_cron (Ok "u") 0 demo_trigger demo_sched).
Defined.

Lemma demo_add_ok : (AddTrigger demo_cron (Ok "u") 0 demo_trigger demo_sched).1 = Ok tt.
Proof. vm_compute. reflexivity. Qed.
Lemma demo_add2_ok : (AddTrigger demo_cron (Ok "u") 0 demo_trigger (demo_add demo_sched)).1 = Ok tt.
Proof. vm_compute. reflexivity. Qed.

Lemma with_outcome {S A} (m : St S A) s a : (m s).1 = Ok a → m s = (Ok a, (m s).2).
Proof. intros <-. apply surjective_pairing. Qed.

Lemma readded_trigger_survives_removal_witness :
  ∃ eid t', cron_entry
      (sc_cron (RemoveTrigger demo_cron "t1" (demo_add (demo_add demo_sched))).2.1) eid
    = Some ("0 0 0 * * *", t').
Proof.
  destruct (readded_trigger_survives_removal demo_cron (Ok "u") (Ok "u") 0 0 demo_trigger demo_sched
    (demo_add demo_sched) (demo_add (demo_add demo_sched)) _ _ ltac:(discriminate) eq_refl
    (with_outcome _ _ _ demo_add_ok) (with_outcome _ _ _ demo_add2_ok) (surjective_pairing _))
    as (eid & t' & H & _).
  exists eid, t'. exact H.
Defined.

(** A database with the trigger in it. *)
Definition demo_cron_db : DB :=
  (PG_SaveTrigger 0 None demo_trigger demo_db).2.

Lemma demo_cron_db_inv : db_inv demo_cron_db.
Proof.
  apply sql_exec_inv; [apply demo_db_inv|]. intros d'. apply upsert_trigger_inv, demo_db_inv.
Qed.

Lemma demo_cron_db_row : db_triggers demo_cron_db !! "t1" = Some (row_of_trigger demo_trigger).
Proof. vm_compute. reflexivity. Qed.

Lemma loadTriggers_restores_witness :
  ∃ eid, sc_entries (loadTriggers demo_cron (Ok "u") 0
                       (NewCronScheduler (∅ : MemCron), (demo_cron_db, tt))).2.1 !! "t1" = Some eid.
Proof.
  destruct (proj2 (loadTriggers_restores 0 None None (Ok "u") 0 (NewCronScheduler (∅ : MemCron))
    demo_cron_db tt _ _ ltac:(discriminate) demo_cron_db_inv
    (λ tid eid H, False_ind _ (eq_ind None (λ o, match o with Some _ => False | None => True end) I _ H))
    (surjective_pairing _)) "t1" _ demo_cron_db_row eq_refl) as (eid & H & _).
  - split_and!; [discriminate|reflexivity..].
  - exists eid. exact H.
Defined.
