(* ===== verification/FilePath.v ===== *)
(** * Slash-separated paths (Go's path/filepath on Unix)

    [Clean] and [Join] as their documentation defines them: on the components
    of a path, dropping empty ones and ".", and resolving "..".  The build
    service checks archive names and derives object keys with them. *)

From Stdlib Require Import ZArith Lia Ascii.
From stdpp Require Import base strings list numbers.
From S2P Require Import Prelude.

Definition is_rooted (path : string) : bool := HasPrefix path "/".

(** One component onto the ones before it, the last of them first. *)
Definition clean_step (rooted : bool) (acc : list string) (c : string) : list string :=
  if bool_decide (c = "") || bool_decide (c = ".") then acc
  else if bool_decide (c = "..") then
    match acc with
    | [] => if rooted then [] else [".."]
    | x :: rest => if bool_decide (x = "..") then ".." :: acc else rest
    end
  else c :: acc.

(** The components of the cleaned path. *)
Definition path_comps (path : string) : list string :=
  rev (foldl (clean_step (is_rooted path)) [] (Split path slash)).

Fixpoint join_comps (l : list string) : string :=
  match l with
  | [] => ""
  | [c] => c
  | c :: rest => c +:+ "/" +:+ join_comps rest
  end.

Definition Clean (path : string) : string :=
  if is_rooted path then "/" +:+ join_comps (path_comps path)
  else match path_comps path with
       | [] => "."
       | l => join_comps l
       end.

(** [filepath.Join(a, b)]. *)
Definition Join2 (a b : string) : string :=
  if bool_decide (a ≠ "") then Clean (a +:+ "/" +:+ b)
  else if bool_decide (b ≠ "") then Clean b
  else "".

(** The path up to its last slash, and [filepath.Dir]. *)
Fixpoint up_to_last_slash (s : string) : option string :=
  match s with
  | EmptyString => None
  | String a s' =>
      match up_to_last_slash s' with
      | Some r => Some (String a r)
      | None => if bool_decide (a = slash) then Some (String a EmptyString) else None
      end
  end.
Definition Dir (path : string) : string := Clean (default "" (up_to_last_slash path)).

(** ** Lemmas *)

(** A component a cleaned rooted path may have. *)
Definition normal (c : string) : Prop :=
  c ≠ "" ∧ c ≠ "." ∧ c ≠ ".." ∧ ContainsChar c slash = false.

Lemma clean_step_normal acc c :
  ContainsChar c slash = false → Forall normal acc → Forall normal (clean_step true acc c).
Proof.
  unfold clean_step. intros Hc Hacc. destruct (bool_decide (c = "")) eqn:H1; [done|].
  destruct (bool_decide (c = ".")) eqn:H2; [done|]. simpl.
  destruct (bool_decide (c = "..")) eqn:H3; bools; [|by constructor].
  destruct acc as [|x rest]; [done|]. inversion Hacc as [|? ? Hx Hrest]; subst.
  destruct Hx as (_ & _ & Hx & _). by rewrite bool_decide_eq_false_2.
Qed.

Lemma clean_fold_normal l acc :
  Forall (λ c, ContainsChar c slash = false) l → Forall normal acc →
  Forall normal (foldl (clean_step true) acc l).
Proof.
  revert acc. induction l as [|c l IH]; intros acc Hl Hacc; [done|]. simpl.
  inversion Hl; subst. apply IH; [done|]. by apply clean_step_normal.
Qed.

Lemma path_comps_normal path : is_rooted path = true → Forall normal (path_comps path).
Proof.
  intros H. unfold path_comps. rewrite H. apply Forall_rev, clean_fold_normal; [|done].
  apply Split_parts_no_char.
Qed.

Lemma Split_app_gen a b c : Split (a +:+ String c b) c = Split a c ++ Split b c.
Proof.
  induction a as [|x a IH]; simpl; [by rewrite bool_decide_eq_true_2|].
  case_bool_decide; simpl; rewrite IH; [done|].
  destruct (Split a c) as [|p ps] eqn:E; [by apply Split_nonempty in E|]. done.
Qed.

Lemma is_rooted_app a b : is_rooted a = true → is_rooted (a +:+ b) = true.
Proof.
  intros [r ->]%HasPrefix_spec. unfold is_rooted. rewrite <- str_app_assoc. apply HasPrefix_app.
Qed.

(** The components of [dir/name]: those of [name], from [dir]. *)
Definition resolve (dir : list string) (name : string) : list string :=
  rev (foldl (clean_step true) (rev dir) (Split name slash)).

Lemma path_comps_app dir name : is_rooted dir = true →
  path_comps (dir +:+ "/" +:+ name) = resolve (path_comps dir) name.
Proof.
  intros H. unfold path_comps, resolve. rewrite (is_rooted_app dir) by done. rewrite H.
  change ("/" +:+ name) with (String slash name).
  rewrite Split_app_gen, foldl_app. by rewrite rev_involutive.
Qed.

(** Components followed each by a slash. *)
Fixpoint slashed (l : list string) : string :=
  match l with
  | [] => ""
  | c :: rest => c +:+ "/" +:+ slashed rest
  end.

Lemma join_slashed l : l ≠ [] → join_comps l +:+ "/" = slashed l.
Proof.
  induction l as [|c [|c' l] IH]; [done|done|]. intros _. specialize (IH ltac:(done)).
  change (join_comps (c :: c' :: l)) with (c +:+ "/" +:+ join_comps (c' :: l)).
  change (slashed (c :: c' :: l)) with (c +:+ "/" +:+ slashed (c' :: l)).
  rewrite <- IH. by rewrite <- !str_app_assoc.
Qed.

Lemma app_slash_inj a b x y : ContainsChar a slash = false → ContainsChar b slash = false →
  a +:+ String slash x = b +:+ String slash y → a = b ∧ x = y.
Proof.
  revert b. induction a as [|p a IH]; intros [|q b]; simpl; intros Ha Hb; bools.
  - by intros [= ->].
  - intros [= <- _]. done.
  - intros [= -> _]. done.
  - intros [= -> Hrest]. destruct (IH b) as [-> ->]; done.
Qed.

Lemma slashed_prefix d p r : Forall normal d → Forall normal p →
  slashed p = slashed d +:+ r → ∃ t, p = d ++ t ∧ r = slashed t.
Proof.
  revert p. induction d as [|c d IH]; intros p Hd Hp; simpl; [intros H; exists p; by split|].
  inversion Hd as [|? ? Hc Hd']; subst.
  rewrite <- str_app_assoc. destruct p as [|q p]; simpl.
  { intros H. destruct c; [by destruct Hc|done]. }
  inversion Hp as [|? ? Hq Hp']; subst. intros H.
  destruct (app_slash_inj q c (slashed p) (slashed d +:+ r)) as [-> Heq]; [apply Hq|apply Hc|exact H|].
  destruct (IH p Hd' Hp' Heq) as (t & -> & ->). by exists t.
Qed.

Lemma slashed_app a b : slashed (a ++ b) = slashed a +:+ slashed b.
Proof. induction a as [|c a IH]; simpl; [done|]. rewrite IH. by rewrite <- !str_app_assoc. Qed.
