(* ===== verification/Zip.v ===== *)
(** * ZIP packages (build-service internal/builder/zip_processor.go)

    [ZIPProcessor] unpacks an uploaded archive into a directory of the worker.
    The archive reader is a parameter: what [zip.NewReader] gives is a list of
    entries, and reading an entry gives chunks of at most the buffer's size.
    The file system is the set of directories and the files with their
    contents; [fs_written] counts the bytes written. *)

From Stdlib Require Import ZArith Lia Ascii.
From stdpp Require Import base strings gmap list numbers.
From S2P Require Import Prelude.
From S2P Require Import FilePath.
Open Scope Z_scope.

(** ** Archives and files *)

(** [zip.File], with what reading it meets: the error of opening it, the
    chunks of its contents, the error that ends them ([None] for EOF), and the
    errors of the file system calls made for it. *)
Record ZipFile := mkZipFile {
  zf_Name : string;
  zf_UncompressedSize64 : Z;
  zf_IsDir : bool;
  zf_open_err : option error;
  zf_chunks : list string;
  zf_end_err : option error;
  zf_mkdir_err : option error;
  zf_create_err : option error;
  zf_write_err : option error;
  zf_chmod_err : option error
}.

Record FS := mkFS {
  fs_dirs : gset string;
  fs_files : gmap string string;
  fs_written : Z
}.

Definition fs_mkdir (path : string) (f : FS) : FS :=
  mkFS ({[path]} ∪ fs_dirs f) (fs_files f) (fs_written f).
Definition fs_truncate (path : string) (f : FS) : FS :=
  mkFS (fs_dirs f) (<[path := ""]> (fs_files f)) (fs_written f).
Definition fs_append (path chunk : string) (f : FS) : FS :=
  mkFS (fs_dirs f) (<[path := default "" (fs_files f !! path) +:+ chunk]> (fs_files f))
    (fs_written f + Z.of_nat (String.length chunk)).
Definition fs_remove_all (path : string) (f : FS) : FS :=
  mkFS (filter (λ d, d ≠ path ∧ HasPrefix d (path +:+ "/") = false) (fs_dirs f))
    (filter (λ kv, kv.1 ≠ path ∧ HasPrefix kv.1 (path +:+ "/") = false) (fs_files f))
    (fs_written f).

(** [os.OpenFile] for writing, which truncates; a directory cannot be opened. *)
Definition fs_create (err : option error) (path : string) : St FS unit := λ f,
  match err with
  | Some e => (Err e, f)
  | None => if bool_decide (path ∈ fs_dirs f) then (Err (NewError "is a directory"), f)
            else (Ok tt, fs_truncate path f)
  end.

(** An error of the environment, if there is one, else an effect. *)
Definition fs_call (err : option error) (g : FS → FS) : St FS unit := λ f,
  match err with
  | Some e => (Err e, f)
  | None => (Ok tt, g f)
  end.

Definition maxSize : Z := 100 * 1024 * 1024.
Definition maxFiles : Z := 1000.

(** ** Extraction *)

Section Extract.
Open Scope golang_scope.

(** The copying loop: the total so far, checked before each write. *)
Fixpoint copy_chunks (path : string) (werr end_err : option error) (chunks : list string)
    (totalSize : Z) : St FS Z :=
  match chunks with
  | [] => match end_err with Some e => st_fail e | None => st_ret totalSize end
  | c :: rest =>
      if bool_decide (0 < String.length c)%nat then
        let totalSize := totalSize + Z.of_nat (String.length c) in
        if bool_decide (maxSize < totalSize)
        then st_fail (NewError "total extracted size exceeds limit of 104857600 bytes")
        else fs_call werr (fs_append path c) ;;! copy_chunks path werr end_err rest totalSize
      else copy_chunks path werr end_err rest totalSize
  end.

(** The traversal guard. *)
Definition inside (targetDir targetPath : string) : bool :=
  HasPrefix (Clean targetPath +:+ "/") (Clean targetDir +:+ "/").

(** The new total, or the error. *)
Definition extractFile (file : ZipFile) (targetDir : string) (totalSize : Z) : St FS Z :=
  let targetPath := Join2 targetDir (zf_Name file) in
  if negb (inside targetDir targetPath)
  then st_fail (NewError ("invalid file path: " +:+ zf_Name file))
  else if zf_IsDir file then
    fs_call (zf_mkdir_err file) (fs_mkdir targetPath) ;;! st_ret totalSize
  else
    fs_call (zf_mkdir_err file) (fs_mkdir (Dir targetPath)) ;;!
    match zf_open_err file with
    | Some e => st_fail e
    | None =>
        fs_create (zf_create_err file) targetPath ;;!
        total <-! copy_chunks targetPath (zf_write_err file) (zf_end_err file) (zf_chunks file) totalSize ;;
        fs_call (zf_chmod_err file) id ;;!
        st_ret total
    end.

Fixpoint extract_loop (files : list ZipFile) (targetDir : string) (fileCount totalSize : Z) : St FS unit :=
  match files with
  | [] => st_ret tt
  | file :: rest =>
      let fileCount := fileCount + 1 in
      if bool_decide (maxFiles < fileCount)
      then st_fail (NewError "too many files in ZIP: limit is 1000")
      else if bool_decide (maxSize < zf_UncompressedSize64 file)
      then st_fail (NewError ("file " +:+ zf_Name file +:+ " too large"))
      else
        total <-! extractFile file targetDir totalSize ;;
        extract_loop rest targetDir fileCount total
  end.

(** [read] is [zip.NewReader]. *)
Context (read : string → outcome (list ZipFile)).

Definition extractZIP (data targetDir : string) : St FS unit :=
  files <-! st_lift (wrap_err "failed to read ZIP" (read data)) ;;
  extract_loop files targetDir 0 0.

Record ZIPProcessor := mkZIPProcessor { zp_workDir : string }.

Definition ZIP_Process (zp : ZIPProcessor) (mkdir_err : option error) (packageData functionID : string)
    : St FS string :=
  let funcDir := Join2 (zp_workDir zp) functionID in
  st_wrap "failed to create function directory" (fs_call mkdir_err (fs_mkdir funcDir)) ;;!
  st_wrap "failed to extract ZIP" (extractZIP packageData funcDir) ;;!
  st_ret funcDir.

Definition ZIP_Cleanup (zp : ZIPProcessor) (err : option error) (functionID : string) : St FS unit :=
  fs_call err (fs_remove_all (Join2 (zp_workDir zp) functionID)).

Definition ValidatePackage (data : string) : outcome unit :=
  if bool_decide (String.length data = 0%nat) then Err (NewError "package data is empty")
  else match read data with
       | Ok _ => Ok tt
       | Err e => Err (Wrap "invalid ZIP file" e)
       | Panic w => Panic w
       end.
End Extract.

(** ** Lemmas: the traversal guard *)

Lemma Join2_rooted dir name : is_rooted dir = true → Join2 dir name = Clean (dir +:+ "/" +:+ name).
Proof.
  intros H. unfold Join2. rewrite bool_decide_eq_true_2; [done|]. by intros ->.
Qed.

Lemma Clean_rooted path : is_rooted path = true → Clean path = "/" +:+ join_comps (path_comps path).
Proof. unfold Clean. by intros ->. Qed.

Lemma Split_join l : Forall normal l → l ≠ [] → Split (join_comps l) slash = l.
Proof.
  induction l as [|c [|c' l] IH]; intros Hl Hne; [done| |]; inversion Hl as [|? ? Hc Hl']; subst.
  - apply Split_no_char, Hc.
  - change (join_comps (c :: c' :: l)) with (c +:+ String slash (join_comps (c' :: l))).
    rewrite Split_app by apply Hc. by rewrite IH.
Qed.

Lemma clean_fold_id l acc : Forall normal l → foldl (clean_step true) acc l = rev l ++ acc.
Proof.
  revert acc. induction l as [|c l IH]; intros acc Hl; [done|].
  inversion Hl as [|? ? (H1 & H2 & H3 & _) Hl']; subst. simpl. unfold clean_step at 2.
  rewrite !bool_decide_eq_false_2 by done. simpl. rewrite IH by done. by rewrite <- app_assoc.
Qed.

(** Cleaning a cleaned rooted path changes nothing. *)
Lemma path_comps_join l : Forall normal l → path_comps ("/" +:+ join_comps l) = l.
Proof.
  intros Hl. unfold path_comps. assert (is_rooted ("/" +:+ join_comps l) = true) as -> by apply HasPrefix_app.
  destruct l as [|c l]; [done|].
  change ("/" +:+ join_comps (c :: l)) with ("" +:+ String slash (join_comps (c :: l))).
  rewrite Split_app by done. rewrite Split_join by done.
  change (foldl (clean_step true) [] ("" :: c :: l)) with (foldl (clean_step true) [] (c :: l)).
  rewrite clean_fold_id by done.
  rewrite app_nil_r. apply rev_involutive.
Qed.

Lemma slashed_head c l : normal c → ∃ a s, a ≠ slash ∧ slashed (c :: l) = String a s.
Proof.
  intros (Hne & _ & _ & Hs). destruct c as [|a c]; [done|]. simpl in Hs. bools. simpl. eauto.
Qed.

Lemma inside_iff dir name : is_rooted dir = true → path_comps dir ≠ [] →
  inside dir (Join2 dir name) = true ↔ path_comps dir `prefix_of` resolve (path_comps dir) name.
Proof.
  intros Hr Hne. unfold inside. rewrite Join2_rooted by done.
  set (full := dir +:+ "/" +:+ name). assert (Hf : is_rooted full = true) by by apply is_rooted_app.
  pose proof (path_comps_normal dir Hr) as Hd. pose proof (path_comps_normal full Hf) as Hp.
  rewrite (Clean_rooted full) by done.
  rewrite (Clean_rooted ("/" +:+ _)) by apply HasPrefix_app. rewrite path_comps_join by done.
  rewrite (Clean_rooted dir) by done. rewrite <- !str_app_assoc.
  rewrite (join_slashed (path_comps dir)) by done. rewrite <- path_comps_app by done. fold full. rewrite HasPrefix_spec.
  destruct (path_comps full) as [|p ps] eqn:E.
  - split.
    + intros [r H]. exfalso. destruct (path_comps dir) as [|c l]; [done|].
      destruct (slashed_head c l) as (a & s & Ha & Hs); [by inversion Hd|].
      rewrite Hs in H. simpl in H. by simplify_eq.
    + intros [t Ht]. destruct (path_comps dir); [done|by simplify_eq].
  - rewrite join_slashed by done. split.
    + intros [r H]. rewrite <- str_app_assoc in H. apply (str_app_inj_l "/") in H.
      destruct (slashed_prefix _ _ _ Hd Hp H) as (t & -> & _). by exists t.
    + intros [t Ht]. exists (slashed t). rewrite Ht, slashed_app. by rewrite <- str_app_assoc.
Qed.

Create HintDb zip discriminated.

(** ** Lemmas: what extraction touches *)

(** The paths in a directory: its own, and those that go on with normal
    components. *)
Definition under (dir path : string) : Prop :=
  ∃ rest, path = "/" +:+ join_comps (path_comps dir ++ rest) ∧ Forall normal rest.

Lemma inside_under dir name : is_rooted dir = true → path_comps dir ≠ [] →
  inside dir (Join2 dir name) = true → under dir (Join2 dir name).
Proof.
  intros Hr Hne Hin. apply inside_iff in Hin as [rest Hrest]; [|done..].
  exists rest. rewrite Join2_rooted, Clean_rooted by (done || by apply is_rooted_app).
  rewrite path_comps_app by done. rewrite Hrest. split; [done|].
  assert (Forall normal (path_comps dir ++ rest)) as Hall.
  { rewrite <- Hrest, <- path_comps_app by done. by apply path_comps_normal, is_rooted_app. }
  by apply Forall_app in Hall as [_ ?].
Qed.

(** Only files that satisfy [P] changed, at most [n] are new, and bytes were
    only added. *)
Definition frame (P : string → Prop) (n : nat) (f f' : FS) : Prop :=
  (∀ q, fs_files f' !! q ≠ fs_files f !! q → P q)
  ∧ (size (dom (fs_files f')) ≤ size (dom (fs_files f)) + n)%nat
  ∧ fs_written f ≤ fs_written f'.

Lemma frame_refl P n f : frame P n f f.
Proof. split_and!; [done|lia|lia]. Qed.

Lemma frame_mkdir P n d f : frame P n f (fs_mkdir d f).
Proof. split_and!; [done|simpl; lia|simpl; lia]. Qed.
#[local] Hint Resolve frame_refl frame_mkdir : zip.

Lemma frame_trans P n m f g h : frame P n f g → frame P m g h → frame P (n + m) f h.
Proof.
  intros (F1 & F2 & F3) (G1 & G2 & G3). split_and!; [|lia..]. intros q Hq.
  destruct (decide (fs_files g !! q = fs_files f !! q)) as [E|E]; [|by apply F1].
  apply G1. congruence.
Qed.

Lemma frame_insert P path v d f w : P path → fs_written f ≤ w →
  frame P (if bool_decide (is_Some (fs_files f !! path)) then 0 else 1) f
    (mkFS d (<[path := v]> (fs_files f)) w).
Proof.
  intros HP Hw. split_and!; cbn [fs_files fs_written]; [| |done].
  - intros q Hq. destruct (decide (q = path)) as [->|Hne]; [done|].
    by rewrite lookup_insert_ne in Hq.
  - rewrite dom_insert. case_bool_decide as Hs.
    + rewrite subseteq_union_1_L; [lia|]. apply singleton_subseteq_l. by apply elem_of_dom.
    + rewrite size_union; [|]. { rewrite size_singleton. lia. }
      apply disjoint_singleton_l. by rewrite elem_of_dom.
Qed.

Lemma copy_chunks_frame (P : string → Prop) path werr eerr chunks total f r f' :
  P path → is_Some (fs_files f !! path) → 0 ≤ total ≤ maxSize →
  copy_chunks path werr eerr chunks total f = (r, f') →
  frame P 0 f f' ∧ total + (fs_written f' - fs_written f) ≤ maxSize
  ∧ (∀ t, r = Ok t → t = total + (fs_written f' - fs_written f)).
Proof.
  intros HP. revert total f. induction chunks as [|c rest IH]; intros total f Hf Ht; cbn [copy_chunks].
  { destruct eerr; intros [= <- <-]; (split_and!; [apply frame_refl|lia|]); [done|].
    intros t [= <-]. lia. }
  case_bool_decide as Hc; [|by apply IH].
  case_bool_decide as Hm; [intros [= <- <-]; split_and!; [apply frame_refl|lia|done]|].
  unfold st_bind, fs_call. destruct werr as [e|].
  { intros [= <- <-]. split_and!; [apply frame_refl|lia|done]. }
  intros H.
  pose proof (frame_insert P path (default "" (fs_files f !! path) +:+ c) (fs_dirs f) f
    (fs_written f + Z.of_nat (String.length c)) HP ltac:(lia)) as Hfr.
  rewrite bool_decide_eq_true_2 in Hfr by done. fold (fs_append path c f) in Hfr.
  apply IH in H as (H1 & H2 & H3).
  - split_and!; [by apply (frame_trans P 0 0 _ _ _ Hfr)| |]; simpl in *; [lia|].
    intros t Ht'. rewrite (H3 t Ht'). lia.
  - cbn [fs_append fs_files]. rewrite lookup_insert_eq. eauto.
  - lia.
Qed.

Lemma extractFile_frame file dir total f r f' :
  is_rooted dir = true → path_comps dir ≠ [] → 0 ≤ total ≤ maxSize →
  extractFile file dir total f = (r, f') →
  frame (under dir) 1 f f' ∧ total + (fs_written f' - fs_written f) ≤ maxSize
  ∧ (∀ t, r = Ok t → t = total + (fs_written f' - fs_written f)).
Proof.
  intros Hr Hne Ht. unfold extractFile. set (path := Join2 dir (zf_Name file)).
  destruct (inside dir path) eqn:Hin; cbn [negb].
  2: { intros [= <- <-]. split_and!; [auto with zip|lia|done]. }
  assert (under dir path) as Hu by by apply inside_under.
  unfold st_bind, fs_call. destruct (zf_IsDir file).
  { destruct (zf_mkdir_err file); intros [= <- <-]; (split_and!; [auto with zip|simpl; lia|]); [done|].
    intros t [= <-]. simpl. lia. }
  destruct (zf_mkdir_err file).
  { intros [= <- <-]. split_and!; [auto with zip|lia|done]. }
  pose proof (frame_mkdir (under dir) 1 (Dir path) f) as Hf1. set (f1 := fs_mkdir (Dir path) f) in *.
  destruct (zf_open_err file).
  { intros [= <- <-]. split_and!; [exact Hf1|simpl; lia|done]. }
  unfold fs_create. destruct (zf_create_err file).
  { intros [= <- <-]. split_and!; [exact Hf1|simpl; lia|done]. }
  case_bool_decide.
  { intros [= <- <-]. split_and!; [exact Hf1|simpl; lia|done]. }
  pose proof (frame_insert (under dir) path "" (fs_dirs f1) f1 (fs_written f1) Hu ltac:(lia)) as Hf2.
  fold (fs_truncate path f1) in Hf2.
  destruct (copy_chunks _ _ _ _ _ _) as [rc f3] eqn:Hc.
  apply (copy_chunks_frame (under dir)) in Hc as (H1 & H2 & H3); [|done| |done].
  2: { cbn [fs_truncate fs_files]. rewrite lookup_insert_eq. eauto. }
  pose proof (frame_trans _ _ _ _ _ _ Hf2 H1) as Hf3.
  assert (frame (under dir) 1 f f3) as Hf4.
  { destruct Hf3 as (A & B & D). split_and!; [done| |done]. cbn in B |- *. case_bool_decide; lia. }
  simpl in H2, H3. destruct rc as [t|e|w]; [|by intros [= <- <-]; split_and!..].
  destruct (zf_chmod_err file); intros [= <- <-]; split_and!; done.
Qed.

Lemma extract_loop_frame files dir n total f r f' :
  is_rooted dir = true → path_comps dir ≠ [] → 0 ≤ n ≤ maxFiles → 0 ≤ total ≤ maxSize →
  extract_loop files dir n total f = (r, f') →
  frame (under dir) (Z.to_nat (maxFiles - n)) f f' ∧ total + (fs_written f' - fs_written f) ≤ maxSize.
Proof.
  intros Hr Hne. revert n total f. induction files as [|file rest IH]; intros n total f Hn Ht;
    cbn [extract_loop].
  { intros [= <- <-]. split; [apply frame_refl|lia]. }
  case_bool_decide as Hmax; [intros [= <- <-]; split; [apply frame_refl|lia]|].
  case_bool_decide; [intros [= <- <-]; split; [apply frame_refl|lia]|].
  unfold st_bind. destruct (extractFile file dir total f) as [rf f1] eqn:He.
  apply extractFile_frame in He as (H1 & H2 & H3); [|done..].
  assert (Z.to_nat (maxFiles - n) = 1 + Z.to_nat (maxFiles - (n + 1)))%nat as -> by lia.
  destruct rf as [t|e|w].
  - specialize (H3 t eq_refl). intros Hl. apply IH in Hl as [H4 H5]; [|lia|].
    + split; [by apply (frame_trans _ 1 _ _ _ _ H1)|lia].
    + destruct H1 as (_ & _ & ?). lia.
  - intros [= <- <-]. split; [|done]. destruct H1 as (? & ? & ?). split_and!; [done|lia|done].
  - intros [= <- <-]. split; [|done]. destruct H1 as (? & ? & ?). split_and!; [done|lia|done].
Qed.

(** ** Lemmas: what extraction writes *)

(** All the chunks of an entry. *)
Definition zf_content (file : ZipFile) : string := foldr String.append "" (zf_chunks file).

Definition zf_size (file : ZipFile) : Z :=
  if zf_IsDir file then 0 else Z.of_nat (String.length (zf_content file)).

Definition zf_target (dir : string) (file : ZipFile) : string := Join2 dir (zf_Name file).

(** An entry nothing goes wrong with. *)
Definition entry_ok (dir : string) (file : ZipFile) : Prop :=
  inside dir (zf_target dir file) = true ∧ zf_UncompressedSize64 file ≤ maxSize
  ∧ zf_open_err file = None ∧ zf_end_err file = None ∧ zf_mkdir_err file = None
  ∧ zf_create_err file = None ∧ zf_write_err file = None ∧ zf_chmod_err file = None.

Lemma copy_chunks_ok path chunks total f old :
  fs_files f !! path = Some old →
  total + Z.of_nat (String.length (foldr String.append "" chunks)) ≤ maxSize →
  ∃ f', copy_chunks path None None chunks total f
        = (Ok (total + Z.of_nat (String.length (foldr String.append "" chunks))), f')
    ∧ fs_files f' = <[path := old +:+ foldr String.append "" chunks]> (fs_files f)
    ∧ fs_dirs f' = fs_dirs f.
Proof.
  revert total f old. induction chunks as [|c rest IH]; intros total f old Hf Hl; cbn [copy_chunks foldr].
  { exists f. rewrite str_app_nil_r, insert_id by done. split_and!; [|done..].
    unfold st_ret. do 2 f_equal. simpl. lia. }
  simpl in Hl. rewrite str_length_app in Hl |- *. case_bool_decide as Hc.
  - rewrite bool_decide_eq_false_2 by lia. unfold st_bind, fs_call.
    destruct (IH (total + Z.of_nat (String.length c)) (fs_append path c f) (old +:+ c))
      as (f' & -> & Hfs & Hd); [|lia|].
    + cbn [fs_append fs_files]. rewrite lookup_insert_eq, Hf. done.
    + exists f'. split_and!; [do 2 f_equal; lia| |by rewrite Hd].
      rewrite Hfs. cbn [fs_append fs_files]. by rewrite insert_insert_eq, str_app_assoc.
  - assert (c = "") as -> by (destruct c; simpl in *; [done|lia]). by apply IH.
Qed.

(** The files after unpacking, and the directories. *)
Definition put_entry (dir : string) (m : gmap string string) (file : ZipFile) : gmap string string :=
  if zf_IsDir file then m else <[zf_target dir file := zf_content file]> m.
Definition entry_dir (dir : string) (file : ZipFile) : string :=
  if zf_IsDir file then zf_target dir file else Dir (zf_target dir file).

(** No entry's file is also a directory, of the file system or of an entry. *)
Definition no_clash (dir : string) (files : list ZipFile) (dirs : gset string) : Prop :=
  ∀ file, file ∈ files → zf_IsDir file = false →
    (zf_target dir file ∉ dirs) ∧ ∀ g, g ∈ files → entry_dir dir g ≠ zf_target dir file.

Lemma extractFile_ok dir file total f :
  entry_ok dir file → total + zf_size file ≤ maxSize →
  (zf_IsDir file = false → (zf_target dir file ∉ fs_dirs f) ∧ entry_dir dir file ≠ zf_target dir file) →
  ∃ f', extractFile file dir total f = (Ok (total + zf_size file), f')
    ∧ fs_files f' = put_entry dir (fs_files f) file
    ∧ fs_dirs f' = {[entry_dir dir file]} ∪ fs_dirs f.
Proof.
  intros (Hin & _ & Ho & He & Hm & Hc & Hw & Hch) Hs Hd.
  unfold extractFile, put_entry, zf_size, entry_dir in *. fold (zf_target dir file).
  rewrite Hin. cbn [negb]. unfold st_bind, fs_call. rewrite Hm, Ho, Hc, Hw, He, Hch.
  destruct (zf_IsDir file).
  { exists (fs_mkdir (zf_target dir file) f). unfold st_ret. by rewrite Z.add_0_r. }
  destruct (Hd eq_refl) as [Hnd Hne]. unfold fs_create.
  rewrite bool_decide_eq_false_2 by (simpl; set_solver).
  destruct (copy_chunks_ok (zf_target dir file) (zf_chunks file) total
    (fs_truncate (zf_target dir file) (fs_mkdir (Dir (zf_target dir file)) f)) "")
    as (f' & -> & Hfs & Hdirs); [by cbn; rewrite lookup_insert_eq|done|].
  exists f'. split_and!; [done| |done]. rewrite Hfs. cbn. by rewrite insert_insert_eq.
Qed.

Lemma extract_loop_ok dir files n total f :
  Forall (entry_ok dir) files → n + Z.of_nat (length files) ≤ maxFiles →
  total + foldr (λ g a, zf_size g + a) 0 files ≤ maxSize → no_clash dir files (fs_dirs f) →
  ∃ f', extract_loop files dir n total f = (Ok tt, f')
    ∧ fs_files f' = foldl (put_entry dir) (fs_files f) files.
Proof.
  revert n total f. induction files as [|file rest IH]; intros n total f Hok Hn Ht Hcl; cbn [extract_loop].
  { by exists f. }
  inversion Hok as [|? ? Hfile Hrest]; subst. cbn [length foldr] in Hn, Ht.
  assert (0 ≤ foldr (λ g a, zf_size g + a) 0 rest) as Hpos.
  { clear. induction rest as [|g rest IH]; simpl; [lia|].
    unfold zf_size at 1. destruct (zf_IsDir g); lia. }
  rewrite bool_decide_eq_false_2 by lia. rewrite bool_decide_eq_false_2 by (destruct Hfile as (_ & ? & _); lia).
  destruct (extractFile_ok dir file total f Hfile) as (f1 & E & Hfs & Hd); [lia| |].
  { intros Hdir. destruct (Hcl file) as [? Hg]; [by left|done|]. split; [done|]. apply Hg. by left. }
  unfold st_bind. rewrite E.
  destruct (IH (n + 1) (total + zf_size file) f1) as (f' & -> & Hfs'); [done|lia|lia| |].
  - intros g Hg Hgd. destruct (Hcl g) as [Hn1 Hn2]; [by right|done|]. split.
    + rewrite Hd. assert (entry_dir dir file ≠ zf_target dir g) by (apply Hn2; by left). set_solver.
    + intros g' Hg'. apply Hn2. by right.
  - exists f'. split; [done|]. by rewrite Hfs', Hfs.
Qed.

(** ** Theorems *)

(** C38.  Unpacking is confined and bounded.  Whatever the archive claims and
    whichever calls fail, and also when the unpacking is refused: no file
    outside the target directory changes, at most 1000 files are new, and at
    most 100 MiB are written. *)
Theorem extractZIP_confined read data dir f r f' :
  is_rooted dir = true → path_comps dir ≠ [] →
  extractZIP read data dir f = (r, f') →
  (∀ path, fs_files f' !! path ≠ fs_files f !! path → under dir path)
  ∧ (size (dom (fs_files f')) ≤ size (dom (fs_files f)) + 1000)%nat
  ∧ fs_written f ≤ fs_written f' ≤ fs_written f + maxSize.
Proof.
  intros Hr Hne. unfold extractZIP, st_bind, st_lift.
  destruct (wrap_err _ (read data)) as [files|e|w]; [|intros [= <- <-]; unfold maxSize; split_and!; [done|lia..]..].
  intros H. apply extract_loop_frame in H as [(H1 & H2 & H3) H4]; [|done|done|unfold maxFiles; lia|unfold maxSize; lia].
  split_and!; [done|exact H2|done|lia].
Qed.

(** C39.  Unpacking a sound package.  If the entries resolve inside the target
    directory, stay within the limits and do not clash with directories, the
    package is unpacked and the files are exactly its files, a later entry
    winning over an earlier one of the same name. *)
Theorem extractZIP_writes_package read data dir files f :
  read data = Ok files → Forall (entry_ok dir) files → Z.of_nat (length files) ≤ maxFiles →
  foldr (λ g a, zf_size g + a) 0 files ≤ maxSize → no_clash dir files (fs_dirs f) →
  (extractZIP read data dir f).1 = Ok tt
  ∧ fs_files (extractZIP read data dir f).2 = foldl (put_entry dir) (fs_files f) files.
Proof.
  intros Hread Hok Hn Ht Hcl. unfold extractZIP, st_bind, st_lift. rewrite Hread. cbn [wrap_err].
  destruct (extract_loop_ok dir files 0 0 f Hok) as (f' & -> & Hf); [lia|lia|done|]. by split.
Qed.

(** Two files, one in a subdirectory that climbs and comes back. *)
Definition demo_zip : list ZipFile :=
  [mkZipFile "index.js" 3 false None ["a"; "bc"] None None None None None;
   mkZipFile "lib/../util.js" 1 false None ["x"] None None None None None].
Definition demo_fs : FS := mkFS {["/work/f1"]} ∅ 0.

Lemma extractZIP_confined_witness :
  (size (dom (fs_files (extractZIP (λ _, Ok demo_zip) "zip" "/work/f1" demo_fs).2)) ≤ 1000)%nat.
Proof.
  destruct (extractZIP_confined (λ _, Ok demo_zip) "zip" "/work/f1" demo_fs _ _ ltac:(reflexivity)
    ltac:(discriminate) (surjective_pairing _)) as (_ & H & _).
  exact H.
Defined.

Lemma demo_zip_ok : Forall (entry_ok "/work/f1") demo_zip.
Proof. repeat constructor; vm_compute; done. Qed.

Lemma demo_zip_no_clash : no_clash "/work/f1" demo_zip (fs_dirs demo_fs).
Proof.
  intros file Hf _. split.
  - change (fs_dirs demo_fs) with ({["/work/f1"]} : gset string). rewrite elem_of_singleton.
    repeat (apply elem_of_cons in Hf as [->|Hf]; [vm_compute; congruence|]). by inversion Hf.
  - intros g Hg.
    repeat (apply elem_of_cons in Hf as [->|Hf]; [|]); [..|by inversion Hf];
      (repeat (apply elem_of_cons in Hg as [->|Hg]; [vm_compute; congruence|])); by inversion Hg.
Qed.

Lemma extractZIP_writes_package_witness :
  fs_files (extractZIP (λ _, Ok demo_zip) "zip" "/work/f1" demo_fs).2 !! "/work/f1/index.js" = Some "abc".
Proof.
  rewrite (proj2 (extractZIP_writes_package (λ _, Ok demo_zip) "zip" "/work/f1" demo_zip demo_fs eq_refl
    demo_zip_ok ltac:(discriminate) ltac:(discriminate) demo_zip_no_clash)).
  vm_compute. reflexivity.
Defined.
