(* ===== verification/BuildQueue.v ===== *)
(** * Build queue (build-service internal/queue/rabbitmq.go, backpressure.go)

    [Publisher] and [Consumer] keep a RabbitMQ connection alive: when it drops
    they redial with the jitter backoff.  The broker is seen through the set of
    open connections, [Net]; what one dial attempt meets is an [Attempt], what
    one turn of [Consume] meets a [Round].  A loop that is still trying when
    its attempts run out gives [None].  [BackpressureManager] turns the depth
    of the queue into an admission decision. *)

From Stdlib Require Import ZArith Lia.
From stdpp Require Import base strings gmap list numbers pretty.
From S2P Require Import Prelude.
From S2P Require Import Backoff.
Open Scope Z_scope.

(** ** Connections *)

Record Net := mkNet { net_next : nat; net_open : gset nat }.

Definition net_dial (n : Net) : nat * Net :=
  (net_next n, mkNet (S (net_next n)) ({[net_next n]} ∪ net_open n)).
(** Closing a connection, by either side; a closed one stays closed. *)
Definition net_close (c : nat) (n : Net) : Net := mkNet (net_next n) (net_open n ∖ {[c]}).

(** Identifiers are used in order. *)
Definition net_wf (n : Net) : Prop := ∀ c, c ∈ net_open n → (c < net_next n)%nat.

(** One turn of a redial loop: whether the context is done, the errors of
    dialing, of opening a channel and of setting it up, the two random sources
    of the backoff, and whether the context ends during the sleep. *)
Record Attempt := mkAttempt {
  at_ctx_done : bool;
  at_dial_err : option error;
  at_channel_err : option error;
  at_setup_err : option error;
  at_own : Z → Z;
  at_global : Z → Z;
  at_sleep_ctx : bool
}.

(** Dial and open a channel, and set it up when [setup]; what was opened is
    closed on failure. *)
Definition try_dial (setup : bool) (a : Attempt) (n : Net) : option nat * Net :=
  match at_dial_err a with
  | Some _ => (None, n)
  | None =>
      let '(c, n) := net_dial n in
      match at_channel_err a with
      | Some _ => (None, net_close c n)
      | None =>
          match (if setup then at_setup_err a else None) with
          | Some _ => (None, net_close c n)
          | None => (Some c, n)
          end
      end
  end.

(** How a redial loop ends. *)
Inductive DialEnd := Connected (c : nat) | Stopped | DialPanic (why : string).

(** The loop, with the backoff state and the sleeps taken. *)
Fixpoint dial_loop (setup : bool) (attempts : list Attempt) (b : Backoff) (n : Net)
    : option DialEnd * Backoff * Net * list Z :=
  match attempts with
  | [] => (None, b, n, [])
  | a :: rest =>
      if at_ctx_done a then (Some Stopped, b, n, [])
      else
        match try_dial setup a n with
        | (Some c, n) => (Some (Connected c), b, n, [])
        | (None, n) =>
            match Backoff_Next (at_own a) (at_global a) b with
            | (Ok d, b) =>
                if at_sleep_ctx a then (Some Stopped, b, n, [d])
                else
                  let '(r, b, n, ds) := dial_loop setup rest b n in (r, b, n, d :: ds)
            | (Panic w, b) => (Some (DialPanic w), b, n, [])
            | (Err e, b) => (Some (DialPanic (error_Error e)), b, n, [])
            end
        end
  end.

(** ** Publisher *)

Record Publisher := mkPublisher { pb_conn : nat; pb_backoff : Backoff }.

Definition NewPublisher (dial_err channel_err : option error) (n : Net) : outcome Publisher * Net :=
  match dial_err with
  | Some e => (Err (Wrap "failed to connect to RabbitMQ" e), n)
  | None =>
      let '(c, n) := net_dial n in
      match channel_err with
      | Some e => (Err (Wrap "failed to open channel" e), net_close c n)
      | None => (Ok (mkPublisher c NewBackoff), n)
      end
  end.

(** [redial]: the new publisher, or [None] in the inner option when the loop
    stopped or is still trying. *)
Definition redial (attempts : list Attempt) (p : Publisher) (n : Net)
    : option DialEnd * Publisher * Net * list Z :=
  let '(r, b, n, ds) := dial_loop false attempts (pb_backoff p) n in
  match r with
  | Some (Connected c) => (r, mkPublisher c (Backoff_Reset b), n, ds)
  | _ => (r, mkPublisher (pb_conn p) b, n, ds)
  end.

(** A queue of the broker: its messages, oldest first. *)
Abbreviation Queues := (gmap string (list string)).

(** [DeclareQueue] creates the queue if it is not there. *)
Definition queue_declare (err : option error) (live : bool) (name : string) : St Queues unit := λ q,
  match err with
  | Some e => (Err e, q)
  | None =>
      if live then (Ok tt, match q !! name with Some _ => q | None => <[name := []]> q end)
      else (Err (NewError "channel/connection is not open"), q)
  end.

(** A message to the default exchange goes to the queue its key names, if
    there is one. *)
Definition queue_publish (err : option error) (live : bool) (name body : string) : St Queues unit := λ q,
  match err with
  | Some e => (Err e, q)
  | None =>
      if live then
        (Ok tt, match q !! name with Some ms => <[name := ms ++ [body]]> q | None => q end)
      else (Err (NewError "channel/connection is not open"), q)
  end.

Section Publish.
Open Scope golang_scope.
(** [Publish] of a message whose JSON is [body]; [live] says whether the
    current connection is open. *)
Definition Publisher_Publish (decl_err pub_err : option error) (live : bool) (queueName : string)
    (body : outcome string) : St Queues unit :=
  st_wrap "failed to declare queue" (queue_declare decl_err live queueName) ;;!
  body <-! st_lift (wrap_err "failed to marshal message" body) ;;
  st_wrap "failed to publish message" (queue_publish pub_err live queueName body).
End Publish.

Definition Publisher_Close (p : Publisher) (n : Net) : Net := net_close (pb_conn p) n.

(** ** Consumer *)

Record Consumer := mkConsumer { cn_conn : nat; cn_backoff : Backoff }.

Definition NewConsumer (dial_err channel_err qos_err : option error) (n : Net) : outcome Consumer * Net :=
  match dial_err with
  | Some e => (Err (Wrap "failed to connect to RabbitMQ" e), n)
  | None =>
      let '(c, n) := net_dial n in
      match channel_err, qos_err with
      | Some e, _ => (Err (Wrap "failed to open channel" e), net_close c n)
      | None, Some e => (Err (Wrap "failed to set QoS" e), net_close c n)
      | None, None => (Ok (mkConsumer c NewBackoff), n)
      end
  end.

(** [reconnect]; the backoff is not reset here. *)
Definition Consumer_reconnect (attempts : list Attempt) (c : Consumer) (n : Net)
    : option DialEnd * Consumer * Net * list Z :=
  let n := net_close (cn_conn c) n in
  let '(r, b, n, ds) := dial_loop true attempts (cn_backoff c) n in
  match r with
  | Some (Connected k) => (r, mkConsumer k b, n, ds)
  | _ => (r, mkConsumer (cn_conn c) b, n, ds)
  end.

(** [startConsuming]: it fails on a closed connection, and otherwise with the
    errors of the two requests. *)
Definition startConsuming (decl_err consume_err : option error) (c : Consumer) (n : Net) : outcome unit :=
  if bool_decide (cn_conn c ∈ net_open n) then
    match decl_err, consume_err with
    | Some e, _ => Err (Wrap "failed to declare queue" e)
    | None, Some e => Err (Wrap "failed to register consumer" e)
    | None, None => Ok tt
    end
  else Err (Wrap "failed to declare queue" (NewError "channel/connection is not open")).

(** [msg.Ack(false)] or [msg.Nack(false, false)]. *)
Inductive Verdict := VAck | VNack.

Section Consume.
Context {W : Type} (handler : string → St W unit).

(** The messages delivered before the loop of [processMessages] ends, each
    handled and answered in turn. *)
Fixpoint processMessages (msgs : list string) (w : W) : outcome (list (string * Verdict)) * W :=
  match msgs with
  | [] => (Ok [], w)
  | m :: rest =>
      match handler m w with
      | (Panic why, w) => (Panic why, w)
      | (r, w) =>
          let v := match r with Ok _ => VAck | _ => VNack end in
          let '(l, w) := processMessages rest w in
          (match l with Ok l => Ok ((m, v) :: l) | other => other end, w)
      end
  end.

(** One turn of [Consume]: the context at its start, whether the connection
    has dropped by then, the errors of [startConsuming], the turn of its
    backoff, the messages delivered, the context after them, and the attempts
    of the reconnect. *)
Record Round := mkRound {
  rd_ctx : bool;
  rd_drop : bool;
  rd_decl_err : option error;
  rd_consume_err : option error;
  rd_sleep : Attempt;
  rd_msgs : list string;
  rd_ctx_after : bool;
  rd_attempts : list Attempt
}.

(** [Consume]: [Some] when it returns or panics, with the answers given. *)
Fixpoint Consume (rounds : list Round) (c : Consumer) (n : Net) (w : W)
    : option (outcome unit) * Consumer * Net * W * list (string * Verdict) :=
  match rounds with
  | [] => (None, c, n, w, [])
  | rd :: rest =>
      if rd_ctx rd then (Some (Ok tt), c, n, w, [])
      else
        let n := if rd_drop rd then net_close (cn_conn c) n else n in
        match startConsuming (rd_decl_err rd) (rd_consume_err rd) c n with
        | Err _ | Panic _ =>
            match Backoff_Next (at_own (rd_sleep rd)) (at_global (rd_sleep rd)) (cn_backoff c) with
            | (Ok _, b) =>
                let c := mkConsumer (cn_conn c) b in
                if at_sleep_ctx (rd_sleep rd) then (Some (Ok tt), c, n, w, [])
                else Consume rest c n w
            | (Err e, b) => (Some (Err e), mkConsumer (cn_conn c) b, n, w, [])
            | (Panic why, b) => (Some (Panic why), mkConsumer (cn_conn c) b, n, w, [])
            end
        | Ok _ =>
            let c := mkConsumer (cn_conn c) (Backoff_Reset (cn_backoff c)) in
            match processMessages (rd_msgs rd) w with
            | (Ok answers, w) =>
                if rd_ctx_after rd then (Some (Ok tt), c, n, w, answers)
                else
                  let '(r, c, n, _) := Consumer_reconnect (rd_attempts rd) c n in
                  match r with
                  | Some (Connected _) =>
                      let '(res, c, n, w, more) := Consume rest c n w in
                      (res, c, n, w, answers ++ more)
                  | Some Stopped => (Some (Ok tt), c, n, w, answers)
                  | Some (DialPanic why) => (Some (Panic why), c, n, w, answers)
                  | None => (None, c, n, w, answers)
                  end
            | (Err e, w) => (Some (Err e), c, n, w, [])
            | (Panic why, w) => (Some (Panic why), c, n, w, [])
            end
        end
  end.
End Consume.

Definition Consumer_Close (c : Consumer) (n : Net) : Net := net_close (cn_conn c) n.

(** ** Backpressure *)

Definition MaxQueueDepth : Z := 100.
Definition QueueDepthWarning : Z := 50.
Definition QueueDepthCritical : Z := 80.

Inductive BackpressureLevel :=
  BackpressureNone | BackpressureWarning | BackpressureCritical | BackpressureFull.

Record thresholdInfo := mkThreshold {
  th_val : Z;
  th_label : string;
  th_logMsg : string;
  th_userMsg : string;
  th_level : BackpressureLevel
}.

Definition backpressureThresholds : list thresholdInfo := [
  mkThreshold MaxQueueDepth "queue_full" "full" "at capacity" BackpressureFull;
  mkThreshold QueueDepthCritical "queue_critical" "at critical level" "at critical level"
    BackpressureCritical;
  mkThreshold QueueDepthWarning "queue_warning" "at warning level" "at warning level"
    BackpressureWarning].

(** What the passive declaration sees: the error of opening a channel on the
    provider's current connection, which must be open, and of the request. *)
Record DepthEnv := mkDepthEnv {
  de_live : bool;
  de_channel_err : option error;
  de_declare_err : option error
}.

(** A passive declaration of a queue that does not exist is an error. *)
Definition GetQueueDepth (e : DepthEnv) (queueName : string) (q : Queues) : outcome Z :=
  if negb (de_live e) then Err (NewError "channel/connection is not open")
  else
    match de_channel_err e, de_declare_err e, q !! queueName with
    | Some err, _, _ => Err err
    | None, Some err, _ => Err err
    | None, None, None => Err (NewError "Exception (404) Reason: NOT_FOUND")
    | None, None, Some ms => Ok (Z.of_nat (length ms))
    end.

Definition first_threshold (depth : Z) : option thresholdInfo :=
  List.find (λ t, bool_decide (th_val t ≤ depth)) backpressureThresholds.

Definition reject_message (t : thresholdInfo) (depth : Z) : string :=
  "Queue " +:+ th_userMsg t +:+ " (" +:+ pretty depth +:+ "/" +:+ pretty MaxQueueDepth
  +:+ "). Please retry later.".

(** The answer and its reason; the state is the rejection counter, by service
    and label. *)
Definition CanAcceptRequest (e : DepthEnv) (queueName : string) (q : Queues)
    : St (list (string * string)) (bool * string) := λ rejections,
  match GetQueueDepth e queueName q with
  | Ok depth =>
      match first_threshold depth with
      | Some t => (Ok (false, reject_message t depth), ("build-service", th_label t) :: rejections)
      | None => (Ok (true, ""), rejections)
      end
  | Err err => (Err err, rejections)
  | Panic w => (Panic w, rejections)
  end.

Definition GetBackpressureLevel (e : DepthEnv) (queueName : string) (q : Queues)
    : outcome (BackpressureLevel * Z) :=
  match GetQueueDepth e queueName q with
  | Ok depth => Ok (match first_threshold depth with
                    | Some t => (th_level t, depth)
                    | None => (BackpressureNone, depth)
                    end)
  | Err err => Err err
  | Panic w => Panic w
  end.

(** [MonitorQueueDepth]: the values of the gauge and the warnings of a run of
    ticks.  The context is not looked at. *)
Fixpoint MonitorQueueDepth (queueName : string) (ticks : list (DepthEnv * Queues)) : list Z * list (string * Z) :=
  match ticks with
  | [] => ([], [])
  | (e, q) :: rest =>
      let '(gauge, warns) := MonitorQueueDepth queueName rest in
      match GetQueueDepth e queueName q with
      | Ok depth =>
          (depth :: gauge,
           match first_threshold depth with
           | Some t => ("Queue depth is " +:+ th_logMsg t, depth) :: warns
           | None => warns
           end)
      | _ => (gauge, warns)
      end
  end.

(** Minutes, at 1.5 builds a minute.  The quotient is a [float64] in the code,
    truncated; it is exact for the depths a queue can have. *)
Definition EstimateWaitTime (queueDepth : Z) : Z :=
  if bool_decide (queueDepth < 0) then 0 else Z.quot (2 * queueDepth) 3.

(** ** Lemmas: connections *)

Lemma net_dial_wf n : net_wf n → net_wf (net_dial n).2.
Proof. intros H c Hc. simpl in *. apply elem_of_union in Hc as [->%elem_of_singleton|Hc]; [lia|]. apply H in Hc. lia. Qed.

Lemma net_close_wf c n : net_wf n → net_wf (net_close c n).
Proof. intros H k Hk. simpl in *. apply H. set_solver. Qed.

(** A failed attempt leaves no connection open; a good one opens exactly the
    one it returns. *)
Lemma try_dial_open setup a n r n' : net_wf n → try_dial setup a n = (r, n') →
  net_wf n' ∧ (net_next n ≤ net_next n')%nat
  ∧ match r with
    | None => net_open n' = net_open n
    | Some c => net_open n' = {[c]} ∪ net_open n ∧ c ∉ net_open n
    end.
Proof.
  intros Hwf. unfold try_dial.
  assert (net_next n ∉ net_open n) as Hfresh by (intros H; apply Hwf in H; lia).
  assert (({[net_next n]} ∪ net_open n) ∖ {[net_next n]} = net_open n) as Hback by set_solver.
  destruct (at_dial_err a); [by intros [= <- <-]|]. pose proof (net_dial_wf n Hwf) as Hwf'.
  cbn [net_dial fst snd] in *. destruct (at_channel_err a).
  { intros [= <- <-]. split_and!; [by apply net_close_wf|simpl; lia|done]. }
  destruct (if setup then at_setup_err a else None); intros [= <- <-].
  - split_and!; [by apply net_close_wf|simpl; lia|done].
  - split_and!; [done|simpl; lia|done|done].
Qed.

Lemma dial_loop_open setup attempts b n r b' n' ds :
  net_wf n → dial_loop setup attempts b n = (r, b', n', ds) →
  net_wf n' ∧ match r with
              | Some (Connected c) => net_open n' = {[c]} ∪ net_open n
              | _ => net_open n' = net_open n
              end.
Proof.
  revert b n r b' n' ds. induction attempts as [|a rest IH]; intros b n r b' n' ds Hwf; cbn [dial_loop].
  { by intros [= <- <- <- <-]. }
  destruct (at_ctx_done a); [by intros [= <- <- <- <-]|].
  destruct (try_dial setup a n) as [[c|] n1] eqn:Ht;
    destruct (try_dial_open _ _ _ _ _ Hwf Ht) as (Hwf1 & _ & Ho).
  { destruct Ho as [Ho _]. by intros [= <- <- <- <-]. }
  destruct (Backoff_Next _ _ b) as [[d|e|w] b1]; [|by intros [= <- <- <- <-]..].
  destruct (at_sleep_ctx a); [by intros [= <- <- <- <-]|].
  destruct (dial_loop setup rest b1 n1) as [[[r1 b2] n2] ds1] eqn:Hl.
  intros [= <- <- <- <-]. destruct (IH _ _ _ _ _ _ Hwf1 Hl) as [? Hl']. by rewrite Ho in Hl'.
Qed.

(** An attempt that succeeds, and one that does not stop the loop. *)
Definition good_attempt (setup : bool) (a : Attempt) : Prop :=
  at_ctx_done a = false ∧ at_dial_err a = None ∧ at_channel_err a = None
  ∧ (setup = true → at_setup_err a = None).
Definition quiet_attempt (a : Attempt) : Prop := at_ctx_done a = false ∧ at_sleep_ctx a = false.

(** The range of a backoff's sleeps. *)
Definition sleep_ok (b : Backoff) (d : Z) : Prop := eff_base b ≤ d ≤ Z.max (eff_base b) (eff_cap b).

Lemma Backoff_Next_sleep own global b :
  ∃ d b', Backoff_Next own global b = (Ok d, b') ∧ sleep_ok b d
    ∧ eff_base b' = eff_base b ∧ eff_cap b' = eff_cap b.
Proof.
  destruct (Backoff_Next_clamp own global b) as (s & -> & _). do 2 eexists. split; [done|].
  pose proof (clamp_bounds (eff_base b) (eff_cap b) s). unfold sleep_ok. split; [lia|done].
Qed.

Lemma try_dial_good setup a n : good_attempt setup a →
  try_dial setup a n = (Some (net_next n), (net_dial n).2).
Proof.
  intros (_ & Hd & Hc & Hs). unfold try_dial. rewrite Hd, Hc. simpl.
  destruct setup; [by rewrite Hs|done].
Qed.

Lemma dial_loop_connects setup pre a post b n :
  Forall quiet_attempt pre → good_attempt setup a →
  ∃ c b' n' ds, dial_loop setup (pre ++ a :: post) b n = (Some (Connected c), b', n', ds)
    ∧ (length ds ≤ length pre)%nat ∧ Forall (sleep_ok b) ds ∧ c ∈ net_open n'
    ∧ Base b' = Base b ∧ Cap b' = Cap b.
Proof.
  intros Hpre Ha. revert b n. induction Hpre as [|x pre [Hx1 Hx2] Hpre IH]; intros b n; simpl.
  { destruct Ha as [Hctx Ha]. rewrite Hctx. rewrite try_dial_good by done. simpl.
    exists (net_next n), b. do 2 eexists. split_and!; [done|simpl; lia|constructor|set_solver|done..]. }
  rewrite Hx1. destruct (try_dial setup x n) as [[c|] n1] eqn:Ht.
  { assert (c ∈ net_open n1) as Hin.
    { unfold try_dial, net_dial in Ht. repeat case_match; simplify_eq/=; set_solver. }
    exists c, b, n1, []. split_and!; [done|simpl; lia|constructor|done..]. }
  destruct (Backoff_Next_clamp (at_own x) (at_global x) b) as (s & -> & _). rewrite Hx2.
  set (b1 := mkBackoff _ _ _ _). pose proof (clamp_bounds (eff_base b) (eff_cap b) s) as Hcl.
  destruct (IH b1 n1) as (c & b' & n' & ds & -> & Hl & Hds & Hc & HB & HC).
  exists c, b', n'. eexists. split_and!; [done|simpl; lia| |done..].
  constructor; [unfold sleep_ok; lia|exact Hds].
Qed.

(** ** Lemmas: publishing *)

(** The messages of a queue; one that was never declared has none. *)
Definition messages (q : Queues) (name : string) : list string := default [] (q !! name).

(** A message is appended, or nothing is and there is an error. *)
Lemma Publisher_Publish_spec derr perr live name body q :
  (∃ q', Publisher_Publish derr perr live name (Ok body) q = (Ok tt, q')
     ∧ messages q' name = messages q name ++ [body] ∧ (∀ n, n ≠ name → messages q' n = messages q n)
     ∧ live = true ∧ derr = None ∧ perr = None)
  ∨ (∃ e q', Publisher_Publish derr perr live name (Ok body) q = (Err e, q')
     ∧ ∀ n, messages q' n = messages q n).
Proof.
  assert (∀ n, messages (match q !! name with Some _ => q | None => <[name:=[]]> q end) n = messages q n)
    as Hdecl.
  { intros n. unfold messages. destruct (q !! name) eqn:E; [done|].
    destruct (decide (n = name)) as [->|]; [simpl; by rewrite lookup_insert_eq, E|simpl; by rewrite lookup_insert_ne]. }
  unfold Publisher_Publish, st_bind, st_wrap, st_lift, queue_declare, queue_publish.
  destruct derr as [e|]; [right; by do 2 eexists|]. destruct live; [|right; by do 2 eexists]. simpl.
  destruct perr as [e|]; [right; by do 2 eexists|].
  left. set (q1 := match q !! name with Some _ => q | None => _ end) in *.
  assert (is_Some (q1 !! name)) as [ms Hms].
  { unfold q1. destruct (q !! name) eqn:E; [rewrite E|rewrite lookup_insert_eq]; eauto. }
  rewrite Hms. eexists. split_and!; [done| | |done..].
  - rewrite <- Hdecl. unfold messages. by rewrite lookup_insert_eq, Hms.
  - intros n Hn. rewrite <- Hdecl. unfold messages. by rewrite lookup_insert_ne.
Qed.

Lemma publish_ok name body q : ∃ q', Publisher_Publish None None true name (Ok body) q = (Ok tt, q').
Proof. by eexists. Qed.

(** What the admission check answers. *)
Lemma CanAcceptRequest_cases e name q rej :
  match CanAcceptRequest e name q rej with
  | (Ok (true, _), rej') => rej' = rej ∧ Z.of_nat (length (messages q name)) < QueueDepthWarning
  | (Ok (false, _), rej') => length rej' = S (length rej)
  | (Err _, rej') => rej' = rej
  | (Panic _, _) => False
  end.
Proof.
  unfold CanAcceptRequest, GetQueueDepth, messages. destruct (de_live e); [|done]. simpl.
  destruct (de_channel_err e), (de_declare_err e), (q !! name) as [ms|]; try done. simpl.
  unfold first_threshold, backpressureThresholds, MaxQueueDepth, QueueDepthCritical, QueueDepthWarning.
  simpl. repeat case_bool_decide; simpl; by auto with lia.
Qed.

(** ** Lemmas: the consumer's connection *)

Definition owns (c : Consumer) (n : Net) : Prop := net_wf n ∧ net_open n ⊆ {[cn_conn c]}.

Lemma owns_close c n : owns c n → net_open (net_close (cn_conn c) n) = ∅.
Proof. intros [_ H]. simpl. set_solver. Qed.

Lemma owns_drop c n : owns c n → owns c (net_close (cn_conn c) n).
Proof. intros [Hw H]. split; [by apply net_close_wf|]. simpl. set_solver. Qed.

Lemma Consumer_reconnect_owns attempts c n r c' n' ds :
  owns c n → Consumer_reconnect attempts c n = (r, c', n', ds) → owns c' n'.
Proof.
  intros Ho. pose proof (owns_close c n Ho) as He. unfold Consumer_reconnect.
  destruct (dial_loop _ _ _ _) as [[[r1 b] n1] ds1] eqn:Hl.
  destruct (dial_loop_open _ _ _ _ _ _ _ _ (net_close_wf _ _ (proj1 Ho)) Hl) as [Hw Hopen].
  rewrite He in Hopen.
  destruct r1 as [[k| |]|]; intros [= <- <- <- <-]; (split; [done|]); set_solver.
Qed.

Lemma Consume_owns {W} (handler : string → St W unit) rounds c n w r c' n' w' l :
  owns c n → Consume handler rounds c n w = (r, c', n', w', l) → owns c' n'.
Proof.
  revert c n w r c' n' w' l.
  induction rounds as [|rd rest IH]; intros c n w r c' n' w' l Ho; cbn [Consume].
  { by intros [= <- <- <- <- <-]. }
  destruct (rd_ctx rd); [by intros [= <- <- <- <- <-]|].
  assert (owns c (if rd_drop rd then net_close (cn_conn c) n else n)) as Ho1
    by (destruct (rd_drop rd); [by apply owns_drop|done]).
  set (n1 := if rd_drop rd then _ else _) in *. clearbody n1.
  assert (∀ b, owns (mkConsumer (cn_conn c) b) n1) as Hob by done.
  destruct (startConsuming _ _ _ _).
  2,3: destruct (Backoff_Next _ _ _) as [[d|e'|w1] b]; [|by intros [= <- <- <- <- <-]..];
    destruct (at_sleep_ctx _); [by intros [= <- <- <- <- <-]|]; by apply IH.
  destruct (processMessages _ _ _) as [[answers|e'|w1] w2]; [|by intros [= <- <- <- <- <-]..].
  destruct (rd_ctx_after rd); [by intros [= <- <- <- <- <-]|].
  destruct (Consumer_reconnect _ _ _) as [[[r1 c1] n2] ds] eqn:Hrec.
  apply (Consumer_reconnect_owns _ _ _ _ _ _ _ (Hob _)) in Hrec.
  destruct r1 as [[k| |w1]|]; [|by intros [= <- <- <- <- <-]..].
  destruct (Consume handler rest c1 n2 w2) as [[[[res c3] n3] w3] more] eqn:Hc.
  intros [= <- <- <- <- <-]. by apply IH in Hc.
Qed.

(** ** Theorems *)

(** Connections.  A consumer never has more than one connection open: not
    while it consumes, nor after any number of drops, failed attempts and
    reconnects, whatever each of them meets. *)
Theorem Consume_connections {W} (handler : string → St W unit) derr cerr qerr c rounds w r c' n' w' l :
  let '(made, n) := NewConsumer derr cerr qerr (mkNet 0 ∅) in
  made = Ok c → Consume handler rounds c n w = (r, c', n', w', l) →
  net_open n' ⊆ {[cn_conn c']}.
Proof.
  unfold NewConsumer. destruct derr; [done|]. cbn [net_dial]. destruct cerr; [done|]. destruct qerr; [done|].
  intros [= <-] H. apply Consume_owns in H; [apply H|]. split; [|simpl; set_solver].
  intros k Hk. simpl in *. set_solver by lia.
Qed.

(** C40.  Reconnecting.  If an attempt can succeed and nothing stops the
    publisher before it, the redial loop ends with an open connection after at
    most one sleep per earlier attempt; each sleep lies between 500 ms and
    30 s, and the backoff starts afresh. *)
Theorem redial_connects pre a post p n :
  Base (pb_backoff p) = DefaultBackoffBase → Cap (pb_backoff p) = DefaultBackoffCap →
  Forall quiet_attempt pre → good_attempt false a →
  ∃ c p' n' ds, redial (pre ++ a :: post) p n = (Some (Connected c), p', n', ds)
    ∧ pb_conn p' = c ∧ c ∈ net_open n' ∧ (length ds ≤ length pre)%nat
    ∧ Forall (λ d, 500 * Millisecond ≤ d ≤ 30 * Second) ds ∧ prev (pb_backoff p') = 0.
Proof.
  intros HB HC Hpre Ha. unfold redial.
  destruct (dial_loop_connects false pre a post (pb_backoff p) n Hpre Ha)
    as (c & b' & n' & ds & -> & Hl & Hds & Hc & _).
  exists c. do 3 eexists. split_and!; [done|done|done|done| |done].
  eapply Forall_impl; [exact Hds|]. intros d. unfold sleep_ok, eff_base, eff_cap. rewrite HB, HC.
  unfold DefaultBackoffBase, DefaultBackoffCap, Millisecond, Second.
  repeat case_bool_decide; lia.
Qed.

(** A consumer that does not recover.  When the connection is down as a
    turn of [Consume] begins, which is so if it drops before the consumer is
    registered again, [Consume] retries on the dead connection: however long
    it runs and however well dialing would do, it never dials and no message
    is delivered; it only ends when the consumer is closed. *)
Theorem Consume_dead_connection {W} (handler : string → St W unit) rounds c n w r c' n' w' l :
  cn_conn c ∉ net_open n → Consume handler rounds c n w = (r, c', n', w', l) →
  (r = None ∨ r = Some (Ok tt)) ∧ cn_conn c' = cn_conn c ∧ net_open n' = net_open n
  ∧ net_next n' = net_next n ∧ w' = w ∧ l = []
  ∧ (Forall (λ rd, rd_ctx rd = false ∧ at_sleep_ctx (rd_sleep rd) = false) rounds → r = None).
Proof.
  revert c n r c' n' w' l.
  induction rounds as [|rd rest IH]; intros c n r c' n' w' l Hdead; cbn [Consume].
  { intros [= <- <- <- <- <-]. by split_and!; [left|..]. }
  destruct (rd_ctx rd) eqn:Hctx.
  { intros [= <- <- <- <- <-]. split_and!; [by right|done..|].
    intros Hall. inversion Hall as [|? ? [? _]]. congruence. }
  set (n1 := if rd_drop rd then _ else _).
  assert (net_open n1 = net_open n ∧ net_next n1 = net_next n) as [Ho Hn].
  { unfold n1. destruct (rd_drop rd); [|done]. simpl. split; [set_solver|done]. }
  clearbody n1. unfold startConsuming. rewrite bool_decide_eq_false_2 by by rewrite Ho.
  destruct (Backoff_Next_sleep (at_own (rd_sleep rd)) (at_global (rd_sleep rd)) (cn_backoff c))
    as (d & b & -> & _).
  destruct (at_sleep_ctx (rd_sleep rd)) eqn:Hs.
  { intros [= <- <- <- <- <-]. split_and!; [by right|done..|].
    intros Hall. inversion Hall as [|? ? [_ ?]]. congruence. }
  intros H. apply IH in H as (H1 & H2 & H3 & H4 & H5 & H6 & H7); [|simpl; by rewrite Ho].
  rewrite Ho in H3. rewrite Hn in H4. split_and!; [done..|].
  intros Hall. inversion Hall. by apply H7.
Qed.

(** Admission.  A build request is accepted exactly when the queue can be
    read and holds fewer than 50 jobs; a refusal counts one rejection, and a
    queue that nobody has declared yet is an error. *)
Theorem CanAcceptRequest_iff e name q rej :
  match CanAcceptRequest e name q rej with
  | (Ok (true, _), rej') =>
      rej' = rej ∧ ∃ ms, q !! name = Some ms ∧ Z.of_nat (length ms) < QueueDepthWarning
  | (Ok (false, _), rej') =>
      length rej' = S (length rej)
      ∧ ∃ ms, q !! name = Some ms ∧ QueueDepthWarning ≤ Z.of_nat (length ms)
  | (Err _, rej') =>
      rej' = rej ∧ (de_live e = true → de_channel_err e = None → de_declare_err e = None →
                    q !! name = None)
  | (Panic _, _) => False
  end.
Proof.
  unfold CanAcceptRequest, GetQueueDepth.
  destruct (de_live e); simpl; [|by split]. destruct (de_channel_err e); [by split|].
  destruct (de_declare_err e); [by split|].
  destruct (q !! name) as [ms|]; [|by split].
  unfold first_threshold, backpressureThresholds, MaxQueueDepth, QueueDepthCritical, QueueDepthWarning.
  simpl. repeat case_bool_decide; simpl; (split; [done|]); exists ms; (split; [done|]); lia.
Qed.

(** One drop, a failed dial, then a good one. *)
Definition demo_bad : Attempt :=
  mkAttempt false (Some (NewError "connection refused")) None None (λ _, 0) (λ _, 0) false.
Definition demo_good : Attempt := mkAttempt false None None None (λ _, 0) (λ _, 0) false.
Definition demo_round : Round := mkRound false false None None demo_good ["job"] false [demo_bad; demo_good].
Definition demo_handler : string → St nat unit := λ _ k, (Ok tt, S k).

Lemma Consume_connections_witness :
  let '(_, c', n', _, _) := Consume demo_handler [demo_round] (mkConsumer 0 NewBackoff)
                              (mkNet 1 ({[0%nat]} ∪ ∅)) 0%nat in
  net_open n' ⊆ {[cn_conn c']}.
Proof.
  destruct (Consume demo_handler [demo_round] (mkConsumer 0 NewBackoff) _ _) as [[[[r c'] n'] w'] l] eqn:E.
  exact (Consume_connections demo_handler None None None (mkConsumer 0 NewBackoff) [demo_round] 0%nat
    r c' n' w' l eq_refl E).
Defined.

Lemma redial_connects_witness :
  ∃ c p' n' ds, redial [demo_bad; demo_good] (mkPublisher 0 NewBackoff) (mkNet 1 ∅)
    = (Some (Connected c), p', n', ds) ∧ c ∈ net_open n'.
Proof.
  destruct (redial_connects [demo_bad] demo_good [] (mkPublisher 0 NewBackoff) (mkNet 1 ∅) eq_refl eq_refl)
    as (c & p' & n' & ds & H & _ & Hc & _).
  - repeat constructor.
  - repeat split.
  - exists c, p', n', ds. exact (conj H Hc).
Defined.

Lemma Consume_dead_connection_witness :
  (Consume demo_handler [demo_round; demo_round] (mkConsumer 0 NewBackoff) (mkNet 1 ∅) 0%nat).2 = [].
Proof.
  destruct (Consume demo_handler _ _ _ _) as [[[[r c'] n'] w'] l] eqn:E.
  destruct (Consume_dead_connection demo_handler [demo_round; demo_round] (mkConsumer 0 NewBackoff)
    (mkNet 1 ∅) 0%nat r c' n' w' l ltac:(apply not_elem_of_empty) E) as (_ & _ & _ & _ & _ & H & _).
  exact H.
Defined.
