(* ===== verification/Notifier.v ===== *)
(** * Build notifications (build-service internal/builder/webhook.go)

    [WebhookNotifier] posts build statuses to a client's URL after checking
    that the URL does not lead into the private network.  Addresses are byte
    lists, as [net.IP]; parsing a URL, resolving a name and the HTTP exchange
    are what one call meets, a [NotifyEnv]. *)

From Stdlib Require Import ZArith Lia.
From stdpp Require Import base strings gmap list numbers.
From S2P Require Import Prelude.
Open Scope Z_scope.

(** ** Addresses (net.IP) *)

Definition IP : Type := list Z.

Definition v4InV6Prefix : list Z := [0; 0; 0; 0; 0; 0; 0; 0; 0; 0; 255; 255].

(** [ip.To4()]. *)
Definition To4 (ip : IP) : option (Z * Z * Z * Z) :=
  match ip with
  | [a; b; c; d] => Some (a, b, c, d)
  | _ =>
      if bool_decide (take 12 ip = v4InV6Prefix) then
        match drop 12 ip with
        | [a; b; c; d] => Some (a, b, c, d)
        | _ => None
        end
      else None
  end.

Definition byte_at (ip : IP) (k : nat) : Z := default 0 (ip !! k).
Definition is_v6 (ip : IP) : bool := bool_decide (length ip = 16%nat).

Definition IsLoopback (ip : IP) : bool :=
  match To4 ip with
  | Some (a, _, _, _) => bool_decide (a = 127)
  | None => bool_decide (ip = replicate 15 0 ++ [1])
  end.

Definition IsPrivate (ip : IP) : bool :=
  match To4 ip with
  | Some (a, b, _, _) =>
      bool_decide (a = 10)
      || (bool_decide (a = 172) && bool_decide (Z.land b 0xf0 = 16))
      || (bool_decide (a = 192) && bool_decide (b = 168))
  | None => is_v6 ip && bool_decide (Z.land (byte_at ip 0) 0xfe = 0xfc)
  end.

Definition IsLinkLocalMulticast (ip : IP) : bool :=
  match To4 ip with
  | Some (a, b, c, _) => bool_decide (a = 224) && bool_decide (b = 0) && bool_decide (c = 0)
  | None => is_v6 ip && bool_decide (byte_at ip 0 = 0xff) && bool_decide (Z.land (byte_at ip 1) 0x0f = 2)
  end.

Definition IsLinkLocalUnicast (ip : IP) : bool :=
  match To4 ip with
  | Some (a, b, _, _) => bool_decide (a = 169) && bool_decide (b = 254)
  | None => is_v6 ip && bool_decide (byte_at ip 0 = 0xfe) && bool_decide (Z.land (byte_at ip 1) 0xc0 = 0x80)
  end.

Definition isPrivateIP (ip : IP) : bool :=
  IsLoopback ip || IsPrivate ip || IsLinkLocalMulticast ip || IsLinkLocalUnicast ip.

(** ** The notifier *)

(** [BuildStatus]. *)
Definition BStatusQueued : string := "queued".
Definition BStatusBuilding : string := "building".
Definition BStatusCompleted : string := "completed".
Definition BStatusFailed : string := "failed".

Record WebhookPayload := mkPayload {
  wp_JobID : string;
  wp_Status : string;
  wp_Timestamp : Z;
  wp_Error : string;
  wp_UserID : string
}.

(** A request that was sent: its URL, the address the client connected to and
    the payload. *)
Record Sent := mkSent { sn_url : string; sn_addr : IP; sn_payload : WebhookPayload }.

(** One notification: the environment variable, the parsed URL (scheme and
    host name), the name's addresses when it is checked, the address the
    client then connects to (the client resolves the name itself), and the
    outcome of the exchange. *)
Record NotifyEnv := mkNotifyEnv {
  nv_allow_private : bool;
  nv_url : outcome (string * string);
  nv_lookup : outcome (list IP);
  nv_now : Z;
  nv_connect : IP;
  nv_marshal_err : option error;
  nv_request_err : option error;
  nv_do_err : option error;
  nv_status : Z
}.

Definition validateWebhookURL (e : NotifyEnv) : outcome unit :=
  if nv_allow_private e then Ok tt
  else
    outcome_bind (nv_url e) (λ '(scheme, _),
      if bool_decide (scheme ≠ "http") && bool_decide (scheme ≠ "https")
      then Err (NewError ("invalid scheme: " +:+ scheme))
      else
        outcome_bind (wrap_err "failed to resolve hostname" (nv_lookup e)) (λ ips,
          if existsb isPrivateIP ips then Err (NewError "webhook URL resolves to private IP")
          else Ok tt)).

Section Notify.
Open Scope golang_scope.

(** The requests sent so far are the state. *)
Definition Notify (e : NotifyEnv) (webhookURL jobID status errorMsg : string) : St (list Sent) unit :=
  if bool_decide (webhookURL = "") then st_ret tt
  else
    st_lift (wrap_err "invalid webhook URL" (validateWebhookURL e)) ;;!
    match nv_marshal_err e, nv_request_err e with
    | Some err, _ => st_fail (Wrap "failed to marshal webhook payload" err)
    | None, Some err => st_fail (Wrap "failed to create webhook request" err)
    | None, None =>
        match nv_do_err e with
        | Some err => st_fail (Wrap "failed to send webhook" err)
        | None =>
            st_modify (λ l, l ++ [mkSent webhookURL (nv_connect e)
                                   (mkPayload jobID status (nv_now e) errorMsg "")]) ;;!
            if bool_decide (nv_status e < 200) || bool_decide (300 ≤ nv_status e)
            then st_fail (NewError "webhook returned non-2xx status")
            else st_ret tt
        end
    end.

Definition NotifyQueued (e : NotifyEnv) (webhookURL jobID : string) : St (list Sent) unit :=
  Notify e webhookURL jobID BStatusQueued "".
Definition NotifyBuilding (e : NotifyEnv) (webhookURL jobID : string) : St (list Sent) unit :=
  Notify e webhookURL jobID BStatusBuilding "".
Definition NotifyCompleted (e : NotifyEnv) (webhookURL jobID : string) : St (list Sent) unit :=
  Notify e webhookURL jobID BStatusCompleted "".
Definition NotifyFailed (e : NotifyEnv) (webhookURL jobID errorMsg : string) : St (list Sent) unit :=
  Notify e webhookURL jobID BStatusFailed errorMsg.
End Notify.

(** ** Theorems *)

(** Private networks.  Without the override, a notification leaves only
    for an http or https URL none of whose checked addresses is a loopback,
    private or link-local one; and it is sent at most once.  The check says
    nothing of the address the request goes to: the client resolves the name
    again, and any address, 127.0.0.1 too, can be what it connects to. *)
Theorem Notify_private e url job status msg l r l' :
  nv_allow_private e = false → Notify e url job status msg l = (r, l') →
  (l' = l ∨ (∃ sent, l' = l ++ [sent] ∧ sn_url sent = url ∧ wp_JobID (sn_payload sent) = job)
    ∧ ∃ scheme host ips, nv_url e = Ok (scheme, host) ∧ scheme ∈ ["http"; "https"]
      ∧ nv_lookup e = Ok ips ∧ Forall (λ ip, isPrivateIP ip = false) ips)
  ∧ ∃ e' , nv_allow_private e' = false ∧ validateWebhookURL e' = Ok tt
      ∧ sn_addr <$> (Notify e' "http://example.com" job status msg []).2 = [[127; 0; 0; 1]].
Proof.
  intros Hp H. split.
  - unfold Notify in H. case_bool_decide; [injection H as <- <-; by left|].
    unfold st_bind at 1, st_lift in H. unfold validateWebhookURL in H. rewrite Hp in H.
    destruct (nv_url e) as [[scheme host]|?|?]; [|injection H as <- <-; by left..]. cbn [outcome_bind] in H.
    destruct (bool_decide (scheme ≠ "http") && bool_decide (scheme ≠ "https")) eqn:Hs;
      [injection H as <- <-; by left|].
    destruct (nv_lookup e) as [ips|?|?]; [|injection H as <- <-; by left..]. cbn [outcome_bind wrap_err] in H.
    destruct (existsb isPrivateIP ips) eqn:Hips; [injection H as <- <-; by left|]. cbn [wrap_err] in H.
    destruct (nv_marshal_err e); [injection H as <- <-; by left|].
    destruct (nv_request_err e); [injection H as <- <-; by left|].
    destruct (nv_do_err e); [injection H as <- <-; by left|].
    right. split.
    + unfold st_bind, st_modify in H. destruct (_ || _); injection H as <- <-; eauto.
    + exists scheme, host, ips. split_and!; [done| |done|].
      * apply andb_false_iff in Hs as [Hs|Hs]; bools; apply dec_stable in Hs; subst; set_solver.
      * apply Forall_forall. intros ip Hip. apply not_true_iff_false. intros Ht.
        apply not_true_iff_false in Hips. apply Hips, existsb_exists. exists ip.
        by split.
  - exists (mkNotifyEnv false (Ok ("http", "example.com")) (Ok [[93; 184; 216; 34]]) 0 [127; 0; 0; 1]
      None None None 200).
    split_and!; reflexivity.
Qed.

Lemma Notify_private_witness :
  (Notify (mkNotifyEnv false (Ok ("http", "h")) (Ok [[10; 0; 0; 1]]) 0 [10; 0; 0; 1] None None None 200)
     "http://h" "j" "queued" "" []).2 = [].
Proof.
  destruct (proj1 (Notify_private (mkNotifyEnv false (Ok ("http", "h")) (Ok [[10; 0; 0; 1]]) 0 [10; 0; 0; 1]
    None None None 200) "http://h" "j" "queued" "" [] _ _ eq_refl (surjective_pairing _))) as [H|[_ H]].
  - exact H.
  - destruct H as (? & ? & ips & _ & _ & Hl & Hf). injection Hl as <-. inversion Hf. discriminate.
Defined.
