(* ===== verification/BuildService.v ===== *)
(** * Build service (build-service cmd/master, cmd/worker, internal/builder/docker.go,
    internal/storage/s3.go, and shared/buildlog)

    The master turns a create request into a job on the build queue; the
    worker unpacks or builds the job, stores the artifacts, announces the
    function and writes the job's log.  Both run on one [World]: the bucket,
    the worker's files, the queues of the broker, the log streams, the
    notifications sent and the commands run.  What the outside answers to one
    call is an environment record. *)

From Stdlib Require Import ZArith Lia Ascii.
From stdpp Require Import base strings gmap list numbers.
From S2P Require Import Prelude.
From S2P Require Import Domain.
From S2P Require Import Http.
From S2P Require Import CodeStorage.
From S2P Require Import Crypto.
From S2P Require Import FilePath.
From S2P Require Import Zip.
From S2P Require Import BuildQueue.
From S2P Require Import Notifier.
From S2P Require Import Gateway.
Open Scope Z_scope.

(** ** Data *)

Record BuildJob := mkJob {
  bj_ID : string;
  bj_FunctionID : string;
  bj_Name : string;
  bj_Runtime : string;
  bj_Handler : string;
  bj_MemoryMB : Z;
  bj_TimeoutSecs : Z;
  bj_PackageURL : string;
  bj_RepoURL : string;
  bj_Dockerfile : string;
  bj_WebhookURL : string;
  bj_Status : string;
  bj_CreatedAt : Z;
  bj_StartedAt : option Z;
  bj_CompletedAt : option Z;
  bj_Error : string
}.

Record CreateFunctionRequest := mkCreateReq {
  cq_Name : string;
  cq_Runtime : string;
  cq_Handler : string;
  cq_PackageData : string;
  cq_RepoURL : string;
  cq_Dockerfile : string;
  cq_WebhookURL : string;
  cq_Timeout : Z;
  cq_Memory : Z
}.

Record BuildMetadata := mkMetadata {
  bm_FunctionID : string;
  bm_JobID : string;
  bm_CreatedAt : Z;
  bm_Runtime : string;
  bm_Name : string;
  bm_Hash : string
}.

(** encoding/json on a type of values: [json.Marshal] and [json.Unmarshal].
    A value with valid UTF-8 strings survives the round trip; others need not,
    so theorems ask it of the values they are about. *)
Class Json (A : Type) := {
  json_Marshal : A → string;
  json_Unmarshal : string → outcome A
}.

(** ** The world *)

Record World (B : Type) := mkWorld {
  ww_bucket : B;
  ww_fs : FS;
  ww_queues : Queues;
  ww_rejections : list (string * string);
  ww_logs : gmap string (list string);
  ww_ttl : gmap string Z;
  ww_hooks : list Sent;
  ww_cmds : list (string * list string)
}.
Arguments mkWorld {B} _ _ _ _ _ _ _ _.
Arguments ww_bucket {B} _.
Arguments ww_fs {B} _.
Arguments ww_queues {B} _.
Arguments ww_rejections {B} _.
Arguments ww_logs {B} _.
Arguments ww_ttl {B} _.
Arguments ww_hooks {B} _.
Arguments ww_cmds {B} _.

Section Lenses.
Context {B : Type}.
Definition on_bucket {A} (m : St B A) : St (World B) A := λ w,
  let '(r, x) := m (ww_bucket w) in
  (r, mkWorld x (ww_fs w) (ww_queues w) (ww_rejections w) (ww_logs w) (ww_ttl w) (ww_hooks w) (ww_cmds w)).
Definition on_fs {A} (m : St FS A) : St (World B) A := λ w,
  let '(r, x) := m (ww_fs w) in
  (r, mkWorld (ww_bucket w) x (ww_queues w) (ww_rejections w) (ww_logs w) (ww_ttl w) (ww_hooks w) (ww_cmds w)).
Definition on_queues {A} (m : St Queues A) : St (World B) A := λ w,
  let '(r, x) := m (ww_queues w) in
  (r, mkWorld (ww_bucket w) (ww_fs w) x (ww_rejections w) (ww_logs w) (ww_ttl w) (ww_hooks w) (ww_cmds w)).
Definition on_rejections {A} (m : St (list (string * string)) A) : St (World B) A := λ w,
  let '(r, x) := m (ww_rejections w) in
  (r, mkWorld (ww_bucket w) (ww_fs w) (ww_queues w) x (ww_logs w) (ww_ttl w) (ww_hooks w) (ww_cmds w)).
Definition on_hooks {A} (m : St (list Sent) A) : St (World B) A := λ w,
  let '(r, x) := m (ww_hooks w) in
  (r, mkWorld (ww_bucket w) (ww_fs w) (ww_queues w) (ww_rejections w) (ww_logs w) (ww_ttl w) x (ww_cmds w)).
Definition set_logs (l : gmap string (list string)) (w : World B) : World B :=
  mkWorld (ww_bucket w) (ww_fs w) (ww_queues w) (ww_rejections w) l (ww_ttl w) (ww_hooks w) (ww_cmds w).
Definition set_ttl (t : gmap string Z) (w : World B) : World B :=
  mkWorld (ww_bucket w) (ww_fs w) (ww_queues w) (ww_rejections w) (ww_logs w) t (ww_hooks w) (ww_cmds w).
Definition add_cmd (c : string * list string) (w : World B) : World B :=
  mkWorld (ww_bucket w) (ww_fs w) (ww_queues w) (ww_rejections w) (ww_logs w) (ww_ttl w) (ww_hooks w)
    (ww_cmds w ++ [c]).
End Lenses.

(** ** Build logs (shared/buildlog) *)

Definition maxLen : nat := 1000.

(** XADD with an approximate MAXLEN: the server may drop old entries, as many
    as [trim] says, but keeps the newest [maxLen]. *)
Definition xadd (trim : list string → nat) (line : string) (l : list string) : list string :=
  let l := l ++ [line] in drop (Nat.min (trim l) (length l - maxLen)) l.

(** What Redis answers during one job. *)
Record LogEnv := mkLogEnv {
  lv_append_err : string → option error;
  lv_expire_err : option error;
  lv_trim : list string → nat
}.

Section Logs.
Context {B : Type} (e : LogEnv).

Definition buildlog_Append (jobID line : string) : St (World B) unit := λ w,
  match lv_append_err e line with
  | Some err => (Err err, w)
  | None =>
      let k := StreamKey jobID in
      (Ok tt, set_logs (<[k := xadd (lv_trim e) line (default [] (ww_logs w !! k))]> (ww_logs w)) w)
  end.

(** EXPIRE does nothing on a missing key. *)
Definition buildlog_Expire (jobID : string) (ttl : Z) : St (World B) unit := λ w,
  match lv_expire_err e with
  | Some err => (Err err, w)
  | None =>
      let k := StreamKey jobID in
      (Ok tt, match ww_logs w !! k with
              | Some _ => set_ttl (<[k := ttl]> (ww_ttl w)) w
              | None => w
              end)
  end.

Definition buildLogTTL : Z := 4 * Hour.

(** Errors are logged and dropped. *)
Definition streamBuildLog (jobID message : string) : St (World B) unit :=
  st_ignore (buildlog_Append jobID message).
Definition expireBuildLog (jobID : string) : St (World B) unit :=
  st_ignore (buildlog_Expire jobID buildLogTTL).
End Logs.

(** ** Storage of artifacts (internal/storage/s3.go) *)

Definition package_key (functionID : string) : string := "packages/" +:+ functionID +:+ "/package.zip".
Definition artifact_key (functionID relPath : string) : string :=
  "functions/" +:+ functionID +:+ "/" +:+ relPath.
Definition metadata_key (hash : string) : string := "metadata/" +:+ hash +:+ ".json".

Section Storage.
Context {B : Type} `{!ObjectStore B} `{!Json BuildMetadata}.
Open Scope golang_scope.

Definition put_object (err : option error) (key data : string) : St B unit := λ b,
  match err with
  | Some e => (Err e, b)
  | None => (Ok tt, os_Put b key data)
  end.

Definition UploadPackage (err : option error) (functionID data : string) : St B string :=
  st_wrap "failed to upload package" (put_object err (package_key functionID) data) ;;!
  st_ret (package_key functionID).

(** The files of a walk, by their path relative to the directory. *)
Fixpoint upload_files (put_err read_err : string → option error) (functionID dirPath : string)
    (files : list (string * string)) : St B unit :=
  match files with
  | [] => st_ret tt
  | (relPath, data) :: rest =>
      match read_err relPath with
      | Some e => st_fail (Wrap ("failed to read file " +:+ Join2 dirPath relPath) e)
      | None =>
          let key := artifact_key functionID relPath in
          st_wrap ("failed to upload file " +:+ key) (put_object (put_err key) key data) ;;!
          upload_files put_err read_err functionID dirPath rest
      end
  end.

(** [filepath.Walk]: the files of the directory it visits, and the error that
    stops it, if one does. *)
Definition UploadDirectory (walk : string → FS → list (string * string) * option error)
    (put_err read_err : string → option error) (functionID dirPath : string) (f : FS) : St B unit :=
  let '(files, err) := walk dirPath f in
  upload_files put_err read_err functionID dirPath files ;;!
  match err with
  | Some e => st_fail e
  | None => st_ret tt
  end.

Definition DownloadPackage (get_err read_err : option error) (key : string) : St B string := λ b,
  match get_err, os_Get b key with
  | Some e, _ => (Err (Wrap "failed to download package" e), b)
  | None, None => (Err (Wrap "failed to download package" (NewError "NoSuchKey")), b)
  | None, Some data =>
      match read_err with
      | Some e => (Err (Wrap "failed to read package data" e), b)
      | None => (Ok data, b)
      end
  end.

Definition DeletePackage (err : option error) (key : string) : St B unit := λ b,
  match err with
  | Some e => (Err (Wrap "failed to delete package" e), b)
  | None => (Ok tt, os_Delete b key)
  end.

(** The metadata and whether the object exists; any error of GET counts as
    absence. *)
Definition CheckBuildMetadata (get_err : option error) (hash : string) (b : B)
    : option BuildMetadata * bool * option error :=
  match get_err, os_Get b (metadata_key hash) with
  | None, Some data =>
      match json_Unmarshal data with
      | Ok m => (Some m, true, None)
      | Err e => (None, true, Some (Wrap "failed to decode metadata" e))
      | Panic w => (None, true, Some (NewError w))
      end
  | _, _ => (None, false, None)
  end.

Definition SaveBuildMetadata (err : option error) (hash : string) (m : BuildMetadata) : St B unit :=
  st_wrap "failed to save metadata" (put_object err (metadata_key hash) (json_Marshal m)).
End Storage.

(** ** The Docker builder (internal/builder/docker.go) *)

Record DockerBuilder := mkDockerBuilder { db_workDir : string; db_ecrRepo : string }.

(** The directory call, and for each command the lines of its two outputs in
    the order in which they are logged ([true] for stderr) and the error it
    ends with.  Lines that the readers log after the command has been waited
    for are not modelled. *)
Record CloneEnv := mkCloneEnv {
  cv_mkdir_err : option error;
  cv_run : list string → list (bool * string) * option error
}.

Section Docker.
Context {B : Type} (lg : LogEnv) (e : CloneEnv) (d : DockerBuilder).
Open Scope golang_scope.

Fixpoint stream_lines (jobID : string) (lines : list (bool * string)) : St (World B) unit :=
  match lines with
  | [] => st_ret tt
  | (stderr, l) :: rest =>
      streamBuildLog lg jobID (if stderr then "ERR: " +:+ l else l) ;;! stream_lines jobID rest
  end.

Definition runCommandStreaming (jobID dir : string) (argv : list string) : St (World B) unit :=
  st_modify (add_cmd (dir, argv)) ;;!
  let '(lines, err) := cv_run e argv in
  stream_lines jobID lines ;;!
  match err with
  | Some er => st_fail er
  | None => st_ret tt
  end.

Definition imageURI (functionID : string) : string :=
  if bool_decide (db_ecrRepo d = "") then "mini-lambda-local:" +:+ functionID
  else db_ecrRepo d +:+ ":" +:+ functionID.

(** The body; the job's directory is removed when it ends. *)
Definition clone_steps (jobID functionID repoURL dockerfilePath jobDir : string) : St (World B) string :=
  let image := imageURI functionID in
  let dockerfile := if bool_decide (dockerfilePath = "") then Join2 jobDir "Dockerfile"
                    else Join2 jobDir dockerfilePath in
  streamBuildLog lg jobID ("Cloning repository: " +:+ repoURL) ;;!
  st_wrap "git clone failed" (runCommandStreaming jobID jobDir ["git"; "clone"; repoURL; "."]) ;;!
  streamBuildLog lg jobID ("Building Docker image: " +:+ image +:+ " using " +:+ dockerfile) ;;!
  st_wrap "docker build failed"
    (runCommandStreaming jobID jobDir ["docker"; "build"; "-t"; image; "-f"; dockerfile; jobDir]) ;;!
  (if bool_decide (db_ecrRepo d = "")
   then streamBuildLog lg jobID "Skipping docker push (no ECR registry configured)"
   else
     streamBuildLog lg jobID ("Pushing image to ECR: " +:+ image) ;;!
     st_wrap "docker push failed" (runCommandStreaming jobID jobDir ["docker"; "push"; image])) ;;!
  streamBuildLog lg jobID "Build completed successfully!" ;;!
  st_ret image.

Definition CloneAndBuild (jobID functionID repoURL dockerfilePath : string) : St (World B) string :=
  let jobDir := Join2 (db_workDir d) jobID in
  st_wrap "failed to create job directory" (on_fs (fs_call (cv_mkdir_err e) (fs_mkdir jobDir))) ;;!
  r <-? clone_steps jobID functionID repoURL dockerfilePath jobDir ;;
  on_fs (fs_call None (fs_remove_all jobDir)) ;;!
  st_lift r.
End Docker.

(** ** The worker (cmd/worker/main.go) *)

(** What one job meets. *)
Record WorkerEnv := mkWorkerEnv {
  wv_log : LogEnv;
  wv_clone : CloneEnv;
  wv_notify_building : NotifyEnv;
  wv_notify_end : NotifyEnv;
  wv_image_err : option error;
  wv_get_err : option error;
  wv_read_err : option error;
  wv_unzip : string → outcome (list ZipFile);
  wv_dir_err : option error;
  wv_cleanup_err : option error;
  wv_walk : string → FS → list (string * string) * option error;
  wv_put_err : string → option error;
  wv_file_err : string → option error;
  wv_live : bool;
  wv_declare_err : option error;
  wv_publish_err : option error;
  wv_built_at : Z
}.

Section Worker.
Context {B : Type} `{!ObjectStore B} `{!Json BuildJob, !Json FunctionBuiltEvent}.
Context (zp : ZIPProcessor) (d : DockerBuilder) (e : WorkerEnv).
Open Scope golang_scope.

(** [handleBuildFailureWithMetrics], without the metric. *)
Definition handleBuildFailure (job : BuildJob) (errorMsg : string) : St (World B) unit :=
  st_ignore (on_hooks (NotifyFailed (wv_notify_end e) (bj_WebhookURL job) (bj_ID job) errorMsg)) ;;!
  st_fail (NewError errorMsg).

Definition failBuild {A} (job : BuildJob) (what : string) (err : error) : St (World B) A :=
  let msg := what +:+ ": " +:+ error_Error err in
  streamBuildLog (wv_log e) (bj_ID job) ("__BUILD_FAILED__: " +:+ msg) ;;!
  expireBuildLog (wv_log e) (bj_ID job) ;;!
  st_try (handleBuildFailure job msg) (λ r, match r with
    | Err er => st_fail er
    | Panic w => st_lift (Panic w)
    | Ok _ => st_fail (NewError msg)
    end).

(** [if err := f(); err != nil { return failBuild(..., what, err) }]. *)
Definition or_fail {A} (job : BuildJob) (what : string) (m : St (World B) A) : St (World B) A :=
  r <-? m ;;
  match r with
  | Ok a => st_ret a
  | Err err => failBuild job what err
  | Panic w => st_lift (Panic w)
  end.

Definition built_event (job : BuildJob) : FunctionBuiltEvent :=
  mkBuilt (bj_FunctionID job) (bj_Name job) (bj_Runtime job) (bj_Handler job)
    ("functions/" +:+ bj_FunctionID job +:+ "/") (bj_MemoryMB job) (bj_TimeoutSecs job) (wv_built_at e).

(** A job that names a repository. *)
Definition docker_build (job : BuildJob) : St (World B) unit :=
  image <-! or_fail job "Docker build failed"
              (CloneAndBuild (wv_log e) (wv_clone e) d (bj_ID job) (bj_FunctionID job) (bj_RepoURL job)
                 (bj_Dockerfile job)) ;;
  or_fail job "Failed to save image URI metadata"
    (on_bucket (UploadPackage (wv_image_err e) (bj_FunctionID job +:+ "_imageuri") image)) ;;!
  st_ret tt.

(** What follows the extraction, and is followed by the clean-up. *)
Definition publish_artifacts (job : BuildJob) (dir : string) : St (World B) unit :=
  streamBuildLog (wv_log e) (bj_ID job) "Uploading artifacts to S3..." ;;!
  or_fail job "Failed to upload artifacts"
    (λ w, on_bucket (UploadDirectory (wv_walk e) (wv_put_err e) (wv_file_err e) (bj_FunctionID job) dir
                       (ww_fs w)) w) ;;!
  streamBuildLog (wv_log e) (bj_ID job) "Publishing function.built event..." ;;!
  st_ignore (on_queues (Publisher_Publish (wv_declare_err e) (wv_publish_err e) (wv_live e)
                          FunctionBuiltQueue (Ok (json_Marshal (built_event job))))).

(** The end of a successful build. *)
Definition finish_build (job : BuildJob) : St (World B) unit :=
  expireBuildLog (wv_log e) (bj_ID job) ;;!
  streamBuildLog (wv_log e) (bj_ID job) "__BUILD_DONE__" ;;!
  st_ignore (on_hooks (NotifyCompleted (wv_notify_end e) (bj_WebhookURL job) (bj_ID job))).

(** A job with an uploaded package; the extracted directory is removed when
    the handler returns, after the end of the build. *)
Definition zip_build (job : BuildJob) : St (World B) unit :=
  streamBuildLog (wv_log e) (bj_ID job) "Downloading package from S3..." ;;!
  packageData <-! or_fail job "Failed to download package"
                    (on_bucket (DownloadPackage (wv_get_err e) (wv_read_err e) (bj_PackageURL job))) ;;
  streamBuildLog (wv_log e) (bj_ID job) "Validating ZIP package..." ;;!
  or_fail job "Invalid package" (st_lift (ValidatePackage (wv_unzip e) packageData)) ;;!
  streamBuildLog (wv_log e) (bj_ID job) "Extracting ZIP package..." ;;!
  extractedDir <-! or_fail job "Failed to process package"
                     (on_fs (ZIP_Process (wv_unzip e) zp (wv_dir_err e) packageData (bj_FunctionID job))) ;;
  r <-? (publish_artifacts job extractedDir ;;! finish_build job) ;;
  st_ignore (on_fs (ZIP_Cleanup zp (wv_cleanup_err e) (bj_FunctionID job))) ;;!
  st_lift r.

Definition processBuildJob (body : string) : St (World B) unit :=
  job <-! st_lift (json_Unmarshal body) ;;
  st_ignore (on_hooks (NotifyBuilding (wv_notify_building e) (bj_WebhookURL job) (bj_ID job))) ;;!
  if bool_decide (bj_RepoURL job ≠ "")
  then docker_build job ;;! finish_build job
  else zip_build job.
End Worker.

(** ** The master (cmd/master/main.go) *)

Definition QueueName : string := "build-jobs".

(** The values of the JSON objects the handler answers with. *)
Inductive JVal := JStr (s : string) | JTime (t : Z).
Class JsonObject := { json_Object : list (string * JVal) → string }.

(** What one request meets. *)
Record MasterEnv := mkMasterEnv {
  me_depth : DepthEnv;
  me_decode : Body → outcome CreateFunctionRequest;
  me_get_err : option error;
  me_functionID : string;
  me_jobID : string;
  me_upload_err : option error;
  me_live : bool;
  me_declare_err : option error;
  me_publish_err : option error;
  me_notify : NotifyEnv;
  me_created_at : Z;
  me_saved_at : Z;
  me_save_err : option error
}.

Definition missing_fields (req : CreateFunctionRequest) : bool :=
  bool_decide (cq_Name req = "") || bool_decide (cq_Runtime req = "")
  || (bool_decide (cq_PackageData req = "") && bool_decide (cq_RepoURL req = "")).

Definition hashInput (req : CreateFunctionRequest) : string :=
  if bool_decide (cq_PackageData req ≠ "")
  then cq_Name req +:+ ":" +:+ cq_Runtime req +:+ ":" +:+ cq_PackageData req
  else cq_Name req +:+ ":" +:+ cq_Runtime req +:+ ":" +:+ cq_RepoURL req +:+ ":" +:+ cq_Dockerfile req.

Definition requestHash (req : CreateFunctionRequest) : string :=
  hex_EncodeToString (bytes_string (sha256 (string_bytes (hashInput req)))).

Section Master.
Context {B : Type} `{!ObjectStore B} `{!Json BuildJob, !Json BuildMetadata, !JsonObject}.
Context (e : MasterEnv).
Open Scope golang_scope.

Definition build_job (req : CreateFunctionRequest) (packageKey : string) : BuildJob :=
  let memoryMB := if bool_decide (cq_Memory req ≤ 0) then 128 else cq_Memory req in
  let timeoutSecs := if bool_decide (cq_Timeout req ≤ 0) then 30 else cq_Timeout req in
  mkJob (me_jobID e) (me_functionID e) (cq_Name req) (cq_Runtime req) (cq_Handler req) memoryMB timeoutSecs
    packageKey (cq_RepoURL req) (cq_Dockerfile req) (cq_WebhookURL req) BStatusQueued (me_created_at e)
    None None "".

Definition build_metadata (req : CreateFunctionRequest) : BuildMetadata :=
  mkMetadata (me_functionID e) (me_jobID e) (me_saved_at e) (cq_Runtime req) (cq_Name req) (requestHash req).

(** [json.NewEncoder(w).Encode(...)]. *)
Definition encode_json (o : list (string * JVal)) (rw : ResponseWriter) : ResponseWriter :=
  rw_Write (json_Object o +:+ newline_str) rw.

(** The answer to a duplicate. *)
Definition conflict (m : BuildMetadata) (rw : ResponseWriter) : ResponseWriter :=
  encode_json [("status", JStr "conflict");
               ("message", JStr "Function with this configuration and code already exists");
               ("function_id", JStr (bm_FunctionID m)); ("job_id", JStr (bm_JobID m));
               ("created_at", JTime (bm_CreatedAt m))]
    (rw_WriteHeader 409 (rw_set_header (Header_Set (rw_header rw) "Content-Type" "application/json") rw)).

Definition accepted (rw : ResponseWriter) : ResponseWriter :=
  encode_json [("job_id", JStr (me_jobID e)); ("function_id", JStr (me_functionID e));
               ("status", JStr "queued"); ("message", JStr "Build job queued successfully")]
    (rw_WriteHeader 202 rw).

(** From the package's upload on. *)
Definition start_build (rw : ResponseWriter) (req : CreateFunctionRequest) : St (World B) ResponseWriter :=
  up <-? (if bool_decide (cq_PackageData req ≠ "")
          then on_bucket (UploadPackage (me_upload_err e) (me_functionID e) (cq_PackageData req))
          else st_ret "") ;;
  match up with
  | Ok packageKey =>
      pub <-? on_queues (Publisher_Publish (me_declare_err e) (me_publish_err e) (me_live e) QueueName
                           (Ok (json_Marshal (build_job req packageKey)))) ;;
      match pub with
      | Ok _ =>
          st_ignore (on_hooks (NotifyQueued (me_notify e) (cq_WebhookURL req) (me_jobID e))) ;;!
          st_ignore (on_bucket (SaveBuildMetadata (me_save_err e) (requestHash req) (build_metadata req))) ;;!
          st_ret (accepted rw)
      | _ => st_ret (http_Error rw "Failed to queue build job" 500)
      end
  | _ => st_ret (http_Error rw "Failed to upload package" 500)
  end.

Definition handleCreateFunction (rw : ResponseWriter) (r : Request) : St (World B) ResponseWriter :=
  can <-? (λ w, on_rejections (CanAcceptRequest (me_depth e) QueueName (ww_queues w)) w) ;;
  match can with
  | Ok (true, _) =>
      match me_decode e (rq_Body r) with
      | Ok req =>
          if missing_fields req
          then st_ret (http_Error rw
                 "Missing required fields: Name, Runtime, and either PackageData or RepoURL" 400)
          else λ w,
            match CheckBuildMetadata (me_get_err e) (requestHash req) (ww_bucket w) with
            | (Some m, true, _) => st_ret (conflict m rw) w
            | _ => start_build rw req w
            end
      | Err _ => st_ret (http_Error rw "Invalid request body" 400)
      | Panic why => st_lift (Panic why)
      end
  | Ok (false, msg) => st_ret (http_Error rw msg 503)
  | Err _ => st_ret (http_Error rw "Internal Server Error" 500)
  | Panic why => st_lift (Panic why)
  end.

(** The route of the master's mux. *)
Definition functions_route (rw : ResponseWriter) (r : Request) : St (World B) ResponseWriter :=
  if bool_decide (rq_Method r ≠ "POST") then st_ret (http_Error rw "Method not allowed" 405)
  else handleCreateFunction rw r.
End Master.

(** ** Lemmas: guarded steps *)

(** A relation that the log, the expiry and the notifications respect passes
    through the failure handling. *)
Lemma or_fail_keeps {B A} (R : World B → World B → Prop) `{!PreOrder R} e job what (m : St (World B) A) :
  (∀ j l, st_keeps R (streamBuildLog (wv_log e) j l)) → (∀ j, st_keeps R (expireBuildLog (wv_log e) j)) →
  (∀ T (h : St (list Sent) T), st_keeps R (on_hooks h)) →
  st_keeps R m → st_keeps R (or_fail e job what m).
Proof.
  intros Hs He Hh Hm. apply st_keeps_try; [keeps|done|]. intros [a|err|w]; [keeps| |keeps].
  unfold failBuild, handleBuildFailure.
  do 2 (apply st_keeps_bind; [keeps|keeps|intros _]). apply st_keeps_try; [keeps|keeps|]. intros []; keeps.
Qed.

(** ** Lemmas: what the worker leaves alone *)

(** The idempotency records are the same. *)
Definition same_records {B} `{!ObjectStore B} (b b' : B) : Prop :=
  ∀ h, os_Get b' (metadata_key h) = os_Get b (metadata_key h).
Definition same_metadata {B} `{!ObjectStore B} (w w' : World B) : Prop :=
  same_records (ww_bucket w) (ww_bucket w').

#[export] Instance same_records_preorder {B} `{!ObjectStore B} : PreOrder (@same_records B _).
Proof. split; [by intros b h|]. intros b1 b2 b3 H1 H2 h. by rewrite H2, H1. Qed.
#[export] Instance same_metadata_preorder {B} `{!ObjectStore B} : PreOrder (@same_metadata B _).
Proof. split; [by intros w h|]. intros w1 w2 w3 H1 H2. unfold same_metadata. by etransitivity. Qed.

Section SameMetadata.
Context {B : Type} `{!ObjectStore B} `{!ObjectStoreLaws B}.

(** The bucket is not reached through the other parts of the world. *)
Lemma on_fs_metadata {A} (m : St FS A) : st_keeps (@same_metadata B _) (on_fs m).
Proof. intros w h. unfold on_fs. by destruct (m _). Qed.
Lemma on_queues_metadata {A} (m : St Queues A) : st_keeps (@same_metadata B _) (on_queues m).
Proof. intros w h. unfold on_queues. by destruct (m _). Qed.
Lemma on_hooks_metadata {A} (m : St (list Sent) A) : st_keeps (@same_metadata B _) (on_hooks m).
Proof. intros w h. unfold on_hooks. by destruct (m _). Qed.
Lemma on_bucket_metadata {A} (m : St B A) :
  st_keeps same_records m → st_keeps (@same_metadata B _) (on_bucket m).
Proof.
  intros H w. unfold st_wp, on_bucket, same_metadata. pose proof (H (ww_bucket w)) as Hw. unfold st_wp in Hw.
  by destruct (m _).
Qed.
Lemma streamBuildLog_metadata e j l : st_keeps (@same_metadata B _) (streamBuildLog e j l).
Proof.
  apply st_keeps_ignore. intros w h. unfold st_wp, buildlog_Append. by destruct (lv_append_err e l).
Qed.
Lemma expireBuildLog_metadata e j : st_keeps (@same_metadata B _) (expireBuildLog e j).
Proof.
  apply st_keeps_ignore. intros w h. unfold st_wp, buildlog_Expire.
  destruct (lv_expire_err e); [done|]. by destruct (ww_logs w !! _).
Qed.
Lemma add_cmd_metadata c : st_keeps (@same_metadata B _) (st_modify (add_cmd c)).
Proof. by intros w h. Qed.

(** A write under another prefix of the bucket. *)
Lemma put_object_records err key data :
  HasPrefix key "metadata/" = false → st_keeps (@same_records B _) (put_object err key data).
Proof.
  intros Hk b h. unfold st_wp, put_object. destruct err; [done|]. simpl.
  apply os_get_put_ne. intros ->. unfold metadata_key in Hk. by rewrite HasPrefix_app in Hk.
Qed.
#[local] Hint Resolve on_fs_metadata on_queues_metadata on_hooks_metadata on_bucket_metadata
  streamBuildLog_metadata expireBuildLog_metadata add_cmd_metadata put_object_records : keeps.

Lemma UploadPackage_records err f data : st_keeps (@same_records B _) (UploadPackage err f data).
Proof. unfold UploadPackage. keeps. Qed.

Lemma DownloadPackage_records e1 e2 key : st_keeps (@same_records B _) (DownloadPackage e1 e2 key).
Proof.
  intros b h. unfold st_wp, DownloadPackage. destruct e1; [done|]. destruct (os_Get b key); [|done].
  by destruct e2.
Qed.

Lemma upload_files_records pe re f dir files : st_keeps (@same_records B _) (upload_files pe re f dir files).
Proof.
  induction files as [|[p d] files IH]; simpl; [keeps|]. destruct (re p); keeps.
Qed.

Lemma stream_lines_metadata lg j ls : st_keeps (@same_metadata B _) (stream_lines lg j ls).
Proof. induction ls as [|[err l] ls IH]; simpl; keeps. Qed.
#[local] Hint Resolve UploadPackage_records DownloadPackage_records upload_files_records
  stream_lines_metadata : keeps.

Lemma runCommandStreaming_metadata lg e j dir argv :
  st_keeps (@same_metadata B _) (runCommandStreaming lg e j dir argv).
Proof.
  unfold runCommandStreaming. destruct (cv_run e argv) as [lines [err|]]; keeps.
Qed.
#[local] Hint Resolve runCommandStreaming_metadata : keeps.

Lemma CloneAndBuild_metadata lg e d j f repo df :
  st_keeps (@same_metadata B _) (CloneAndBuild lg e d j f repo df).
Proof.
  unfold CloneAndBuild, clone_steps. destruct (bool_decide (db_ecrRepo d = "")); keeps.
Qed.

Context `{!Json BuildJob, !Json FunctionBuiltEvent} (zp : ZIPProcessor) (d : DockerBuilder) (e : WorkerEnv).

Lemma or_fail_metadata {A} job what (m : St (World B) A) :
  st_keeps (@same_metadata B _) m → st_keeps (@same_metadata B _) (or_fail e job what m).
Proof. intros Hm. apply or_fail_keeps; keeps. Qed.
#[local] Hint Resolve CloneAndBuild_metadata or_fail_metadata : keeps.

Lemma UploadDirectory_metadata walk pe re f dir :
  st_keeps (@same_metadata B _) (λ w, on_bucket (UploadDirectory walk pe re f dir (ww_fs w)) w).
Proof.
  intros w. revert w. assert (∀ x, st_keeps (@same_metadata B _) (on_bucket (UploadDirectory walk pe re f dir x)))
    as H by (intros x; unfold UploadDirectory; destruct (walk dir x) as [files [er|]]; keeps).
  intros w. apply H.
Qed.
#[local] Hint Resolve UploadDirectory_metadata : keeps.

(** No job, whatever it is and however it ends, touches an idempotency
    record. *)
Lemma processBuildJob_metadata body : st_keeps (@same_metadata B _) (processBuildJob zp d e body).
Proof.
  apply st_keeps_bind; [keeps|keeps|intros job]. apply st_keeps_bind; [keeps|keeps|intros _].
  assert (st_keeps (@same_metadata B _) (finish_build e job)) as Hf by (unfold finish_build; keeps).
  destruct (bool_decide _).
  - apply st_keeps_bind; [keeps| |done]. unfold docker_build. keeps.
  - unfold zip_build, publish_artifacts. keeps.
Qed.
End SameMetadata.

(** ** Lemmas: the master *)

Section MasterLemmas.
Context {B : Type} `{!ObjectStore B} `{!ObjectStoreLaws B} `{!Json BuildJob, !Json BuildMetadata, !JsonObject}.
Implicit Types w : World B.

Lemma http_Error_new_status rw msg code : rw_status rw = None → rw_status (http_Error rw msg code) = Some code.
Proof. intros Hrw. unfold http_Error, rw_Write, rw_WriteHeader, rw_set_header. simpl. rewrite Hrw. done. Qed.

Lemma conflict_status m rw : rw_status rw = None → rw_status (conflict m rw) = Some 409.
Proof. intros Hrw. unfold conflict, encode_json, rw_Write, rw_WriteHeader, rw_set_header. simpl. by rewrite Hrw. Qed.

Lemma accepted_status e rw : rw_status rw = None → rw_status (accepted e rw) = Some 202.
Proof. intros Hrw. unfold accepted, encode_json, rw_Write, rw_WriteHeader. simpl. by rewrite Hrw. Qed.

Lemma package_key_metadata f h : package_key f ≠ metadata_key h.
Proof. done. Qed.

(** Where the package of an accepted request is. *)
Definition package_stored (e : MasterEnv) (req : CreateFunctionRequest) (key : string) (b : B) : Prop :=
  if bool_decide (cq_PackageData req ≠ "")
  then key = package_key (me_functionID e) ∧ os_Get b key = Some (cq_PackageData req)
  else key = "".

Lemma start_build_spec e rw req w rw1 w1 :
  rw_status rw = None → start_build e rw req w = (Ok rw1, w1) →
  (∃ key, rw1 = accepted e rw
     ∧ messages (ww_queues w1) QueueName
         = messages (ww_queues w) QueueName ++ [json_Marshal (build_job e req key)]
     ∧ (∀ n, n ≠ QueueName → messages (ww_queues w1) n = messages (ww_queues w) n)
     ∧ package_stored e req key (ww_bucket w1)
     ∧ (me_save_err e = None →
          os_Get (ww_bucket w1) (metadata_key (requestHash req)) = Some (json_Marshal (build_metadata e req))))
  ∨ (rw_status rw1 = Some 500 ∧ ∀ n, messages (ww_queues w1) n = messages (ww_queues w) n).
Proof.
  intros Hs. unfold start_build. unfold st_try at 1.
  match goal with |- context [(if ?c then ?a else ?b) w] =>
    destruct ((if c then a else b) w) as [up w2] eqn:Hup end.
  assert (ww_queues w2 = ww_queues w
    ∧ ∀ key, up = Ok key → package_stored e req key (ww_bucket w2)) as [Hq Hpk].
  { revert Hup. unfold package_stored. case_bool_decide; [|by intros [= <- <-]; split; [|intros ? [= <-]]].
    unfold on_bucket, UploadPackage, st_bind, st_wrap, put_object. destruct (me_upload_err e); simpl.
    - by intros [= <- <-].
    - intros [= <- <-]. split; [done|]. intros key [= <-]. split; [done|]. apply os_get_put. }
  clear Hup. destruct up as [key|err|why]; [| |done].
  2:{ intros [= <- <-]. right. split; [by apply http_Error_new_status|]. by rewrite Hq. }
  unfold st_try, on_queues.
  destruct (Publisher_Publish_spec (me_declare_err e) (me_publish_err e) (me_live e) QueueName
    (json_Marshal (build_job e req key)) (ww_queues w2)) as [(q & -> & Hm & Hn & _)|(err & q & -> & Hm)].
  2:{ intros [= <- <-]. right. split; [by apply http_Error_new_status|]. simpl. by rewrite <- Hq. }
  unfold st_bind at 1, st_ignore at 1, on_hooks. destruct (NotifyQueued _ _ _ _) as [[[]|e1|w3] hooks]; [..|done].
  all: unfold st_bind, st_ignore, on_bucket, SaveBuildMetadata, st_wrap, put_object, st_ret; simpl;
    destruct (me_save_err e) eqn:Hsave; simpl; intros [= <- <-]; left; exists key; simpl;
    rewrite <- Hq; (split_and!; [done|done|done| |]); try done.
  all: try by apply Hpk.
  all: try by intros _; apply os_get_put.
  all: specialize (Hpk _ eq_refl); unfold package_stored in *; destruct (bool_decide _); [|done];
    destruct Hpk as [-> <-]; split; [done|]; by apply os_get_put_ne.
Qed.

(** The ways through the handler. *)
Lemma handleCreateFunction_inv e rw r w rw1 w1 :
  rw_status rw = None → handleCreateFunction e rw r w = (Ok rw1, w1) →
  (rw_status rw1 ∈ [Some 400; Some 409; Some 500; Some 503]
     ∧ ww_queues w1 = ww_queues w ∧ ww_bucket w1 = ww_bucket w)
  ∨ (∃ req, me_decode e (rq_Body r) = Ok req ∧ missing_fields req = false
       ∧ Z.of_nat (length (messages (ww_queues w) QueueName)) < QueueDepthWarning
       ∧ start_build e rw req w = (Ok rw1, w1)).
Proof.
  intros Hs. unfold handleCreateFunction, st_try, on_rejections.
  pose proof (CanAcceptRequest_cases (me_depth e) QueueName (ww_queues w) (ww_rejections w)) as Hcan.
  destruct (CanAcceptRequest _ _ _ _) as [[[[] msg]|err|why] rej]; [| | |done].
  2,3: intros [= <- <-]; left; rewrite http_Error_new_status by done; split_and!; set_solver.
  destruct Hcan as [-> Hlen]. destruct (me_decode e (rq_Body r)) as [req|err|why] eqn:Hd; [| |done].
  2: intros [= <- <-]; left; rewrite http_Error_new_status by done; split_and!; set_solver.
  destruct (missing_fields req) eqn:Hm.
  { intros [= <- <-]; left; rewrite http_Error_new_status by done; split_and!; set_solver. }
  replace (mkWorld _ _ _ _ _ _ _ _) with w by by destruct w.
  destruct (CheckBuildMetadata _ _ _) as [[[m|] []] er]; intros Hrun; [|right; by exists req..].
  injection Hrun as <- <-. left. rewrite conflict_status by done. split_and!; set_solver.
Qed.
End MasterLemmas.

(** ** Lemmas: the log of a job *)

Definition job_log {B} (w : World B) (jobID : string) : list string := default [] (ww_logs w !! StreamKey jobID).

Definition same_logs {B} (w w' : World B) : Prop := ww_logs w' = ww_logs w ∧ ww_ttl w' = ww_ttl w.
#[export] Instance same_logs_preorder {B} : PreOrder (@same_logs B).
Proof. split; [done|]. intros w1 w2 w3 [H1 H2] [H3 H4]. split; congruence. Qed.

Section SameLogs.
Context {B : Type}.
Lemma on_fs_logs {A} (m : St FS A) : st_keeps (@same_logs B) (on_fs m).
Proof. intros w. unfold st_wp, on_fs. by destruct (m _). Qed.
Lemma on_queues_logs {A} (m : St Queues A) : st_keeps (@same_logs B) (on_queues m).
Proof. intros w. unfold st_wp, on_queues. by destruct (m _). Qed.
Lemma on_hooks_logs {A} (m : St (list Sent) A) : st_keeps (@same_logs B) (on_hooks m).
Proof. intros w. unfold st_wp, on_hooks. by destruct (m _). Qed.
Lemma on_bucket_logs {A} (m : St B A) : st_keeps (@same_logs B) (on_bucket m).
Proof. intros w. unfold st_wp, on_bucket. by destruct (m _). Qed.
Lemma on_bucket_fs_logs {A} (m : FS → St B A) :
  st_keeps (@same_logs B) (λ w, on_bucket (m (ww_fs w)) w).
Proof. intros w. apply (on_bucket_logs (m (ww_fs w)) w). Qed.
End SameLogs.
#[export] Hint Resolve on_fs_logs on_queues_logs on_hooks_logs on_bucket_logs on_bucket_fs_logs : keeps.

Lemma xadd_short trim line ls : (length ls < maxLen)%nat → xadd trim line ls = ls ++ [line].
Proof.
  intros H. unfold xadd. rewrite length_app. simpl length.
  replace (length ls + 1 - maxLen)%nat with 0%nat by lia. by rewrite Nat.min_0_r.
Qed.

Section WorkerLog.
Context {B : Type} `{!ObjectStore B} `{!Json BuildJob, !Json FunctionBuiltEvent}.
Context (zp : ZIPProcessor) (d : DockerBuilder) (e : WorkerEnv) (job : BuildJob).
Context (Happend : ∀ line, lv_append_err (wv_log e) line = None).
Context (Hexpire : lv_expire_err (wv_log e) = None).
Implicit Types w : World B.

(** The log so far, and once it has a first line, that it will expire. *)
Definition log_is (ls : list string) (w : World B) : Prop := job_log w (bj_ID job) = ls ∧ (length ls < maxLen)%nat.
Definition will_expire (w : World B) : Prop := ww_ttl w !! StreamKey (bj_ID job) = Some buildLogTTL.

(** The two ways a job's log ends. *)
Definition log_failed (ls : list string) (r : outcome unit) (w : World B) : Prop :=
  ∃ msg, r = Err (NewError msg) ∧ job_log w (bj_ID job) = ls ++ ["__BUILD_FAILED__: " +:+ msg] ∧ will_expire w.
Definition log_done (ls : list string) (r : outcome unit) (w : World B) : Prop :=
  r = Ok tt ∧ job_log w (bj_ID job) = ls ++ ["__BUILD_DONE__"] ∧ will_expire w.

Lemma log_is_same ls w w' : log_is ls w → same_logs w w' → log_is ls w'.
Proof. unfold log_is, job_log. by intros H [-> _]. Qed.

Lemma streamBuildLog_log ls line w : log_is ls w →
  streamBuildLog (wv_log e) (bj_ID job) line w
  = (Ok tt, set_logs (<[StreamKey (bj_ID job) := ls ++ [line]]> (ww_logs w)) w).
Proof.
  intros [Hl Hn]. unfold streamBuildLog, st_ignore, buildlog_Append. rewrite Happend.
  change (default [] _) with (job_log w (bj_ID job)). by rewrite Hl, xadd_short.
Qed.

Lemma expireBuildLog_log l ls w : job_log w (bj_ID job) = l :: ls →
  expireBuildLog (wv_log e) (bj_ID job) w
  = (Ok tt, set_ttl (<[StreamKey (bj_ID job) := buildLogTTL]> (ww_ttl w)) w).
Proof.
  intros Hl. unfold expireBuildLog, st_ignore, buildlog_Expire. rewrite Hexpire. unfold job_log in Hl.
  by destruct (ww_logs w !! _).
Qed.

(** A message of the worker, then the rest. *)
Lemma stream_wp ls line (k : St (World B) unit) Q w :
  log_is ls w → (length ls < 10)%nat →
  (∀ w', log_is (ls ++ [line]) w' → st_wp k Q w') →
  st_wp (st_bind (streamBuildLog (wv_log e) (bj_ID job) line) (λ _, k)) Q w.
Proof.
  intros Hl Hn Hk. apply st_wp_bind. unfold st_wp at 1. rewrite (streamBuildLog_log ls) by done. simpl.
  apply Hk. split; [|rewrite length_app; simpl; unfold maxLen; lia].
  unfold job_log. simpl. by rewrite lookup_insert_eq.
Qed.

(** A guarded call that does not write the log: it goes on with the log as it
    was, or the job has failed. *)
Lemma or_fail_wp {A} ls what (m : St (World B) A) (k : A → St (World B) unit) (Q : outcome unit → World B → Prop) w :
  log_is ls w → st_keeps same_logs m →
  (∀ a w', log_is ls w' → st_wp (k a) Q w') →
  (∀ r w', log_failed ls r w' → Q r w') → (∀ why w', Q (Panic why) w') →
  st_wp (st_bind (or_fail e job what m) k) Q w.
Proof.
  intros Hl Hm Hk HQ HP. apply st_wp_bind. apply st_wp_try.
  eapply st_wp_mono; [apply Hm|]. intros r w1 Hsame. pose proof (log_is_same _ _ _ Hl Hsame) as Hl1.
  destruct r as [a|err|why]; [by apply Hk| |by apply HP].
  unfold failBuild. set (msg := what +:+ ": " +:+ error_Error err).
  apply st_wp_bind. unfold st_wp at 1. rewrite (streamBuildLog_log ls) by done. cbn [fst snd].
  apply st_wp_bind. unfold st_wp at 1.
  destruct (ls ++ ["__BUILD_FAILED__: " +:+ msg]) as [|x xs] eqn:Hx; [by destruct ls|].
  rewrite (expireBuildLog_log x xs) by (unfold job_log; simpl; by rewrite lookup_insert_eq). cbn [fst snd].
  set (w2 := set_ttl _ _). apply st_wp_try. unfold handleBuildFailure. apply st_wp_bind, st_wp_ignore.
  eapply st_wp_mono; [apply on_hooks_logs|].
  intros r w3 [H1 H2]. assert (log_failed ls (Err (NewError msg)) w3) as Hf.
  { exists msg. unfold will_expire, job_log. rewrite H1, H2. unfold w2. simpl.
    rewrite !lookup_insert_eq. by rewrite Hx. }
  destruct r as [?|er|why]; unfold st_wp; simpl; [by apply HQ|by apply HQ|by apply HP].
Qed.

(** The end of a successful build. *)
Lemma finish_build_wp l ls (Q : outcome unit → World B → Prop) w :
  log_is (l :: ls) w → (∀ r w', log_done (l :: ls) r w' → Q r w') → (∀ why w', Q (Panic why) w') →
  st_wp (finish_build e job) Q w.
Proof.
  intros Hl HQ HP. unfold finish_build. apply st_wp_bind. unfold st_wp at 1.
  rewrite (expireBuildLog_log l ls) by apply Hl. cbn [fst snd].
  apply st_wp_bind. unfold st_wp at 1. rewrite (streamBuildLog_log (l :: ls)) by exact Hl. cbn [fst snd].
  apply st_wp_ignore. eapply st_wp_mono; [apply on_hooks_logs|]. intros r w' [H1 H2].
  assert (log_done (l :: ls) (Ok tt) w') as Hd.
  { split; [done|]. unfold will_expire, job_log. rewrite H1, H2. simpl. by rewrite !lookup_insert_eq. }
  destruct r; eauto.
Qed.

(** The worker's own messages, in order. *)
Definition zip_messages : list string :=
  ["Downloading package from S3..."; "Validating ZIP package..."; "Extracting ZIP package...";
   "Uploading artifacts to S3..."; "Publishing function.built event..."].

Definition zip_log (r : outcome unit) (w : World B) : Prop :=
  match r with
  | Panic _ => True
  | _ => log_done zip_messages r w ∨ ∃ k, (1 ≤ k ≤ 4)%nat ∧ log_failed (take k zip_messages) r w
  end.

Lemma zip_log_failed k ls r w :
  (1 ≤ k ≤ 4)%nat → log_failed ls r w → ls = take k zip_messages → zip_log r w.
Proof. intros Hk Hf ->. unfold zip_log. destruct Hf as (msg & -> & Hf). right. exists k. split; [done|]. by exists msg. Qed.

Lemma zip_log_keeps r w w' : zip_log r w → same_logs w w' → zip_log r w'.
Proof. unfold zip_log, log_done, log_failed, will_expire, job_log. by intros H [-> ->]. Qed.

Lemma publish_artifacts_log dir w : log_is (take 3 zip_messages) w →
  st_wp (st_bind (publish_artifacts e job dir) (λ _, finish_build e job)) zip_log w.
Proof.
  intros H0. apply st_wp_bind. unfold publish_artifacts.
  eapply stream_wp; [done|simpl; lia|]. intros w1 H1.
  eapply or_fail_wp; [done|auto with keeps| | |done].
  - intros [] w2 H2. eapply stream_wp; [done|simpl; lia|]. intros w3 H3. apply st_wp_ignore.
    eapply st_wp_mono; [apply on_queues_logs|]. intros r w4 Hs. pose proof (log_is_same _ _ _ H3 Hs) as H4.
    assert (st_wp (finish_build e job) zip_log w4).
    { eapply finish_build_wp; [exact H4| |done]. intros r' w' Hd. pose proof Hd as [-> _]. by left. }
    by destruct r.
  - intros r w' Hf. pose proof Hf as (msg & -> & _). by eapply (zip_log_failed 4); [lia|..].
Qed.

Lemma zip_build_log w : log_is [] w → st_wp (zip_build zp e job) zip_log w.
Proof.
  intros H0. unfold zip_build.
  eapply stream_wp; [done|simpl; lia|]. intros w1 H1.
  eapply or_fail_wp; [done|auto with keeps| |intros r w' Hf; by eapply (zip_log_failed 1); [lia|..]|done].
  intros data w2 H2. eapply stream_wp; [done|simpl; lia|]. intros w3 H3.
  eapply or_fail_wp; [done|apply st_keeps_lift; apply _| |
    intros r w' Hf; by eapply (zip_log_failed 2); [lia|..]|done].
  intros [] w4 H4. eapply stream_wp; [done|simpl; lia|]. intros w5 H5.
  eapply or_fail_wp; [done|auto with keeps| |intros r w' Hf; by eapply (zip_log_failed 3); [lia|..]|done].
  intros dir w6 H6. apply st_wp_try. eapply st_wp_mono; [by apply publish_artifacts_log|].
  intros r w7 H7.
  assert (st_wp (st_bind (st_ignore (on_fs (ZIP_Cleanup zp (wv_cleanup_err e) (bj_FunctionID job))))
    (λ _ : unit, st_lift r)) zip_log w7) as Hend.
  { apply st_wp_bind, st_wp_ignore. eapply st_wp_mono; [apply on_fs_logs|]. intros r' w8 Hs.
    pose proof (zip_log_keeps _ _ _ H7 Hs). by destruct r'. }
  by destruct r.
Qed.
End WorkerLog.

(** ** Lemmas: what a successful build leaves *)

(** The worker's messages and notifications touch neither the bucket nor the
    queues nor the files. *)
Definition same_stores {B} (w w' : World B) : Prop :=
  ww_bucket w' = ww_bucket w ∧ ww_queues w' = ww_queues w ∧ ww_fs w' = ww_fs w.
#[export] Instance same_stores_preorder {B} : PreOrder (@same_stores B).
Proof. split; [done|]. intros w1 w2 w3 (H1 & H2 & H3) (H4 & H5 & H6). split_and!; congruence. Qed.

Lemma artifact_key_inj f p q : artifact_key f p = artifact_key f q → p = q.
Proof. unfold artifact_key. intros H. by do 3 apply str_app_inj_l in H. Qed.

Section Artifacts.
Context {B : Type} `{!ObjectStore B} `{!ObjectStoreLaws B} `{!Json BuildJob, !Json FunctionBuiltEvent}.
Context (zp : ZIPProcessor) (d : DockerBuilder) (e : WorkerEnv).
Implicit Types w : World B.

Lemma streamBuildLog_stores lg j l : st_keeps (@same_stores B) (streamBuildLog lg j l).
Proof. apply st_keeps_ignore. intros w. unfold st_wp, buildlog_Append. by destruct (lv_append_err lg l). Qed.
Lemma expireBuildLog_stores lg j : st_keeps (@same_stores B) (expireBuildLog lg j).
Proof.
  apply st_keeps_ignore. intros w. unfold st_wp, buildlog_Expire.
  destruct (lv_expire_err lg); [done|]. by destruct (ww_logs w !! _).
Qed.
Lemma on_hooks_stores {A} (m : St (list Sent) A) : st_keeps (@same_stores B) (on_hooks m).
Proof. intros w. unfold st_wp, on_hooks. by destruct (m _). Qed.
#[local] Hint Resolve streamBuildLog_stores expireBuildLog_stores on_hooks_stores : keeps.

Lemma finish_build_stores job : st_keeps (@same_stores B) (finish_build e job).
Proof. unfold finish_build. keeps. Qed.

Lemma upload_files_spec pe re f dir files (b b' : B) :
  NoDup files.*1 → upload_files pe re f dir files b = (Ok tt, b') →
  (∀ rel data, (rel, data) ∈ files → os_Get b' (artifact_key f rel) = Some data)
  ∧ (∀ k, (∀ rel, rel ∈ files.*1 → k ≠ artifact_key f rel) → os_Get b' k = os_Get b k).
Proof.
  revert b. induction files as [|[p data] files IH]; intros b Hnd; cbn [upload_files].
  { intros [= <-]. split; [intros ? ? Hin; by inversion Hin|done]. }
  inversion Hnd as [|? ? Hp Hnd']; subst. destruct (re p); [done|].
  intros (x & b1 & Hput%st_wrap_Ok & Hrest)%st_bind_Ok.
  unfold put_object in Hput. destruct (pe _); [done|]. injection Hput as <- <-.
  destruct (IH _ Hnd' Hrest) as [H1 H2]. split.
  - intros rel dat [[= -> ->]|Hin]%elem_of_cons; [|by apply H1].
    rewrite H2; [apply os_get_put|]. intros rel Hrel Heq%artifact_key_inj. by subst.
  - intros k Hk. rewrite H2 by (intros rel Hrel; apply Hk; by right).
    apply os_get_put_ne. intros <-. by apply (Hk p); [left|].
Qed.

Lemma failBuild_not_Ok {A} job what err w (a : A) w' : failBuild e job what err w ≠ (Ok a, w').
Proof.
  unfold failBuild. intros (? & ? & _ & H)%st_bind_Ok. apply st_bind_Ok in H as (? & ? & _ & H).
  unfold st_try in H. by destruct (handleBuildFailure _ _ _ _) as [[] ?].
Qed.

Lemma or_fail_Ok {A} job what (m : St (World B) A) w a w' :
  or_fail e job what m w = (Ok a, w') → m w = (Ok a, w').
Proof.
  unfold or_fail, st_try. destruct (m w) as [[a1|err|why] w1]; [done| |done].
  intros H. by apply failBuild_not_Ok in H.
Qed.

Lemma on_bucket_Ok {A} (m : St B A) w a w' : on_bucket m w = (Ok a, w') →
  ∃ b, m (ww_bucket w) = (Ok a, b) ∧ ww_bucket w' = b ∧ ww_queues w' = ww_queues w ∧ ww_fs w' = ww_fs w.
Proof. unfold on_bucket. destruct (m _) as [r b]. intros [= -> <-]. by exists b. Qed.

Lemma on_fs_Ok {A} (m : St FS A) w a w' : on_fs m w = (Ok a, w') →
  ∃ f, m (ww_fs w) = (Ok a, f) ∧ ww_fs w' = f ∧ ww_queues w' = ww_queues w ∧ ww_bucket w' = ww_bucket w.
Proof. unfold on_fs. destruct (m _) as [r f]. intros [= -> <-]. by exists f. Qed.

(** Clean-up touches the files only. *)
Lemma cleanup_stores (r : outcome unit) (m : St FS unit) w w' :
  st_bind (st_ignore (on_fs m)) (λ _, st_lift r) w = (Ok tt, w') →
  r = Ok tt ∧ ww_bucket w' = ww_bucket w ∧ ww_queues w' = ww_queues w.
Proof.
  intros (? & w1 & H1 & H2)%st_bind_Ok. injection H2 as -> <-. split; [done|]. revert H1.
  unfold st_ignore, on_fs. destruct (m (ww_fs w)) as [[] ?]; intros [= <- <-]; done.
Qed.

Lemma publish_artifacts_Ok job dir w w' :
  publish_artifacts e job dir w = (Ok tt, w') →
  ∃ files, wv_walk e dir (ww_fs w) = (files, None)
    ∧ upload_files (wv_put_err e) (wv_file_err e) (bj_FunctionID job) dir files (ww_bucket w)
      = (Ok tt, ww_bucket w')
    ∧ ww_queues w' = (Publisher_Publish (wv_declare_err e) (wv_publish_err e) (wv_live e)
        FunctionBuiltQueue (Ok (json_Marshal (built_event e job))) (ww_queues w)).2.
Proof.
  intros (? & w1 & H1 & (? & w2 & H2 & (? & w3 & H3 & H4)%st_bind_Ok)%st_bind_Ok)%st_bind_Ok.
  apply (st_keeps_run _ _ _ _ _ (streamBuildLog_stores _ _ _)) in H1 as (Hb1 & Hq1 & Hf1).
  apply (st_keeps_run _ _ _ _ _ (streamBuildLog_stores _ _ _)) in H3 as (Hb3 & Hq3 & Hf3).
  apply or_fail_Ok, on_bucket_Ok in H2 as (b & Hup & Hb2 & Hq2 & Hf2).
  unfold UploadDirectory in Hup. destruct (wv_walk e dir (ww_fs w1)) as [files werr] eqn:Hw.
  apply st_bind_Ok in Hup as ([] & b1 & Hup & Hend). destruct werr; [done|]. injection Hend as <-.
  exists files. rewrite <- Hf1, <- Hb1. split; [done|].
  unfold st_ignore, on_queues in H4. rewrite <- Hq1, <- Hq2, <- Hq3.
  destruct (Publisher_Publish _ _ _ _ _ _) as [[] q]; simplify_eq; simpl;
    by rewrite Hb3.
Qed.

Lemma zip_build_Ok job w w' :
  zip_build zp e job w = (Ok tt, w') →
  ∃ data dir f files, os_Get (ww_bucket w) (bj_PackageURL job) = Some data
    ∧ ZIP_Process (wv_unzip e) zp (wv_dir_err e) data (bj_FunctionID job) (ww_fs w) = (Ok dir, f)
    ∧ wv_walk e dir f = (files, None)
    ∧ upload_files (wv_put_err e) (wv_file_err e) (bj_FunctionID job) dir files (ww_bucket w)
      = (Ok tt, ww_bucket w')
    ∧ ww_queues w' = (Publisher_Publish (wv_declare_err e) (wv_publish_err e) (wv_live e)
        FunctionBuiltQueue (Ok (json_Marshal (built_event e job))) (ww_queues w)).2.
Proof.
  intros (? & w1 & H1 & (data & w2 & H2%or_fail_Ok & H)%st_bind_Ok)%st_bind_Ok.
  apply st_bind_Ok in H as (? & w3 & H3 & (? & w4 & H4%or_fail_Ok & H)%st_bind_Ok).
  apply st_bind_Ok in H as (? & w5 & H5 & (dir & w6 & H6%or_fail_Ok & H)%st_bind_Ok).
  apply (st_keeps_run _ _ _ _ _ (streamBuildLog_stores _ _ _)) in H1 as (Hb1 & Hq1 & Hf1), H3 as (Hb3 & Hq3 & Hf3),
    H5 as (Hb5 & Hq5 & Hf5).
  apply on_bucket_Ok in H2 as (b2 & Hget & Hb2 & Hq2 & Hf2). unfold st_lift in H4. injection H4 as _ <-.
  apply on_fs_Ok in H6 as (f & Hz & Hf6 & Hq6 & Hb6).
  unfold st_try in H. destruct (st_bind _ _ w6) as [r w7] eqn:H7.
  assert (r = Ok tt ∧ ww_bucket w' = ww_bucket w7 ∧ ww_queues w' = ww_queues w7) as (-> & Hb & Hq).
  { destruct r; [by apply cleanup_stores in H..|done]. }
  apply st_bind_Ok in H7 as ([] & w8 & H8%publish_artifacts_Ok & H9).
  apply (st_keeps_run _ _ _ _ _ (finish_build_stores _)) in H9 as (Hb9 & Hq9 & _).
  destruct H8 as (files & Hwalk & Hup & Hpub).
  assert (os_Get (ww_bucket w1) (bj_PackageURL job) = Some data ∧ b2 = ww_bucket w1) as [Hdata Hb2'].
  { unfold DownloadPackage in Hget. destruct (wv_get_err e); [done|]. destruct (os_Get _ _); [|done].
    destruct (wv_read_err e); [done|]. by injection Hget as <- <-. }
  assert (ww_bucket w6 = ww_bucket w ∧ ww_queues w6 = ww_queues w ∧ ww_fs w5 = ww_fs w) as (Eb & Eq & Ef)
    by (split_and!; congruence).
  exists data, dir, f, files. rewrite <- Eb, <- Eq, <- Ef, Hb, Hq, Hb9, Hq9, Eb, <- Hb1.
  split_and!; [done|done|by rewrite <- Hf6| |done]. by rewrite Hb1, <- Eb.
Qed.
End Artifacts.

(** ** Lemmas: the branches of a job *)

Section Branches.
Context {B : Type} `{!ObjectStore B} `{!Json BuildJob, !Json FunctionBuiltEvent}.
Context (zp : ZIPProcessor) (d : DockerBuilder) (e : WorkerEnv).
Implicit Types w : World B.

(** The notification at the start changes nothing the branches look at. *)
Lemma processBuildJob_branch job body w r w' :
  json_Unmarshal body = Ok job → processBuildJob zp d e body w = (r, w') →
  (∃ why, r = Panic why) ∨
  ∃ w0, same_stores w w0 ∧ same_logs w w0
    ∧ (if bool_decide (bj_RepoURL job ≠ "") then docker_build d e job ;;! finish_build e job
       else zip_build zp e job)%go w0 = (r, w').
Proof.
  intros Hj. unfold processBuildJob. unfold st_bind at 1. unfold st_lift. rewrite Hj. unfold st_bind at 1.
  destruct (st_ignore _ w) as [x w0] eqn:Hn.
  assert (same_stores w w0 ∧ same_logs w w0) as [Hs Hl].
  { split.
    - by eapply (st_keeps_run same_stores), Hn; apply st_keeps_ignore, on_hooks_stores.
    - by eapply (st_keeps_run same_logs), Hn; apply st_keeps_ignore, on_hooks_logs. }
  destruct x as [[]|er|why].
  - intros Hrun. right. by exists w0.
  - revert Hn. unfold st_ignore. destruct (on_hooks _ w) as [[] ?]; by intros [= <- <-].
  - intros [= <- <-]. left. eauto.
Qed.

(** A repository build publishes nothing. *)
Definition same_queues w w' : Prop := ww_queues w' = ww_queues w.
#[local] Instance same_queues_preorder : PreOrder same_queues.
Proof. split; [done|]. intros w1 w2 w3 H1 H2. unfold same_queues in *. congruence. Qed.

Lemma stores_queues {A} (m : St (World B) A) : st_keeps same_stores m → st_keeps same_queues m.
Proof. intros Hm w. eapply st_wp_mono; [apply Hm|]. by intros r w' (_ & H & _). Qed.
Lemma on_fs_queues {A} (m : St FS A) : st_keeps same_queues (on_fs (B := B) m).
Proof. intros w. unfold st_wp, on_fs, same_queues. by destruct (m _). Qed.
Lemma on_bucket_queues {A} (m : St B A) : st_keeps same_queues (on_bucket m).
Proof. intros w. unfold st_wp, on_bucket, same_queues. by destruct (m _). Qed.
Lemma stream_queues lg j l : st_keeps same_queues (streamBuildLog lg j l).
Proof. apply stores_queues, streamBuildLog_stores. Qed.
Lemma expire_queues lg j : st_keeps same_queues (expireBuildLog lg j).
Proof. apply stores_queues, expireBuildLog_stores. Qed.
Lemma hooks_queues {A} (m : St (list Sent) A) : st_keeps same_queues (on_hooks m).
Proof. apply stores_queues, on_hooks_stores. Qed.
Lemma add_cmd_queues c : st_keeps same_queues (st_modify (add_cmd c)).
Proof. done. Qed.
#[local] Hint Resolve on_fs_queues on_bucket_queues stream_queues expire_queues hooks_queues add_cmd_queues : keeps.

Lemma stream_lines_queues lg j ls : st_keeps same_queues (stream_lines lg j ls).
Proof. induction ls as [|[err l] ls IH]; simpl; keeps. Qed.
#[local] Hint Resolve stream_lines_queues : keeps.

Lemma runCommandStreaming_queues lg c j dir argv : st_keeps same_queues (runCommandStreaming lg c j dir argv).
Proof. unfold runCommandStreaming. destruct (cv_run c argv) as [lines [err|]]; keeps. Qed.
#[local] Hint Resolve runCommandStreaming_queues : keeps.

Lemma docker_build_queues job :
  st_keeps same_queues (docker_build d e job ;;! finish_build e job)%go.
Proof.
  assert (∀ A what (m : St (World B) A), st_keeps same_queues m → st_keeps same_queues (or_fail e job what m)) as Hor.
  { intros A what m Hm. apply or_fail_keeps; keeps. }
  assert (st_keeps same_queues (CloneAndBuild (wv_log e) (wv_clone e) d (bj_ID job) (bj_FunctionID job)
            (bj_RepoURL job) (bj_Dockerfile job))) as Hclone.
  { unfold CloneAndBuild, clone_steps. destruct (bool_decide (db_ecrRepo d = "")); keeps. }
  apply st_keeps_bind; [keeps| |intros _; apply stores_queues, finish_build_stores].
  unfold docker_build. apply st_keeps_bind; [keeps|by apply Hor|intros image].
  apply st_keeps_bind; [keeps|apply Hor; keeps|intros _; keeps].
Qed.
End Branches.

(** ** Theorems *)

Section Theorems.
Context {B : Type} `{!ObjectStore B, !ObjectStoreLaws B}.
Context `{!Json BuildJob, !Json BuildMetadata, !Json FunctionBuiltEvent, !JsonObject}.
Implicit Types w : World B.

(** C36.  Creating a function.  A request is answered 202 exactly when a job
    for it was put on the build queue, which then had fewer than 50 jobs; the
    job names the package, which is in the bucket, and has a positive memory
    size and timeout.  Every other answer leaves all queues as they were. *)
Theorem handleCreateFunction_queues e rw r w rw1 w1 :
  rw_status rw = None → handleCreateFunction e rw r w = (Ok rw1, w1) →
  (rw_status rw1 = Some 202 ∧ ∃ req key, me_decode e (rq_Body r) = Ok req ∧ missing_fields req = false
     ∧ Z.of_nat (length (messages (ww_queues w) QueueName)) < 50
     ∧ messages (ww_queues w1) QueueName
         = messages (ww_queues w) QueueName ++ [json_Marshal (build_job e req key)]
     ∧ package_stored e req key (ww_bucket w1)
     ∧ 0 < bj_MemoryMB (build_job e req key) ∧ 0 < bj_TimeoutSecs (build_job e req key))
  ∨ (rw_status rw1 ∈ [Some 400; Some 409; Some 500; Some 503]
     ∧ ∀ n, messages (ww_queues w1) n = messages (ww_queues w) n).
Proof.
  intros Hs Hrun.
  destruct (handleCreateFunction_inv _ _ _ _ _ _ Hs Hrun) as [(Hst & Hq & _)|(req & Hd & Hm & Hlen & Hb)].
  { right. split; [done|]. intros n. by rewrite Hq. }
  destruct (start_build_spec _ _ _ _ _ _ Hs Hb) as [(key & -> & Hq & _ & Hp & _)|[Hst Hq]].
  - left. split; [by apply accepted_status|]. exists req, key. split_and!; [done..| |].
    all: unfold build_job; simpl; case_bool_decide; lia.
  - right. split; [|done]. rewrite Hst. clear. set_solver.
Qed.

(** What workers do to the world, job after job. *)
Definition worker_step w w' : Prop :=
  ∃ zp d e body, w' = (processBuildJob zp d e body w).2.

(** C35.  One build per configuration.  Once a request was accepted and its
    record saved, a request with the same hash is answered 409 with the ids
    of the first one and changes nothing, however many jobs workers have
    processed in between and whether they succeeded: also when the build of
    the first request failed, so that it can never be retried. *)
Theorem handleCreateFunction_once e1 rw r1 w req1 rw1 w1 w2 e2 rw2 r2 req2 :
  rw_status rw = None → handleCreateFunction e1 rw r1 w = (Ok rw1, w1) → rw_status rw1 = Some 202 →
  me_decode e1 (rq_Body r1) = Ok req1 → me_save_err e1 = None →
  json_Unmarshal (json_Marshal (build_metadata e1 req1)) = Ok (build_metadata e1 req1) →
  rtc worker_step w1 w2 →
  CanAcceptRequest (me_depth e2) QueueName (ww_queues w2) (ww_rejections w2) = (Ok (true, ""), ww_rejections w2) →
  me_decode e2 (rq_Body r2) = Ok req2 → missing_fields req2 = false → me_get_err e2 = None →
  requestHash req2 = requestHash req1 →
  handleCreateFunction e2 rw2 r2 w2 = (Ok (conflict (build_metadata e1 req1) rw2), w2).
Proof.
  intros Hs Hrun H202 Hd Hsave Hjson Hrtc Hcan Hd2 Hm2 Hget Hhash.
  assert (os_Get (ww_bucket w1) (metadata_key (requestHash req1)) = Some (json_Marshal (build_metadata e1 req1)))
    as Hrec.
  { destruct (handleCreateFunction_inv _ _ _ _ _ _ Hs Hrun) as [(Hst & _)|(req & Hd' & _ & _ & Hb)].
    { rewrite H202 in Hst. exfalso. clear -Hst. set_solver. }
    rewrite Hd in Hd'. injection Hd' as <-.
    destruct (start_build_spec _ _ _ _ _ _ Hs Hb) as [(key & _ & _ & _ & _ & Hsv)|[Hst _]]; [by apply Hsv|].
    rewrite H202 in Hst. done. }
  assert (same_metadata w1 w2) as Hsame.
  { apply (rtc_preserves worker_step (same_metadata w1) w1 w2); [|reflexivity|done].
    intros a b Ha (zp & d & e & body & ->). etransitivity; [exact Ha|]. apply processBuildJob_metadata. }
  unfold handleCreateFunction, st_try, on_rejections. rewrite Hcan, Hd2, Hm2.
  replace (mkWorld _ _ _ _ _ _ _ _) with w2 by by destruct w2.
  unfold CheckBuildMetadata. rewrite Hget, Hhash, Hsame, Hrec, Hjson. done.
Qed.

(** C34.  The log of a package build.  If Redis answers, a job that starts with
    an empty log leaves the worker's messages up to the step it reached and
    then exactly one terminal line: [__BUILD_DONE__] if the job succeeded, and
    otherwise [__BUILD_FAILED__] with the message of the error it returned.
    No earlier line is terminal, and the stream has its four-hour expiry. *)
Theorem processBuildJob_log zp d e body job w r w' :
  json_Unmarshal body = Ok job → bj_RepoURL job = "" →
  (∀ line, lv_append_err (wv_log e) line = None) → lv_expire_err (wv_log e) = None →
  job_log w (bj_ID job) = [] → processBuildJob zp d e body w = (r, w') → (∀ why, r ≠ Panic why) →
  ww_ttl w' !! StreamKey (bj_ID job) = Some buildLogTTL
  ∧ ∃ k last, job_log w' (bj_ID job) = take k zip_messages ++ [last]
      ∧ Forall (λ l, is_sentinel l = false) (take k zip_messages) ∧ is_sentinel last = true
      ∧ match r with
        | Ok _ => last = "__BUILD_DONE__"
        | Err er => last = "__BUILD_FAILED__: " +:+ error_Error er
        | Panic _ => False
        end.
Proof.
  intros Hj Hrepo Happ Hexp H0 Hrun Hnp.
  destruct (processBuildJob_branch zp d e _ _ _ _ _ Hj Hrun) as [[why ->]|(w0 & _ & [Hl _] & Hb)];
    [by destruct (Hnp why)|].
  rewrite bool_decide_eq_false_2 in Hb by (by intros Hne; apply Hne).
  assert (log_is job [] w0) as Hlog by (split; [by unfold job_log; rewrite Hl|simpl; unfold maxLen; lia]).
  pose proof (st_wp_run _ _ _ _ _ (zip_build_log zp e job Happ Hexp w0 Hlog) Hb) as Hz.
  assert (Forall (λ l, is_sentinel l = false) zip_messages) as Hall by (repeat constructor).
  assert ((∃ k, log_failed job (take k zip_messages) r w') ∨ log_done job zip_messages r w') as [[k Hf]|Hd].
  { unfold zip_log in Hz. destruct r; [..|by destruct (Hnp why)]; destruct Hz as [?|(k & _ & ?)]; eauto. }
  - destruct Hf as (msg & -> & Hlast & Hexpd). split; [done|]. exists k, ("__BUILD_FAILED__: " +:+ msg).
    split_and!; [done|by apply Forall_take|done|done].
  - destruct Hd as (-> & Hlast & Hexpd). split; [done|]. exists 5%nat, "__BUILD_DONE__". by split_and!.
Qed.

(** C37.  Artifacts.  When a package build succeeds, every file that was
    unpacked from the package is in the bucket under the function's prefix,
    with its contents; and the function is announced on [function.built]
    exactly if the broker took the message, while the job is reported done
    either way.  A repository build is never announced. *)
Theorem processBuildJob_artifacts zp d e body job w w' :
  json_Unmarshal body = Ok job → processBuildJob zp d e body w = (Ok tt, w') →
  if bool_decide (bj_RepoURL job = "") then
    ∃ data dir f files, os_Get (ww_bucket w) (bj_PackageURL job) = Some data
      ∧ ZIP_Process (wv_unzip e) zp (wv_dir_err e) data (bj_FunctionID job) (ww_fs w) = (Ok dir, f)
      ∧ wv_walk e dir f = (files, None)
      ∧ (NoDup files.*1 → ∀ rel content, (rel, content) ∈ files →
           os_Get (ww_bucket w') (artifact_key (bj_FunctionID job) rel) = Some content)
      ∧ messages (ww_queues w') FunctionBuiltQueue
        = messages (ww_queues w) FunctionBuiltQueue
          ++ (if wv_live e && bool_decide (wv_declare_err e = None) && bool_decide (wv_publish_err e = None)
              then [json_Marshal (built_event e job)] else [])
  else ww_queues w' = ww_queues w.
Proof.
  intros Hj Hrun.
  destruct (processBuildJob_branch zp d e _ _ _ _ _ Hj Hrun) as [[why Hwhy]|(w0 & (Hb & Hq & Hf) & _ & Hbr)];
    [done|].
  destruct (decide (bj_RepoURL job = "")) as [Hrepo|Hrepo].
  - rewrite bool_decide_eq_false_2 in Hbr by (by intros Hne; apply Hne). rewrite bool_decide_eq_true_2 by done.
    apply zip_build_Ok in Hbr as (data & dir & f & files & Hd & Hz & Hw & Hu & Hp).
    rewrite Hb in Hd, Hu. rewrite Hf in Hz. rewrite Hq in Hp. exists data, dir, f, files.
    split_and!; [done..| |].
    + intros Hnd. by apply (upload_files_spec _ _ _ _ _ _ _ Hnd Hu).
    + rewrite Hp.
      destruct (Publisher_Publish_spec (wv_declare_err e) (wv_publish_err e) (wv_live e) FunctionBuiltQueue
        (json_Marshal (built_event e job)) (ww_queues w)) as [(q & -> & Hm & _ & -> & -> & ->)|(er & q & Hpub & Hm)];
        [done|].
      rewrite Hpub. simpl. rewrite Hm. destruct (wv_live e) eqn:El; simpl; [|by rewrite app_nil_r].
      repeat case_bool_decide; simpl; try by rewrite app_nil_r.
      exfalso. destruct (publish_ok FunctionBuiltQueue (json_Marshal (built_event e job)) (ww_queues w)) as [q' Hok].
      congruence.
  - rewrite bool_decide_eq_true_2 in Hbr by done. rewrite bool_decide_eq_false_2 by done.
    pose proof (st_keeps_run _ _ _ _ _ (docker_build_queues d e job) Hbr) as Hsq. unfold same_queues in Hsq.
    congruence.
Qed.
End Theorems.

(** ** Concrete runs *)

Module BuildDemo.

Definition demo_notify : NotifyEnv := mkNotifyEnv false (Ok ("http", "h")) (Ok []) 0 [] None None None 200.
Definition demo_req : CreateFunctionRequest := mkCreateReq "hello" "nodejs18" "index.handler" "zip" "" "" "" 0 0.
Definition demo_master : MasterEnv :=
  mkMasterEnv (mkDepthEnv true None None) (λ _, Ok demo_req) None "fn-1" "job-1" None true None None demo_notify 1 2
    None.
Definition demo_job : BuildJob :=
  mkJob "job-1" "fn-1" "hello" "nodejs18" "index.handler" 128 30 "packages/fn-1/package.zip" "" "" "" "queued" 1
    None None "".

Definition demo_event (id : string) : FunctionBuiltEvent :=
  mkBuilt id "hello" "nodejs18" "index.handler" ("functions/" +:+ id +:+ "/") 128 30 3.

(** Codecs that know the one value the runs use. *)
#[export] Instance demo_job_json : Json BuildJob :=
  {| json_Marshal := bj_ID; json_Unmarshal := λ _, Ok demo_job |}.
#[export] Instance demo_metadata_json : Json BuildMetadata :=
  {| json_Marshal := bm_JobID; json_Unmarshal := λ _, Ok (build_metadata demo_master demo_req) |}.
#[export] Instance demo_event_json : Json FunctionBuiltEvent :=
  {| json_Marshal := fb_FunctionID; json_Unmarshal := λ s, Ok (demo_event s) |}.
#[export] Instance demo_object_json : JsonObject := {| json_Object := λ o, foldr (λ kv s, kv.1 +:+ s) "" o |}.

Definition demo_world : World (gmap string string) :=
  mkWorld ∅ (mkFS ∅ ∅ 0) (<[QueueName := []]> ∅) [] ∅ ∅ [] [].
Definition demo_request : Request := mkRequest "POST" "/functions" ∅ ∅ (mkBody "{}" None) "10.0.0.1:1".
Definition demo_created : World (gmap string string) :=
  (handleCreateFunction demo_master rw_new demo_request demo_world).2.

Definition demo_answer : ResponseWriter :=
  match (handleCreateFunction demo_master rw_new demo_request demo_world).1 with Ok rw => rw | _ => rw_new end.

Lemma demo_create_ok :
  handleCreateFunction demo_master rw_new demo_request demo_world = (Ok demo_answer, demo_created).
Proof.
  assert (is_Ok (handleCreateFunction demo_master rw_new demo_request demo_world).1 = true) as H
    by (vm_compute; reflexivity).
  unfold demo_answer, demo_created. by destruct (handleCreateFunction _ _ _ _) as [[] ?].
Qed.

Lemma demo_answer_202 : rw_status demo_answer = Some 202.
Proof. vm_compute. reflexivity. Qed.

Lemma demo_queue_empty : messages (ww_queues demo_world) QueueName = [].
Proof. reflexivity. Qed.

Lemma handleCreateFunction_queues_witness :
  (length (messages (ww_queues demo_created) QueueName) ≤ 1)%nat.
Proof.
  destruct (handleCreateFunction_queues demo_master rw_new demo_request demo_world _ _ eq_refl demo_create_ok)
    as [(_ & req & key & _ & _ & _ & -> & _)|[_ ->]].
  - rewrite demo_queue_empty. simpl. lia.
  - rewrite demo_queue_empty. simpl. lia.
Defined.

(** A worker whose download fails. *)
Definition demo_worker (get_err : option error) : WorkerEnv :=
  mkWorkerEnv (mkLogEnv (λ _, None) None (λ _, 0%nat)) (mkCloneEnv None (λ _, ([], None))) demo_notify demo_notify
    None get_err None (λ _, Ok demo_zip) None None
    (λ _ f, ((λ kv, (TrimPrefix kv.1 "/work/fn-1/", kv.2)) <$> map_to_list (fs_files f), None))
    (λ _, None) (λ _, None) true None None 3.
Definition demo_run (get_err : option error) : outcome unit * World (gmap string string) :=
  processBuildJob (mkZIPProcessor "/work") (mkDockerBuilder "/work" "") (demo_worker get_err) "job-1" demo_created.

Lemma demo_step err : rtc worker_step demo_created (demo_run err).2.
Proof. apply rtc_once. by do 4 eexists. Qed.

Lemma handleCreateFunction_once_witness :
  handleCreateFunction demo_master rw_new demo_request (demo_run (Some (NewError "timeout"))).2
  = (Ok (conflict (build_metadata demo_master demo_req) rw_new), (demo_run (Some (NewError "timeout"))).2).
Proof.
  apply (handleCreateFunction_once demo_master rw_new demo_request demo_world demo_req
    demo_answer demo_created _ demo_master rw_new demo_request demo_req
    eq_refl demo_create_ok demo_answer_202 eq_refl eq_refl eq_refl (demo_step _)); [|reflexivity..].
  vm_compute. reflexivity.
Defined.

Lemma demo_run_ok : demo_run None = (Ok tt, (demo_run None).2).
Proof.
  assert (is_Ok (demo_run None).1 = true) as H by (vm_compute; reflexivity).
  by destruct (demo_run None) as [[[]| |] ?].
Qed.

Lemma demo_parse : json_Unmarshal "job-1" = Ok demo_job.
Proof. reflexivity. Qed.

Lemma demo_log_empty : job_log demo_created "job-1" = [].
Proof. vm_compute. reflexivity. Qed.

Lemma processBuildJob_log_witness :
  ww_ttl (demo_run None).2 !! StreamKey "job-1" = Some buildLogTTL.
Proof.
  exact (proj1 (processBuildJob_log (mkZIPProcessor "/work") (mkDockerBuilder "/work" "") (demo_worker None)
    "job-1" demo_job demo_created (Ok tt) (demo_run None).2 demo_parse eq_refl (λ _, eq_refl) eq_refl demo_log_empty
    demo_run_ok ltac:(discriminate))).
Defined.

Lemma processBuildJob_artifacts_witness :
  messages (ww_queues (demo_run None).2) FunctionBuiltQueue
  = messages (ww_queues demo_created) FunctionBuiltQueue ++ ["fn-1"].
Proof.
  destruct (processBuildJob_artifacts (mkZIPProcessor "/work") (mkDockerBuilder "/work" "") (demo_worker None) "job-1"
    demo_job demo_created (demo_run None).2 demo_parse demo_run_ok) as (? & ? & ? & ? & _ & _ & _ & _ & H).
  exact H.
Defined.
End BuildDemo.

(** Different requests can have one hash. *)
Lemma requestHash_ambiguous :
  requestHash (mkCreateReq "a:b" "c" "h" "zip" "" "" "" 0 0) = requestHash (mkCreateReq "a" "b:c" "h" "zip" "" "" "" 0 0).
Proof. reflexivity. Qed.
