(* ===== verification/Registration.v ===== *)
(** * Registration (lambda-service internal/registration/consumer.go)

    The consumer of [function.built]: it fetches the handler's source from the
    build's artifacts, stores it under its content key and saves the function.
    The state is the repository and the bucket.  The last theorem runs the
    build worker, this consumer and the function service one after another. *)

From Stdlib Require Import ZArith Lia Ascii.
From stdpp Require Import base strings gmap list numbers.
From S2P Require Import Prelude.
From S2P Require Import Domain.
From S2P Require Import Postgres.
From S2P Require Import CodeStorage.
From S2P Require Import FunctionService.
From S2P Require Import FilePath.
From S2P Require Import Zip.
From S2P Require Import BuildQueue.
From S2P Require Import BuildService.
Open Scope Z_scope.

(** ** The consumer *)

(** [strings.SplitN(handler, ".", 2)[0]]: what precedes the first dot. *)
Fixpoint before_dot (s : string) : string :=
  match s with
  | EmptyString => EmptyString
  | String a s' => if bool_decide (a = "."%char) then EmptyString else String a (before_dot s')
  end.

Definition handlerFilename (runtime handler : string) : string :=
  let module := before_dot handler in
  if HasPrefix runtime "nodejs" then module +:+ ".js"
  else if HasPrefix runtime "python" then module +:+ ".py"
  else module.

Section Consumer.
Context {SR B : Type} {HR : FunctionRepository SR} `{!ObjectStore B} `{!Blake3} `{!Json FunctionBuiltEvent}.
Context (s3 : S3Storage).
Open Scope golang_scope.

(** The function an event stands for; the clock is read once. *)
Definition registered_function (evt : FunctionBuiltEvent) (codeKey : string) (now : Z) : Function :=
  let memoryMB := if bool_decide (fb_MemoryMB evt ≤ 0) then 128 else fb_MemoryMB evt in
  let timeoutSecs := if bool_decide (fb_TimeoutSecs evt ≤ 0) then 30 else fb_TimeoutSecs evt in
  mkFunction (fb_FunctionID evt) (fb_Name evt) (fb_Runtime evt) (fb_Handler evt) codeKey
    (wrap64 (timeoutSecs * Second)) memoryMB ∅ now now.

Definition handle (e3 : S3Env) (now : Z) (body : string) : St (SR * B) unit :=
  evt <-! st_wrap "unmarshal event" (st_lift (json_Unmarshal body)) ;;
  let handlerKey := fb_S3Prefix evt +:+ handlerFilename (fb_Runtime evt) (fb_Handler evt) in
  code <-! st_wrap ("download handler from " +:+ handlerKey) (st_snd (S3_RetrieveRaw s3 e3 handlerKey)) ;;
  codeKey <-! st_wrap "store code in lambda-service S3" (st_snd (S3_Store s3 e3 (fb_FunctionID evt) code)) ;;
  st_wrap "save function to Postgres" (st_fst (repo_Save (registered_function evt codeKey now))).

(** One turn of the loop: the context ends, the channel is closed, or a
    message arrives, with what its handling meets. *)
Inductive Delivery :=
  | DlvDone
  | DlvClosed
  | DlvMsg (e3 : S3Env) (now : Z) (body : string).

(** The answers given to the broker, and how [Start] returned; [None] while it
    still waits. *)
Fixpoint consume_loop (ds : list Delivery) (s : SR * B)
    : option (outcome unit) * (SR * B) * list (string * Verdict) :=
  match ds with
  | [] => (None, s, [])
  | DlvDone :: _ => (Some (Ok tt), s, [])
  | DlvClosed :: _ => (Some (Err (NewError "channel closed")), s, [])
  | DlvMsg e3 now body :: rest =>
      match handle e3 now body s with
      | (Panic w, s1) => (Some (Panic w), s1, [])
      | (r, s1) =>
          let v := if is_Ok r then VAck else VNack in
          let '(out, s2, vs) := consume_loop rest s1 in (out, s2, (body, v) :: vs)
      end
  end.

Definition Start (declare_err consume_err : option error) (ds : list Delivery) (s : SR * B)
    : option (outcome unit) * (SR * B) * list (string * Verdict) :=
  match declare_err, consume_err with
  | Some e, _ => (Some (Err (Wrap "declare queue" e)), s, [])
  | None, Some e => (Some (Err (Wrap "register consumer" e)), s, [])
  | None, None => consume_loop ds s
  end.
End Consumer.

(** [NewConsumer] and [Close], on the connections of the process. *)
Definition Registration_NewConsumer (dial_err channel_err qos_err : option error) (n : Net) : outcome nat * Net :=
  match dial_err with
  | Some e => (Err (Wrap "connect to RabbitMQ" e), n)
  | None =>
      let '(c, n1) := net_dial n in
      match channel_err, qos_err with
      | Some e, _ => (Err (Wrap "open channel" e), net_close c n1)
      | None, Some e => (Err (Wrap "set QoS" e), net_close c n1)
      | None, None => (Ok c, n1)
      end
  end.

Definition Registration_Close (c : nat) (n : Net) : Net := net_close c n.

(** ** Lemmas *)

Section Lemmas.
Context {B : Type} `{!ObjectStore B, !ObjectStoreLaws B} `{!Blake3, !Blake3Laws} `{!Json FunctionBuiltEvent}.
Implicit Types (d : DB) (b : B).

(** The consumer on the production stack. *)
Definition stack_handle (s3 : S3Storage) (e : PgEnv) (e3 : S3Env) (body : string) : St (DB * B) unit :=
  handle (HR := PG_FunctionRepository e) s3 e3 (pg_now e) body.

Definition handler_key (evt : FunctionBuiltEvent) : string :=
  fb_S3Prefix evt +:+ handlerFilename (fb_Runtime evt) (fb_Handler evt).

Lemma S3_RetrieveRaw_Ok s3 e3 key b code b' :
  S3_RetrieveRaw s3 e3 key b = (Ok code, b') → b' = b ∧ os_Get b key = Some code ∧ key ≠ "".
Proof.
  unfold S3_RetrieveRaw. case_bool_decide; [done|]. intros (c & b1 & Hg & Hr)%st_bind_Ok.
  unfold S3_get in Hg. destruct (s3_get_err e3); [done|]. destruct (os_Get b key) eqn:E; [|done].
  injection Hg as -> <-. destruct (s3_read_err e3); [done|]. by injection Hr as -> <-.
Qed.

(** What a successful registration did. *)
Lemma stack_handle_Ok s3 e e3 body evt d b d' b' :
  json_Unmarshal body = Ok evt → stack_handle s3 e e3 body (d, b) = (Ok tt, (d', b')) →
  ∃ code, os_Get b (handler_key evt) = Some code
    ∧ S3_Store s3 e3 (fb_FunctionID evt) code b = (Ok (key_of s3 code), b')
    ∧ PG_Save (pg_now e) (pg_save_err e) (registered_function evt (key_of s3 code) (pg_now e)) d = (Ok tt, d').
Proof.
  intros Hj (evt' & s1 & H1%st_wrap_Ok & Hr)%st_bind_Ok. unfold st_lift in H1. rewrite Hj in H1.
  injection H1 as <- <-.
  apply st_bind_Ok in Hr as (code & [d2 b2] & H2%st_wrap_Ok & Hr).
  apply st_bind_Ok in Hr as (key & [d3 b3] & H3%st_wrap_Ok & H4%st_wrap_Ok).
  unfold st_snd in H2, H3. unfold st_fst in H4. cbn [fst snd] in *.
  destruct (S3_RetrieveRaw _ _ _ b) as [r2 x2] eqn:E2. injection H2 as -> <- <-.
  apply S3_RetrieveRaw_Ok in E2 as (-> & Hget & _).
  destruct (S3_Store _ _ _ _ b) as [r3 x3] eqn:E3. injection H3 as -> <- <-.
  pose proof (S3_Store_key _ _ _ _ _ _ _ E3) as ->.
  destruct (repo_Save _ d) as [r4 x4] eqn:E4. injection H4 as -> <- <-. by exists code.
Qed.

(** A registered function can be read, with the code of its handler file. *)
Lemma stack_handle_Get s3 e e3 body evt d b d' b' now :
  db_inv d → content_ok s3 b → json_Unmarshal body = Ok evt →
  stack_handle s3 e e3 body (d, b) = (Ok tt, (d', b')) →
  ∃ code, os_Get b (handler_key evt) = Some code
    ∧ stack_Get s3 (pg_ok now) s3_ok (fb_FunctionID evt) (d', b')
      = (Ok (stored (pg_now e) (db_functions d !! fb_FunctionID evt)
              (registered_function evt code (pg_now e))), (d', b')).
Proof.
  intros Hd Hb Hj Hrun. destruct (stack_handle_Ok _ _ _ _ _ _ _ _ _ Hj Hrun) as (code & Hget & Hst & Hsv).
  exists code. split; [done|].
  destruct (cs_store_ok (C := S3_CodeStorage s3 e3) b _ _ _ b' Hb Hst) as (_ & Hobj & _).
  set (f := registered_function evt (key_of s3 code) (pg_now e)) in *.
  assert (Hok : (PG_Save (pg_now e) (pg_save_err e) f d).1 = Ok tt) by by rewrite Hsv.
  destruct (PG_Save_spec _ _ _ _ Hok) as (_ & _ & row & Hrow & Hd').
  pose proof (db_run_inv (pg_now e) (Ok "") (pg_save_err e) (CSave f) d Hd) as Hinv. simpl in Hinv.
  rewrite Hsv in Hinv, Hd'. simpl in Hinv, Hd'. subst d'.
  erewrite (stack_Get_found s3 now _ b' (fb_FunctionID evt) row code).
  - by rewrite Hrow.
  - apply Hinv.
  - simpl. by rewrite lookup_insert_eq.
  - by apply (f_equal fn_Code) in Hrow.
  - done.
Qed.
End Lemmas.

(** Where the worker puts the file that the consumer reads. *)
Lemma handler_key_artifact e job : handler_key (built_event e job)
  = artifact_key (bj_FunctionID job) (handlerFilename (bj_Runtime job) (bj_Handler job)).
Proof.
  unfold handler_key, artifact_key, built_event. cbn [fb_S3Prefix fb_Runtime fb_Handler].
  by rewrite !str_app_assoc.
Qed.

(** The fields of a job, as the database gives them back. *)
Lemma registered_fields e job code now old :
  0 < bj_MemoryMB job → 0 < bj_TimeoutSecs job < 2 ^ 31 →
  let fn := stored now old (registered_function (built_event e job) code now) in
  fn_Code fn = code ∧ fn_Name fn = bj_Name job ∧ fn_Runtime fn = bj_Runtime job
  ∧ fn_Handler fn = bj_Handler job ∧ fn_Memory fn = bj_MemoryMB job
  ∧ fn_Timeout fn = bj_TimeoutSecs job * Second.
Proof.
  intros Hm Ht. simpl. rewrite !bool_decide_eq_false_2 by lia.
  rewrite wrap64_id by (i64; unfold Second; lia). rewrite Z.quot_mul by done. by split_and!.
Qed.

(** ** Theorems *)

Section Theorems.
Context {B : Type} `{!ObjectStore B, !ObjectStoreLaws B} `{!Blake3, !Blake3Laws}.
Context `{!Json BuildJob, !Json FunctionBuiltEvent}.
Implicit Types (d : DB) (b : B).

(** A name is registered once.  If another function has the name of the
    function that was built, the event is refused and never delivered again,
    and the functions stay as they were: a new build of changed code under the
    same name never goes live, though its build was reported done. *)
Theorem rebuild_not_registered s3 e e3 body evt d b ds id row :
  db_inv d → json_Unmarshal body = Ok evt →
  db_functions d !! id = Some row → fr_name row = fb_Name evt → id ≠ fb_FunctionID evt →
  (∃ err b', stack_handle s3 e e3 body (d, b) = (Err err, (d, b')))
  ∧ (consume_loop (HR := PG_FunctionRepository e) s3 (DlvMsg e3 (pg_now e) body :: ds) (d, b)).2 !! 0%nat
    = Some (body, VNack).
Proof.
  intros Hd Hj Hrow Hname Hid.
  assert (∃ err b', stack_handle s3 e e3 body (d, b) = (Err err, (d, b'))) as (err & b' & Herr).
  { unfold stack_handle, handle, st_bind, st_wrap, st_lift, st_snd, st_fst. rewrite Hj. cbn [wrap_err fst snd].
    destruct (S3_RetrieveRaw_cases s3 e3 (handler_key evt) b) as [[code E]|[er E]]; unfold handler_key in E; rewrite E;
      cbn [wrap_err fst snd]; [|eauto].
    destruct (S3_Store_cases s3 e3 (fb_FunctionID evt) code b) as [(b1 & ->)|(er & b1 & ->)]; cbn [wrap_err fst snd];
      [|eauto].
    assert (∃ er, PG_Save (pg_now e) (pg_save_err e) (registered_function evt (key_of s3 code) (pg_now e)) d
                  = (Err er, d)) as [er Hsv].
    { apply PG_Save_name_taken. simpl. eapply name_taken_by; [apply (inv_functions_pk _ Hd)|exact Hrow|done|done]. }
    simpl repo_Save. rewrite Hsv. cbn [wrap_err]. eauto. }
  split; [by exists err, b'|]. simpl. unfold stack_handle in Herr. rewrite Herr. simpl.
  by destruct (consume_loop _ _ _) as [[? ?] ?].
Qed.

(** From upload to invocation.  Take a package build that succeeded and
    whose announcement was published, and let the announcement be registered
    in a database with the usual constraints.  If the handler's file is among
    the files that were unpacked, then reading the function by its id gives
    that file's contents as its code, and the name, runtime, handler, memory
    size and timeout of the job. *)
Theorem built_function_served zp dk e body job w w' s3 pe e3 d d' b' now :
  json_Unmarshal body = Ok job → bj_RepoURL job = "" → 0 < bj_MemoryMB job → 0 < bj_TimeoutSecs job < 2 ^ 31 →
  processBuildJob (B := B) zp dk e body w = (Ok tt, w') →
  json_Unmarshal (json_Marshal (built_event e job)) = Ok (built_event e job) →
  db_inv d → content_ok s3 (ww_bucket w') →
  stack_handle s3 pe e3 (json_Marshal (built_event e job)) (d, ww_bucket w') = (Ok tt, (d', b')) →
  ∃ data dir f files, os_Get (ww_bucket w) (bj_PackageURL job) = Some data
    ∧ ZIP_Process (wv_unzip e) zp (wv_dir_err e) data (bj_FunctionID job) (ww_fs w) = (Ok dir, f)
    ∧ wv_walk e dir f = (files, None)
    ∧ ∀ code, NoDup files.*1 → (handlerFilename (bj_Runtime job) (bj_Handler job), code) ∈ files →
      ∃ fn, stack_Get s3 (pg_ok now) s3_ok (bj_FunctionID job) (d', b') = (Ok fn, (d', b'))
        ∧ fn_Code fn = code ∧ fn_Name fn = bj_Name job ∧ fn_Runtime fn = bj_Runtime job
        ∧ fn_Handler fn = bj_Handler job ∧ fn_Memory fn = bj_MemoryMB job
        ∧ fn_Timeout fn = bj_TimeoutSecs job * Second.
Proof.
  intros Hj Hrepo Hmem Hto Hrun Hevt Hd Hb Hreg.
  destruct (processBuildJob_branch zp dk e _ _ _ _ _ Hj Hrun) as [[why Hwhy]|(w0 & (Hbk & _ & Hfs) & _ & Hbr)];
    [done|].
  rewrite bool_decide_eq_false_2 in Hbr by (by intros Hne; apply Hne).
  apply zip_build_Ok in Hbr as (data & dir & f & files & Hdata & Hz & Hw & Hu & _).
  rewrite Hfs in Hz. rewrite Hbk in Hdata.
  exists data, dir, f, files. split_and!; [done..|]. intros code Hnd Hin.
  destruct (upload_files_spec _ _ _ _ _ _ _ Hnd Hu) as [Hart _]. apply Hart in Hin.
  destruct (stack_handle_Get s3 pe e3 _ _ d _ d' b' now Hd Hb Hevt Hreg) as (code' & Hcode & Hget).
  assert (code' = code) as ->.
  { rewrite handler_key_artifact in Hcode. congruence. }
  exact (ex_intro _ _ (conj Hget (registered_fields e job code (pg_now pe) _ Hmem Hto))).
Qed.
End Theorems.

(** ** Concrete runs *)

Module RegistrationDemo.
Import BuildDemo.
#[local] Existing Instances tagged_digest tagged_digest_laws.

(** A bucket with no object under the code prefix. *)
Lemma content_ok_fresh (b : gmap string string) :
  forallb (λ kv, negb (HasPrefix kv.1 "fn/")) (map_to_list b) = true → content_ok demo_s3 b.
Proof.
  intros Hall c v Hc. change (b !! key_of demo_s3 c = Some v) in Hc. apply elem_of_map_to_list in Hc. rewrite forallb_forall in Hall.
  apply list_elem_of_In, Hall in Hc. discriminate.
Qed.

Definition demo_registered : outcome unit * (DB * gmap string string) :=
  stack_handle demo_s3 (pg_ok 5) s3_ok "fn-1" (initSchema, ww_bucket (demo_run None).2).

Lemma demo_registered_ok :
  demo_registered = (Ok tt, (demo_registered.2.1, demo_registered.2.2)).
Proof.
  assert (is_Ok demo_registered.1 = true) as H by (vm_compute; reflexivity).
  by destruct demo_registered as [[[]| |] [? ?]].
Qed.

Lemma demo_bucket_ok : content_ok demo_s3 (ww_bucket (demo_run None).2).
Proof. apply content_ok_fresh. vm_compute. reflexivity. Qed.

Lemma demo_event_of id : json_Unmarshal id = Ok (demo_event id).
Proof. reflexivity. Qed.

Lemma demo_event_parse : json_Unmarshal (json_Marshal (built_event (demo_worker None) demo_job))
  = Ok (built_event (demo_worker None) demo_job).
Proof. reflexivity. Qed.

Lemma demo_db_ok : db_inv demo_registered.2.1.
Proof.
  destruct (stack_handle_Ok demo_s3 (pg_ok 5) s3_ok "fn-1" (demo_event "fn-1") initSchema
    (ww_bucket (demo_run None).2) _ _ (demo_event_of "fn-1") demo_registered_ok) as (code & _ & _ & Hsv).
  pose proof (db_run_inv 5 (Ok "") None (CSave (registered_function (demo_event "fn-1") (key_of demo_s3 code) 5))
    initSchema initSchema_inv) as Hinv. simpl in Hinv, Hsv. by rewrite Hsv in Hinv.
Qed.

Lemma built_function_served_witness :
  ∃ data dir f files, os_Get (ww_bucket demo_created) "packages/fn-1/package.zip" = Some data
    ∧ ZIP_Process (λ _, Ok demo_zip) (mkZIPProcessor "/work") None data "fn-1" (ww_fs demo_created) = (Ok dir, f)
    ∧ wv_walk (demo_worker None) dir f = (files, None)
    ∧ ∀ code, NoDup files.*1 → ("index.js", code) ∈ files →
      ∃ fn, stack_Get demo_s3 (pg_ok 9) s3_ok "fn-1" demo_registered.2
          = (Ok fn, (demo_registered.2.1, demo_registered.2.2)) ∧ fn_Code fn = code ∧ fn_Timeout fn = 30 * Second.
Proof.
  destruct (built_function_served (mkZIPProcessor "/work") (mkDockerBuilder "/work" "") (demo_worker None) "job-1"
    demo_job demo_created (demo_run None).2 demo_s3 (pg_ok 5) s3_ok initSchema demo_registered.2.1 demo_registered.2.2
    9 demo_parse eq_refl eq_refl (conj eq_refl eq_refl) demo_run_ok demo_event_parse initSchema_inv demo_bucket_ok
    demo_registered_ok) as (data & dir & f & files & H1 & H2 & H3 & H4).
  exists data, dir, f, files. split; [exact H1|]. split; [exact H2|]. split; [exact H3|].
  intros code Hnd Hin. destruct (H4 code Hnd Hin) as (fn & Hg & Hc & _ & _ & _ & _ & Ht).
  exists fn. rewrite (surjective_pairing demo_registered.2). by split_and!.
Defined.

(** The same name under another id. *)
Lemma rebuild_not_registered_witness :
  (consume_loop (HR := PG_FunctionRepository (pg_ok 7)) demo_s3 [DlvMsg s3_ok 7 "fn-2"]
     (demo_registered.2.1, demo_registered.2.2)).2 !! 0%nat = Some ("fn-2", VNack).
Proof.
  assert (∃ row, db_functions demo_registered.2.1 !! "fn-1" = Some row ∧ fr_name row = "hello") as (row & Hr & Hn).
  { vm_compute. by eexists. }
  apply (rebuild_not_registered demo_s3 (pg_ok 7) s3_ok "fn-2" (demo_event "fn-2") demo_registered.2.1
    demo_registered.2.2 [] "fn-1" row demo_db_ok (demo_event_of "fn-2")); [exact Hr|exact Hn|discriminate].
Defined.
End RegistrationDemo.
