(* ===== verification/Strings.v ===== *)
(** * Text (Go standard library)

    [strings.TrimSpace] and [bytes.TrimSpace], base64's standard encoding, and
    what the services rely on of them. *)

From Stdlib Require Import ZArith Lia Ascii.
From stdpp Require Import base strings list numbers.
From S2P Require Import Prelude.

(** ** White space *)

Fixpoint bytes_str (l : list nat) : string :=
  match l with [] => "" | n :: rest => String (ascii_of_nat n) (bytes_str rest) end.

(** The UTF-8 encodings of the characters of which [unicode.IsSpace] holds:
    the six ASCII ones, U+0085, U+00A0, U+1680, U+2000 to U+200A, U+2028,
    U+2029, U+202F, U+205F and U+3000.  None is a prefix of another. *)
Definition space_seqs : list string :=
  ((λ n, bytes_str [n]) <$> [9; 10; 11; 12; 13; 32]) ++
  ((λ n, bytes_str [194; n]) <$> [133; 160]) ++
  [bytes_str [225; 154; 128]] ++
  ((λ n, bytes_str [226; 128; n]) <$> seq 128 11 ++ [168; 169; 175]) ++
  [bytes_str [226; 129; 159]; bytes_str [227; 128; 128]].

(** One space off the front, or off the back. *)
Definition strip_front (s : string) : option string :=
  match List.find (HasPrefix s) space_seqs with
  | Some w => Some (str_drop (String.length w) s)
  | None => None
  end.
Definition strip_back (s : string) : option string :=
  match List.find (HasSuffix s) space_seqs with
  | Some w => Some (str_take (String.length s - String.length w) s)
  | None => None
  end.

(** As often as there is one; a string of [n] bytes has at most [n]. *)
Fixpoint strip (f : string → option string) (n : nat) (s : string) : string :=
  match n with
  | O => s
  | S n' => match f s with Some s' => strip f n' s' | None => s end
  end.

Definition TrimSpace (s : string) : string :=
  let s := strip strip_front (String.length s) s in
  strip strip_back (String.length s) s.

Definition blank (s : string) : bool := bool_decide (TrimSpace s = "").

(** ** Base64 *)

Definition b64_digit (n : nat) : ascii :=
  if bool_decide (n < 26) then ascii_of_nat (65 + n)
  else if bool_decide (n < 52) then ascii_of_nat (71 + n)
  else if bool_decide (n < 62) then ascii_of_nat (n - 4)
  else if bool_decide (n = 62) then "+"%char
  else "/"%char.

(** [base64.StdEncoding.EncodeToString]. *)
Fixpoint base64_encode (s : string) : string :=
  match s with
  | String a (String b (String c rest)) =>
      let x := nat_of_ascii a in let y := nat_of_ascii b in let z := nat_of_ascii c in
      String (b64_digit (x / 4)) (String (b64_digit (x mod 4 * 16 + y / 16))
        (String (b64_digit (y mod 16 * 4 + z / 64)) (String (b64_digit (z mod 64)) (base64_encode rest))))
  | String a (String b EmptyString) =>
      let x := nat_of_ascii a in let y := nat_of_ascii b in
      String (b64_digit (x / 4)) (String (b64_digit (x mod 4 * 16 + y / 16))
        (String (b64_digit (y mod 16 * 4)) "="))
  | String a EmptyString =>
      let x := nat_of_ascii a in
      String (b64_digit (x / 4)) (String (b64_digit (x mod 4 * 16)) "==")
  | EmptyString => EmptyString
  end.

Example base64_vector : base64_encode "light work." = "bGlnaHQgd29yay4=".
Proof. reflexivity. Qed.

(** ** Lemmas *)

(** Digits are distinct, and none is a byte that matters to a quoted string. *)
Lemma b64_digit_inj n m : n < 64 → m < 64 → b64_digit n = b64_digit m → n = m.
Proof.
  intros Hn Hm H. apply (f_equal nat_of_ascii) in H. revert H. unfold b64_digit.
  repeat case_bool_decide; rewrite ?nat_ascii_embedding by lia;
    change (nat_of_ascii "+"%char) with 43; change (nat_of_ascii "/"%char) with 47; lia.
Qed.

Definition b64_safe (a : ascii) : Prop :=
  let n := nat_of_ascii a in n = 43 ∨ 47 ≤ n ≤ 57 ∨ n = 61 ∨ 65 ≤ n ≤ 90 ∨ 97 ≤ n ≤ 122.

Lemma b64_digit_safe n : n < 64 → b64_safe (b64_digit n).
Proof.
  intros Hn. unfold b64_safe, b64_digit. repeat case_bool_decide; rewrite ?nat_ascii_embedding by lia;
    change (nat_of_ascii "+"%char) with 43; change (nat_of_ascii "/"%char) with 47; lia.
Qed.

(** Induction in the steps of the encoder. *)
Lemma string_ind3 (P : string → Prop) :
  P "" → (∀ a, P (String a "")) → (∀ a b, P (String a (String b ""))) →
  (∀ a b c s, P s → P (String a (String b (String c s)))) → ∀ s, P s.
Proof.
  intros H0 H1 H2 H3. fix IH 1. intros [|a [|b [|c s]]]; [done|apply H1|apply H2|apply H3, IH].
Qed.

Lemma base64_safe c s : ¬ b64_safe c → ContainsChar (base64_encode s) c = false.
Proof.
  intros Hc. assert (∀ n, n < 64 → b64_digit n ≠ c) as Hd.
  { intros n Hn <-. by apply Hc, b64_digit_safe. }
  assert ("="%char ≠ c) as He by (intros <-; apply Hc; unfold b64_safe; change (nat_of_ascii "=") with 61; lia).
  assert (∀ a, nat_of_ascii a < 256) as Hb by apply nat_ascii_bounded.
  assert (∀ x, x < 256 → x / 4 < 64 ∧ x / 16 < 16 ∧ x / 64 < 4 ∧ x mod 4 < 4 ∧ x mod 16 < 16 ∧ x mod 64 < 64) as Hm.
  { intros x Hx. split_and!; try (apply Nat.mod_upper_bound; lia); apply Nat.Div0.div_lt_upper_bound; lia. }
  induction s as [|a|a b|a b d s IH] using string_ind3; [done|..];
    cbn [base64_encode ContainsChar]; rewrite ?orb_false_iff, ?bool_decide_eq_false; try pose proof (Hm _ (Hb a));
    try pose proof (Hm _ (Hb b)); try pose proof (Hm _ (Hb d)); repeat split; try done; apply Hd; lia.
Qed.

Lemma b64_digit_not_pad n : n < 64 → b64_digit n ≠ "="%char.
Proof.
  intros Hn H. apply (f_equal nat_of_ascii) in H. revert H. change (nat_of_ascii "=") with 61. unfold b64_digit.
  repeat case_bool_decide; rewrite ?nat_ascii_embedding by lia;
    change (nat_of_ascii "+"%char) with 43; change (nat_of_ascii "/"%char) with 47; lia.
Qed.

(** The pieces of a byte determine it. *)
Lemma byte_pieces x y k : 0 < k → x / k = y / k → x mod k = y mod k → x = y.
Proof. intros Hk H1 H2. rewrite (Nat.div_mod_eq x k), (Nat.div_mod_eq y k). by rewrite H1, H2. Qed.

Lemma nat_of_ascii_inj a b : nat_of_ascii a = nat_of_ascii b → a = b.
Proof. intros H. by rewrite <- (ascii_nat_embedding a), <- (ascii_nat_embedding b), H. Qed.

Lemma b64_byte1 a a' i j : i < 16 → j < 16 →
  b64_digit (nat_of_ascii a / 4) = b64_digit (nat_of_ascii a' / 4) →
  b64_digit (nat_of_ascii a mod 4 * 16 + i) = b64_digit (nat_of_ascii a' mod 4 * 16 + j) → a = a' ∧ i = j.
Proof.
  intros Hi Hj H1 H2. pose proof (nat_ascii_bounded a). pose proof (nat_ascii_bounded a').
  assert (∀ x, x < 256 → x / 4 < 64) as Hd by (intros; apply Nat.Div0.div_lt_upper_bound; lia).
  pose proof (Nat.mod_upper_bound (nat_of_ascii a) 4). pose proof (Nat.mod_upper_bound (nat_of_ascii a') 4).
  apply b64_digit_inj in H1; [|auto..]. apply b64_digit_inj in H2; [|lia..].
  split; [|lia]. apply nat_of_ascii_inj. apply (byte_pieces _ _ 4); lia.
Qed.

Lemma b64_byte2 b b' i j : i < 4 → j < 4 →
  nat_of_ascii b / 16 = nat_of_ascii b' / 16 →
  b64_digit (nat_of_ascii b mod 16 * 4 + i) = b64_digit (nat_of_ascii b' mod 16 * 4 + j) → b = b' ∧ i = j.
Proof.
  intros Hi Hj H1 H2.
  pose proof (Nat.mod_upper_bound (nat_of_ascii b) 16). pose proof (Nat.mod_upper_bound (nat_of_ascii b') 16).
  apply b64_digit_inj in H2; [|lia..]. split; [|lia]. apply nat_of_ascii_inj. apply (byte_pieces _ _ 16); lia.
Qed.

(** Different inputs have different encodings. *)
Lemma base64_inj s t : base64_encode s = base64_encode t → s = t.
Proof.
  assert (∀ a, nat_of_ascii a / 16 < 16 ∧ nat_of_ascii a / 64 < 4) as Hd.
  { intros a. pose proof (nat_ascii_bounded a). split; apply Nat.Div0.div_lt_upper_bound; lia. }
  assert (∀ a, nat_of_ascii a mod 16 * 4 < 64 ∧ nat_of_ascii a mod 64 < 64) as Hm.
  { intros a. pose proof (Nat.mod_upper_bound (nat_of_ascii a) 16). pose proof (Nat.mod_upper_bound (nat_of_ascii a) 64).
    lia. }
  revert t. induction s as [|a|a b|a b c s IH] using string_ind3; intros [|a' [|b' [|c' t]]]; try done;
    cbn [base64_encode].
  - intros [= H1 H2]. pose proof (b64_byte1 a a' 0 0) as Hb. rewrite !Nat.add_0_r in Hb.
    destruct Hb as [-> _]; [lia|lia|done|done|done].
  - intros [= H1 H2 H3]. symmetry in H3. exfalso. eapply b64_digit_not_pad, H3. destruct (Hm b'). lia.
  - intros [= H1 H2 H3 H4]. exfalso. symmetry in H4. eapply b64_digit_not_pad, H4. apply Hm.
  - intros [= H1 H2 H3]. exfalso. eapply b64_digit_not_pad, H3. destruct (Hm b). lia.
  - intros [= H1 H2 H3]. destruct (b64_byte1 a a' _ _ (proj1 (Hd b)) (proj1 (Hd b')) H1 H2) as [-> Hbb].
    pose proof (b64_byte2 b b' 0 0) as Hb. rewrite !Nat.add_0_r in Hb.
    destruct Hb as [-> _]; [lia|lia|done|done|done].
  - intros [= H1 H2 H3 H4 _]. exfalso. symmetry in H4. eapply b64_digit_not_pad, H4. apply Hm.
  - intros [= H1 H2 H3 H4 _]. exfalso. eapply b64_digit_not_pad, H4. apply Hm.
  - intros [= H1 H2 H3 H4 _]. exfalso. eapply b64_digit_not_pad, H4. apply Hm.
  - intros [= H1 H2 H3 H4 H5]. destruct (b64_byte1 a a' _ _ (proj1 (Hd b)) (proj1 (Hd b')) H1 H2) as [-> Hbb].
    destruct (b64_byte2 b b' _ _ (proj2 (Hd c)) (proj2 (Hd c')) Hbb H3) as [-> Hcc].
    apply b64_digit_inj in H4; [|apply Hm..]. f_equal. f_equal. rewrite (IH t H5).
    assert (c = c') as -> by (apply nat_of_ascii_inj, (byte_pieces _ _ 64); [lia|done|done]). done.
Qed.
