(* ===== verification/Executor.v ===== *)
(** * Execution (lambda-service internal/executor)

    [PoolRegistry] keeps a container pool per function and replaces it when
    the function's code key changes; [DockerRuntime] runs a function in a
    container of its pool; [Manager] picks the runtime.

    Pools are shared: a registry holds them in a list and entries and callers
    refer to them by their index.  Seeding a container retrieves the code from
    the object store and writes it into the container's files.  A call that
    waits is [None] while it waits; what the other goroutines do while a call
    waits or executes is a function of the environment. *)

From Stdlib Require Import ZArith Lia Ascii.
From stdpp Require Import base strings gmap list numbers pretty.
From S2P Require Import Prelude.
From S2P Require Import Strings.
From S2P Require Import Domain.
From S2P Require Import CodeStorage.
From S2P Require Import DockerPool.
From S2P Require Import FilePath.
Open Scope Z_scope.

(** ** Names *)

(** [handlerFilename] of the executor. *)
Definition exec_handlerFilename (runtime : string) : string :=
  if HasPrefix runtime "python" then "handler.py"
  else if HasPrefix runtime "nodejs" then "handler.js"
  else if HasPrefix runtime "go" then "handler.go"
  else "handler.sh".

Definition baseImageForRuntime (runtime : string) : string :=
  if bool_decide (runtime = "python3.9") then "python:3.9-slim"
  else if bool_decide (runtime = "python3.11") then "python:3.11-slim"
  else if bool_decide (runtime = "nodejs18") then "node:18-slim"
  else if bool_decide (runtime = "nodejs20") then "node:20-slim"
  else if bool_decide (runtime = "go1.21") then "golang:1.21-alpine"
  else "alpine".

(** ** Seeding *)

(** What a ticker loop sees in turn: its context ends, or an inspection fails
    or says whether the process runs and its exit code. *)
Inductive ExecPoll :=
  | PollDone (ctx_err : error)
  | PollErr (err : error)
  | PollState (running : bool) (exitCode : Z).

Record SeedEnv := mkSeedEnv {
  sd_s3 : S3Env;
  sd_create_err : option error;
  sd_attach_err : option error;
  sd_start_err : option error;
  sd_write_err : option error;
  sd_close_err : option error;
  sd_polls : list ExecPoll
}.

Fixpoint seed_wait (polls : list ExecPoll) : option (outcome unit) :=
  match polls with
  | [] => None
  | PollDone e :: _ => Some (Err e)
  | PollErr e :: _ => Some (Err (Wrap "inspect seeding exec" e))
  | PollState true _ :: rest => seed_wait rest
  | PollState false code :: _ =>
      Some (if bool_decide (code ≠ 0) then Err (NewError ("seeding exec failed (exit " +:+ pretty code +:+ ")")) else Ok tt)
  end.

Definition first_err (l : list (option error * string)) : option error :=
  match List.find (λ x, bool_decide (x.1 ≠ None)) l with
  | Some (Some e, msg) => Some (Wrap msg e)
  | _ => None
  end.

(** [cat > /tmp/file] in the container: once it has exited with 0 the file
    holds what was written to it. *)
Definition copyCodeToContainer (e : SeedEnv) (containerID code runtime : string) (fs : Files)
    : option (outcome unit * Files) :=
  match first_err [(sd_create_err e, "exec create for seeding"); (sd_attach_err e, "exec attach for seeding");
                   (sd_start_err e, "exec start for seeding"); (sd_write_err e, "write handler code");
                   (sd_close_err e, "close write for seeding")] with
  | Some err => Some (Err err, fs)
  | None =>
      match seed_wait (sd_polls e) with
      | None => None
      | Some (Ok _) =>
          let path := "/tmp/" +:+ exec_handlerFilename runtime in
          Some (Ok tt, <[containerID := <[path := code]> (default ∅ (fs !! containerID))]> fs)
      | Some r => Some (r, fs)
      end
  end.

Section Seed.
Context {B : Type} `{!ObjectStore B} {HB3 : Blake3} (s3 : S3Storage).

(** The closure, on the bucket and the containers' files. *)
Definition makeSeedFunc (runtime codeKey : string) (e : SeedEnv) (containerID : string) (s : B * Files)
    : option (outcome string * (B * Files)) :=
  match S3_Retrieve s3 (sd_s3 e) codeKey s.1 with
  | (Ok code, b) =>
      match copyCodeToContainer e containerID code runtime s.2 with
      | None => None
      | Some (Ok _, fs) => Some (Ok codeKey, (b, fs))
      | Some (Err err, fs) => Some (Err (Wrap "copy code to container" err), (b, fs))
      | Some (Panic w, fs) => Some (Panic w, (b, fs))
      end
  | (Err err, b) => Some (Err (Wrap ("retrieve code " +:+ codeKey +:+ " from S3") err), (b, s.2))
  | (Panic w, b) => Some (Panic w, (b, s.2))
  end.
End Seed.

(** ** The registry *)

Record functionEntry := mkEntry { fe_codeKey : string; fe_p : nat }.

(** A pool with what its [SeedFunc] closes over and its base image. *)
Record RegPool := mkRegPool {
  rp_runtime : string;
  rp_codeKey : string;
  rp_image : string;
  rp_pool : Pool
}.

(** [rg_shutdowns]: pools whose [Shutdown] was started in the background;
    [rg_execs]: commands started in containers. *)
Record PoolRegistry := mkRegistry {
  rg_entries : gmap string functionEntry;
  rg_poolCfg : PoolConfig;
  rg_pools : list RegPool;
  rg_shutdowns : list nat;
  rg_execs : list (string * list string)
}.

Definition NewPoolRegistry (cfg : PoolConfig) : PoolRegistry := mkRegistry ∅ cfg [] [] [].

Definition rg_set_pool (i : nat) (f : Pool → Pool) (r : PoolRegistry) : PoolRegistry :=
  mkRegistry (rg_entries r) (rg_poolCfg r)
    (alter (λ rp, mkRegPool (rp_runtime rp) (rp_codeKey rp) (rp_image rp) (f (rp_pool rp))) i (rg_pools r))
    (rg_shutdowns r) (rg_execs r).
Definition rg_add_exec (id : string) (argv : list string) (r : PoolRegistry) : PoolRegistry :=
  mkRegistry (rg_entries r) (rg_poolCfg r) (rg_pools r) (rg_shutdowns r) (rg_execs r ++ [(id, argv)]).

(** The configuration of a function's pool. *)
Definition function_pool_config (cfg : PoolConfig) (runtime : string) : PoolConfig :=
  mkPoolConfig runtime (pc_MinSize cfg) (pc_MaxSize cfg) (pc_MaxIdleTime cfg) (pc_MaxUseCount cfg)
    (pc_TickInterval cfg) true.

(** [getOrCreate] up to the release of the lock: the pool, and whether it is
    new.  The second look under the write lock is the one that counts. *)
Definition getOrCreate_locked (client_err ping_err : option error) (now : Z) (fn : Function)
    : St PoolRegistry (nat * bool) := λ r,
  let codeKey := fn_Code fn in
  let hit := match rg_entries r !! fn_ID fn with
             | Some e => if bool_decide (fe_codeKey e = codeKey) then Some (fe_p e) else None
             | None => None
             end in
  match hit with
  | Some i => (Ok (i, false), r)
  | None =>
      let shutdowns := match rg_entries r !! fn_ID fn with
                       | Some old => rg_shutdowns r ++ [fe_p old]
                       | None => rg_shutdowns r
                       end in
      let r := mkRegistry (rg_entries r) (rg_poolCfg r) (rg_pools r) shutdowns (rg_execs r) in
      match NewDockerPool client_err ping_err now (function_pool_config (rg_poolCfg r) (fn_Runtime fn)) with
      | Ok p =>
          let i := length (rg_pools r) in
          (Ok (i, true),
           mkRegistry (<[fn_ID fn := mkEntry codeKey i]> (rg_entries r)) (rg_poolCfg r)
             (rg_pools r ++ [mkRegPool (fn_Runtime fn) codeKey (baseImageForRuntime (fn_Runtime fn)) p])
             shutdowns (rg_execs r))
      | Err err => (Err (Wrap ("create pool for function " +:+ fn_ID fn) err), r)
      | Panic w => (Panic w, r)
      end
  end.

(** With the filling of a new pool; [None] while it goes on. *)
Definition getOrCreate (client_err ping_err : option error) (now : Z) (envs : list DockerEnv) (fn : Function)
    (r : PoolRegistry) : option (outcome nat * PoolRegistry) :=
  match getOrCreate_locked client_err ping_err now fn r with
  | (Ok (i, true), r) =>
      match rg_pools r !! i with
      | Some rp =>
          match DP_Start envs (rp_pool rp) with
          | Some p => Some (Ok i, rg_set_pool i (λ _, p) r)
          | None => None
          end
      | None => Some (Ok i, r)
      end
  | (Ok (i, false), r) => Some (Ok i, r)
  | (Err err, r) => Some (Err err, r)
  | (Panic w, r) => Some (Panic w, r)
  end.

(** What one acquisition meets. *)
Record AcquireEnv := mkAcquireEnv {
  aq_client_err : option error;
  aq_ping_err : option error;
  aq_create_now : Z;
  aq_start : list DockerEnv;
  aq_others : PoolRegistry → PoolRegistry;
  aq_now : Z;
  aq_ctx_err : option error;
  aq_first : bool
}.

Definition Registry_Acquire (e : AcquireEnv) (fn : Function) (r : PoolRegistry)
    : option (outcome (Container * nat) * PoolRegistry) :=
  match getOrCreate (aq_client_err e) (aq_ping_err e) (aq_create_now e) (aq_start e) fn r with
  | None => None
  | Some (Ok i, r) =>
      let r := aq_others e r in
      match rg_pools r !! i with
      | None => None
      | Some rp =>
          match DP_Acquire (aq_now e) (aq_ctx_err e) (aq_first e) (rp_pool rp) with
          | None => None
          | Some (Ok c, p) => Some (Ok (c, i), rg_set_pool i (λ _, p) r)
          | Some (Err err, p) => Some (Err err, rg_set_pool i (λ _, p) r)
          | Some (Panic w, p) => Some (Panic w, rg_set_pool i (λ _, p) r)
          end
      end
  | Some (Err err, r) => Some (Err err, r)
  | Some (Panic w, r) => Some (Panic w, r)
  end.

Definition Registry_Release (now : Z) (rm : string → option error) (c : Container) (i : nat)
    : St PoolRegistry unit := λ r,
  match rg_pools r !! i with
  | Some rp => let '(out, p) := DP_Release now rm (Some c) (rp_pool rp) in (out, rg_set_pool i (λ _, p) r)
  | None => (Ok tt, r)
  end.

Definition Registry_Discard (c : Container) (i : nat) (r : PoolRegistry) : PoolRegistry :=
  rg_set_pool i (DP_Discard c) r.

Definition Registry_PoolStats (functionID : string) (r : PoolRegistry) : option PoolStats :=
  e ← rg_entries r !! functionID; rp ← rg_pools r !! fe_p e; Some (DP_Stats (rp_pool rp)).

(** [Shutdown] empties the map and shuts the pools down one after another;
    [None] while one of them waits. *)
Fixpoint shutdown_pools (rm : string → option error) (idxs : list nat) (r : PoolRegistry)
    : option (list error * PoolRegistry) :=
  match idxs with
  | [] => Some ([], r)
  | i :: rest =>
      match rg_pools r !! i with
      | None => shutdown_pools rm rest r
      | Some rp =>
          match Shutdown_finish rm (Shutdown_mark (rp_pool rp)) with
          | None => None
          | Some (out, p) =>
              match shutdown_pools rm rest (rg_set_pool i (λ _, p) r) with
              | None => None
              | Some (errs, r) => Some (match out with Err e => e :: errs | _ => errs end, r)
              end
          end
      end
  end.

Definition Registry_Shutdown (rm : string → option error) (r : PoolRegistry)
    : option (outcome unit * PoolRegistry) :=
  let idxs := (λ kv, fe_p kv.2) <$> map_to_list (rg_entries r) in
  match shutdown_pools rm idxs (mkRegistry ∅ (rg_poolCfg r) (rg_pools r) (rg_shutdowns r) (rg_execs r)) with
  | None => None
  | Some ([], r) => Some (Ok tt, r)
  | Some (_, r) => Some (Err (NewError "pool registry shutdown errors"), r)
  end.

(** ** The Docker runtime *)

Record DockerRuntime := mkDockerRuntime { dr_runtimeType : string; dr_baseImage : string }.

(** The daemon's containers: whether each runs, and whether it has the label
    [mini-lambda.managed] that pools give. *)
Record DaemonContainer := mkDaemonContainer { dc_running : bool; dc_managed : bool }.
Abbreviation Daemon := (gmap string DaemonContainer).

(** What [ContainerList] returns: without [All], only running containers. *)
Definition ContainerList (d : Daemon) : list string :=
  (filter (λ kv, dc_running kv.2 = true ∧ dc_managed kv.2 = true) (map_to_list d)).*1.

Definition sweepOrphanedContainers (list_err : option error) (remove_err : string → option error) (d : Daemon) : Daemon :=
  match list_err with
  | Some _ => d
  | None => foldl (λ d id, match remove_err id with Some _ => d | None => delete id d end) d (ContainerList d)
  end.

(** [registry] is the state of the calls that follow. *)
Definition NewDockerRuntime (client_err ping_err list_err : option error) (remove_err : string → option error)
    (runtimeType baseImage : string) (poolCfg : PoolConfig) : St Daemon (DockerRuntime * PoolRegistry) := λ d,
  if bool_decide (runtimeType = "") || bool_decide (baseImage = "")
  then (Err (NewError "runtime type and base image cannot be empty"), d)
  else match client_err, ping_err with
       | Some e, _ => (Err (Wrap "failed to create docker client" e), d)
       | None, Some e => (Err (Wrap "docker daemon not accessible" e), d)
       | None, None =>
           (Ok (mkDockerRuntime runtimeType baseImage, NewPoolRegistry poolCfg),
            sweepOrphanedContainers list_err remove_err d)
       end.

Definition nl : string := newline_str.

Definition getPythonExecScript (encodedInput : string) : string :=
  nl +:+ "import json, sys, base64" +:+
  nl +:+ "exec(open('/tmp/handler.py').read())" +:+
  nl +:+ "event = {}" +:+
  nl +:+ "try:" +:+
  nl +:+ "    data = base64.b64decode('" +:+ encodedInput +:+ "').decode('utf-8')" +:+
  nl +:+ "    if data: event = json.loads(data)" +:+
  nl +:+ "except: pass" +:+
  nl +:+ "if 'handler' in dir():" +:+
  nl +:+ "    print(json.dumps(handler(event, {})))" +:+ nl.

Definition getNodeExecScript (encodedInput : string) : string :=
  nl +:+ "const fs = require('fs');" +:+
  nl +:+ "eval(fs.readFileSync('/tmp/handler.js', 'utf-8'));" +:+
  nl +:+ "const event = JSON.parse(Buffer.from('" +:+ encodedInput
     +:+ "', 'base64').toString('utf-8') || '{}');" +:+
  nl +:+ "Promise.resolve(typeof handler === 'function' ? handler(event, {}) : {}).then(r => console.log(JSON.stringify(r)));"
  +:+ nl.

Definition buildExecutionCommand (runtimeType input : string) : list string :=
  let encodedInput := base64_encode input in
  if bool_decide (runtimeType = "python3.9") || bool_decide (runtimeType = "python3.11")
  then ["python3"; "-c"; getPythonExecScript encodedInput]
  else if bool_decide (runtimeType = "nodejs18") || bool_decide (runtimeType = "nodejs20")
  then ["node"; "-e"; getNodeExecScript encodedInput]
  else ["sh"; "/tmp/handler.sh"].

(** The loop over the lines, from the last one down: [n] is the index plus one,
    so the index is in range. *)
Fixpoint last_line (lines : list string) (n : nat) : option string :=
  match n with
  | O => None
  | S i =>
      let line := TrimSpace (lines !!! i) in
      if (0 <? String.length line)%nat then Some line else last_line lines i
  end.

Definition extractOutput (logs : string) : string :=
  if (String.length logs =? 0)%nat then "{}"
  else let lines := Split logs newline in default logs (last_line lines (length lines)).

Definition collectExecResult (logs : string) (f : Function) (exitCode : Z) : ExecutionResult :=
  mkResult (extractOutput logs) logs (wrap64 (fn_Memory f * 1024 * 1024)) 0 exitCode false.

(** One execution in a container. *)
Record ExecEnv := mkExecEnv {
  xe_create_err : option error;
  xe_attach_err : option error;
  xe_start_err : option error;
  xe_polls : list ExecPoll;
  xe_stdout : string;
  xe_stderr : string;
  xe_copy_err : option error
}.

Fixpoint waitForExec (polls : list ExecPoll) : option (outcome Z) :=
  match polls with
  | [] => None
  | PollDone e :: _ => Some (Err (Wrap "execution timeout" e))
  | PollErr e :: _ => Some (Err (Wrap "failed to inspect exec" e))
  | PollState true _ :: rest => waitForExec rest
  | PollState false code :: _ => Some (Ok code)
  end.

Definition startExecInContainer (rt : DockerRuntime) (e : ExecEnv) (id input : string) : St PoolRegistry unit := λ r,
  match xe_create_err e, xe_attach_err e, xe_start_err e with
  | Some err, _, _ => (Err (Wrap "failed to create exec" err), r)
  | None, Some err, _ => (Err (Wrap "failed to attach" err), r)
  | None, None, Some err => (Err (Wrap "failed to start" err), r)
  | None, None, None => (Ok tt, rg_add_exec id (buildExecutionCommand (dr_runtimeType rt) input) r)
  end.

Definition getAsyncLogs (e : ExecEnv) : string * option error := (xe_stdout e +:+ xe_stderr e, xe_copy_err e).

Definition executeInPooledContainer (rt : DockerRuntime) (e : ExecEnv) (id : string) (fn : Function) (input : string)
    (r : PoolRegistry) : option (outcome ExecutionResult * PoolRegistry) :=
  match startExecInContainer rt e id input r with
  | (Ok _, r) =>
      match waitForExec (xe_polls e) with
      | None => None
      | Some (Ok exitCode) =>
          let '(output, logErr) := getAsyncLogs e in
          let output := match logErr with
                        | Some err => "Failed to read logs: " +:+ error_Error err
                        | None => output
                        end in
          Some (Ok (collectExecResult output fn exitCode), r)
      | Some (Err err) => Some (Err err, r)
      | Some (Panic w) => Some (Panic w, r)
      end
  | (Err err, r) => Some (Err err, r)
  | (Panic w, r) => Some (Panic w, r)
  end.

Definition is_ctx_error (err : error) : bool :=
  errors_Is err "context.DeadlineExceeded" || errors_Is err "context.Canceled".

Record RunEnv := mkRunEnv {
  rn_inspect_err : option error;
  rn_pull_err : option error;
  rn_copy_err : option error;
  rn_acquire : AcquireEnv;
  rn_exec : ExecEnv;
  rn_others : PoolRegistry → PoolRegistry;
  rn_release_now : Z;
  rn_remove_err : string → option error
}.

Definition ensureImage (e : RunEnv) : outcome unit :=
  match rn_inspect_err e, rn_pull_err e, rn_copy_err e with
  | None, _, _ => Ok tt
  | Some _, Some err, _ => Err (Wrap "failed to pull image" err)
  | Some _, None, Some err => Err err
  | Some _, None, None => Ok tt
  end.

(** The deferred function: discard after a context error, else release. *)
Definition give_back (e : RunEnv) (execErr : option error) (c : Container) (i : nat) : St PoolRegistry unit :=
  match execErr with
  | Some err =>
      if is_ctx_error err then st_modify (Registry_Discard c i)
      else st_ignore (Registry_Release (rn_release_now e) (rn_remove_err e) c i)
  | None => st_ignore (Registry_Release (rn_release_now e) (rn_remove_err e) c i)
  end.

(** [c.ID[:12]] in the log line. *)
Definition acquireContainer (e : RunEnv) (fn : Function) (r : PoolRegistry)
    : option (outcome (Container * nat * bool) * PoolRegistry) :=
  match Registry_Acquire (rn_acquire e) fn r with
  | None => None
  | Some (Ok (c, i), r) =>
      if bool_decide (String.length (ct_ID c) < 12)%nat then Some (Panic "slice bounds out of range", r)
      else Some (Ok (c, i, bool_decide (1 < ct_UseCount c)), r)
  | Some (Err err, r) => Some (Err (Wrap "failed to acquire container" err), r)
  | Some (Panic w, r) => Some (Panic w, r)
  end.

(** From the acquired container on. *)
Definition run_acquired (rt : DockerRuntime) (e : RunEnv) (fn : Function) (input : string) (c : Container) (i : nat)
    (warm : bool) (r : PoolRegistry) : option (outcome ExecutionResult * PoolRegistry) :=
  match executeInPooledContainer rt (rn_exec e) (ct_ID c) fn input r with
  | None => None
  | Some (out, r) =>
      let execErr := match out with Err err => Some err | _ => None end in
      match give_back e execErr c i (rn_others e r) with
      | (Panic w, r) => Some (Panic w, r)
      | (_, r) => Some (match out with
                        | Ok result => Ok (er_set_WasWarmStart warm result)
                        | Err err => Err err
                        | Panic w => Panic w
                        end, r)
      end
  end.

Definition executeWithPool (rt : DockerRuntime) (e : RunEnv) (fn : Function) (input : string) (r : PoolRegistry)
    : option (outcome ExecutionResult * PoolRegistry) :=
  match acquireContainer e fn r with
  | None => None
  | Some (Ok (c, i, warm), r) => run_acquired rt e fn input c i warm r
  | Some (Err err, r) => Some (Err err, r)
  | Some (Panic w, r) => Some (Panic w, r)
  end.

Definition DockerRuntime_Execute (rt : DockerRuntime) (e : RunEnv) (fn : Function) (input : string) (r : PoolRegistry)
    : option (outcome ExecutionResult * PoolRegistry) :=
  match Function_Validate fn with
  | Some err => Some (Err (Wrap "invalid function" err), r)
  | None =>
      match ensureImage e with
      | Ok _ => executeWithPool rt e fn input r
      | Err err => Some (Err (Wrap "failed to ensure image" err), r)
      | Panic w => Some (Panic w, r)
      end
  end.

Definition DockerRuntime_Cleanup (rm : string → option error) (close_err : option error) (r : PoolRegistry)
    : option (outcome unit * PoolRegistry) :=
  match Registry_Shutdown rm r with
  | Some (Ok _, r) => Some (match close_err with Some err => Err err | None => Ok tt end, r)
  | x => x
  end.

(** ** Interleavings of a registry *)

Section Seeded.
Context {B : Type} `{!ObjectStore B} {HB3 : Blake3} (s3 : S3Storage).

(** In the environments of a pool, [SeedFunc] is the pool's closure, on
    whatever the bucket holds when it is called. *)
Definition seeding (runtime codeKey : string) (e : DockerEnv) : Prop :=
  ∀ id fs r fs', dk_seed e id fs = (r, fs') →
  ∃ senv (b b' : B), makeSeedFunc s3 runtime codeKey senv id (b, fs)
    = Some (match r with inl err => Err err | inr k => Ok k end, (b', fs')).

Definition handler_path (runtime : string) : string := "/tmp/" +:+ exec_handlerFilename runtime.

(** The handler file of a container, as it was written. *)
Definition handler_file (runtime id : string) (fs : Files) : option string :=
  fs !! id ≫= lookup (handler_path runtime).

(** [code] is what the content key stands for, if the key has a hash. *)
Definition code_of_key (codeKey code : string) : Prop :=
  S3_extractHashFromKey codeKey ≠ "" → code_hash code = S3_extractHashFromKey codeKey.

(** The container was seeded with the key [codeKey], and its handler file
    holds the code of that key. *)
Definition seeded_with (runtime codeKey : string) (fs : Files) (id k : string) : Prop :=
  k = codeKey ∧ ∃ code, handler_file runtime id fs = Some code ∧ code_of_key codeKey code.

(** What goroutines do to the registry of one runtime: calls of [getOrCreate]
    by functions of that runtime, steps of the pools, commands, and the
    clearing of the map in a shutdown. *)
Inductive reg_step (rt : string) : PoolRegistry → PoolRegistry → Prop :=
  | rs_get client_err ping_err now fn r :
      fn_Runtime fn = rt → reg_step rt r (getOrCreate_locked client_err ping_err now fn r).2
  | rs_pool i rp p' r :
      rg_pools r !! i = Some rp → pool_step (seeding (rp_runtime rp) (rp_codeKey rp)) false (rp_pool rp) p' →
      reg_step rt r (rg_set_pool i (λ _, p') r)
  | rs_exec id argv r : reg_step rt r (rg_add_exec id argv r)
  | rs_clear r :
      reg_step rt r (mkRegistry ∅ (rg_poolCfg r) (rg_pools r) (rg_shutdowns r) (rg_execs r)).

(** Entries name pools of their key, and the containers of a pool were seeded
    with its key. *)
Definition reg_inv (rt : string) (r : PoolRegistry) : Prop :=
  (∀ fid e, rg_entries r !! fid = Some e →
     ∃ rp, rg_pools r !! fe_p e = Some rp ∧ rp_codeKey rp = fe_codeKey e)
  ∧ (∀ i rp, rg_pools r !! i = Some rp → rp_runtime rp = rt
       ∧ tagged (function_pool_config (rg_poolCfg r) rt) (seeded_with rt (rp_codeKey rp)) (rp_pool rp)).

(** Pools stay where they are, with their key. *)
Definition reg_ext (r r' : PoolRegistry) : Prop :=
  ∀ i rp, rg_pools r !! i = Some rp → ∃ rp', rg_pools r' !! i = Some rp' ∧ rp_codeKey rp' = rp_codeKey rp.

#[export] Instance reg_ext_preorder : PreOrder reg_ext.
Proof.
  split; [by intros r i rp H; exists rp|]. intros r1 r2 r3 H1 H2 i rp Hi.
  destruct (H1 i rp Hi) as (rp2 & Hi2 & E2). destruct (H2 i rp2 Hi2) as (rp3 & Hi3 & E3).
  exists rp3. split; [done|congruence].
Qed.

(** ** Lemmas *)

(** The closure writes the code of its key, into its container only. *)
Lemma makeSeedFunc_writes runtime codeKey senv id b fs out b' fs' :
  makeSeedFunc (B := B) s3 runtime codeKey senv id (b, fs) = Some (out, (b', fs')) →
  (∀ i k, seeded_with runtime codeKey fs i k → seeded_with runtime codeKey fs' i k)
  ∧ (∀ k, out = Ok k → seeded_with runtime codeKey fs' id k).
Proof.
  unfold makeSeedFunc. cbn [fst snd].
  destruct (S3_Retrieve s3 (sd_s3 senv) codeKey b) as [[code|err|w] b1] eqn:Hr; [|by intros [= <- _ <-]..].
  apply S3_Retrieve_inv in Hr as (_ & _ & Hhash). unfold copyCodeToContainer.
  destruct (first_err _); [by intros [= <- _ <-]|].
  destruct (seed_wait _) as [[u|e1|w1]|]; [|by intros [= <- _ <-]..|done].
  intros [= <- _ <-]. fold (handler_path runtime).
  assert (seeded_with runtime codeKey (<[id := <[handler_path runtime := code]> (default ∅ (fs !! id))]> fs) id codeKey) as Hnew.
  { split; [done|]. exists code. split; [|done]. unfold handler_file. by rewrite lookup_insert_eq; simpl; rewrite lookup_insert_eq. }
  split; [|by intros k [= <-]]. intros i k [-> Hi]. destruct (decide (i = id)) as [->|Hne]; [done|].
  split; [done|]. unfold handler_file. by rewrite lookup_insert_ne.
Qed.

(** It returns, without a panic, if the daemon's exec ends. *)
Lemma makeSeedFunc_returns runtime codeKey senv id (s : B * Files) :
  (∃ u, seed_wait (sd_polls senv) = Some (Ok u)) →
  match makeSeedFunc s3 runtime codeKey senv id s with
  | Some (Ok _, _) | Some (Err _, _) => True
  | _ => False
  end.
Proof.
  intros [u Hw]. unfold makeSeedFunc, copyCodeToContainer. rewrite Hw.
  assert (∀ w b', S3_Retrieve s3 (sd_s3 senv) codeKey s.1 ≠ (Panic w, b')) as Hnp.
  { intros w b'. unfold S3_Retrieve, st_bind, S3_get. case_bool_decide; [done|].
    repeat case_match; naive_solver. }
  destruct (S3_Retrieve _ _ _ _) as [[code|err|w] b']; [by destruct (first_err _)|done|by destruct (Hnp w b')].
Qed.

Lemma seeding_tag runtime codeKey e : seeding runtime codeKey e → seeds_tag (seeded_with runtime codeKey) e.
Proof.
  intros He id fs r fs' Hs. destruct (He id fs r fs' Hs) as (senv & b & b' & Hrun).
  destruct (makeSeedFunc_writes _ _ _ _ _ _ _ _ _ Hrun) as [H1 H2]. split; [done|]. intros k ->. by apply H2.
Qed.

Lemma rg_set_pool_lookup i f r j rp : rg_pools (rg_set_pool i f r) !! j = Some rp →
  ∃ rp0, rg_pools r !! j = Some rp0
    ∧ rp = (if bool_decide (i = j)
            then mkRegPool (rp_runtime rp0) (rp_codeKey rp0) (rp_image rp0) (f (rp_pool rp0)) else rp0).
Proof.
  simpl. destruct (decide (i = j)) as [->|Hne].
  - rewrite list_lookup_alter_eq. intros (rp0 & H & ->)%fmap_Some_1. exists rp0. by rewrite bool_decide_eq_true_2.
  - rewrite list_lookup_alter_ne by done. exists rp. by rewrite bool_decide_eq_false_2.
Qed.

Lemma rg_set_pool_inv rt i rp p' r :
  reg_inv rt r → rg_pools r !! i = Some rp →
  (tagged (function_pool_config (rg_poolCfg r) rt) (seeded_with rt (rp_codeKey rp)) (rp_pool rp) →
   tagged (function_pool_config (rg_poolCfg r) rt) (seeded_with rt (rp_codeKey rp)) p') →
  reg_inv rt (rg_set_pool i (λ _, p') r) ∧ reg_ext r (rg_set_pool i (λ _, p') r).
Proof.
  intros [He Hp] Hi Ht.
  assert (reg_ext r (rg_set_pool i (λ _, p') r)) as Hext.
  { intros j rpj Hj. simpl. destruct (decide (i = j)) as [->|Hne].
    - rewrite list_lookup_alter_eq, Hj. by eexists.
    - rewrite list_lookup_alter_ne by done. by exists rpj. }
  split; [|done]. split.
  - intros fid e Hf. destruct (He fid e Hf) as (rp1 & H1 & H2). destruct (Hext _ _ H1) as (rp2 & H3 & H4).
    exists rp2. split; [done|congruence].
  - intros j rpj Hj. apply rg_set_pool_lookup in Hj as (rp0 & H0 & ->). destruct (Hp j rp0 H0) as [H1 H2].
    case_bool_decide; [|done]. subst j. rewrite Hi in H0. injection H0 as <-. split; [done|]. by apply Ht.
Qed.

Lemma new_pool_tagged cfg T now p : NewDockerPool None None now cfg = Ok p → tagged cfg T p.
Proof.
  unfold NewDockerPool. case_bool_decide; [done|]. intros [= <-]. split; [done|].
  intros c [Hc|[[k Hc]|(g & Hg & _)]]; simpl in *; [by apply elem_of_nil in Hc| |by apply elem_of_nil in Hg].
  by rewrite lookup_empty in Hc.
Qed.

Lemma getOrCreate_locked_inv client_err ping_err now fn rt r :
  reg_inv rt r → fn_Runtime fn = rt →
  reg_inv rt (getOrCreate_locked client_err ping_err now fn r).2
  ∧ reg_ext r (getOrCreate_locked client_err ping_err now fn r).2
  ∧ rg_poolCfg (getOrCreate_locked client_err ping_err now fn r).2 = rg_poolCfg r
  ∧ ∀ i new, (getOrCreate_locked client_err ping_err now fn r).1 = Ok (i, new) →
      ∃ rp, rg_pools (getOrCreate_locked client_err ping_err now fn r).2 !! i = Some rp ∧ rp_codeKey rp = fn_Code fn.
Proof.
  intros [He Hp] Hrt. unfold getOrCreate_locked.
  destruct (match rg_entries r !! fn_ID fn with Some _ => _ | None => None end) as [i|] eqn:Hhit.
  { split_and!; [done|reflexivity|done|]. intros i' new [= <- <-].
    destruct (rg_entries r !! fn_ID fn) as [e|] eqn:Hf; [|done]. case_bool_decide as Hk; [|done].
    injection Hhit as <-. destruct (He _ _ Hf) as (rp & H1 & H2). exists rp. split; [done|congruence]. }
  clear Hhit. set (sd := match rg_entries r !! fn_ID fn with Some _ => _ | None => _ end). cbn [rg_poolCfg rg_pools rg_entries rg_execs].
  destruct (NewDockerPool _ _ _ _) as [p|err|w] eqn:Hnew.
  2,3: split_and!; [by split|by intros i rp Hi; exists rp|done|done].
  assert (∀ i rp, rg_pools r !! i = Some rp → (rg_pools r ++ [mkRegPool (fn_Runtime fn) (fn_Code fn)
    (baseImageForRuntime (fn_Runtime fn)) p]) !! i = Some rp) as Hold by (intros i rp Hi; by apply lookup_app_l_Some).
  assert (client_err = None ∧ ping_err = None) as [-> ->].
  { unfold NewDockerPool in Hnew. by destruct client_err, ping_err. }
  split_and!.
  - split; simpl.
    + intros fid e. rewrite lookup_insert_Some. intros [[<- <-]|[_ Hf]].
      * eexists. by rewrite list_lookup_middle.
      * destruct (He _ _ Hf) as (rp & H1 & H2). exists rp. split; [by apply Hold|done].
    + intros i rp. rewrite lookup_app_Some. intros [Hi|[Hlen Hi]]; [by apply (Hp i)|].
      apply list_lookup_singleton_Some in Hi as [_ <-]. split; [done|]. simpl. subst rt. by eapply new_pool_tagged.
  - intros i rp Hi. exists rp. split; [by apply Hold|done].
  - done.
  - intros i new [= <- <-]. eexists. simpl. by rewrite list_lookup_middle.
Qed.

(** Filling a pool. *)
Lemma Start_loop_tags cfg T envs p : pc_seeds cfg = true → Forall (seeds_tag T) envs →
  tagged cfg T p → tagged cfg T (Start_loop envs p).2.
Proof.
  intros Hs Henvs. revert p. induction Henvs as [|e envs He _ IH]; intros p Hp; cbn [Start_loop].
  { by case_bool_decide. }
  case_bool_decide; [done|]. pose proof (enqueueNew_tags cfg T Hs e He p Hp) as Ht. unfold st_wp in Ht.
  destruct (enqueueNew e p) as [[u|er|w] p1]; [by apply IH|done|done].
Qed.

Lemma DP_Start_tags cfg T envs p p' : pc_seeds cfg = true → Forall (seeds_tag T) envs →
  tagged cfg T p → DP_Start envs p = Some p' → tagged cfg T p'.
Proof.
  intros Hs Henvs Hp. unfold DP_Start. pose proof (Start_loop_tags cfg T envs p Hs Henvs Hp) as Ht.
  destruct (Start_loop envs p) as [[] p1]; [|done]. intros [= <-]. by apply go_tags_none.
Qed.

Lemma reg_step_inv rt r r' : reg_inv rt r → reg_step rt r r' → reg_inv rt r' ∧ reg_ext r r'.
Proof.
  intros Hr Hs. destruct Hs as [client_err ping_err now fn r Hrt|i rp p' r Hi Hp|id argv r|r].
  - by destruct (getOrCreate_locked_inv client_err ping_err now fn rt r Hr Hrt) as (H1 & H2 & _).
  - apply (rg_set_pool_inv rt i rp); [done|done|]. destruct (proj2 Hr i rp Hi) as [<- _].
    eapply pool_step_tags; [done|apply seeding_tag|exact Hp].
  - split; [exact Hr|]. by intros i rp Hi; exists rp.
  - split; [|by intros i rp Hi; exists rp]. split; [|apply Hr]. intros fid e. simpl. by rewrite lookup_empty.
Qed.

Lemma reg_steps_inv rt r r' : rtc (reg_step rt) r r' → reg_inv rt r → reg_inv rt r' ∧ reg_ext r r'.
Proof.
  induction 1 as [r|r1 r2 r3 H12 _ IH]; intros Hr; [by split|].
  destruct (reg_step_inv _ _ _ Hr H12) as [H2 E2]. destruct (IH H2) as [H3 E3].
  split; [done|]. by etransitivity.
Qed.

Lemma new_registry_inv rt cfg : reg_inv rt (NewPoolRegistry cfg).
Proof. split; [intros fid e; simpl; by rewrite lookup_empty|by intros i rp]. Qed.

Lemma getOrCreate_inv client_err ping_err now envs fn rt r i r' :
  reg_inv rt r → fn_Runtime fn = rt → Forall (seeding rt (fn_Code fn)) envs →
  getOrCreate client_err ping_err now envs fn r = Some (Ok i, r') →
  reg_inv rt r' ∧ ∃ rp, rg_pools r' !! i = Some rp ∧ rp_codeKey rp = fn_Code fn.
Proof.
  intros Hr Hrt Henvs. unfold getOrCreate.
  destruct (getOrCreate_locked_inv client_err ping_err now fn rt r Hr Hrt) as (H1 & _ & _ & H3).
  destruct (getOrCreate_locked client_err ping_err now fn r) as [[[j []]|err|w] r1]; simpl in *; [..|done|done].
  - destruct (H3 j true eq_refl) as (rp & Hj & Hk). rewrite Hj.
    destruct (DP_Start envs (rp_pool rp)) as [p|] eqn:Hst; [|done]. intros [= <- <-].
    destruct (rg_set_pool_inv rt j rp p r1 H1 Hj) as [H4 H5].
    { intros Ht. eapply DP_Start_tags; [done| |exact Ht|exact Hst].
      eapply Forall_impl; [exact Henvs|]. rewrite Hk. intros e. apply seeding_tag. }
    split; [done|]. destruct (H5 _ _ Hj) as (rp' & ? & ?). exists rp'. split; [done|congruence].
  - intros [= <- <-]. split; [done|]. by apply (H3 j false).
Qed.
End Seeded.

(** *** Giving containers back *)

Lemma rg_set_pool_eq i f r rp : rg_pools r !! i = Some rp →
  rg_pools (rg_set_pool i f r) !! i
  = Some (mkRegPool (rp_runtime rp) (rp_codeKey rp) (rp_image rp) (f (rp_pool rp))).
Proof. intros Hi. simpl. by rewrite list_lookup_alter_eq, Hi. Qed.

(** Whether a released container goes back into the idle channel. *)
Definition goes_back (p : Pool) (c : Container) : bool :=
  negb (worn_out p c) && negb (p_closed p) && bool_decide (idle_len p < pc_MaxSize (p_config p)).

(** What a release does to the pool's containers: [c] goes back, or it is
    stopped and removed. *)
Definition released (now : Z) (rm : string → option error) (c : Container) (p p' : Pool) : Prop :=
  p_inUse p' = delete (ct_ID c) (p_inUse p)
  ∧ if goes_back p c then p_idle p' = p_idle p ++ [returned now c]
    else p_idle p' = p_idle p ∧ (rm (ct_ID c) = None → ct_ID c ∉ p_running p').

Lemma stop_removes rm id p : rm id = None → id ∉ p_running (stopDockerContainer rm id p).2.
Proof. intros Hrm. unfold stopDockerContainer. rewrite Hrm. simpl. set_solver. Qed.

Lemma DP_Release_containers now rm c p r p' :
  DP_Release now rm (Some c) p = (r, p') → (∀ w, r ≠ Panic w) → released now rm c p p'.
Proof.
  assert (∀ q, p_inUse (stopDockerContainer rm (ct_ID c) q).2 = p_inUse q
             ∧ p_idle (stopDockerContainer rm (ct_ID c) q).2 = p_idle q) as Hstop.
  { intros q. by destruct (stop_fields rm (ct_ID c) q) as (_ & -> & _ & -> & _). }
  unfold released, goes_back, DP_Release, Release_prepare, st_bind, st_modify, st_get.
  set (p0 := p_set_inUse _ p). change (worn_out p0 c) with (worn_out p c). change (p_closed p0) with (p_closed p).
  destruct (Hstop p0) as [H1 H2]. pose proof (stop_removes rm (ct_ID c) p0) as Hrm.
  destruct (worn_out p c).
  - destruct (stopDockerContainer rm (ct_ID c) p0) as [[u|er|w] p1]; simpl in *; intros [= <- <-] Hnp; simpl;
      rewrite H1, H2; by split_and!.
  - destruct (p_closed p).
    + rewrite ignore_stop. intros [= <- <-] _. simpl. rewrite H1, H2. by split_and!.
    + unfold st_ret, Release_send, st_bind, idle_send. destruct (p_idle_closed p0); [intros [= <- _] Hnp; by destruct (Hnp "send on closed channel")|].
      change (idle_len p0) with (idle_len p). change (p_config p0) with (p_config p).
      case_bool_decide; simpl; [by intros [= <- <-]|]. rewrite ignore_stop. intros [= <- <-] _. rewrite H1, H2. by split_and!.
Qed.

Definition ctx_error (out : outcome ExecutionResult) : bool :=
  match out with Err err => is_ctx_error err | _ => false end.

Lemma give_back_spec e execErr c i r u r' rp :
  give_back e execErr c i r = (Ok u, r') → rg_pools r !! i = Some rp →
  ∃ rp', rg_pools r' !! i = Some rp' ∧ rp_codeKey rp' = rp_codeKey rp
    ∧ (if match execErr with Some err => is_ctx_error err | None => false end
       then rp_pool rp' = DP_Discard c (rp_pool rp)
       else released (rn_release_now e) (rn_remove_err e) c (rp_pool rp) (rp_pool rp')).
Proof.
  intros Hrun Hi.
  assert (Hrel : st_ignore (Registry_Release (rn_release_now e) (rn_remove_err e) c i) r = (Ok u, r') →
    ∃ rp', rg_pools r' !! i = Some rp' ∧ rp_codeKey rp' = rp_codeKey rp
      ∧ released (rn_release_now e) (rn_remove_err e) c (rp_pool rp) (rp_pool rp')).
  { unfold st_ignore, Registry_Release. rewrite Hi.
    pose proof (DP_Release_containers (rn_release_now e) (rn_remove_err e) c (rp_pool rp)) as Hr.
    destruct (DP_Release _ _ _ (rp_pool rp)) as [[v|er|w] p']; [..|done]; intros [= _ <-];
      rewrite (rg_set_pool_eq i _ r rp Hi); eexists; (split_and!; [done..|]); by eapply Hr. }
  unfold give_back in Hrun. destruct execErr as [err|]; [|by apply Hrel].
  destruct (is_ctx_error err); [|by apply Hrel].
  injection Hrun as <- <-. unfold Registry_Discard. rewrite (rg_set_pool_eq i _ r rp Hi). by eexists.
Qed.

(** *** Scripts *)

Definition quote : ascii := "'"%char.

Lemma b64_no_quote s : ContainsChar (base64_encode s) quote = false.
Proof. apply base64_safe. unfold b64_safe. change (nat_of_ascii quote) with 39%nat. lia. Qed.

(** A program with a quoted hole: what the program says does not depend on
    what is put in the hole. *)
Lemma Split_hole pre post s :
  ContainsChar s quote = false →
  Split (pre +:+ String quote (s +:+ String quote post)) quote = Split pre quote ++ s :: Split post quote.
Proof. intros Hs. rewrite Split_app_gen. f_equal. by rewrite Split_app. Qed.

Lemma sweep_loop (remove_err : string → option error) ids (d : Daemon) k :
  foldl (λ d id, match remove_err id with Some _ => d | None => delete id d end) d ids !! k
  = if bool_decide (k ∈ ids ∧ remove_err k = None) then None else d !! k.
Proof.
  revert d. induction ids as [|id ids IH]; intros d; cbn [foldl].
  { rewrite bool_decide_eq_false_2; [done|]. intros [Hk _]. by apply elem_of_nil in Hk. }
  rewrite IH. case_bool_decide as Hin.
  { rewrite bool_decide_eq_true_2; [done|]. destruct Hin. split; [by right|done]. }
  destruct (remove_err id) as [e|] eqn:He.
  - rewrite bool_decide_eq_false_2; [done|]. intros [[->|?]%elem_of_cons ?]; [congruence|]. apply Hin. by split.
  - destruct (decide (k = id)) as [->|Hne].
    + rewrite lookup_delete_eq, bool_decide_eq_true_2; [done|]. split; [by left|done].
    + rewrite lookup_delete_ne by done. rewrite bool_decide_eq_false_2; [done|].
      intros [[->|?]%elem_of_cons ?]; [done|]. apply Hin. by split.
Qed.

Lemma elem_of_ContainerList d k :
  k ∈ ContainerList d ↔ ∃ c, d !! k = Some c ∧ dc_running c = true ∧ dc_managed c = true.
Proof.
  unfold ContainerList. rewrite list_elem_of_fmap. split.
  - intros ([k' c] & -> & Hin). apply list_elem_of_filter in Hin as [[H1 H2] Hin].
    apply elem_of_map_to_list in Hin. by exists c.
  - intros (c & Hd & H1 & H2). exists (k, c). split; [done|]. apply list_elem_of_filter.
    split; [done|]. by apply elem_of_map_to_list.
Qed.

(** ** Theorems *)

(** The sweep at start-up.  It removes every running container that carries
    the label and that the daemon agrees to remove, whichever process uses
    it, and nothing else: a container that was created and never started
    stays, label or not. *)
Theorem NewDockerRuntime_sweeps cerr perr remove_err rt image cfg d r d' :
  NewDockerRuntime cerr perr None remove_err rt image cfg d = (Ok r, d') →
  ∀ id, d' !! id = match d !! id with
                   | Some c => if dc_running c && dc_managed c && bool_decide (remove_err id = None) then None else Some c
                   | None => None
                   end.
Proof.
  unfold NewDockerRuntime. destruct (_ || _); [done|]. destruct cerr; [done|]. destruct perr; [done|].
  intros [= _ <-] id. unfold sweepOrphanedContainers. rewrite sweep_loop.
  case_bool_decide as Hin.
  - destruct Hin as [(c & -> & -> & ->)%elem_of_ContainerList ?]. simpl. by rewrite bool_decide_eq_true_2.
  - destruct (d !! id) as [c|] eqn:Hd; [|done]. rewrite elem_of_ContainerList in Hin.
    destruct (dc_running c) eqn:H1; [|done]. destruct (dc_managed c) eqn:H2; [|done]. simpl.
    rewrite bool_decide_eq_false_2; [done|]. intros Hr. apply Hin. split; [|done]. by exists c.
Qed.

(** Blank lines at the end are passed over. *)
Lemma last_line_blank lines n :
  Forall (λ l, blank l = true) (take n lines) → (n ≤ length lines)%nat → last_line lines n = None.
Proof.
  induction n as [|i IH]; intros Hb Hn; [done|]. cbn [last_line].
  destruct (lookup_lt_is_Some_2 lines i) as [l Hl]; [lia|]. rewrite (list_lookup_total_correct _ _ _ Hl).
  rewrite (take_S_r _ _ _ Hl) in Hb. apply Forall_app in Hb as [Hb Hx]. rewrite Forall_singleton in Hx.
  unfold blank in Hx. apply bool_decide_eq_true in Hx as ->. apply IH; [done|lia].
Qed.

Lemma last_line_found before line after :
  blank line = false → Forall (λ l, blank l = true) after →
  last_line (before ++ line :: after) (length (before ++ line :: after)) = Some (TrimSpace line).
Proof.
  intros Hl. induction after as [|x after IH] using rev_ind; intros Ha.
  - rewrite length_app, Nat.add_1_r. cbn [last_line]. rewrite list_lookup_total_middle by done.
    unfold blank in Hl. apply bool_decide_eq_false in Hl. by destruct (TrimSpace line).
  - apply Forall_app in Ha as [Ha Hx]. rewrite Forall_singleton in Hx. specialize (IH Ha).
    rewrite app_comm_cons, app_assoc, (length_app _ [x]), Nat.add_1_r. cbn [last_line].
    rewrite (list_lookup_total_middle _ [] x) by done. unfold blank in Hx. apply bool_decide_eq_true in Hx as ->.
    cbn [String.length]. rewrite <- IH. clear IH. set (l := before ++ line :: after) in *.
    assert (∀ n, (n ≤ length l)%nat → last_line (l ++ [x]) n = last_line l n) as E; [|by apply E].
    induction n as [|i IHi]; intros Hn; [done|]. cbn [last_line]. rewrite lookup_total_app_l, IHi by lia. done.
Qed.

Lemma Split_concat lines :
  lines ≠ [] → Forall (λ l, ContainsChar l newline = false) lines →
  Split (String.concat nl lines) newline = lines.
Proof.
  intros Hne Hl. induction Hl as [|l lines Hl Hls IH]; [done|].
  destruct lines as [|l' lines]; [by apply Split_no_char|].
  change (String.concat nl (l :: l' :: lines)) with (l +:+ String newline (String.concat nl (l' :: lines))).
  rewrite Split_app by done. by rewrite IH.
Qed.

(** C20.  The output of an execution is the last thing the function printed:
    whatever lines come before, and however many blank lines after, it is the
    last line that is not blank, without the white space around it.  A log of
    blank lines only is returned as it is, and an empty log stands for the
    empty object. *)
Theorem extractOutput_last_line :
  (∀ before line after,
     Forall (λ l, ContainsChar l newline = false) (before ++ line :: after) →
     blank line = false → Forall (λ l, blank l = true) after →
     extractOutput (String.concat nl (before ++ line :: after)) = TrimSpace line)
  ∧ (∀ logs, logs ≠ "" → Forall (λ l, blank l = true) (Split logs newline) → extractOutput logs = logs)
  ∧ extractOutput "" = "{}".
Proof.
  split_and!; [| |done].
  - intros before line after Hn Hl Ha. unfold extractOutput.
    assert (Split (String.concat nl (before ++ line :: after)) newline = before ++ line :: after) as E
      by (apply Split_concat; [by destruct before|done]).
    destruct (String.length _ =? 0)%nat eqn:H0.
    + apply Nat.eqb_eq in H0. destruct (String.concat _ _); [|done]. simpl in E.
      destruct before as [|b [|? ?]]; simplify_eq/=.
    + cbn zeta. by rewrite E, last_line_found.
  - intros logs Hne Hb. unfold extractOutput. destruct logs as [|a logs]; [done|]. cbn [String.length Nat.eqb]. cbn zeta.
    rewrite last_line_blank; [done| |done]. by rewrite firstn_all.
Qed.



(** The file that runs.  For the Python and Node runtimes the program
    reads exactly the file that seeding writes.  For [go1.21] it does not: the
    code is written to /tmp/handler.go and the command runs /tmp/handler.sh. *)
Theorem exec_reads_seeded_file input :
  (∀ runtime, runtime ∈ ["python3.9"; "python3.11"; "nodejs18"; "nodejs20"] →
     ∃ script pre post, script ∈ buildExecutionCommand runtime input
       ∧ script = pre +:+ "'/tmp/" +:+ exec_handlerFilename runtime +:+ "'" +:+ post)
  ∧ exec_handlerFilename "go1.21" = "handler.go"
  ∧ buildExecutionCommand "go1.21" input = ["sh"; "/tmp/handler.sh"].
Proof.
  split; [|done]. intros runtime Hin.
  repeat (apply elem_of_cons in Hin as [->|Hin]); [..|by inversion Hin].
  1,2: exists (getPythonExecScript (base64_encode input)), (nl +:+ "import json, sys, base64" +:+ nl +:+ "exec(open(");
    eexists; split; [right; right; left|reflexivity].
  all: exists (getNodeExecScript (base64_encode input)), (nl +:+ "const fs = require('fs');" +:+ nl +:+ "eval(fs.readFileSync(");
    eexists; split; [right; right; left|reflexivity].
Qed.

(** Commands are never forgotten. *)
Definition execs_grow (r r' : PoolRegistry) : Prop := ∀ x, x ∈ rg_execs r → x ∈ rg_execs r'.

Lemma getOrCreate_locked_execs client_err ping_err now fn r :
  rg_execs (getOrCreate_locked client_err ping_err now fn r).2 = rg_execs r.
Proof.
  unfold getOrCreate_locked. destruct (match rg_entries r !! fn_ID fn with Some _ => _ | None => None end); [done|].
  by destruct (NewDockerPool _ _ _ _).
Qed.

Lemma give_back_execs e execErr c i r : rg_execs (give_back e execErr c i r).2 = rg_execs r.
Proof.
  assert (rg_execs (st_ignore (Registry_Release (rn_release_now e) (rn_remove_err e) c i) r).2 = rg_execs r) as H.
  { unfold st_ignore, Registry_Release. destruct (rg_pools r !! i) as [rp|]; [|done].
    by destruct (DP_Release _ _ _ _) as [[] ?]. }
  unfold give_back. destruct execErr as [err|]; [|done]. by destruct (is_ctx_error err).
Qed.

Lemma startExec_recorded rt e id input r u r' :
  startExecInContainer rt e id input r = (Ok u, r') →
  (id, buildExecutionCommand (dr_runtimeType rt) input) ∈ rg_execs r'.
Proof.
  unfold startExecInContainer. destruct (xe_create_err e), (xe_attach_err e), (xe_start_err e); try done.
  intros [= _ <-]. apply elem_of_app. right. left.
Qed.

Section Theorems.
Context {B : Type} `{!ObjectStore B} {HB3 : Blake3} (s3 : S3Storage).
Abbreviation steps rt := (rtc (reg_step (B := B) s3 rt)).

Lemma reg_steps_execs rt r r' : steps rt r r' → execs_grow r r'.
Proof.
  induction 1 as [r|r1 r2 r3 H12 _ IH]; [by intros x|]. intros x Hx. apply IH.
  destruct H12; simpl; [by rewrite getOrCreate_locked_execs|done|by apply elem_of_app; left|done].
Qed.

(** What the environment of an acquisition does: other goroutines take steps,
    and a new pool is filled by its seeding closure. *)
Definition sound_acquire (rt : string) (fn : Function) (e : AcquireEnv) : Prop :=
  Forall (seeding (B := B) s3 rt (fn_Code fn)) (aq_start e) ∧ ∀ r, steps rt r (aq_others e r).

(** An acquired container is in use in the function's pool, and holds the
    function's code. *)
Definition acquired_with_code (rt : string) (fn : Function) (c : Container) (i : nat) (r : PoolRegistry) : Prop :=
  ∃ rp, rg_pools r !! i = Some rp ∧ p_inUse (rp_pool rp) !! ct_ID c = Some c
    ∧ ct_CodeKey c = fn_Code fn
    ∧ ∃ code, handler_file rt (ct_ID c) (p_files (rp_pool rp)) = Some code ∧ code_of_key (fn_Code fn) code.

Lemma Registry_Acquire_seeded rt r e fn c i r' :
  reg_inv rt r → fn_Runtime fn = rt → sound_acquire rt fn e →
  Registry_Acquire e fn r = Some (Ok (c, i), r') → acquired_with_code rt fn c i r'.
Proof.
  intros Hr Hrt [Hstart Hoth]. unfold Registry_Acquire.
  destruct (getOrCreate _ _ _ _ fn r) as [[[j|err|w] r1]|] eqn:Hg; [|done..].
  destruct (getOrCreate_inv s3 _ _ _ _ _ rt _ _ _ Hr Hrt Hstart Hg) as (H1 & rp1 & Hj1 & Hk1).
  destruct (reg_steps_inv s3 rt _ _ (Hoth r1) H1) as [H2 E2]. destruct (E2 _ _ Hj1) as (rp & Hj & Hk).
  rewrite Hj. destruct (DP_Acquire _ _ _ (rp_pool rp)) as [[[c'|err|w] p']|] eqn:Ha; [|done..].
  intros [= <- <- <-]. destruct (proj2 H2 _ _ Hj) as [_ Ht].
  destruct (acquire_tags (function_pool_config (rg_poolCfg (aq_others e r1)) rt) (seeded_with rt (rp_codeKey rp))
    _ _ _ _ _ _ Ha) as [_ Htag].
  destruct (Htag c' eq_refl Ht) as [[Hkey (code & Hfile & Hcode)] Huse]. rewrite Hk, Hk1 in *.
  exists (mkRegPool (rp_runtime rp) (rp_codeKey rp) (rp_image rp) p'). rewrite (rg_set_pool_eq j _ _ rp Hj).
  split_and!; [done..|]. by exists code.
Qed.

(** The execution that a completed [Execute] has started. *)
Lemma Execute_acquired rt e fn input r result r' :
  DockerRuntime_Execute rt e fn input r = Some (Ok result, r') →
  ∃ c i r1 result0 r2, Registry_Acquire (rn_acquire e) fn r = Some (Ok (c, i), r1)
    ∧ executeInPooledContainer rt (rn_exec e) (ct_ID c) fn input r1 = Some (Ok result0, r2)
    ∧ rg_execs r2 = rg_execs r1 ++ [(ct_ID c, buildExecutionCommand (dr_runtimeType rt) input)]
    ∧ result = er_set_WasWarmStart (bool_decide (1 < ct_UseCount c)) result0.
Proof.
  unfold DockerRuntime_Execute. destruct (Function_Validate fn); [done|]. destruct (ensureImage e); [|done..].
  unfold executeWithPool, acquireContainer.
  destruct (Registry_Acquire (rn_acquire e) fn r) as [[[[c i]|err|w] r1]|]; [|done..].
  case_bool_decide; [done|]. unfold run_acquired.
  destruct (executeInPooledContainer rt (rn_exec e) (ct_ID c) fn input r1) as [[[res0|err|w] r2]|] eqn:Hx; [| | |done].
  2,3: destruct (give_back _ _ _ _ _) as [[] ?]; done.
  assert (rg_execs r2 = rg_execs r1 ++ [(ct_ID c, buildExecutionCommand (dr_runtimeType rt) input)]) as Hexecs.
  { revert Hx. unfold executeInPooledContainer, startExecInContainer.
    destruct (xe_create_err (rn_exec e)), (xe_attach_err (rn_exec e)), (xe_start_err (rn_exec e)); try done.
    destruct (waitForExec _) as [[?|?|?]|]; try done. cbn [getAsyncLogs]. by intros [= _ <-]. }
  intros Hrun. exists c, i, r1, res0, r2. split_and!; [done..|].
  by destruct (give_back _ _ _ _ _) as [[] ?]; simplify_eq.
Qed.


(** C12.  Giving containers back.  Once the execution in an acquired container
    is over, however it ended, the container is no longer in use, and every
    other one still is.  If it ended because its time was up or its request
    was cancelled, the container is with a goroutine that is about to stop and
    remove it, and does not become idle.  Otherwise it is idle again, behind
    the other idle containers, if it has uses left, the pool is open and the
    channel has room; and else it is stopped and, if the daemon does so,
    removed.  The pool is that which the other goroutines have left when the
    execution ends. *)
Theorem run_acquired_gives_back rt e fn input c i warm r out r' :
  run_acquired rt e fn input c i warm r = Some (out, r') → (∀ w, out ≠ Panic w) →
  ∃ out0 r1, executeInPooledContainer rt (rn_exec e) (ct_ID c) fn input r = Some (out0, r1)
    ∧ ctx_error out = ctx_error out0
    ∧ ∀ rp, rg_pools (rn_others e r1) !! i = Some rp →
      ∃ rp', rg_pools r' !! i = Some rp'
        ∧ p_inUse (rp_pool rp') = delete (ct_ID c) (p_inUse (rp_pool rp))
        ∧ (if ctx_error out
           then p_idle (rp_pool rp') = p_idle (rp_pool rp)
             ∧ p_tasks (rp_pool rp') = p_tasks (rp_pool rp) ++ [mkGo true (DiscardStop (ct_ID c))]
           else if goes_back (rp_pool rp) c
           then p_idle (rp_pool rp') = p_idle (rp_pool rp) ++ [returned (rn_release_now e) c]
           else p_idle (rp_pool rp') = p_idle (rp_pool rp)
             ∧ (rn_remove_err e (ct_ID c) = None → ct_ID c ∉ p_running (rp_pool rp'))).
Proof.
  unfold run_acquired.
  destruct (executeInPooledContainer rt (rn_exec e) (ct_ID c) fn input r) as [[out0 r1]|] eqn:Hx; [|done].
  destruct (give_back e _ c i (rn_others e r1)) as [[u|err|w] r2] eqn:Hg.
  - intros [= <- <-] Hnp. exists out0, r1. split_and!; [done|by destruct out0|]. intros rp Hrp.
    destruct (give_back_spec _ _ _ _ _ _ _ _ Hg Hrp) as (rp' & H1 & _ & H2). exists rp'. split; [done|].
    destruct out0 as [res|er|w]; [exact H2| |by destruct (Hnp w)].
    simpl in *. destruct (is_ctx_error er); [by rewrite H2|exact H2].
  - exfalso. revert Hg. unfold give_back, st_modify, st_ignore. repeat case_match; intros ?; simplify_eq.
  - intros [= <- <-] Hnp. by destruct (Hnp w).
Qed.

(** Seeding while the store has no object under the key. *)
Definition seeding_absent (runtime codeKey : string) (e : DockerEnv) : Prop :=
  ∀ id fs r fs', dk_seed e id fs = (r, fs') →
  ∃ senv (b b' : B), os_Get b codeKey = None ∧ makeSeedFunc s3 runtime codeKey senv id (b, fs)
    = Some (match r with inl err => Err err | inr k => Ok k end, (b', fs')).

(** A function passed with its code.  If a registry is given a function
    whose [Code] is not a key of the store, as a function with its code bytes
    is, then no container of its pool is ever seeded, and however the pool's
    goroutines interleave no caller acquires one: every call waits until its
    context ends.  Callers must use [GetFunctionMeta]; the event processor
    uses [GetFunction]. *)
Theorem code_bytes_never_acquired rt codeKey cfg now p0 p ok t ctx first r p' :
  NewDockerPool None None now (function_pool_config cfg rt) = Ok p0 →
  rtc (pool_step (seeding_absent rt codeKey) ok) p0 p →
  DP_Acquire t ctx first p = Some (r, p') → ∀ c, r ≠ Ok c.
Proof.
  intros Hnew Hsteps Ha c ->. set (cfg' := function_pool_config cfg rt) in *.
  set (T := λ (_ : Files) (_ _ : string), False).
  assert (∀ e, seeding_absent rt codeKey e → seeds_tag T e) as HE.
  { intros e He id fs x fs' Hs. split; [done|]. intros k ->.
    destruct (He id fs _ fs' Hs) as (senv & b & b' & Habs & Hrun). unfold makeSeedFunc in Hrun. cbn [fst snd] in Hrun.
    destruct (S3_Retrieve_gone s3 (sd_s3 senv) codeKey b Habs) as [err Herr]. by rewrite Herr in Hrun. }
  assert (tagged cfg' T p) as Ht.
  { apply (rtc_preserves (pool_step (seeding_absent rt codeKey) ok) (tagged cfg' T) p0 p);
      [|by apply new_pool_tagged with now|done].
    intros a b Hab Hs. by apply (pool_step_tags cfg' T eq_refl _ _ _ _ HE Hs). }
  destruct (acquire_tags cfg' T _ _ _ _ _ _ Ha) as [_ Htag]. by destruct (Htag c eq_refl Ht) as [[] _].
Qed.
End Theorems.

(** ** Concrete runs *)

Module ExecutorDemo.
#[local] Existing Instances tagged_digest tagged_digest_laws.

Definition demo_code : string := "print(1)".
Definition demo_key : string := key_of demo_s3 demo_code.
Definition demo_fn : Function := mkFunction "f1" "hello" "python3.9" "handler" demo_key Second 128 ∅ 0 0.
Definition demo_rt : DockerRuntime := mkDockerRuntime "python3.9" "python:3.9-slim".
Definition demo_seed_env : SeedEnv := mkSeedEnv s3_ok None None None None None [PollState true 0; PollState false 0].
(** A seeding closure over a fixed bucket. *)
Definition seed_from (b : gmap string string) (runtime codeKey : string) (senv : SeedEnv) (id : string) (fs : Files)
    : (error + string) * Files :=
  match makeSeedFunc demo_s3 runtime codeKey senv id (b, fs) with
  | Some (Ok k, s) => (inr k, s.2)
  | Some (Err err, s) => (inl err, s.2)
  | _ => (inl (NewError "blocked"), fs)
  end.
Definition demo_bucket : gmap string string := {[demo_key := demo_code]}.
Definition demo_daemon : DockerEnv :=
  mkDocker (inr "0123456789abcdef") None (seed_from demo_bucket "python3.9" demo_key demo_seed_env) 1 (λ _, None).
Definition demo_acquire : AcquireEnv := mkAcquireEnv None None 0 [demo_daemon] id 2 None true.
Definition demo_exec (polls : list ExecPoll) : ExecEnv := mkExecEnv None None None polls "1" "" None.
Definition demo_run_env (polls : list ExecPoll) : RunEnv :=
  mkRunEnv None None None demo_acquire (demo_exec polls) id 3 (λ _, None).
Definition demo_registry : PoolRegistry := NewPoolRegistry (mkPoolConfig "" 1 2 Minute 10 Second true).

(** A closure that neither panics nor waits for ever is its own environment. *)
Lemma seed_from_seeding b runtime codeKey senv id rm now :
  (∀ i fs, match makeSeedFunc demo_s3 runtime codeKey senv i (b, fs) with
           | Some (Ok _, _) | Some (Err _, _) => True | _ => False end) →
  seeding (B := gmap string string) demo_s3 runtime codeKey
    (mkDocker id None (seed_from b runtime codeKey senv) now rm).
Proof.
  intros Hdone i fs r fs'. simpl. unfold seed_from. specialize (Hdone i fs).
  destruct (makeSeedFunc demo_s3 runtime codeKey senv i (b, fs)) as [[[k|err|w] [b' fs1]]|] eqn:Hm; try done;
    intros [= <- <-]; exists senv, b, b'; exact Hm.
Qed.

Lemma demo_seeding : seeding (B := gmap string string) demo_s3 "python3.9" demo_key demo_daemon.
Proof. apply seed_from_seeding. intros i fs. apply makeSeedFunc_returns. by exists tt. Qed.

Lemma demo_sound : sound_acquire (B := gmap string string) demo_s3 "python3.9" demo_fn demo_acquire.
Proof. split; [constructor; [apply demo_seeding|constructor]|done]. Qed.

Definition demo_out := DockerRuntime_Execute demo_rt (demo_run_env [PollState false 0]) demo_fn "{}" demo_registry.

Lemma demo_out_ok : ∃ result r', demo_out = Some (Ok result, r').
Proof.
  assert (match demo_out with Some (Ok _, _) => true | _ => false end = true) as H by (vm_compute; reflexivity).
  destruct demo_out as [[[result|err|w] r']|]; [by exists result, r'|done..].
Qed.


Definition demo_container : Container := mkContainer "0123456789abcdef" "python3.9" demo_key 0 0 1 StateInUse 0.
Definition demo_busy : PoolRegistry :=
  mkRegistry ∅ (mkPoolConfig "" 1 2 Minute 10 Second true)
    [mkRegPool "python3.9" demo_key "python:3.9-slim"
       (mkPool (mkPoolConfig "python3.9" 1 2 Minute 10 Second true) [] false
          {[ "0123456789abcdef" := demo_container ]} (mkMetrics 1 1 0 1) 0 false [] {[ "0123456789abcdef" ]} ∅)] [] [].
Definition demo_done : RunEnv := demo_run_env [PollState true 0; PollState false 0].

Lemma run_acquired_gives_back_witness :
  ∃ out r' rp', run_acquired demo_rt demo_done demo_fn "{}" demo_container 0 false demo_busy = Some (out, r')
    ∧ rg_pools r' !! 0%nat = Some rp' ∧ p_inUse (rp_pool rp') = delete "0123456789abcdef"
        {[ "0123456789abcdef" := demo_container ]}
    ∧ p_idle (rp_pool rp') = [returned 3 demo_container].
Proof.
  destruct (run_acquired demo_rt demo_done demo_fn "{}" demo_container 0 false demo_busy) as [[out r']|] eqn:H;
    [|discriminate H].
  destruct (run_acquired_gives_back demo_rt demo_done demo_fn "{}" demo_container 0 false demo_busy out r' H)
    as (out0 & r1 & Hx & Hctx & Hp).
  { intros w ->. discriminate H. }
  injection Hx as <- <-. destruct (Hp _ eq_refl) as (rp' & H1 & H2 & H3). exists out, r', rp'.
  split; [reflexivity|]. split; [exact H1|]. split; [exact H2|]. rewrite Hctx in H3. exact H3.
Defined.

Lemma code_bytes_never_acquired_witness :
  ∃ p0, NewDockerPool None None 0 (function_pool_config (rg_poolCfg demo_registry) "python3.9") = Ok p0
    ∧ ∀ t r p', DP_Acquire t (Some context_DeadlineExceeded) true p0 = Some (r, p') → ∀ c, r ≠ Ok c.
Proof.
  eexists. split; [reflexivity|]. intros t r p' Ha.
  apply (code_bytes_never_acquired (B := gmap string string) demo_s3 "python3.9" demo_code (rg_poolCfg demo_registry) 0 _ _
    true t (Some context_DeadlineExceeded) true r p' eq_refl (rtc_refl _ _) Ha).
Defined.
(** A function that logs a line, prints its result and two line ends. *)
Lemma extractOutput_last_line_witness :
  extractOutput (String.concat nl ["starting"; " {} "; ""; ""]) = "{}".
Proof.
  apply (proj1 extractOutput_last_line ["starting"] " {} " [""; ""]); [repeat constructor|reflexivity|repeat constructor].
Defined.
End ExecutorDemo.
