(* ===== verification/Managers.v ===== *)
(** * Managers (lambda-service internal/executor/manager.go and
    internal/pool/manager.go)

    The executor's [Manager] is a table of runtimes; the pool's [Manager] a
    table of container pools, one per runtime, created on demand. *)

From Stdlib Require Import ZArith Lia.
From stdpp Require Import base strings gmap list numbers.
From S2P Require Import Prelude.
From S2P Require Import Domain.
From S2P Require Import DockerPool.
From S2P Require Import Metrics.
Open Scope Z_scope.

(** ** The executor's manager *)

Section Runtimes.
Context {RT : Type}.
Open Scope golang_scope.

(** The state is the map of runtimes. *)
Definition RegisterRuntime (runtimeType : string) (runtime : option RT) : St (gmap string RT) unit := λ m,
  if bool_decide (runtimeType = "") then (Err (NewError "runtime type cannot be empty"), m)
  else match runtime with
       | None => (Err (NewError "runtime cannot be nil"), m)
       | Some rt =>
           match m !! runtimeType with
           | Some _ => (Err (NewError ("runtime " +:+ runtimeType +:+ " already registered")), m)
           | None => (Ok tt, <[runtimeType := rt]> m)
           end
       end.

Definition runtimeConfigs : list (string * string) :=
  [("python3.9", "python:3.9-slim"); ("python3.11", "python:3.11-slim"); ("nodejs18", "node:18-slim");
   ("nodejs20", "node:20-slim"); ("go1.21", "golang:1.21-alpine")].

(** [make] is [NewKubernetesRuntime] or [NewDockerRuntime], by the environment
    variable. *)
Fixpoint register_all (make : string → string → outcome RT) (configs : list (string * string))
    : St (gmap string RT) unit :=
  match configs with
  | [] => st_ret tt
  | (runtimeType, baseImage) :: rest =>
      rt <-! st_wrap ("failed to create " +:+ runtimeType +:+ " runtime") (st_lift (make runtimeType baseImage)) ;;
      RegisterRuntime runtimeType (Some rt) ;;!
      register_all make rest
  end.

Definition registerDefaultRuntimes (inKubernetes : bool) (kube docker : string → string → outcome RT)
    : St (gmap string RT) unit :=
  register_all (if inKubernetes then kube else docker) runtimeConfigs.

(** The manager is the table and the collector of its metrics, which every
    runtime is given. *)
Definition NewManager (inKubernetes : bool) (kube docker : MetricsCollector → string → string → outcome RT)
    : outcome (gmap string RT * MetricsCollector) :=
  outcome_bind NewMetricsCollector (λ mc,
    match registerDefaultRuntimes inKubernetes (kube mc) (docker mc) ∅ with
    | (Ok _, m) => Ok (m, mc)
    | (Err e, _) => Err (Wrap "failed to register default runtimes" e)
    | (Panic w, _) => Panic w
    end).

Definition GetMetricsCollector (mg : gmap string RT * MetricsCollector) : MetricsCollector := mg.2.

Definition listRuntimesUnsafe (m : gmap string RT) : list string := (map_to_list m).*1.
Definition ListRuntimes (m : gmap string RT) : list string := listRuntimesUnsafe m.

Definition GetRuntime (runtimeType : string) (m : gmap string RT) : outcome RT :=
  match m !! runtimeType with
  | Some rt => Ok rt
  | None => Err (NewError ("runtime " +:+ runtimeType +:+ " not found."))
  end.

(** [cleanup] is [Runtime.Cleanup]; every runtime is cleaned up, whatever the
    others answer. *)
Definition Manager_Shutdown (cleanup : RT → option error) (m : gmap string RT) : outcome unit * gmap string RT :=
  let errors := omap (λ kv, (λ e, Wrap ("failed to cleanup " +:+ kv.1) e) <$> cleanup kv.2) (map_to_list m) in
  (match errors with [] => Ok tt | _ => Err (NewError "shutdown errors") end, ∅).

(** [execute] is [Runtime.Execute] on the world of the runtimes. *)
Definition Manager_Execute {W} (execute : RT → Function → string → St W ExecutionResult) (m : gmap string RT)
    (fn : Function) (input : string) : St W ExecutionResult :=
  rt <-! st_lift (GetRuntime (fn_Runtime fn) m) ;;
  execute rt fn input.
End Runtimes.

(** ** The pool's manager *)

Definition getDefaultRuntimeImages : gmap string string :=
  list_to_map
    [("python3.9", "python:3.9-slim"); ("python3.10", "python:3.10-slim"); ("python3.11", "python:3.11-slim");
     ("python3.12", "python:3.12-slim"); ("nodejs16", "node:16-alpine"); ("nodejs18", "node:18-alpine");
     ("nodejs20", "node:20-alpine"); ("nodejs22", "node:22-alpine"); ("go1.22", "golang:1.22-alpine");
     ("go1.23", "golang:1.23-alpine"); ("go1.24", "golang:1.24-alpine")].

Record PoolManager := mkPoolManager {
  pm_pools : gmap string Pool;
  pm_defaultConfig : PoolConfig;
  pm_runtimeImages : gmap string string
}.

Definition PM_New : PoolManager := mkPoolManager ∅ (DefaultPoolConfig "") getDefaultRuntimeImages.
Definition PM_NewWithConfig (defaultConfig : PoolConfig) : PoolManager :=
  mkPoolManager ∅ defaultConfig getDefaultRuntimeImages.

Definition pm_set_pool (runtime : string) (p : Pool) (m : PoolManager) : PoolManager :=
  mkPoolManager (<[runtime := p]> (pm_pools m)) (pm_defaultConfig m) (pm_runtimeImages m).

(** A pool of the manager is named by its runtime. *)
Definition PM_GetPool (client_err ping_err : option error) (now : Z) (runtime : string) : St PoolManager unit := λ m,
  match pm_pools m !! runtime with
  | Some _ => (Ok tt, m)
  | None =>
      match pm_runtimeImages m !! runtime with
      | None => (Err (NewError ("unknown runtime: " +:+ runtime)), m)
      | Some baseImage =>
          let c := pm_defaultConfig m in
          let config := mkPoolConfig runtime (pc_MinSize c) (pc_MaxSize c) (pc_MaxIdleTime c) (pc_MaxUseCount c)
                          (pc_TickInterval c) (pc_seeds c) in
          match NewDockerPool client_err ping_err now config with
          | Ok p => (Ok tt, pm_set_pool runtime p m)
          | Err e => (Err (Wrap ("failed to create pool for runtime " +:+ runtime) e), m)
          | Panic w => (Panic w, m)
          end
      end
  end.

Section WarmUp.
(** What the creation of the [i]-th container of a runtime meets. *)
Context (client_err ping_err : option error) (now : Z) (env : string → nat → DockerEnv).
Open Scope golang_scope.

(** [pool.CreateNew]. *)
Definition PM_CreateNew (e : DockerEnv) (runtime : string) : St PoolManager unit := λ m,
  match pm_pools m !! runtime with
  | None => (Ok tt, m)
  | Some p => let '(r, p') := DP_CreateNew e p in (r, pm_set_pool runtime p' m)
  end.

Fixpoint create_loop (runtime : string) (i n : nat) : St PoolManager unit :=
  match n with
  | O => st_ret tt
  | S n' =>
      st_wrap ("failed to create new container for runtime " +:+ runtime) (PM_CreateNew (env runtime i) runtime) ;;!
      create_loop runtime (S i) n'
  end.

Fixpoint PM_WarmUp (runtimes : list string) : St PoolManager unit :=
  match runtimes with
  | [] => st_ret tt
  | runtime :: rest =>
      st_wrap ("failed to warm up runtime " +:+ runtime) (PM_GetPool client_err ping_err now runtime) ;;!
      m <-! st_get ;;
      create_loop runtime 0 (Z.to_nat (pc_MinSize (pm_defaultConfig m))) ;;!
      PM_WarmUp rest
  end.
End WarmUp.

(** [Shutdown] of every pool, one after another; [None] while one waits. *)
Fixpoint shutdown_all (rm : string → option error) (ps : list (string * Pool)) : option (list error) :=
  match ps with
  | [] => Some []
  | (runtime, p) :: rest =>
      match Shutdown_finish rm (Shutdown_mark p), shutdown_all rm rest with
      | Some (Err e, _), Some errs => Some (Wrap ("failed to shutdown pool for runtime " +:+ runtime) e :: errs)
      | Some _, Some errs => Some errs
      | _, _ => None
      end
  end.

Definition PM_Shutdown (rm : string → option error) (m : PoolManager) : option (outcome unit * PoolManager) :=
  match shutdown_all rm (map_to_list (pm_pools m)) with
  | None => None
  | Some errs =>
      Some (match errs with [] => Ok tt | _ => Err (NewError "failed to shutdown pools") end,
            mkPoolManager ∅ (pm_defaultConfig m) (pm_runtimeImages m))
  end.

Definition PM_GlobalStats (m : PoolManager) : gmap string PoolStats := DP_Stats <$> pm_pools m.

Definition PM_SetRuntimeImage (runtime image : string) (m : PoolManager) : PoolManager :=
  mkPoolManager (pm_pools m) (pm_defaultConfig m) (<[runtime := image]> (pm_runtimeImages m)).

(** ** Lemmas *)

Lemma register_all_spec {RT} (make : string → string → outcome RT) configs m :
  NoDup configs.*1 → (∀ k, k ∈ configs.*1 → m !! k = None ∧ k ≠ "") →
  (∀ k i, (k, i) ∈ configs → ∃ rt, make k i = Ok rt) →
  ∃ m', register_all make configs m = (Ok tt, m')
    ∧ (∀ k i, (k, i) ∈ configs → ∃ rt, make k i = Ok rt ∧ m' !! k = Some rt)
    ∧ (∀ k, k ∉ configs.*1 → m' !! k = m !! k).
Proof.
  revert m. induction configs as [|[k i] configs IH]; intros m Hnd Hfree Hmake; cbn [register_all].
  { exists m. split_and!; [done|intros k i Hin; by inversion Hin|done]. }
  inversion Hnd as [|? ? Hk Hnd']; subst. destruct (Hmake k i) as [rt Hrt]; [by left|].
  destruct (Hfree k) as [Hf Hne]; [by left|].
  unfold st_bind at 1, st_wrap, st_lift. rewrite Hrt. cbn [wrap_err]. unfold st_bind, RegisterRuntime.
  rewrite bool_decide_eq_false_2 by done. rewrite Hf.
  destruct (IH (<[k := rt]> m) Hnd') as (m' & -> & H1 & H2).
  - intros k' Hk'. destruct (Hfree k') as [? ?]; [by right|]. split; [|done].
    rewrite lookup_insert_ne; [done|]. by intros ->.
  - intros k' i' Hin. apply (Hmake k' i'). by right.
  - exists m'. split_and!; [done| |].
    + intros k' i' [[= -> ->]|Hin]%elem_of_cons; [|by apply H1]. exists rt. split; [done|].
      rewrite H2 by done. by rewrite lookup_insert_eq.
    + intros k' Hk'. apply not_elem_of_cons in Hk' as [Hne' Hk']. rewrite H2 by done. by rewrite lookup_insert_ne.
Qed.

Lemma register_all_Ok {RT} (make : string → string → outcome RT) configs m m' :
  register_all make configs m = (Ok tt, m') → ∀ k i, (k, i) ∈ configs → ∃ rt, make k i = Ok rt.
Proof.
  revert m. induction configs as [|[k i] configs IH]; intros m H k' i' Hin; [by inversion Hin|].
  cbn [register_all] in H. unfold st_bind at 1, st_wrap, st_lift in H.
  destruct (make k i) as [rt|?|?] eqn:Hm; simpl in H; [|done..]. unfold st_bind in H.
  destruct (RegisterRuntime k (Some rt) m) as [[?|?|?] m1]; [|done..].
  apply elem_of_cons in Hin as [[= -> ->]|Hin]; [by eexists|]. by apply (IH m1).
Qed.

Lemma runtimeConfigs_NoDup : NoDup runtimeConfigs.*1.
Proof. repeat (constructor; [by rewrite ?not_elem_of_cons; split_and?; [..|apply not_elem_of_nil]|]). constructor. Qed.
Lemma runtimeConfigs_nonempty : "" ∉ runtimeConfigs.*1.
Proof. intros Hk. repeat (apply elem_of_cons in Hk as [Hk|Hk]; [done|]). by inversion Hk. Qed.

(** A manager is made exactly when each of the five runtimes is. *)
Lemma NewManager_is_Ok {RT} k8s (kube docker : MetricsCollector → string → string → outcome RT) :
  is_Ok (NewManager k8s kube docker) = true
  ↔ ∀ k i, (k, i) ∈ runtimeConfigs → is_Ok ((if k8s then kube else docker) the_collector k i) = true.
Proof.
  unfold NewManager. rewrite NewMetricsCollector_ok. cbn [outcome_bind]. unfold registerDefaultRuntimes.
  replace (if k8s then kube the_collector else docker the_collector) with ((if k8s then kube else docker) the_collector)
    by by destruct k8s.
  set (make := (if k8s then kube else docker) the_collector). split.
  - destruct (register_all make runtimeConfigs ∅) as [[[]|?|?] m] eqn:E; [|done..]. intros _ k i Hin.
    by destruct (register_all_Ok make runtimeConfigs ∅ m E k i Hin) as [rt ->].
  - intros Hmake. destruct (register_all_spec make runtimeConfigs ∅) as (m & -> & _); [apply runtimeConfigs_NoDup|..|done].
    + intros k Hk. split; [apply lookup_empty|]. intros ->. by apply runtimeConfigs_nonempty in Hk.
    + intros k i Hin. specialize (Hmake k i Hin). destruct (make k i) as [rt|?|?]; [by eexists|done..].
Qed.

Lemma NewManager_dom {RT} k8s (kube docker : MetricsCollector → string → string → outcome RT) m mc :
  NewManager k8s kube docker = Ok (m, mc) → dom m = list_to_set runtimeConfigs.*1.
Proof.
  unfold NewManager. rewrite NewMetricsCollector_ok. cbn [outcome_bind]. unfold registerDefaultRuntimes.
  set (make := if k8s then kube the_collector else docker the_collector).
  destruct (register_all make runtimeConfigs ∅) as [[[]|?|?] m'] eqn:E; [|done..].
  intros Hm%(f_equal (λ r, default ∅ (fst <$> (match r with Ok x => Some x | _ => None end)))). simpl in Hm. subst m.
  destruct (register_all_spec make runtimeConfigs ∅) as (m1 & Hm1 & H1 & H2).
  - apply runtimeConfigs_NoDup.
  - intros k Hk. split; [apply lookup_empty|]. intros ->. by apply runtimeConfigs_nonempty in Hk.
  - apply (register_all_Ok make runtimeConfigs ∅ m' E).
  - rewrite E in Hm1. injection Hm1 as <-. apply set_eq. intros k. rewrite elem_of_dom, elem_of_list_to_set. split.
    + intros Hk. destruct (decide (k ∈ runtimeConfigs.*1)) as [|Hn]; [done|]. rewrite (H2 k Hn), lookup_empty in Hk. by destruct Hk.
    + intros ([k' i] & -> & Hin)%list_elem_of_fmap. destruct (H1 k' i Hin) as (rt & _ & Hrt). by exists rt.
Qed.

(** ** Theorems *)

(** The runtimes.  A manager whose five runtimes could be made dispatches
    an execution to the runtime of the function's type, and refuses a function
    of any other type without running anything. *)
Theorem NewManager_dispatches {RT W} (k8s : bool) (kube docker : MetricsCollector → string → string → outcome RT)
    (execute : RT → Function → string → St W ExecutionResult) fn input w :
  (∀ mc k i, (k, i) ∈ runtimeConfigs → ∃ rt, (if k8s then kube mc k i else docker mc k i) = Ok rt) →
  ∃ m mc, NewManager k8s kube docker = Ok (m, mc)
    ∧ match list_to_map (M := gmap string string) runtimeConfigs !! fn_Runtime fn with
      | Some image => ∃ rt, (if k8s then kube mc (fn_Runtime fn) image else docker mc (fn_Runtime fn) image) = Ok rt
          ∧ Manager_Execute execute m fn input w = execute rt fn input w
      | None => ∃ err, Manager_Execute execute m fn input w = (Err err, w)
      end.
Proof.
  intros Hmake. unfold NewManager. rewrite NewMetricsCollector_ok. cbn [outcome_bind]. set (mc := the_collector).
  assert (∀ k i, (if k8s then kube mc k i else docker mc k i) = (if k8s then kube mc else docker mc) k i) as Hif
    by by destruct k8s.
  unfold registerDefaultRuntimes.
  destruct (register_all_spec (if k8s then kube mc else docker mc) runtimeConfigs ∅) as (m & -> & H1 & H2).
  - apply runtimeConfigs_NoDup.
  - intros k Hk. split; [apply lookup_empty|]. intros ->. by apply runtimeConfigs_nonempty in Hk.
  - intros k i Hin. destruct (Hmake mc k i Hin) as [rt Hrt]. exists rt. by rewrite <- Hif.
  - exists m, mc. split; [done|]. unfold Manager_Execute, st_bind, st_lift, GetRuntime.
    destruct (list_to_map runtimeConfigs !! fn_Runtime fn) as [image|] eqn:Hl.
    + apply elem_of_list_to_map_2 in Hl. destruct (H1 _ _ Hl) as (rt & Hrt & Hm). exists rt. split; [by rewrite Hif|]. by rewrite Hm.
    + apply not_elem_of_list_to_map in Hl. rewrite H2 by done. rewrite lookup_empty. by eexists.
Qed.

Lemma NewManager_dispatches_witness :
  ∃ m mc, NewManager false (λ _ _ _, Err (NewError "no cluster")) (λ _ k _, Ok k) = Ok (m, mc)
    ∧ ∃ rt, Ok (A := string) "nodejs18" = Ok rt
      ∧ Manager_Execute (λ rt _ input n, (Ok (mkResult (rt +:+ input) "" 0 0 0 false), S n)) m
          (mkFunction "f" "f" "nodejs18" "h" "k" Second 128 ∅ 0 0) "{}" 0%nat
        = (Ok (mkResult (rt +:+ "{}") "" 0 0 0 false), 1%nat).
Proof.
  exact (NewManager_dispatches false (λ _ _ _, Err (NewError "no cluster")) (λ _ k _, Ok k)
    (λ rt _ input n, (Ok (mkResult (rt +:+ input) "" 0 0 0 false), S n))
    (mkFunction "f" "f" "nodejs18" "h" "k" Second 128 ∅ 0 0) "{}" 0%nat (λ _ k i _, ex_intro _ k eq_refl)).
Defined.
