(* ===== verification/Invoke.v ===== *)
(** * Invocation (lambda-service internal/invoke/handler.go)

    The HTTP handler that runs a function.  The services it calls are classes
    on a world [W]; the execution record is saved by a goroutine, so it is
    queued in [iw_pending] and saved by a later step.  JSON is a parameter. *)

From Stdlib Require Import ZArith Lia Ascii.
From stdpp Require Import base strings gmap list numbers.
From S2P Require Import Prelude.
From S2P Require Import Strings.
From S2P Require Import Domain.
From S2P Require Import Http.
From S2P Require Import Gateway.
From S2P Require Import BuildService.
Open Scope Z_scope.

(** ** Interfaces *)

Class FunctionLookup (W : Type) := {
  fl_GetFunctionMeta : string → St W Function;
  fl_SaveExecution : Execution → St W unit
}.

(** A runtime may return neither a result nor an error. *)
Class RuntimeManager (W : Type) := { rm_Execute : Function → string → St W (option ExecutionResult) }.

(** encoding/json: [json.Valid], and [json.Marshal] of a string. *)
Class JsonText := { json_Valid : string → bool; json_String : string → string }.
Class JsonTextLaws `{!JsonText} := {
  json_null_valid : json_Valid "null" = true;
  json_string_valid s : json_Valid (json_String s) = true
}.

(** ** The handler *)

Record Response := mkResponse {
  rs_FunctionID : string;
  rs_Output : string;
  rs_Logs : string;
  rs_ExitCode : Z;
  rs_WarmStart : bool;
  rs_DurationMS : Z
}.

Record Handler := mkHandler { hd_maxBodyBytes : Z }.

Definition NewHandler (maxBodyBytes : Z) : Handler :=
  mkHandler (if bool_decide (maxBodyBytes ≤ 0) then 1024 * 1024 else maxBodyBytes).

Definition parseFunctionID (path : string) : option string :=
  let prefix := "/functions/" in
  let suffix := "/invoke" in
  if negb (HasPrefix path prefix) || negb (HasSuffix path suffix) then None
  else
    let id := TrimSuffix (TrimPrefix path prefix) suffix in
    let id := Trim id slash in
    if bool_decide (id = "") || ContainsChar id slash then None else Some id.

(** [http.ErrBodyReadAfterClose] stands for a body that is too long. *)
Definition readLimitedBody (body : Body) (maxBytes : Z) : outcome string :=
  outcome_bind (io_ReadAll (io_LimitReader body (wrap64 (maxBytes + 1)))) (λ data,
    if bool_decide (maxBytes < Z.of_nat (String.length data))
    then Err (Sentinel "http.ErrBodyReadAfterClose" "http: invalid Read on closed Body")
    else Ok data).

Definition normalizeOutput `{!JsonText} (output : string) : string :=
  let trimmed := TrimSpace output in
  if bool_decide (trimmed = "") then "null"
  else if json_Valid trimmed then trimmed
  else json_String trimmed.

(** The clock before and after the execution and when it is marked, and the
    generated identifier. *)
Record InvokeEnv := mkInvokeEnv { iv_start : Z; iv_end : Z; iv_marked : Z; iv_exec_id : string }.

Record InvokeWorld (W : Type) := mkIW { iw_world : W; iw_pending : list Execution }.
Arguments mkIW {W} _ _.
Arguments iw_world {W} _.
Arguments iw_pending {W} _.

Section Handle.
Context {W : Type} `{!FunctionLookup W, !RuntimeManager W} `{!JsonText} `{!Json Response}.

Definition success_record (e : InvokeEnv) (functionID payload : string) (result : ExecutionResult) : Execution :=
  ex_set_result (er_MemoryUsed result) (er_WasWarmStart result)
    (Execution_MarkSuccess (iv_marked e) (er_Output result)
       (ex_set_StartedAt (iv_start e) (NewExecution (iv_exec_id e) functionID payload))).

Definition invoke_response (e : InvokeEnv) (functionID : string) (result : ExecutionResult) : Response :=
  mkResponse functionID (normalizeOutput (er_Output result)) (er_Logs result) (er_ExitCode result)
    (er_WasWarmStart result) (duration_Milliseconds (time_Sub (iv_end e) (iv_start e))).

Definition is_timeout (err : error) : bool :=
  errors_Is err "context.DeadlineExceeded" || errors_Is err "context.Canceled".

(** From the call of the runtime on. *)
Definition run_function (e : InvokeEnv) (w : ResponseWriter) (functionID payload : string) (function : Function)
    (iw : InvokeWorld W) : outcome ResponseWriter * InvokeWorld W :=
  let '(r, s) := rm_Execute function payload (iw_world iw) in
  let iw := mkIW s (iw_pending iw) in
  match r with
  | Err err =>
      if is_timeout err then (Ok (http_Error w "Execution timeout" 504), iw)
      else (Ok (http_Error w "Runtime execution failed" 500), iw)
  | Ok None => (Ok (http_Error w "Runtime execution failed" 500), iw)
  | Ok (Some result) =>
      let execution := success_record e (fn_ID function) payload result in
      let iw := mkIW (iw_world iw) (iw_pending iw ++ [execution]) in
      let w := rw_set_header (Header_Set (rw_header w) "Content-Type" "application/json") w in
      (Ok (rw_Write (json_Marshal (invoke_response e functionID result) +:+ newline_str) (rw_WriteHeader 200 w)), iw)
  | Panic why => (Panic why, iw)
  end.

Definition HandleInvoke (h : Handler) (e : InvokeEnv) (w : ResponseWriter) (r : Request) (iw : InvokeWorld W)
    : outcome ResponseWriter * InvokeWorld W :=
  if bool_decide (rq_Method r ≠ "POST") then (Ok (http_Error w "Method not allowed" 405), iw)
  else
    match parseFunctionID (rq_Path r) with
    | None => (Ok (http_NotFound w), iw)
    | Some functionID =>
        match readLimitedBody (rq_Body r) (hd_maxBodyBytes h) with
        | Ok payload =>
            let '(f, s) := fl_GetFunctionMeta functionID (iw_world iw) in
            let iw := mkIW s (iw_pending iw) in
            match f with
            | Ok function => run_function e w functionID payload function iw
            | Err err =>
                if errors_Is err "domain.ErrFunctionNotFound" then (Ok (http_Error w "Function not found" 404), iw)
                else (Ok (http_Error w "Internal server error" 500), iw)
            | Panic why => (Panic why, iw)
            end
        | _ => (Ok (http_Error w "Payload too large" 413), iw)
        end
    end.

(** A goroutine saves its record; an error is logged.  They may run in any
    order. *)
Definition save_pending (i : nat) (iw : InvokeWorld W) : InvokeWorld W :=
  match iw_pending iw !! i with
  | None => iw
  | Some x => mkIW (fl_SaveExecution x (iw_world iw)).2 (delete i (iw_pending iw))
  end.
End Handle.

(** ** Lemmas *)

(** The gateway forwards to this handler exactly the paths it understands. *)
Lemma parseFunctionID_gateway path : parseFunctionID path = parseInvokeFunctionID path.
Proof. reflexivity. Qed.

Lemma http_Error_fresh msg code : rw_status (http_Error rw_new msg code) = Some code.
Proof. reflexivity. Qed.

(** A body is read whole, or not accepted. *)
Lemma readLimitedBody_Ok body maxBytes data :
  0 < maxBytes < int64_max → readLimitedBody body maxBytes = Ok data →
  data = bd_data body ∧ Z.of_nat (String.length data) ≤ maxBytes.
Proof.
  intros Hm. unfold readLimitedBody. rewrite wrap64_id by (i64; lia). unfold io_LimitReader.
  case_bool_decide as Hlen; simpl.
  - rewrite bool_decide_eq_true_2; [done|]. rewrite str_length_take by lia. lia.
  - unfold io_ReadAll. destruct (bd_err body); [done|]. simpl. case_bool_decide; [done|].
    intros [= <-]. split; [done|lia].
Qed.

Lemma readLimitedBody_err body maxBytes data :
  0 < maxBytes < int64_max → readLimitedBody body maxBytes = Ok data → bd_err body = None.
Proof.
  intros Hm. unfold readLimitedBody. rewrite wrap64_id by (i64; lia). unfold io_LimitReader.
  case_bool_decide as Hlen; simpl.
  - rewrite bool_decide_eq_true_2; [done|]. rewrite str_length_take by lia. lia.
  - unfold io_ReadAll. by destruct (bd_err body).
Qed.

Lemma readLimitedBody_fits body maxBytes :
  0 < maxBytes < int64_max → bd_err body = None → Z.of_nat (String.length (bd_data body)) ≤ maxBytes →
  readLimitedBody body maxBytes = Ok (bd_data body).
Proof.
  intros Hm He Hl. unfold readLimitedBody. rewrite wrap64_id by (i64; lia). unfold io_LimitReader.
  rewrite bool_decide_eq_false_2 by lia. unfold io_ReadAll. rewrite He. simpl. by rewrite bool_decide_eq_false_2 by lia.
Qed.

(** ** Theorems *)

(** The output field.  Whatever a function prints, the answer's output is
    valid JSON, so that the answer as a whole can be encoded. *)
Theorem normalizeOutput_valid `{!JsonText, !JsonTextLaws} output : json_Valid (normalizeOutput output) = true.
Proof.
  unfold normalizeOutput. case_bool_decide; [apply json_null_valid|].
  destruct (json_Valid (TrimSpace output)) eqn:Hv; [done|apply json_string_valid].
Qed.

Section Theorems.
Context {W : Type} `{!FunctionLookup W, !RuntimeManager W} `{!JsonText} `{!Json Response}.
Implicit Types iw : InvokeWorld W.

(** A request that gets as far as the look-up of its function. *)
Definition accepted (n : Z) (r : Request) (id : string) : Prop :=
  rq_Method r = "POST" ∧ parseInvokeFunctionID (rq_Path r) = Some id
  ∧ bd_err (rq_Body r) = None ∧ Z.of_nat (String.length (bd_data (rq_Body r))) ≤ hd_maxBodyBytes (NewHandler n).

(** Why an invocation is answered with a status. *)
Inductive cause (n : Z) (r : Request) iw : Z → Prop :=
  | cause_method : rq_Method r ≠ "POST" → cause n r iw 405
  | cause_path : rq_Method r = "POST" → parseInvokeFunctionID (rq_Path r) = None → cause n r iw 404
  | cause_body id : rq_Method r = "POST" → parseInvokeFunctionID (rq_Path r) = Some id →
      bd_err (rq_Body r) ≠ None ∨ hd_maxBodyBytes (NewHandler n) < Z.of_nat (String.length (bd_data (rq_Body r))) →
      cause n r iw 413
  | cause_unknown id err s : accepted n r id → fl_GetFunctionMeta id (iw_world iw) = (Err err, s) →
      errors_Is err "domain.ErrFunctionNotFound" = true → cause n r iw 404
  | cause_lookup id err s : accepted n r id → fl_GetFunctionMeta id (iw_world iw) = (Err err, s) →
      errors_Is err "domain.ErrFunctionNotFound" = false → cause n r iw 500
  | cause_timeout id fn s err s' : accepted n r id → fl_GetFunctionMeta id (iw_world iw) = (Ok fn, s) →
      rm_Execute fn (bd_data (rq_Body r)) s = (Err err, s') → is_timeout err = true → cause n r iw 504
  | cause_runtime id fn s err s' : accepted n r id → fl_GetFunctionMeta id (iw_world iw) = (Ok fn, s) →
      rm_Execute fn (bd_data (rq_Body r)) s = (Err err, s') → is_timeout err = false → cause n r iw 500
  | cause_nil id fn s s' : accepted n r id → fl_GetFunctionMeta id (iw_world iw) = (Ok fn, s) →
      rm_Execute fn (bd_data (rq_Body r)) s = (Ok None, s') → cause n r iw 500
  | cause_result id fn s result s' : accepted n r id → fl_GetFunctionMeta id (iw_world iw) = (Ok fn, s) →
      rm_Execute fn (bd_data (rq_Body r)) s = (Ok (Some result), s') → cause n r iw 200.

(** The causes exclude each other. *)
Lemma cause_functional n r iw c1 c2 : cause n r iw c1 → cause n r iw c2 → c1 = c2.
Proof.
  intros H1 H2. destruct H1; destruct H2; try done; unfold accepted in *; destruct_and?; destruct_or?;
    simplify_eq; first [done|congruence|lia].
Qed.

(** C9.  Invoking.  Every status has its cause in this run, and is the answer
    exactly when the cause is there: 405 for another method, 404 for another
    path or a function that the look-up does not know, 413 for a body that
    cannot be read or exceeds the limit, 504 when the execution timed out or
    was cancelled, 500 for any other error of the look-up or of the runtime or
    a missing result, and 200 when the runtime, given the body unchanged and
    the function of the look-up, returned a result.  A 200 carries that result
    and queues one execution record, with status success whatever the exit
    code; any other answer queues none. *)
Theorem HandleInvoke_outcomes n e r iw w' iw' :
  0 < hd_maxBodyBytes (NewHandler n) < int64_max →
  HandleInvoke (NewHandler n) e rw_new r iw = (Ok w', iw') →
  (∀ code, rw_status w' = Some code ↔ cause n r iw code)
  ∧ ((rw_status w' ≠ Some 200 ∧ iw_pending iw' = iw_pending iw)
     ∨ (rw_status w' = Some 200 ∧ ∃ id fn s result, accepted n r id
        ∧ fl_GetFunctionMeta id (iw_world iw) = (Ok fn, s)
        ∧ rm_Execute fn (bd_data (rq_Body r)) s = (Ok (Some result), iw_world iw')
        ∧ rw_body w' = json_Marshal (invoke_response e id result) +:+ newline_str
        ∧ ∃ x, iw_pending iw' = iw_pending iw ++ [x]
            ∧ ex_Status x = StatusSuccess ∧ ex_FunctionID x = fn_ID fn ∧ ex_Output x = er_Output result)).
Proof.
  intros Hmax.
  assert (∀ code, rw_status w' = Some code → cause n r iw code →
    ∀ code', rw_status w' = Some code' ↔ cause n r iw code') as Hiff.
  { intros code Hst Hc code'. rewrite Hst. split; [by intros [= <-]|]. intros Hc'. f_equal. by eapply cause_functional. }
  unfold HandleInvoke. case_bool_decide as Hm.
  { intros [= <- <-]. split; [|by left]. apply (Hiff 405); [done|by constructor]. }
  rewrite parseFunctionID_gateway.
  destruct (parseInvokeFunctionID (rq_Path r)) as [id|] eqn:Hp.
  2:{ intros [= <- <-]. split; [|by left]. apply (Hiff 404); [done|by apply cause_path]. }
  destruct (readLimitedBody (rq_Body r) (hd_maxBodyBytes (NewHandler n))) as [payload|err|why] eqn:Hb.
  2,3: intros [= <- <-]; (split; [|by left]); apply (Hiff 413); [done|]; apply (cause_body _ _ _ id); [done|done|];
    destruct (bd_err (rq_Body r)) eqn:He; [by left|right];
    apply Z.nle_gt; intros Hle; by rewrite readLimitedBody_fits in Hb.
  pose proof (readLimitedBody_err _ _ _ Hmax Hb) as Herr. apply readLimitedBody_Ok in Hb as [-> Hlen]; [|done].
  assert (accepted n r id) as Hacc by done.
  destruct (fl_GetFunctionMeta id (iw_world iw)) as [[fn|err|why] s] eqn:Hf; [| |done].
  2:{ destruct (errors_Is err _) eqn:He; intros [= <- <-]; (split; [|by left]).
      - apply (Hiff 404); [done|by eapply cause_unknown].
      - apply (Hiff 500); [done|by eapply cause_lookup]. }
  unfold run_function. cbn [iw_world iw_pending].
  destruct (rm_Execute fn (bd_data (rq_Body r)) s) as [[[result|]|err|why] s'] eqn:Hx; [| | |done].
  - intros [= <- <-]. split; [apply (Hiff 200); [done|by eapply cause_result]|]. right. split; [done|].
    exists id, fn, s, result. split_and!; try done. eexists. by split_and!.
  - intros [= <- <-]. split; [|by left]. apply (Hiff 500); [done|by eapply cause_nil].
  - destruct (is_timeout err) eqn:Ht; intros [= <- <-]; (split; [|by left]).
    + apply (Hiff 504); [done|by eapply cause_timeout].
    + apply (Hiff 500); [done|by eapply cause_runtime].
Qed.
End Theorems.

(** ** Concrete runs *)

Module InvokeDemo.
#[local] Instance demo_text : JsonText :=
  {| json_Valid := λ s, bool_decide (s = "null") || HasPrefix s "'"; json_String := λ s, "'" +:+ s +:+ "'" |}.
#[local] Instance demo_response : Json Response :=
  {| json_Marshal := rs_Output; json_Unmarshal := λ _, Err (NewError "unused") |}.
#[local] Instance demo_lookup : FunctionLookup nat :=
  {| fl_GetFunctionMeta := λ id n, (Ok (mkFunction id id "python3.9" "h" "key" Second 128 ∅ 0 0), n);
     fl_SaveExecution := λ _ n, (Ok tt, n) |}.
(** A function that crashes. *)
#[local] Instance demo_manager : RuntimeManager nat :=
  {| rm_Execute := λ _ input n, (Ok (Some (mkResult input "" 0 0 1 false)), S n) |}.
Definition demo_post : Request := mkRequest "POST" "/functions/f1/invoke" ∅ ∅ (mkBody "{}" None) "".
Definition demo_env : InvokeEnv := mkInvokeEnv 0 Second Second "e1".

Lemma HandleInvoke_outcomes_witness :
  ∃ w' iw', HandleInvoke (NewHandler 0) demo_env rw_new demo_post (mkIW 0%nat []) = (Ok w', iw')
    ∧ rw_status w' = Some 200 ∧ iw_pending iw' ≠ [].
Proof.
  destruct (HandleInvoke (NewHandler 0) demo_env rw_new demo_post (mkIW 0%nat [])) as [[w'|err|why] iw'] eqn:H;
    [|discriminate H..].
  destruct (HandleInvoke_outcomes 0 demo_env demo_post (mkIW 0%nat []) w' iw' ltac:(done) H) as [Hcause Hrec].
  assert (rw_status w' = Some 200) as H200.
  { apply Hcause. eapply (cause_result _ _ _ "f1"); [|reflexivity..]. split_and!; try reflexivity. vm_compute. discriminate. }
  destruct Hrec as [[Hno _]|(_ & id & fn & s & res & _ & _ & _ & _ & x & Hx & _)]; [by destruct Hno|].
  exists w', iw'. split; [reflexivity|]. split; [exact H200|]. rewrite Hx. discriminate.
Defined.
End InvokeDemo.
