(* ===== verification/EndToEnd.v ===== *)
(** * From an uploaded package to the code in a container

    The build worker, the registration consumer, the function service and the
    Docker runtime run one after another on their shared bucket and database:
    what the theorem of this file says of them follows from what each
    component's theorems say of it. *)

From Stdlib Require Import ZArith Lia Ascii.
From stdpp Require Import base strings gmap list numbers.
From S2P Require Import Prelude.
From S2P Require Import Domain.
From S2P Require Import Postgres.
From S2P Require Import CodeStorage.
From S2P Require Import FunctionService.
From S2P Require Import Zip.
From S2P Require Import BuildService.
From S2P Require Import Registration.
From S2P Require Import DockerPool.
From S2P Require Import Executor.
Open Scope Z_scope.

Section EndToEnd.
Context {B : Type} `{!ObjectStore B, !ObjectStoreLaws B} {HB3 : Blake3} {HB3L : Blake3Laws}.
Context `{!Json BuildJob, !Json FunctionBuiltEvent}.

(** [GetFunctionMeta] on the production stack. *)
Definition stack_GetMeta (s3 : S3Storage) (e : PgEnv) (e3 : S3Env) (id : string) : St (DB * B) Function :=
  FS_GetFunctionMeta (HR := PG_FunctionRepository e) id.

(** An execution was started in a container whose handler file holds [code]:
    the container [c] that it acquired, from the pool [i] of the registry. *)
Definition ran_in_container (rt : DockerRuntime) (re : RunEnv) (fn : Function) (input : string) (r : PoolRegistry)
    (result : ExecutionResult) (code : string) : Prop :=
  ∃ c i r1 rp result0 r2, Registry_Acquire (rn_acquire re) fn r = Some (Ok (c, i), r1)
    ∧ rg_pools r1 !! i = Some rp ∧ p_inUse (rp_pool rp) !! ct_ID c = Some c
    ∧ handler_file (dr_runtimeType rt) (ct_ID c) (p_files (rp_pool rp)) = Some code
    ∧ executeInPooledContainer rt (rn_exec re) (ct_ID c) fn input r1 = Some (Ok result0, r2)
    ∧ rg_execs r2 = rg_execs r1 ++ [(ct_ID c, buildExecutionCommand (dr_runtimeType rt) input)]
    ∧ result = er_set_WasWarmStart (bool_decide (1 < ct_UseCount c)) result0.

(** A registered function's row names the content key of its handler. *)
Lemma registered_view s3 e e3 body evt d b d' b' :
  db_inv d → json_Unmarshal body = Ok evt → stack_handle s3 e e3 body (d, b) = (Ok tt, (d', b')) →
  ∃ code g, os_Get b (handler_key evt) = Some code ∧ db_inv d' ∧ PG_view d' (fb_FunctionID evt) = Some g
    ∧ fn_Code g = key_of s3 code ∧ fn_Runtime g = fb_Runtime evt.
Proof.
  intros Hd Hj Hrun. destruct (stack_handle_Ok _ _ _ _ _ _ _ _ _ Hj Hrun) as (code & Hcode & _ & Hsv).
  set (f := registered_function evt (key_of s3 code) (pg_now e)) in *.
  assert (Hok : (PG_Save (pg_now e) (pg_save_err e) f d).1 = Ok tt) by by rewrite Hsv.
  destruct (PG_Save_spec _ _ _ _ Hok) as (_ & _ & row & Hrow & Hd').
  pose proof (db_run_inv (pg_now e) (Ok "") (pg_save_err e) (CSave f) d Hd) as Hinv. simpl in Hinv.
  rewrite Hsv in Hinv, Hd'. simpl in Hinv, Hd'.
  exists code, (function_of_row row). split; [done|]. split; [done|]. split; [|by rewrite Hrow].
  unfold PG_view. rewrite Hd'. simpl. by rewrite lookup_insert_eq.
Qed.

(** The code of an execution.  A package was built and its announcement
    registered; a function value with the code key and the runtime of the
    registered row is executed. *)
Lemma package_executed zp dk e body job w w' s3 pe e3 d d' b' fn g rt re input cfg r result r' :
  json_Unmarshal body = Ok job → bj_RepoURL job = "" →
  processBuildJob (B := B) zp dk e body w = (Ok tt, w') →
  json_Unmarshal (json_Marshal (built_event e job)) = Ok (built_event e job) →
  db_inv d → stack_handle s3 pe e3 (json_Marshal (built_event e job)) (d, ww_bucket w') = (Ok tt, (d', b')) →
  PG_view d' (bj_FunctionID job) = Some g → fn_Code fn = fn_Code g →
  rtc (reg_step (B := B) s3 (dr_runtimeType rt)) (NewPoolRegistry cfg) r → fn_Runtime fn = dr_runtimeType rt →
  sound_acquire (B := B) s3 (dr_runtimeType rt) fn (rn_acquire re) →
  DockerRuntime_Execute rt re fn input r = Some (Ok result, r') →
  ∃ data dir f files, os_Get (ww_bucket w) (bj_PackageURL job) = Some data
    ∧ ZIP_Process (wv_unzip e) zp (wv_dir_err e) data (bj_FunctionID job) (ww_fs w) = (Ok dir, f)
    ∧ wv_walk e dir f = (files, None)
    ∧ ∀ code, NoDup files.*1 → (handlerFilename (bj_Runtime job) (bj_Handler job), code) ∈ files →
      ran_in_container rt re fn input r result code.
Proof.
  intros Hj Hrepo Hrun Hevt Hd Hreg Hview Hsame Hsteps Hrt Hacq Hexec.
  destruct (processBuildJob_branch zp dk e _ _ _ _ _ Hj Hrun) as [[why Hwhy]|(w0 & (Hbk & _ & Hfs) & _ & Hbr)];
    [done|].
  rewrite bool_decide_eq_false_2 in Hbr by (by intros Hne; apply Hne).
  apply zip_build_Ok in Hbr as (data & dir & f & files & Hdata & Hz & Hw & Hu & _).
  rewrite Hfs in Hz. rewrite Hbk in Hdata. exists data, dir, f, files. split_and!; [done..|]. intros code Hnd Hin.
  apply (upload_files_spec _ _ _ _ _ _ _ Hnd Hu) in Hin.
  destruct (registered_view _ _ _ _ _ _ _ _ _ Hd Hevt Hreg) as (code' & g' & Hcode & _ & Hview' & Hkey & _).
  rewrite handler_key_artifact in Hcode. assert (code' = code) as -> by congruence. clear Hcode.
  change (fb_FunctionID (built_event e job)) with (bj_FunctionID job) in Hview'.
  assert (g' = g) as -> by congruence. rewrite <- Hsame in Hkey.
  destruct (reg_steps_inv s3 _ _ _ Hsteps (new_registry_inv _ cfg)) as [Hinv _].
  destruct (Execute_acquired _ _ _ _ _ _ _ Hexec) as (c & i & r1 & result0 & r2 & Ha & Hx & Hexecs & Hres).
  destruct (Registry_Acquire_seeded s3 _ _ _ _ _ _ _ Hinv Hrt Hacq Ha) as (rp & H1 & H2 & _ & cd & Hfile & Hhash).
  exists c, i, r1, rp, result0, r2. split_and!; [done..| |done|done|done].
  assert (cd = code) as ->; [|done]. unfold code_of_key in Hhash. rewrite Hkey, extractHash_key_of in Hhash.
  apply code_hash_inj, Hhash.
  intros Hnil. pose proof (code_hash_length code) as Hlen. rewrite Hnil in Hlen. simpl in Hlen. lia.
Qed.

(** What runs is what was uploaded.  Take a package build that succeeded,
    whose announcement was registered, and the function as [GetFunctionMeta]
    then gives it.  If an execution of it completes, the handler file written
    into the container it acquired holds exactly the contents of the package's
    handler file, and its command is the one started in that container,
    however the pools' goroutines interleave and whichever of their requests
    fail. *)
Theorem package_to_container zp dk e body job w w' s3 pe e3 d d' b' now fn s rt re input cfg r result r' :
  json_Unmarshal body = Ok job → bj_RepoURL job = "" →
  processBuildJob (B := B) zp dk e body w = (Ok tt, w') →
  json_Unmarshal (json_Marshal (built_event e job)) = Ok (built_event e job) →
  db_inv d → stack_handle s3 pe e3 (json_Marshal (built_event e job)) (d, ww_bucket w') = (Ok tt, (d', b')) →
  stack_GetMeta s3 (pg_ok now) s3_ok (bj_FunctionID job) (d', b') = (Ok fn, s) →
  rtc (reg_step (B := B) s3 (dr_runtimeType rt)) (NewPoolRegistry cfg) r → fn_Runtime fn = dr_runtimeType rt →
  sound_acquire (B := B) s3 (dr_runtimeType rt) fn (rn_acquire re) →
  DockerRuntime_Execute rt re fn input r = Some (Ok result, r') →
  ∃ data dir f files, os_Get (ww_bucket w) (bj_PackageURL job) = Some data
    ∧ ZIP_Process (wv_unzip e) zp (wv_dir_err e) data (bj_FunctionID job) (ww_fs w) = (Ok dir, f)
    ∧ wv_walk e dir f = (files, None)
    ∧ ∀ code, NoDup files.*1 → (handlerFilename (bj_Runtime job) (bj_Handler job), code) ∈ files →
      ran_in_container rt re fn input r result code.
Proof.
  intros Hj Hrepo Hrun Hevt Hd Hreg Hmeta.
  destruct (registered_view _ _ _ _ _ _ _ _ _ Hd Hevt Hreg) as (_ & g & _ & Hd' & Hview & _).
  change (fb_FunctionID (built_event e job)) with (bj_FunctionID job) in Hview.
  apply (package_executed zp dk e body job w w' s3 pe e3 d d' b' fn g); try done.
  unfold stack_GetMeta, FS_GetFunctionMeta, st_fst in Hmeta.
  cbn [repo_FindByID PG_FunctionRepository pg_find_err pg_ok fst snd] in Hmeta.
  rewrite (PG_FindByID_spec _ _ _ (inv_functions_pk _ Hd')) in Hmeta. unfold PG_view in Hview.
  destruct (db_functions d' !! bj_FunctionID job) as [row|]; [|done]. simpl in *. congruence.
Qed.
End EndToEnd.

(** ** A concrete run *)

Module EndToEndDemo.
Import BuildDemo RegistrationDemo.
#[local] Existing Instances tagged_digest tagged_digest_laws.

Definition meta_run : outcome Function * (DB * gmap string string) :=
  stack_GetMeta demo_s3 (pg_ok 9) s3_ok "fn-1" (demo_registered.2.1, demo_registered.2.2).
Definition node_fn : Function :=
  match meta_run.1 with Ok fn => fn | _ => mkFunction "" "" "" "" "" 0 0 ∅ 0 0 end.
Lemma meta_ok : meta_run = (Ok node_fn, meta_run.2).
Proof.
  assert (is_Ok meta_run.1 = true) as H by (vm_compute; reflexivity).
  unfold node_fn. by destruct meta_run as [[fn|err|w] ?].
Qed.

Definition node_code : string := "abc".
Definition node_seed : SeedEnv := mkSeedEnv s3_ok None None None None None [PollState false 0].
Definition node_bucket : gmap string string := {[key_of demo_s3 node_code := node_code]}.
Definition node_daemon : DockerEnv :=
  mkDocker (inr "0123456789abcdef") None
    (ExecutorDemo.seed_from node_bucket "nodejs18" (key_of demo_s3 node_code) node_seed) 1 (λ _, None).
Definition node_run : RunEnv :=
  mkRunEnv None None None (mkAcquireEnv None None 0 [node_daemon] id 2 None true)
    (mkExecEnv None None None [PollState false 0] "1" "" None) id 3 (λ _, None).
Definition node_rt : DockerRuntime := mkDockerRuntime "nodejs18" "node:18-slim".
Definition node_cfg : PoolConfig := mkPoolConfig "" 1 2 Minute 10 Second true.

Lemma node_key : fn_Code node_fn = key_of demo_s3 node_code ∧ fn_Runtime node_fn = "nodejs18".
Proof. split; vm_compute; reflexivity. Qed.

Lemma node_seeding : seeding (B := gmap string string) demo_s3 "nodejs18" (key_of demo_s3 node_code) node_daemon.
Proof.
  apply ExecutorDemo.seed_from_seeding. intros i fs. apply makeSeedFunc_returns. by exists tt.
Qed.

Lemma node_sound : sound_acquire (B := gmap string string) demo_s3 "nodejs18" node_fn (rn_acquire node_run).
Proof.
  split; [|done]. rewrite (proj1 node_key). constructor; [apply node_seeding|constructor].
Qed.

Definition node_out := DockerRuntime_Execute node_rt node_run node_fn "{}" (NewPoolRegistry node_cfg).
Lemma node_out_ok : ∃ result r', node_out = Some (Ok result, r').
Proof.
  assert (match node_out with Some (Ok _, _) => true | _ => false end = true) as H by (vm_compute; reflexivity).
  destruct node_out as [[[result|err|w] r']|]; [by exists result, r'|discriminate H..].
Qed.

Lemma package_to_container_witness :
  ∃ data dir f files, os_Get (ww_bucket demo_created) "packages/fn-1/package.zip" = Some data
    ∧ ZIP_Process (λ _, Ok demo_zip) (mkZIPProcessor "/work") None data "fn-1" (ww_fs demo_created) = (Ok dir, f)
    ∧ wv_walk (demo_worker None) dir f = (files, None)
    ∧ ∀ code, NoDup files.*1 → ("index.js", code) ∈ files →
      ∃ cid fs, handler_file "nodejs18" cid fs = Some code.
Proof.
  destruct node_out_ok as (result & r' & Hout).
  destruct (package_to_container (mkZIPProcessor "/work") (mkDockerBuilder "/work" "") (demo_worker None) "job-1" demo_job
    demo_created (demo_run None).2 demo_s3 (pg_ok 5) s3_ok initSchema demo_registered.2.1 demo_registered.2.2 9 node_fn
    meta_run.2 node_rt node_run "{}" node_cfg (NewPoolRegistry node_cfg) result r' demo_parse eq_refl demo_run_ok
    demo_event_parse initSchema_inv demo_registered_ok meta_ok (rtc_refl _ _) (proj2 node_key) node_sound
    Hout) as (data & dir & f & files & H1 & H2 & H3 & H4).
  exists data, dir, f, files. split; [exact H1|]. split; [exact H2|]. split; [exact H3|].
  intros code Hnd Hin. destruct (H4 code Hnd Hin) as (c & _ & _ & rp & _ & _ & _ & _ & _ & Hf & _).
  exists (ct_ID c), (p_files (rp_pool rp)). exact Hf.
Defined.
End EndToEndDemo.
