(* ===== verification/System.v ===== *)
(** * Gateway and lambda service together

    The gateway's invoke route with the lambda service behind it
    (services/gateway cmd/main.go and internal/router, lambda-service
    cmd/main.go and internal/invoke): the path as it travels between them,
    the time limits of the two HTTP ends, and the build-log stream through
    the gateway's middleware. *)

From Stdlib Require Import ZArith Lia Ascii.
From stdpp Require Import base strings gmap list numbers pretty.
From S2P Require Import Prelude.
From S2P Require Import CircuitBreaker.
From S2P Require Import Redis.
From S2P Require Import RateLimit.
From S2P Require Import Domain.
From S2P Require Import Http.
From S2P Require Import Gateway.
From S2P Require Import Logger.
From S2P Require Import Metrics.
From S2P Require Import Middleware.
From S2P Require Import BuildService.
From S2P Require Import Invoke.
Open Scope Z_scope.

(** ** Paths in URLs (net/url) *)

Definition hex_value (a : ascii) : option nat :=
  let n := nat_of_ascii a in
  if bool_decide (48 ≤ n ≤ 57)%nat then Some (n - 48)%nat
  else if bool_decide (97 ≤ n ≤ 102)%nat then Some (n - 87)%nat
  else if bool_decide (65 ≤ n ≤ 70)%nat then Some (n - 55)%nat
  else None.

(** [url.PathUnescape]; [None] is an [EscapeError]. *)
Fixpoint PathUnescape (s : string) : option string :=
  match s with
  | EmptyString => Some EmptyString
  | String a s' =>
      if bool_decide (a = "%"%char) then
        match s' with
        | String h (String l rest) =>
            match hex_value h, hex_value l with
            | Some x, Some y => String (ascii_of_nat (16 * x + y)) <$> PathUnescape rest
            | _, _ => None
            end
        | _ => None
        end
      else String a <$> PathUnescape s'
  end.

(** Bytes that [validEncoded] takes in a path; it also takes quotes and
    brackets. *)
Definition path_byte (a : ascii) : bool :=
  let n := nat_of_ascii a in
  bool_decide (48 ≤ n ≤ 57)%nat || bool_decide (97 ≤ n ≤ 122)%nat || bool_decide (65 ≤ n ≤ 90)%nat
  || bool_decide (a ∈ ["-"; "_"; "."; "~"; "/"; "%"; "!"; "$"; "&"; "("; ")"; "*"; "+"; ","; ";"; "="; ":"; "@"]%char).

Fixpoint validEncoded (s : string) : bool :=
  match s with
  | EmptyString => true
  | String a s' => path_byte a && validEncoded s'
  end.

(** [url.Parse] of the path that follows a service's address: the escaped
    path, which is what is sent, and the path it stands for. *)
Class NetUrl := { url_Parse : string → error + (string * string) }.
Class NetUrlLaws `{!NetUrl} := {
  (** An encoded path that begins with a slash (and not with two, after which
      an authority would follow) is sent as it is, and stands for what it
      decodes to. *)
  url_Parse_valid p q : HasPrefix p "/" = true → HasPrefix p "//" = false →
    validEncoded p = true → PathUnescape p = Some q → url_Parse p = inr (p, q)
}.

(** ** The lambda service's server *)

Definition lambda_routes : list string := ["/functions/"; "/metrics"; "/health"].

(** [http.Server.WriteTimeout] of the lambda service. *)
Definition lambda_WriteTimeout : Z := 15 * Second.

(** The clock when the gateway's breaker lets the call through, when the
    lambda service has read the request, when its handler returns, and when
    the gateway records the result. *)
Record Timing := mkTiming { tg_check : Z; tg_read : Z; tg_done : Z; tg_back : Z }.

Section System.
Context {W : Type} `{!FunctionLookup W, !RuntimeManager W} `{!JsonText} `{!Json Response} `{!NetUrl} `{!PromLib}.
Context (metrics_page : ResponseWriter → ResponseWriter) (remote : string).

(** [http.DefaultServeMux] of the lambda service.  The route is chosen by the
    escaped path; the handler reads the decoded one. *)
Definition lambda_mux (ie : InvokeEnv) (w : ResponseWriter) (escaped : string) (r : Request) (iw : InvokeWorld W)
    : outcome ResponseWriter * InvokeWorld W :=
  match mux_route lambda_routes (rq_Method r) escaped with
  | RtRedirect p => (Ok (rw_WriteHeader 301 (rw_set_header (Header_Set (rw_header w) "Location" p) w)), iw)
  | RtNotFound => (Ok (http_NotFound w), iw)
  | RtHandler pat =>
      if bool_decide (pat = "/functions/") then HandleInvoke (NewHandler (1024 * 1024)) ie w r iw
      else if bool_decide (pat = "/health") then (Ok (rw_Write "OK" (rw_WriteHeader 200 w)), iw)
      else (Ok (metrics_page w), iw)
  end.

(** The request that arrives for one that was sent. *)
Definition arrived (o : OutRequest) (path : string) : Request :=
  mkRequest (or_Method o) path ∅ (or_Header o) (mkBody (or_Body o) None) remote.

(** What the gateway's client gets: nothing is delivered once the server's
    write deadline has passed, or when the metrics middleware around the
    handlers panics on the path, its one label that need not be ASCII
    ([gateway_chain_bad_path]); and the client itself gives up after its
    timeout.  The handler has run in any case. *)
Definition lambda_answer (cfg : ServiceConfig) (tm : Timing) (ie : InvokeEnv) (o : OutRequest) (iw : InvokeWorld W)
    : (error + OutResponse) * InvokeWorld W :=
  match url_Parse (TrimPrefix (or_URL o) (LambdaServiceURL cfg)) with
  | inl err => (inl err, iw)
  | inr (escaped, path) =>
      let '(res, iw) := lambda_mux ie rw_new escaped (arrived o path) iw in
      (match res with
       | Ok w =>
           if negb (label_ok path) || bool_decide (tg_read tm + lambda_WriteTimeout < tg_done tm) then inl (NewError "EOF")
           else if bool_decide (tg_check tm + sc_Timeout cfg < tg_done tm)
           then inl (Wrap "Client.Timeout exceeded" context_DeadlineExceeded)
           else inr (mkResp (default 200 (rw_status w)) (rw_sent w) (rw_body w))
       | Err err => inl err
       | Panic _ => inl (NewError "EOF")
       end, iw)
  end.

Definition system_env (cfg : ServiceConfig) (tm : Timing) (ie : InvokeEnv) (iw : InvokeWorld W) : Env :=
  mkEnv (λ _ url, match url_Parse (TrimPrefix url (LambdaServiceURL cfg)) with inl err => Some err | inr _ => None end)
    (λ o, (lambda_answer cfg tm ie o iw).1) (tg_check tm) (tg_back tm).

(** One request to the gateway's invoke route. *)
Definition system_invoke {SI SB} `{!RateLimiter SI} (tm : Timing) (ie : InvokeEnv) (r : Request)
    (s : GatewayState SI SB * InvokeWorld W) : ResponseWriter * (GatewayState SI SB * InvokeWorld W) :=
  let '(g, iw) := s in
  let '(w, g') := HandleInvokeFunction (system_env (gw_config g) tm ie iw) rw_new r g in
  (w, (g', match drop (length (gw_sent g)) (gw_sent g') with
           | o :: _ => (lambda_answer (gw_config g) tm ie o iw).2
           | [] => iw
           end)).

(** Requests one after the other; the limiter reads the clock at each. *)
Fixpoint system_run {SI SB} (lim : Timing → RateLimiter SI) (reqs : list (Timing * InvokeEnv * Request))
    (s : GatewayState SI SB * InvokeWorld W) : GatewayState SI SB * InvokeWorld W :=
  match reqs with
  | [] => s
  | (tm, ie, r) :: rest => system_run lim rest (system_invoke (RateLimiter0 := lim tm) tm ie r s).2
  end.

(** The limiter admits a request in the state it finds, and each request of a
    sequence when its turn comes. *)
Definition lim_admits {SI SB} (lim : RateLimiter SI) (r : Request) (g : GatewayState SI SB) : Prop :=
  ∃ id s', parseInvokeFunctionID (rq_Path r) = Some id ∧ RateLimiter_Allow id (gw_invokeLimiter g) = (Ok true, s').

Fixpoint run_admits {SI SB} (lim : Timing → RateLimiter SI) (reqs : list (Timing * InvokeEnv * Request))
    (s : GatewayState SI SB * InvokeWorld W) : Prop :=
  match reqs with
  | [] => True
  | (tm, ie, r) :: rest =>
      lim_admits (lim tm) r s.1 ∧ run_admits lim rest (system_invoke (RateLimiter0 := lim tm) tm ie r s).2
  end.
End System.

(** ** Lemmas *)

Lemma CB_Call_closed {V} t0 t1 (fn : V → option error * V) cb w :
  state cb = StateClosed → CB_Call t0 t1 fn cb w = ((fn w).1, CB_recordResult t1 (fn w).1 cb, (fn w).2).
Proof. intros Hs. unfold CB_Call, CB_getState, CB_handleClosed. rewrite Hs. by destruct (fn w). Qed.

Section Lemmas.
Context {W : Type} `{!FunctionLookup W, !RuntimeManager W} `{!JsonText} `{!Json Response} `{!NetUrl} `{!PromLib}.
Context (metrics_page : ResponseWriter → ResponseWriter) (remote : string).
Context {SI SB : Type} `{!RateLimiter SI}.
Implicit Types (g : GatewayState SI SB) (iw : InvokeWorld W).

Abbreviation answer := (lambda_answer metrics_page remote).

(** The request the gateway sends on. *)
Definition forwarded (cfg : ServiceConfig) (r : Request) : OutRequest :=
  mkOut (rq_Method r) (LambdaServiceURL cfg +:+ rq_Path r)
    (<["X-Forwarded-By" := ["mini-lambda-gateway"]]> (rq_Header r)) (bd_data (rq_Body r)).

(** The state of the gateway after it was sent. *)
Definition gw_after (s' : SI) (cb : CircuitBreaker) (r : Request) g : GatewayState SI SB :=
  gw_set_sent (gw_sent g ++ [forwarded (gw_config g) r])
    (gw_set_cb (Registry_store "lambda-service" cb (gw_cbRegistry g)) (gw_set_invoke s' g)).

(** The response to the client. *)
Definition relay (ans : error + OutResponse) : ResponseWriter :=
  match ans with
  | inl _ => http_Error rw_new "Service unavailable" 503
  | inr rs => rw_Write (rs_Body rs) (rw_WriteHeader (rs_StatusCode rs) (rw_set_header (Header_copy (rs_Header rs) ∅) rw_new))
  end.

Definition ans_error (ans : error + OutResponse) : option error :=
  match ans with inl err => Some err | inr _ => None end.

(** An invocation that is admitted and whose target is a URL, with a path that
    can be a label of the metrics. *)
Record admits (tm : Timing) (r : Request) g (id : string) (s' : SI) (cb : CircuitBreaker) (escaped path : string) : Prop := {
  ad_header : header_wf (rq_Header r);
  ad_body : bd_err (rq_Body r) = None;
  ad_post : rq_Method r = "POST";
  ad_id : parseInvokeFunctionID (rq_Path r) = Some id;
  ad_limiter : RateLimiter_Allow id (gw_invokeLimiter g) = (Ok true, s');
  ad_breaker : breakers (gw_cbRegistry g) !! "lambda-service" = Some cb;
  ad_closed : cb_admits (tg_check tm) cb = true;
  ad_url : url_Parse (rq_Path r) = inr (escaped, path);
  ad_label : label_ok path = true
}.

Lemma system_invoke_admitted tm ie r g iw id s' cb escaped path :
  admits tm r g id s' cb escaped path →
  let ans := answer (gw_config g) tm ie (forwarded (gw_config g) r) iw in
  ∃ cb', system_invoke metrics_page remote tm ie r (g, iw) = (relay ans.1, (gw_after s' cb' r g, ans.2))
    ∧ (state cb = StateClosed → cb' = CB_recordResult (tg_back tm) (ans_error ans.1) cb).
Proof.
  intros [Hh Hb Hm Hid Hl Hcb Hadm Hu _] ans. unfold system_invoke, HandleInvokeFunction.
  rewrite bool_decide_eq_false_2 by (intros Hne; by apply Hne). rewrite Hid, Hl.
  unfold forwardRequest, io_ReadAll. rewrite Hb. cbn [gw_config gw_set_invoke gw_cbRegistry system_env env_NewRequest_err].
  rewrite TrimPrefix_app, Hu. cbv iota. unfold Registry_Get. rewrite Hcb. rewrite (forwarded_header_spec _ Hh).
  fold (forwarded (gw_config g) r). cbn [env_t_check env_t_done system_env].
  set (f := client_Do _ _). set (w0 := (gw_sent _, None)).
  assert (∃ cb', CB_Call (tg_check tm) (tg_back tm) f cb w0 = ((f w0).1, cb', (f w0).2)
    ∧ (state cb = StateClosed → cb' = CB_recordResult (tg_back tm) (f w0).1 cb)) as (cb' & -> & Hcl).
  { destruct (CB_Call_runs (tg_check tm) (tg_back tm) f cb w0 Hadm) as [cb' Hc]. exists cb'. split; [done|].
    intros Hs. rewrite (CB_Call_closed _ _ f cb w0 Hs) in Hc. by injection Hc. }
  assert (f w0 = (ans_error ans.1, (gw_sent g ++ [forwarded (gw_config g) r],
    match ans.1 with inl _ => None | inr rs => Some rs end))) as Hf
    by (subst f w0; unfold client_Do; cbn; fold ans; by destruct ans.1).
  exists cb'. rewrite Hf in *. split; [|exact Hcl]. unfold gw_after.
  destruct ans.1 as [err|rs] eqn:Hans; cbn [fst snd ans_error relay];
    cbn [gw_sent gw_set_sent gw_set_cb gw_set_invoke]; by rewrite drop_app_length.
Qed.

(** The lambda service runs the handler on the decoded path. *)
Lemma lambda_answer_routed cfg tm ie r escaped path iw res iw' :
  url_Parse (rq_Path r) = inr (escaped, path) → rq_Method r = "POST" → bd_err (rq_Body r) = None →
  label_ok path = true → mux_route lambda_routes "POST" escaped = RtHandler "/functions/" →
  HandleInvoke (NewHandler (1024 * 1024)) ie rw_new (mkRequest "POST" path ∅ ∅ (rq_Body r) "") iw = (Ok res, iw') →
  answer cfg tm ie (forwarded cfg r) iw
  = (if bool_decide (tg_read tm + lambda_WriteTimeout < tg_done tm) then inl (NewError "EOF")
     else if bool_decide (tg_check tm + sc_Timeout cfg < tg_done tm)
     then inl (Wrap "Client.Timeout exceeded" context_DeadlineExceeded)
     else inr (mkResp (default 200 (rw_status res)) (rw_sent res) (rw_body res)), iw').
Proof.
  intros Hu Hm Hb Hlb Hr Hh. unfold lambda_answer, forwarded. cbn [or_URL]. rewrite TrimPrefix_app, Hu.
  unfold lambda_mux, arrived. cbn [rq_Method or_Method]. rewrite Hm, Hr. rewrite bool_decide_eq_true_2 by done.
  destruct (rq_Body r) as [data err] eqn:Hrb. simpl in Hb. subst err. cbn [bd_data or_Body].
  unfold HandleInvoke in *. cbn [rq_Method rq_Path rq_Body] in *. by rewrite Hh, Hlb.
Qed.

(** A handler that panics leaves the client without an answer. *)
Lemma lambda_answer_panics cfg tm ie r escaped path iw why iw' :
  url_Parse (rq_Path r) = inr (escaped, path) → rq_Method r = "POST" → bd_err (rq_Body r) = None →
  mux_route lambda_routes "POST" escaped = RtHandler "/functions/" →
  HandleInvoke (NewHandler (1024 * 1024)) ie rw_new (mkRequest "POST" path ∅ ∅ (rq_Body r) "") iw = (Panic why, iw') →
  answer cfg tm ie (forwarded cfg r) iw = (inl (NewError "EOF"), iw').
Proof.
  intros Hu Hm Hb Hr Hh. unfold lambda_answer, forwarded. cbn [or_URL]. rewrite TrimPrefix_app, Hu.
  unfold lambda_mux, arrived. cbn [rq_Method or_Method]. rewrite Hm, Hr. rewrite bool_decide_eq_true_2 by done.
  destruct (rq_Body r) as [data err] eqn:Hrb. simpl in Hb. subst err. cbn [bd_data or_Body].
  unfold HandleInvoke in *. cbn [rq_Method rq_Path rq_Body] in *. by rewrite Hh.
Qed.
End Lemmas.

(** ** Slow functions and the breaker *)

Section Slow.
Context {W : Type} `{!FunctionLookup W, !RuntimeManager W} `{!JsonText} `{!Json Response} `{!NetUrl} `{!PromLib}.
Context (metrics_page : ResponseWriter → ResponseWriter) (remote : string).
Context {SI SB : Type}.
Implicit Types (g : GatewayState SI SB) (iw : InvokeWorld W).

(** An invocation whose handler returns after the write deadline. *)
Record slow_invocation (x : Timing * InvokeEnv * Request) : Prop := {
  sl_header : header_wf (rq_Header x.2);
  sl_body : bd_err (rq_Body x.2) = None;
  sl_post : rq_Method x.2 = "POST";
  sl_url : ∃ escaped path, url_Parse (rq_Path x.2) = inr (escaped, path) ∧ label_ok path = true;
  sl_late : tg_read x.1.1 + lambda_WriteTimeout < tg_done x.1.1
}.

(** Nothing of the response is delivered, whatever the handler did. *)
Lemma slow_answer cfg tm ie r iw :
  tg_read tm + lambda_WriteTimeout < tg_done tm →
  ∃ err, (lambda_answer metrics_page remote cfg tm ie (forwarded cfg r) iw).1 = inl err.
Proof.
  intros Hl. unfold lambda_answer. destruct (url_Parse _) as [err|[esc path]]; [by eexists|].
  destruct (lambda_mux _ _ _ _ _ _) as [[w|err|why] iw']; simpl; [|by eexists..].
  rewrite (bool_decide_eq_true_2 (_ < _)), orb_true_r by done. by eexists.
Qed.

(** The breaker of the lambda service after [n] failures in a row. *)
Definition failing_breaker (n : Z) (last : Z) : CircuitBreaker :=
  mkCB 10 (5 * Second) (if bool_decide (10 ≤ n) then StateOpen else StateClosed) n last.

Lemma slow_step (lim : RateLimiter SI) x g iw n last :
  lim_admits lim x.2 g → slow_invocation x → 0 ≤ n < 10 →
  breakers (gw_cbRegistry g) !! "lambda-service" = Some (failing_breaker n last) →
  let '(g', _) := (system_invoke metrics_page remote x.1.1 x.1.2 x.2 (g, iw)).2 in
  breakers (gw_cbRegistry g') !! "lambda-service" = Some (failing_breaker (n + 1) (tg_back x.1.1))
  ∧ gw_config g' = gw_config g.
Proof.
  destruct x as [[tm ie] r]. cbn [fst snd]. intros (id & s' & Hid & Hs') [Hh Hb Hm (esc & path & Hu & Hlb) Hl] Hn Hcb.
  cbn [fst snd] in *.
  assert (state (failing_breaker n last) = StateClosed) as Hst by (simpl; by rewrite bool_decide_eq_false_2 by lia).
  assert (admits tm r g id s' (failing_breaker n last) esc path) as Had.
  { split; try done. unfold cb_admits. by rewrite Hst. }
  destruct (system_invoke_admitted metrics_page remote tm ie r g iw id s' _ esc path Had) as (cb' & -> & Hcb').
  cbn [snd]. split; [|done]. rewrite (Hcb' Hst).
  destruct (slow_answer (gw_config g) tm ie r iw Hl) as [err ->]. unfold gw_after. simpl.
  rewrite lookup_insert_eq, wrap64_id by (i64; lia). unfold failing_breaker, set_state. simpl.
  rewrite (bool_decide_eq_false_2 (10 ≤ n)) by lia. by case_bool_decide.
Qed.

Lemma slow_run (lim : Timing → RateLimiter SI) reqs g iw n last :
  run_admits metrics_page remote lim reqs (g, iw) → Forall slow_invocation reqs →
  0 ≤ n → n + Z.of_nat (length reqs) ≤ 10 →
  breakers (gw_cbRegistry g) !! "lambda-service" = Some (failing_breaker n last) →
  breakers (gw_cbRegistry (system_run metrics_page remote lim reqs (g, iw)).1) !! "lambda-service"
  = Some (failing_breaker (n + Z.of_nat (length reqs)) (foldl (λ _ x, tg_back x.1.1) last reqs)).
Proof.
  intros Hlim Hall. revert g iw n last Hlim.
  induction Hall as [|[[tm ie] r] reqs Hx _ IH]; intros g iw n last Hlim Hn Hle Hcb.
  { simpl. by rewrite Z.add_0_r. }
  cbn [length] in Hle. rewrite Nat2Z.inj_succ in Hle. cbn [run_admits fst] in Hlim. destruct Hlim as [Hl Hlim].
  pose proof (slow_step (lim tm) (tm, ie, r) g iw n last Hl Hx ltac:(lia) Hcb) as Hs. cbn [fst snd] in Hs.
  cbn [system_run foldl length fst]. destruct (system_invoke metrics_page remote tm ie r (g, iw)).2 as [g' iw'].
  destruct Hs as [Hs _]. rewrite (IH g' iw' (n + 1) (tg_back tm)) by (done || lia). do 2 f_equal. lia.
Qed.
End Slow.

(** ** Paths with escapes *)

Definition hex_digit (n : nat) : ascii := if bool_decide (n < 10)%nat then ascii_of_nat (48 + n) else ascii_of_nat (55 + n).

(** A name in which the marked bytes are written as escapes. *)
Fixpoint escape_some (marks : list bool) (s : string) : string :=
  match s with
  | EmptyString => EmptyString
  | String a s' =>
      let n := nat_of_ascii a in
      let rest := escape_some (tl marks) s' in
      if default false (head marks)
      then String "%"%char (String (hex_digit (n / 16)) (String (hex_digit (n mod 16)) rest))
      else String a rest
  end.

(** A name of bytes that need no escape. *)
Fixpoint plain_name (s : string) : bool :=
  match s with
  | EmptyString => true
  | String a s' => path_byte a && negb (bool_decide (a = "%"%char)) && negb (bool_decide (a = slash)) && plain_name s'
  end.

Lemma byte_hex a :
  hex_value (hex_digit (nat_of_ascii a / 16)) = Some (nat_of_ascii a / 16)%nat
  ∧ hex_value (hex_digit (nat_of_ascii a mod 16)) = Some (nat_of_ascii a mod 16)%nat
  ∧ ascii_of_nat (16 * (nat_of_ascii a / 16) + nat_of_ascii a mod 16) = a
  ∧ path_byte (hex_digit (nat_of_ascii a / 16)) = true ∧ path_byte (hex_digit (nat_of_ascii a mod 16)) = true
  ∧ hex_digit (nat_of_ascii a / 16) ≠ slash ∧ hex_digit (nat_of_ascii a mod 16) ≠ slash.
Proof. destruct a as [[] [] [] [] [] [] [] []]; by vm_compute. Qed.

Lemma PathUnescape_some marks s r :
  plain_name s = true → PathUnescape (escape_some marks s +:+ r) = (λ t, s +:+ t) <$> PathUnescape r.
Proof.
  revert marks. induction s as [|a s IH]; intros marks Hp; [change (escape_some marks "" +:+ r) with r; by destruct (PathUnescape r)|].
  simpl in Hp. bools. destruct (byte_hex a) as (H4 & H5 & H6 & _). cbn [escape_some].
  destruct (default false (head marks)); rewrite !str_app_cons; cbn [PathUnescape].
  - rewrite bool_decide_eq_true_2 by done. rewrite H4, H5, H6, IH by done. by destruct (PathUnescape r).
  - rewrite bool_decide_eq_false_2 by done. rewrite IH by done. by destruct (PathUnescape r).
Qed.

Lemma PathUnescape_plain a r :
  ContainsChar a "%"%char = false → PathUnescape (a +:+ r) = (λ t, a +:+ t) <$> PathUnescape r.
Proof.
  induction a as [|c a IH]; intros Ha; [change ("" +:+ r) with r; by destruct (PathUnescape r)|].
  rewrite str_app_cons. cbn [PathUnescape ContainsChar] in *. apply orb_false_iff in Ha as [Hc Ha].
  rewrite Hc, IH by done. by destruct (PathUnescape r).
Qed.

Lemma validEncoded_app a b : validEncoded (a +:+ b) = validEncoded a && validEncoded b.
Proof. induction a as [|c a IH]; [done|]. rewrite str_app_cons. simpl. by rewrite IH, andb_assoc. Qed.

Lemma escape_some_valid marks s :
  plain_name s = true → validEncoded (escape_some marks s) = true ∧ ContainsChar (escape_some marks s) slash = false.
Proof.
  revert marks. induction s as [|a s IH]; intros marks Hp; [done|].
  simpl in Hp. bools. destruct (byte_hex a) as (_ & _ & _ & H4 & H5 & H6 & H7). cbn [escape_some].
  destruct (IH (tl marks)) as [H8 H9]; [done|].
  destruct (default false (head marks)); cbn [validEncoded ContainsChar]; rewrite H8, H9.
  - rewrite H4, H5. rewrite (bool_decide_eq_false_2 _ H6), (bool_decide_eq_false_2 _ H7). done.
  - split; [by rewrite andb_true_r|]. by rewrite bool_decide_eq_false_2.
Qed.

Lemma escape_some_inj marks marks' s :
  plain_name s = true → length marks = String.length s → length marks' = String.length s →
  escape_some marks s = escape_some marks' s → marks = marks'.
Proof.
  revert marks marks'. induction s as [|a s IH]; intros [|m ms] [|m' ms'] Hp Hl Hl'; simpl in *; try done.
  bools. injection Hl as Hl. injection Hl' as Hl'.
  destruct m, m'; intros Heq; injection Heq as Heq; try congruence; f_equal; by apply IH.
Qed.

(** ** The log stream through the middleware (router/stream.go) *)

Section Stream.
Context {Wr : Type} `{!HttpWriter Wr}.

(** [http.Error] on any writer. *)
Definition writer_Error (w : Wr) (msg : string) (code : Z) : Wr :=
  let h := delete "Content-Length" (hw_Header w) in
  let h := Header_Set h "Content-Type" "text/plain; charset=utf-8" in
  let h := Header_Set h "X-Content-Type-Options" "nosniff" in
  hw_Write (msg +:+ newline_str) (hw_WriteHeader code (hw_set_header h w)).

Fixpoint stream_batch (ms : list (string * option string)) (lastID : string) (w : Wr) : Wr * string * bool :=
  match ms with
  | [] => (w, lastID, false)
  | (id, v) :: rest =>
      let logLine := default "" v in
      let w := hw_Write (sse_frame logLine) w in
      let w := default w (hw_Flusher w) in
      if is_sentinel logLine then (w, id, true) else stream_batch rest id w
  end.

Fixpoint stream_loop (deadline : Z) (streamName : string) (polls : list Poll) (lastID : string) (w : Wr)
    : Wr * option SseEnd :=
  match polls with
  | [] => (w, None)
  | p :: rest =>
      if bool_decide (deadline < pl_now p) then (w, Some EndDeadline)
      else if pl_ctx_done p then (w, Some EndCtx)
      else
        match pl_xread p streamName lastID with
        | XNil => stream_loop deadline streamName rest lastID w
        | XErr _ => (w, Some EndError)
        | XMsgs [] => stream_loop deadline streamName rest lastID w
        | XMsgs ms =>
            let '(w, lastID, fin) := stream_batch ms lastID w in
            if fin then (w, Some EndSentinel)
            else stream_loop deadline streamName rest lastID w
        end
  end.

(** [HandleBuildLogs] on the writer it is given: the assertion that it can
    flush, the call that lifts its write deadline, and a flush per frame. *)
Definition StreamBuildLogs {SI SB} (now : Z) (polls : list Poll) (w : Wr) (r : Request) (g : GatewayState SI SB)
    : Wr * option SseEnd :=
  match parseBuildLogsPath (rq_Path r) with
  | None => (writer_Error w "invalid path: expected /jobs/{job_id}/logs" 400, Some EndError)
  | Some jobID =>
      if negb (gw_redisClient g) then (writer_Error w "log streaming unavailable" 503, Some EndError)
      else
        match hw_Flusher w with
        | None => (writer_Error w "streaming not supported" 500, Some EndError)
        | Some _ =>
            let '(_, w) := hw_SetWriteDeadline None w in
            let w := hw_set_header (sse_headers (hw_Header w)) w in
            stream_loop (now + 30 * Minute) (StreamKey jobID) polls "0-0" w
        end
  end.
End Stream.

(** On the connection, a batch is what it is on the plain writer, and the
    deadline stays. *)
Lemma stream_batch_conn ms id (c : Conn) :
  ∃ n, stream_batch ms id c
       = let '(w, lastID, fin) := sse_batch ms id (cn_rw c) in (mkConn w (cn_deadline c) n, lastID, fin).
Proof.
  revert id c. induction ms as [|[i v] ms IH]; intros id c; [exists (cn_flushes c); by destruct c|].
  cbn [stream_batch sse_batch]. unfold hw_Write, hw_Flusher, Conn_writer, cn_update. cbn [default cn_rw cn_deadline cn_flushes].
  assert (rw_WriteHeader 200 (rw_Write (sse_frame (default "" v)) (cn_rw c)) = rw_Write (sse_frame (default "" v)) (cn_rw c))
    as ->.
  { unfold rw_Write, rw_WriteHeader. by destruct (rw_status (cn_rw c)) eqn:Hst; simpl; rewrite ?Hst. }
  destruct (is_sentinel (default "" v)); [by eexists|]. apply (IH i (mkConn _ _ _)).
Qed.

Lemma stream_loop_conn dl name polls id (c : Conn) :
  ∃ n, stream_loop dl name polls id c
       = let '(w, e) := sse_loop dl name polls id (cn_rw c) in (mkConn w (cn_deadline c) n, e).
Proof.
  revert id c. induction polls as [|p polls IH]; intros id c; cbn [stream_loop sse_loop];
    [exists (cn_flushes c); by destruct c|].
  case_bool_decide; [exists (cn_flushes c); by destruct c|].
  destruct (pl_ctx_done p); [exists (cn_flushes c); by destruct c|].
  destruct (pl_xread p name id) as [|e|[|m ms]]; [apply IH|exists (cn_flushes c); by destruct c|apply IH|].
  destruct (stream_batch_conn (m :: ms) id c) as [n ->].
  destruct (sse_batch (m :: ms) id (cn_rw c)) as [[w lastID] fin]. destruct fin; [by eexists|].
  apply (IH lastID (mkConn w (cn_deadline c) n)).
Qed.

(** A wrapper around a writer that can flush changes nothing. *)
Lemma stream_batch_wrapped {Wr} `{!HttpWriter Wr} ms id (w : Wr) st :
  (∀ w : Wr, is_Some (hw_Flusher w)) →
  stream_batch ms id (mkWrapped w st)
  = let '(w', lastID, fin) := stream_batch ms id w in (mkWrapped w' st, lastID, fin).
Proof.
  intros Hfl. revert id w. induction ms as [|[i v] ms IH]; intros id w; [done|]. cbn [stream_batch].
  assert (default (hw_Write (sse_frame (default "" v)) (mkWrapped w st))
            (hw_Flusher (hw_Write (sse_frame (default "" v)) (mkWrapped w st)))
          = mkWrapped (default (hw_Write (sse_frame (default "" v)) w) (hw_Flusher (hw_Write (sse_frame (default "" v)) w))) st)
    as ->.
  { cbn. unfold wr_Flush, wr_inner. cbn. by destruct (Hfl (hw_Write (sse_frame (default "" v)) w)) as [w' ->]. }
  destruct (is_sentinel (default "" v)); [done|]. apply IH.
Qed.

Lemma stream_loop_wrapped {Wr} `{!HttpWriter Wr} dl name polls id (w : Wr) st :
  (∀ w : Wr, is_Some (hw_Flusher w)) →
  stream_loop dl name polls id (mkWrapped w st)
  = let '(w', e) := stream_loop dl name polls id w in (mkWrapped w' st, e).
Proof.
  intros Hfl. revert id w. induction polls as [|p polls IH]; intros id w; [done|]. cbn [stream_loop].
  case_bool_decide; [done|]. destruct (pl_ctx_done p); [done|].
  destruct (pl_xread p name id) as [|e|[|m ms]]; [apply IH|done|apply IH|].
  rewrite stream_batch_wrapped by done. destruct (stream_batch (m :: ms) id w) as [[w' lastID] fin].
  destruct fin; [done|]. apply IH.
Qed.

Lemma Conn_flushes (c : Conn) : is_Some (hw_Flusher c).
Proof. by eexists. Qed.
Lemma wrapped_flushes {Wr} `{!HttpWriter Wr} (w : responseWriter Wr) : is_Some (hw_Flusher w).
Proof. by eexists. Qed.
#[export] Hint Resolve Conn_flushes wrapped_flushes : go.

(** ** One status per request *)

(** A handler, as a function of the writer, that makes the calls [ops] and
    writes at most one status. *)
Definition writes (f : ResponseWriter → ResponseWriter) (ops : list WOp) : Prop :=
  single_status ops = true ∧ ∀ c : Conn, cn_rw (run_ops ops c) = f (cn_rw c).

(** A handler of the gateway whose state does not depend on the writer. *)
Definition one_status {S} (h : ResponseWriter → ResponseWriter * S) : Prop :=
  ∃ ops f s, writes f ops ∧ ∀ w, h w = (f w, s).

Definition no_status (o : WOp) : bool := match o with WWriteHeader _ => false | _ => true end.

Lemma one_status_Error {S} msg code (s : S) : one_status (λ w, (http_Error w msg code, s)).
Proof.
  exists [WSetHeader (λ h, Header_Set (Header_Set (delete "Content-Length" h) "Content-Type" "text/plain; charset=utf-8")
            "X-Content-Type-Options" "nosniff"); WWriteHeader code; WWrite (msg +:+ newline_str)],
    (λ w, http_Error w msg code), s. by split.
Qed.

Lemma one_status_reply {S} (h : Header → Header) code body (s : S) :
  one_status (λ w, (rw_Write body (rw_WriteHeader code (rw_set_header (h (rw_header w)) w)), s)).
Proof.
  exists [WSetHeader h; WWriteHeader code; WWrite body],
    (λ w, rw_Write body (rw_WriteHeader code (rw_set_header (h (rw_header w)) w))), s. by split.
Qed.

(** Setting headers first changes nothing. *)
Lemma one_status_header {S} (h : Header → Header) (k : ResponseWriter → ResponseWriter * S) :
  one_status k → one_status (λ w, k (rw_set_header (h (rw_header w)) w)).
Proof.
  intros (ops & f & s & [H1 H2] & Hk). exists (WSetHeader h :: ops), (λ w, f (rw_set_header (h (rw_header w)) w)), s.
  split; [split; [done|]|done]. intros c. cbn. apply (H2 (cn_update (rw_set_header (h (rw_header (cn_rw c)))) c)).
Qed.

Lemma one_status_ext {S} (k k' : ResponseWriter → ResponseWriter * S) :
  (∀ w, k w = k' w) → one_status k → one_status k'.
Proof. intros Heq (ops & f & s & Hw & Hk). exists ops, f, s. split; [done|]. intros w. by rewrite <- Heq. Qed.

Section OneStatus.
Context {SI SB : Type} `{!RateLimiter SI, !RateLimiter SB}.
Implicit Types g : GatewayState SI SB.

Lemma forwardRequest_one_status e r url svc g : one_status (λ w, forwardRequest e w r url svc g).
Proof.
  unfold forwardRequest. destruct (io_ReadAll (rq_Body r)); [|apply one_status_Error..].
  destruct (env_NewRequest_err _ _ _); [apply one_status_Error|].
  destruct (Registry_Get _ _); [|apply one_status_Error..].
  destruct (CB_Call _ _ _ _ _) as [[err cb'] [sent resp]].
  destruct err as [err|]; [apply one_status_Error|]. destruct resp as [rs|]; [|apply one_status_Error].
  apply (one_status_reply (λ h, Header_copy (rs_Header rs) h)).
Qed.

Lemma HandleInvokeFunction_one_status e r g : one_status (λ w, HandleInvokeFunction e w r g).
Proof.
  unfold HandleInvokeFunction. case_bool_decide; [apply one_status_Error|].
  destruct (parseInvokeFunctionID (rq_Path r)) as [id|]; [|apply one_status_Error].
  destruct (RateLimiter_Allow id (gw_invokeLimiter g)) as [[[]|err|why] s']; try apply one_status_Error.
  - apply forwardRequest_one_status.
  - apply (one_status_header (λ h, Header_Set h "X-RateLimit-Retry-After" "1") (λ w, (http_Error w "Rate limit exceeded" 429, _))),
      one_status_Error.
Qed.

Lemma HandleCreateFunction_one_status e r g : one_status (λ w, HandleCreateFunction e w r g).
Proof.
  unfold HandleCreateFunction. case_bool_decide; [apply one_status_Error|].
  match goal with |- context [RateLimiter_Allow ?u ?s] => destruct (RateLimiter_Allow u s) as [[[]|err|why] s'] end;
    try apply one_status_Error.
  - apply forwardRequest_one_status.
  - apply (one_status_header (λ h, Header_Set h "X-RateLimit-Retry-After" "60") (λ w, (http_Error w _ 429, _))), one_status_Error.
Qed.

(** The frames written do not depend on the writer. *)
Lemma sse_batch_frames ms id : ∃ ds lastID fin, ∀ w, sse_batch ms id w = (foldl (λ w d, rw_Write d w) w ds, lastID, fin).
Proof.
  revert id. induction ms as [|[i v] ms IH]; intros id; [by exists [], id, false|]. cbn [sse_batch].
  destruct (is_sentinel (default "" v)); [by exists [sse_frame (default "" v)], i, true|].
  destruct (IH i) as (ds & l & f & Hf). exists (sse_frame (default "" v) :: ds), l, f. intros w. by rewrite Hf.
Qed.

Lemma sse_loop_frames dl name polls id : ∃ ds e, ∀ w, sse_loop dl name polls id w = (foldl (λ w d, rw_Write d w) w ds, e).
Proof.
  revert id. induction polls as [|p polls IH]; intros id; cbn [sse_loop]; [by exists [], None|].
  case_bool_decide; [by exists [], (Some EndDeadline)|]. destruct (pl_ctx_done p); [by exists [], (Some EndCtx)|].
  destruct (pl_xread p name id) as [|err|[|m ms]]; [apply IH|by exists [], (Some EndError)|apply IH|].
  destruct (sse_batch_frames (m :: ms) id) as (ds & l & fin & Hf).
  destruct fin; [exists ds, (Some EndSentinel); intros w; by rewrite Hf|].
  destruct (IH l) as (ds' & e & Hf'). exists (ds ++ ds'), e. intros w. by rewrite Hf, Hf', foldl_app.
Qed.

Lemma one_status_frames {S} ds (s : S) : one_status (λ w, (foldl (λ w d, rw_Write d w) w ds, s)).
Proof.
  exists (WWrite <$> ds), (λ w, foldl (λ w d, rw_Write d w) w ds), s. split; [split|done].
  - destruct ds as [|d ds]; [done|]. simpl. by induction ds.
  - intros c. revert c. induction ds as [|d ds IH]; intros c; [done|]. apply (IH (cn_update (rw_Write d) c)).
Qed.

Lemma HandleBuildLogs_one_status now polls r g g0 :
  one_status (λ w, ((HandleBuildLogs now polls true w r g).1, g0) : ResponseWriter * GatewayState SI SB).
Proof.
  unfold HandleBuildLogs. destruct (parseBuildLogsPath (rq_Path r)) as [job|]; [|apply one_status_Error].
  destruct (gw_redisClient g); cbn [negb]; [|apply one_status_Error].
  destruct (sse_loop_frames (now + 30 * Minute) (StreamKey job) polls "0-0") as (ds & e & Hf).
  apply (one_status_header sse_headers (λ w, ((sse_loop (now + 30 * Minute) (StreamKey job) polls "0-0" w).1, g0))).
  eapply one_status_ext; [|apply (one_status_frames ds g0)]. intros w. simpl. by rewrite Hf.
Qed.

(** Every route of the gateway, but for the metrics page, which is the
    library's. *)
Lemma SetupRoutes_one_status e page now polls r g :
  one_status (λ w, (page w, g)) → one_status (λ w, SetupRoutes e page now polls true w r g).
Proof.
  intros Hpage. unfold SetupRoutes. destruct (mux_route routes (rq_Method r) (rq_Path r)) as [pat|p|].
  - case_bool_decide; [apply HandleInvokeFunction_one_status|].
    case_bool_decide.
    { case_bool_decide; [apply HandleCreateFunction_one_status|].
      case_bool_decide; [|apply one_status_Error].
      case_bool_decide; unfold HandleGetFunction, HandleListFunctions;
        repeat (case_bool_decide; [apply one_status_Error|]); apply forwardRequest_one_status. }
    case_bool_decide; [apply HandleBuildLogs_one_status|]. case_bool_decide; [|exact Hpage].
    unfold HandleHealth. destruct (checkServiceHealth _ _ g) as [l g1].
    destruct (checkServiceHealth _ _ g1) as [b g2].
    apply (one_status_header (λ h, Header_Set h "Content-Type" "application/json") (λ w, (rw_Write (health_json l b) w, g2))).
    apply (one_status_frames [health_json l b]).
  - exists [WSetHeader (λ h, Header_Set h "Location" p); WWriteHeader 301],
      (λ w, rw_WriteHeader 301 (rw_set_header (Header_Set (rw_header w) "Location" p) w)), g. by split.
  - apply one_status_Error.
Qed.
End OneStatus.

(** ** Theorems *)

Section Theorems.
Context {W : Type} `{!FunctionLookup W, !RuntimeManager W} `{!JsonText} `{!Json Response} `{!NetUrl} `{!PromLib}.
Context (metrics_page : ResponseWriter → ResponseWriter) (remote : string).
Context {SI SB : Type} `{!RateLimiter SI}.
Implicit Types (g : GatewayState SI SB) (iw : InvokeWorld W).

(** C2.  An invocation from end to end.  Take an invocation that the gateway
    admits and whose path the lambda service routes to its invoke handler.
    If the handler returns within the lambda service's write timeout and the
    gateway's client timeout, the client gets exactly the handler's status
    and body.  If it takes longer than fifteen seconds, the function has run
    all the same and its record is queued, but the client gets 503. *)
Theorem invoke_end_to_end tm ie r g iw id s' cb escaped path res iw' :
  admits tm r g id s' cb escaped path → mux_route lambda_routes "POST" escaped = RtHandler "/functions/" →
  HandleInvoke (NewHandler (1024 * 1024)) ie rw_new (mkRequest "POST" path ∅ ∅ (rq_Body r) "") iw = (Ok res, iw') →
  let '(w, (g', after)) := system_invoke metrics_page remote tm ie r (g, iw) in
  after = iw' ∧ gw_sent g' = gw_sent g ++ [forwarded (gw_config g) r]
  ∧ if bool_decide (tg_done tm ≤ tg_read tm + 15 * Second) && bool_decide (tg_done tm ≤ tg_check tm + sc_Timeout (gw_config g))
    then rw_status w = Some (default 200 (rw_status res)) ∧ rw_body w = rw_body res
    else rw_status w = Some 503 ∧ rw_body w = "Service unavailable" +:+ newline_str.
Proof.
  intros Had Hr Hh. destruct (system_invoke_admitted metrics_page remote tm ie r g iw id s' cb escaped path Had)
    as (cb' & -> & _).
  rewrite (lambda_answer_routed metrics_page remote _ tm ie r escaped path iw res iw' (ad_url _ _ _ _ _ _ _ _ Had)
    (ad_post _ _ _ _ _ _ _ _ Had) (ad_body _ _ _ _ _ _ _ _ Had) (ad_label _ _ _ _ _ _ _ _ Had) Hr Hh).
  cbn [fst snd]. split; [done|]. split; [done|]. unfold lambda_WriteTimeout.
  set (read := tg_read tm + 15 * Second). set (sent := tg_check tm + sc_Timeout (gw_config g)).
  destruct (decide (tg_done tm ≤ read)) as [Hw|Hw].
  - rewrite (bool_decide_eq_true_2 _ Hw), (bool_decide_eq_false_2 (read < _)) by lia.
    destruct (decide (tg_done tm ≤ sent)) as [Hc|Hc].
    + by rewrite (bool_decide_eq_true_2 _ Hc), bool_decide_eq_false_2 by lia.
    + by rewrite (bool_decide_eq_false_2 _ Hc), bool_decide_eq_true_2 by lia.
  - by rewrite (bool_decide_eq_false_2 _ Hw), (bool_decide_eq_true_2 (read < _)) by lia.
Qed.

(** C16.  Slow functions take the gateway down.  Ten invocations in a row that
    the limiter admits, each when its turn comes, and whose handlers take
    longer than fifteen seconds, of whatever functions, open the breaker of
    the lambda service, although all ten may have run to their end: an
    invocation of any function that the limiter admits in the next five
    seconds is answered 503 and nothing is sent. *)
Theorem slow_functions_block_all (lim : Timing → RateLimiter SI) (lim' : RateLimiter SI) reqs g iw last e r :
  run_admits metrics_page remote lim reqs (g, iw) →
  breakers (gw_cbRegistry g) !! "lambda-service" = Some (NewCircuitBreaker 10 (5 * Second)) →
  Forall slow_invocation reqs → length reqs = 10%nat → list.last reqs = Some last →
  time_Sub (env_t_check e) (tg_back last.1.1) ≤ 5 * Second →
  let g' := (system_run metrics_page remote lim reqs (g, iw)).1 in
  lim_admits lim' r g' → rq_Method r = "POST" → bd_err (rq_Body r) = None →
  env_NewRequest_err e "POST" (LambdaServiceURL (gw_config g') +:+ rq_Path r) = None →
  rw_status (HandleInvokeFunction e rw_new r g').1 = Some 503
  ∧ gw_sent (HandleInvokeFunction e rw_new r g').2 = gw_sent g'.
Proof.
  intros Hlim Hcb Hall Hlen Hlast Ht g' (id & s' & Hid & Hs') Hm Hb Hu.
  pose proof (slow_run metrics_page remote lim reqs g iw 0 time_zero Hlim Hall ltac:(lia) ltac:(lia) Hcb) as Hrun.
  fold g' in Hrun. rewrite Hlen in Hrun.
  apply last_Some in Hlast as [pre ->]. rewrite foldl_app in Hrun. cbn [foldl] in Hrun.
  unfold HandleInvokeFunction. rewrite bool_decide_eq_false_2 by (intros Hne; by apply Hne). rewrite Hid, Hs'.
  unfold forwardRequest, io_ReadAll. rewrite Hb, Hm.
  cbn [gw_config gw_set_invoke]. rewrite Hu. unfold Registry_Get. cbn [gw_cbRegistry gw_set_invoke]. rewrite Hrun.
  rewrite CB_Call_rejects; [done|]. unfold cb_admits, failing_breaker. simpl.
  rewrite bool_decide_eq_true_2 by done. done.
Qed.

End Theorems.

(** C15.  A log stream outlives the write timeout.  Behind the gateway's
    middleware the handler gets a writer wrapped twice; it still finds that
    it can flush, and it reaches the connection's deadline and lifts it.  The
    client receives the frames of [HandleBuildLogs] on the plain writer. *)
Theorem stream_lifts_deadline {SI SB} now polls (c : Conn) st st' r (g : GatewayState SI SB) job :
  parseBuildLogsPath (rq_Path r) = Some job → gw_redisClient g = true →
  let '(rw, e) := StreamBuildLogs now polls (mkWrapped (mkWrapped c st) st') r g in
  let c' := wr_ResponseWriter (wr_ResponseWriter rw) in
  cn_deadline c' = None ∧ (cn_rw c', e) = HandleBuildLogs now polls true (cn_rw c) r g.
Proof.
  intros Hp Hg. unfold StreamBuildLogs, HandleBuildLogs. rewrite Hp, Hg. cbn [negb].
  cbn [hw_Flusher responseWriter_writer hw_SetWriteDeadline wr_Unwrap wr_ResponseWriter wr_statusCode Conn_writer].
  change (hw_set_header ?h (mkWrapped (mkWrapped ?c ?s) ?s')) with (mkWrapped (mkWrapped (hw_set_header h c) s) s').
  rewrite !stream_loop_wrapped by auto with go.
  match goal with |- context [stream_loop ?dl ?n ?ps ?id ?c] => destruct (stream_loop_conn dl n ps id c) as [k ->] end.
  simpl. destruct (sse_loop _ _ _ _ _) as [w e]. done.
Qed.


(** ** Concrete runs *)

Module SystemDemo.
#[local] Instance demo_text : JsonText := {| json_Valid := λ _, true; json_String := λ s, s |}.
#[local] Instance demo_response : Json Response :=
  {| json_Marshal := rs_Output; json_Unmarshal := λ _, Err (NewError "unused") |}.
#[local] Instance any_label : PromLib := {| label_ok := λ _, true |}.
#[local] Instance demo_lookup : FunctionLookup nat :=
  {| fl_GetFunctionMeta := λ id n, (Ok (mkFunction id id "python3.9" "h" "key" Second 128 ∅ 0 0), n);
     fl_SaveExecution := λ _ n, (Ok tt, n) |}.
(** A function that returns its input. *)
#[local] Instance demo_manager : RuntimeManager nat :=
  {| rm_Execute := λ _ input n, (Ok (Some (mkResult input "" 0 0 0 false)), S n) |}.
#[local] Instance demo_url : NetUrl :=
  {| url_Parse p := if validEncoded p then match PathUnescape p with Some q => inr (p, q) | None => inl (NewError "escape") end
                    else inl (NewError "encoding") |}.
#[local] Instance demo_url_laws : NetUrlLaws.
Proof. split. intros p q _ _ Hv Hq. unfold url_Parse, demo_url. by rewrite Hv, Hq. Qed.
#[local] Instance demo_limiter : RateLimiter nat := {|
  RateLimiter_Allow := λ _ n, (Ok true, S n); RateLimiter_Close := st_ret tt |}.

Definition demo_cfg : ServiceConfig := mkSvcConfig "http://lambda:8081" "http://build:8082" (30 * Second).
Definition demo_gateway : GatewayState nat nat := NewGateway demo_cfg 0%nat 0%nat setupCircuitBreakers true.
Definition demo_post (path : string) : Request := mkRequest "POST" path ∅ ∅ (mkBody "42" None) "10.0.0.1:99".
Definition demo_ie : InvokeEnv := mkInvokeEnv 0 Second Second "e1".
Definition demo_timing (d : Z) : Timing := mkTiming 0 0 d d.

Lemma empty_header_wf : header_wf ∅.
Proof. intros k vs Hk. by rewrite lookup_empty in Hk. Qed.

Lemma demo_admits tm path id q :
  parseInvokeFunctionID path = Some id → url_Parse path = inr (path, q) →
  admits tm (demo_post path) demo_gateway id 1%nat (NewCircuitBreaker 10 (5 * Second)) path q.
Proof. intros Hp Hu. split; [apply empty_header_wf|done..]. Qed.

(** A fast invocation of [f1], addressed by an alias of its name, and a slow
    one. *)
Lemma invoke_end_to_end_witness :
  rw_body (system_invoke id "gw" (demo_timing Second) demo_ie (demo_post "/functions/%661/invoke")
             (demo_gateway, mkIW 0%nat [])).1 = "42" +:+ newline_str
  ∧ rw_status (system_invoke id "gw" (demo_timing (16 * Second)) demo_ie (demo_post "/functions/f1/invoke")
                 (demo_gateway, mkIW 0%nat [])).1 = Some 503.
Proof.
  split.
  - destruct (HandleInvoke (NewHandler (1024 * 1024)) demo_ie rw_new
      (mkRequest "POST" "/functions/f1/invoke" ∅ ∅ (mkBody "42" None) "") (mkIW 0%nat [])) as [[res|err|why] iw'] eqn:Hh;
      [|discriminate Hh..].
    pose proof (invoke_end_to_end id "gw" (demo_timing Second) demo_ie (demo_post "/functions/%661/invoke") demo_gateway
      (mkIW 0%nat []) "%661" 1%nat _ "/functions/%661/invoke" "/functions/f1/invoke" res iw'
      (demo_admits _ "/functions/%661/invoke" "%661" "/functions/f1/invoke" eq_refl eq_refl) eq_refl Hh) as H.
    destruct (system_invoke _ _ _ _ _ _) as [w [g' iw2]]. destruct H as (_ & _ & _ & Hb).
    cbn [fst]. rewrite Hb. injection Hh as <- _. reflexivity.
  - destruct (HandleInvoke (NewHandler (1024 * 1024)) demo_ie rw_new
      (mkRequest "POST" "/functions/f1/invoke" ∅ ∅ (mkBody "42" None) "") (mkIW 0%nat [])) as [[res|err|why] iw'] eqn:Hh;
      [|discriminate Hh..].
    pose proof (invoke_end_to_end id "gw" (demo_timing (16 * Second)) demo_ie (demo_post "/functions/f1/invoke") demo_gateway
      (mkIW 0%nat []) "f1" 1%nat _ "/functions/f1/invoke" "/functions/f1/invoke" res iw'
      (demo_admits _ "/functions/f1/invoke" "f1" "/functions/f1/invoke" eq_refl eq_refl) eq_refl Hh) as H.
    destruct (system_invoke _ _ _ _ _ _) as [w [g' iw2]]. destruct H as (_ & _ & Hs & _). exact Hs.
Defined.

Definition demo_slow : Timing * InvokeEnv * Request :=
  (demo_timing (16 * Second), demo_ie, demo_post "/functions/f1/invoke").

Lemma demo_slow_ok : slow_invocation demo_slow.
Proof.
  split; [apply empty_header_wf|done|done|by eexists _, _|done].
Qed.

(** The gateway with the program's own limiter, of the default capacity. *)
#[local] Instance no_rate : RateLib Z := {| rate_NewLimiter := λ _ _, 0; rate_Allow := λ _ l, (false, l) |}.
Definition demo_bucket_gateway : GatewayState (TokenBucketLimiter Z * redis_mem) nat :=
  NewGateway demo_cfg (NewTokenBucketLimiter 100 10, ∅) 0%nat setupCircuitBreakers true.
Definition bucket_at (t : Z) : RateLimiter (TokenBucketLimiter Z * redis_mem) := TB_RateLimiter t t (t / Second) None.
Definition demo_ten : list (Timing * InvokeEnv * Request) := repeat demo_slow 10.
Definition demo_after : GatewayState (TokenBucketLimiter Z * redis_mem) nat * InvokeWorld nat :=
  system_run id "gw" (λ tm, bucket_at (tg_check tm)) demo_ten (demo_bucket_gateway, mkIW 0%nat []).

(** [run_admits], computed. *)
Fixpoint run_admitted (reqs : list (Timing * InvokeEnv * Request))
    (s : GatewayState (TokenBucketLimiter Z * redis_mem) nat * InvokeWorld nat) : bool :=
  match reqs with
  | [] => true
  | (tm, ie, r) :: rest =>
      match parseInvokeFunctionID (rq_Path r) with
      | Some i => match (RateLimiter_Allow (RateLimiter := bucket_at (tg_check tm)) i (gw_invokeLimiter s.1)).1 with
                  | Ok true => run_admitted rest (system_invoke (RateLimiter0 := bucket_at (tg_check tm)) id "gw" tm ie r s).2
                  | _ => false
                  end
      | None => false
      end
  end.

Lemma run_admitted_ok reqs s : run_admitted reqs s = true → run_admits id "gw" (λ tm, bucket_at (tg_check tm)) reqs s.
Proof.
  revert s. induction reqs as [|[[tm ie] r] reqs IH]; intros s; cbn [run_admitted run_admits]; [done|].
  unfold lim_admits. destruct (parseInvokeFunctionID (rq_Path r)) as [i|]; [|done].
  destruct (RateLimiter_Allow i (gw_invokeLimiter s.1)) as [[[]|err|why] s'] eqn:Ha; try done.
  intros Hr. split; [by exists i, s'|by apply IH].
Qed.

Lemma slow_functions_block_all_witness :
  rw_status (HandleInvokeFunction (RateLimiter0 := bucket_at (18 * Second))
    (mkEnv (λ _ _, None) (λ _, inl (NewError "unused")) (18 * Second) (18 * Second)) rw_new
    (demo_post "/functions/other/invoke") demo_after.1).1 = Some 503.
Proof.
  refine (proj1 (slow_functions_block_all id "gw" (λ tm, bucket_at (tg_check tm)) (bucket_at (18 * Second)) demo_ten
    demo_bucket_gateway (mkIW 0%nat []) demo_slow
    (mkEnv (λ _ _, None) (λ _, inl (NewError "unused")) (18 * Second) (18 * Second)) (demo_post "/functions/other/invoke")
    _ eq_refl _ eq_refl eq_refl _ _ eq_refl eq_refl eq_refl)).
  - apply run_admitted_ok. vm_compute. reflexivity.
  - do 10 (apply Forall_cons_2; [exact demo_slow_ok|]). apply Forall_nil_2.
  - vm_compute. discriminate.
  - exists "other". eexists. split; [reflexivity|]. vm_compute. reflexivity.
Defined.


Lemma stream_lifts_deadline_witness :
  let '(rw, _) := StreamBuildLogs 0 [mkPoll 0 false (λ _ _, XMsgs [("1-0", Some "__BUILD_DONE__")])]
    (mkWrapped (mkWrapped (mkConn rw_new (Some (45 * Second)) 0) 200) 200)
    (mkRequest "GET" "/jobs/j1/logs" ∅ ∅ (mkBody "" None) "") demo_gateway in
  cn_deadline (wr_ResponseWriter (wr_ResponseWriter rw)) = None.
Proof.
  pose proof (stream_lifts_deadline 0 [mkPoll 0 false (λ _ _, XMsgs [("1-0", Some "__BUILD_DONE__")])]
    (mkConn rw_new (Some (45 * Second)) 0) 200 200
    (mkRequest "GET" "/jobs/j1/logs" ∅ ∅ (mkBody "" None) "") demo_gateway "j1" eq_refl eq_refl) as H.
  destruct (StreamBuildLogs _ _ _ _ _) as [rw e]. exact (proj1 H).
Defined.

Definition demo_chain : ChainEnv := mkChainEnv "uuid-1" 0 1 2 "now".

Lemma demo_page_ok (g : GatewayState nat nat) : one_status (λ w, (w, g)).
Proof. exists [], (λ w, w), g. by split. Qed.

End SystemDemo.
