(* ===== verification/Deployment.v ===== *)
(** * The deployed platform

    The services on their production parts: the gateway's client is answered
    by the lambda service, whose function service reads the cached repository
    on PostgreSQL and whose runtime manager runs functions in Docker
    containers.  What the theorem says of the whole follows from the
    components' theorems. *)

From Stdlib Require Import ZArith Lia Ascii.
From stdpp Require Import base strings gmap list numbers.
From S2P Require Import Prelude.
From S2P Require Import CircuitBreaker.
From S2P Require Import RateLimit.
From S2P Require Import Domain.
From S2P Require Import Http.
From S2P Require Import Gateway.
From S2P Require Import Postgres.
From S2P Require Import CodeStorage.
From S2P Require Import FunctionService.
From S2P Require Import Cache.
From S2P Require Import DockerPool.
From S2P Require Import Metrics.
From S2P Require Import Zip.
From S2P Require Import BuildService.
From S2P Require Import Registration.
From S2P Require Import Executor.
From S2P Require Import Managers.
From S2P Require Import Invoke.
From S2P Require Import EndToEnd.
From S2P Require Import System.
Open Scope Z_scope.

(** ** Lemmas: where a 200 comes from *)

Section Answers.
Context {W : Type} `{!FunctionLookup W, !RuntimeManager W} `{!JsonText} `{!Json Response} `{!NetUrl} `{!PromLib}.
Context (metrics_page : ResponseWriter → ResponseWriter) (remote : string).
Context {SI SB : Type} `{!RateLimiter SI}.
Implicit Types (g : GatewayState SI SB) (iw : InvokeWorld W).

Lemma HandleInvoke_200 e path body iw w' iw' :
  HandleInvoke (NewHandler (1024 * 1024)) e rw_new (mkRequest "POST" path ∅ ∅ body "") iw = (Ok w', iw') →
  default 200 (rw_status w') = 200 →
  ∃ id fn s result, parseInvokeFunctionID path = Some id ∧ fl_GetFunctionMeta id (iw_world iw) = (Ok fn, s)
    ∧ rm_Execute fn (bd_data body) s = (Ok (Some result), iw_world iw')
    ∧ rw_body w' = json_Marshal (invoke_response e id result) +:+ newline_str.
Proof.
  unfold HandleInvoke. cbn [rq_Method rq_Path rq_Body]. rewrite bool_decide_eq_false_2 by (intros Hne; by apply Hne).
  rewrite parseFunctionID_gateway. destruct (parseInvokeFunctionID path) as [id|]; [|by intros [= <- _]].
  destruct (readLimitedBody _ _) as [payload|err|why] eqn:Hb; [|by intros [= <- _]..].
  apply readLimitedBody_Ok in Hb as [-> _]; [|by vm_compute].
  destruct (fl_GetFunctionMeta id (iw_world iw)) as [[fn|err|why] s] eqn:Hf; [|destruct (errors_Is err _); by intros [= <- _]|done].
  unfold run_function. cbn [iw_world iw_pending].
  destruct (rm_Execute fn (bd_data body) s) as [[[result|]|err|why] s'] eqn:Hx;
    [|by intros [= <- _]|destruct (is_timeout err); by intros [= <- _]|done].
  intros [= <- <-] _. exists id, fn, s, result. by split_and!.
Qed.

Lemma HandleInvoke_not_Err h e w r iw err iw' : HandleInvoke h e w r iw ≠ (Err err, iw').
Proof.
  unfold HandleInvoke. case_bool_decide; [done|]. destruct (parseFunctionID _); [|done].
  destruct (readLimitedBody _ _); [|done..]. destruct (fl_GetFunctionMeta _ _) as [[fn|er|?] ?]; [|by destruct (errors_Is er _)|done].
  unfold run_function. destruct (rm_Execute _ _ _) as [[[?|]|er|?] ?]; [done|done|by destruct (is_timeout er)|done].
Qed.

Lemma system_200 tm ie r g iw id s' cb escaped path w g' iw' :
  admits tm r g id s' cb escaped path → mux_route lambda_routes "POST" escaped = RtHandler "/functions/" →
  system_invoke metrics_page remote tm ie r (g, iw) = (w, (g', iw')) → rw_status w = Some 200 →
  ∃ res, HandleInvoke (NewHandler (1024 * 1024)) ie rw_new (mkRequest "POST" path ∅ ∅ (rq_Body r) "") iw = (Ok res, iw')
    ∧ default 200 (rw_status res) = 200 ∧ rw_body w = rw_body res.
Proof.
  intros Had Hr. destruct (system_invoke_admitted metrics_page remote tm ie r g iw id s' cb escaped path Had) as (cb' & -> & _).
  destruct (HandleInvoke (NewHandler (1024 * 1024)) ie rw_new (mkRequest "POST" path ∅ ∅ (rq_Body r) "") iw)
    as [[res|err|why] iw1] eqn:Hh.
  - rewrite (lambda_answer_routed metrics_page remote _ tm ie r escaped path iw res iw1 (ad_url _ _ _ _ _ _ _ _ Had)
      (ad_post _ _ _ _ _ _ _ _ Had) (ad_body _ _ _ _ _ _ _ _ Had) (ad_label _ _ _ _ _ _ _ _ Had) Hr Hh). cbn [fst snd].
    destruct (bool_decide _); [by intros [= <- _ _]|]. destruct (bool_decide _); [by intros [= <- _ _]|].
    intros [= <- _ <-] [= Hst]. by exists res.
  - by apply HandleInvoke_not_Err in Hh.
  - rewrite (lambda_answer_panics metrics_page remote _ tm ie r escaped path iw why iw1 (ad_url _ _ _ _ _ _ _ _ Had)
      (ad_post _ _ _ _ _ _ _ _ Had) (ad_body _ _ _ _ _ _ _ _ Had) Hr Hh). by intros [= <- _ _].
Qed.
End Answers.

Section Deployment.
Context {R : Type} `{!RedisBlob R} `{!FunctionJSON}.

(** The cached repository, and the pool registry of each runtime. *)
Abbreviation Platform := (CachedRepo R DB * gmap string PoolRegistry)%type.

(** The errors and the clock of a look-up. *)
Context (pe : PgEnv) (ce : CacheEnv).

(** [FunctionService] on the cached repository; that repository stores no
    executions, so saving one does nothing. *)
#[local] Instance platform_functions : FunctionLookup Platform := {|
  fl_GetFunctionMeta id := st_fst (CR_GetFunctionMeta (HR := PG_FunctionRepository pe) ce id);
  fl_SaveExecution x := st_ret tt
|}.

(** The manager's table, and what each execution meets. *)
Context (runtimes : gmap string DockerRuntime) (re : Function → string → RunEnv).

(** A runtime on its registry.  A call that does not return has no answer. *)
Definition docker_execute (rt : DockerRuntime) (fn : Function) (input : string)
    : St (gmap string PoolRegistry) ExecutionResult := λ regs,
  match regs !! dr_runtimeType rt with
  | None => (Panic "nil pointer dereference", regs)
  | Some reg =>
      match DockerRuntime_Execute rt (re fn input) fn input reg with
      | Some (out, reg') => (out, <[dr_runtimeType rt := reg']> regs)
      | None => (Panic "blocked", regs)
      end
  end.

#[local] Instance platform_runtimes : RuntimeManager Platform := {|
  rm_Execute fn input :=
    st_bind (st_snd (Manager_Execute docker_execute runtimes fn input)) (λ result, st_ret (Some result))
|}.

(** ** Lemmas *)

(** A look-up gives the database's function, or a cached copy of it. *)
Lemma platform_lookup id (c : CachedRepo R DB) fn c' :
  db_inv (cr_repo c) → (∀ t f, cached (cr_redis c) t id = Some f → ∃ g, PG_view (cr_repo c) id = Some g ∧ same_core f g) →
  CR_GetFunctionMeta (HR := PG_FunctionRepository pe) ce id c = (Ok fn, c') →
  ∃ g, PG_view (cr_repo c) id = Some g ∧ fn_Code fn = fn_Code g ∧ fn_Runtime fn = fn_Runtime g.
Proof.
  intros Hd Hc. unfold CR_GetFunctionMeta, CR_FindByID.
  destruct (RC_GetFunction (ce_now ce) (ce_get_err ce) id (cr_redis c)) as [[f|]|err|why] eqn:Hget.
  { simpl. rewrite lookup_app_r, Nat.sub_diag by lia. simpl. intros [= <- _].
    destruct (Hc (ce_now ce) f) as (g & Hg & ? & ? & ? & ? & ? & ?); [|by exists g].
    unfold RC_GetFunction in Hget. unfold cached, RC_GetFunction. destruct (ce_get_err ce); [done|].
    by rewrite Hget. }
  all: cbn [repo_FindByID PG_FunctionRepository]; rewrite (PG_FindByID_spec _ _ _ (inv_functions_pk _ Hd));
    unfold PG_view; destruct (pg_find_err pe); simpl; [done|];
    destruct (db_functions (cr_repo c) !! id) as [row|]; simpl; [|done];
    rewrite lookup_app_r, Nat.sub_diag by lia; simpl; intros [= <- _]; by exists (function_of_row row).
Qed.

(** An execution through the manager is one of the runtime the function
    names, on that runtime's registry. *)
Lemma platform_execute fn input s result s' :
  rm_Execute fn input s = (Ok (Some result), s') →
  ∃ rt reg reg', runtimes !! fn_Runtime fn = Some rt ∧ s.2 !! dr_runtimeType rt = Some reg
    ∧ DockerRuntime_Execute rt (re fn input) fn input reg = Some (Ok result, reg')
    ∧ s'.2 !! dr_runtimeType rt = Some reg'.
Proof.
  destruct s as [c regs]. cbn [rm_Execute platform_runtimes]. unfold st_bind, st_snd, Manager_Execute, st_bind, st_lift, GetRuntime.
  cbn [fst snd]. destruct (runtimes !! fn_Runtime fn) as [rt|]; [|done]. unfold docker_execute.
  destruct (regs !! dr_runtimeType rt) as [reg|] eqn:Hreg; [|done].
  destruct (DockerRuntime_Execute rt (re fn input) fn input reg) as [[[res|err|why] reg']|] eqn:Hx; [|done..].
  intros [= <- <-]. exists rt, reg, reg'. split_and!; [done..|]. simpl. by rewrite lookup_insert_eq.
Qed.

(** ** Theorem *)

Context {B : Type} `{!ObjectStore B, !ObjectStoreLaws B} {HB3 : Blake3} {HB3L : Blake3Laws}.
Context `{!Json BuildJob, !Json FunctionBuiltEvent, !Json Response, !JsonText, !NetUrl, !PromLib}.
Context {SI SB : Type} `{!RateLimiter SI}.

(** The registries of the platform: each runtime is registered under its own
    name, and its registry is one that calls and goroutines lead to. *)
Definition registries_ok (s3 : S3Storage) (cfg : PoolConfig) (regs : gmap string PoolRegistry) : Prop :=
  ∀ k rt reg, runtimes !! k = Some rt → regs !! dr_runtimeType rt = Some reg →
    dr_runtimeType rt = k ∧ rtc (reg_step (B := B) s3 k) (NewPoolRegistry cfg) reg.

(** C1.  From an uploaded package to the client of the gateway.  Take a
    package build that succeeded and whose announcement was registered, and
    a cache that holds no stale copy of the function.  If an invocation of
    the function through the gateway is answered 200, then the body is the
    response to an execution of the function by its runtime; the handler file
    written into the container which that execution acquired holds exactly the
    contents of the package's handler file; and its command is the one started
    in that container.  This holds however the pools' goroutines interleave
    and whichever requests to the daemon, the store, the cache and the database
    fail.  (Different code is taken to have different BLAKE3 hashes.) *)
Theorem package_to_client zp dk e body job w w' s3 ppe e3 d b' (c : CachedRepo R DB) regs cfg pending
    metrics_page remote tm ie r (g : GatewayState SI SB) name s' cb escaped path rw g' iw' :
  json_Unmarshal body = Ok job → bj_RepoURL job = "" →
  processBuildJob (B := B) zp dk e body w = (Ok tt, w') →
  json_Unmarshal (json_Marshal (built_event e job)) = Ok (built_event e job) →
  db_inv d → stack_handle s3 ppe e3 (json_Marshal (built_event e job)) (d, ww_bucket w') = (Ok tt, (cr_repo c, b')) →
  (∀ t f, cached (cr_redis c) t (bj_FunctionID job) = Some f →
     ∃ h, PG_view (cr_repo c) (bj_FunctionID job) = Some h ∧ same_core f h) →
  registries_ok s3 cfg regs →
  (∀ fn c', CR_GetFunctionMeta (HR := PG_FunctionRepository pe) ce (bj_FunctionID job) c = (Ok fn, c') →
     sound_acquire (B := B) s3 (fn_Runtime fn) fn (rn_acquire (re fn (bd_data (rq_Body r))))) →
  admits tm r g name s' cb escaped path → mux_route lambda_routes "POST" escaped = RtHandler "/functions/" →
  parseInvokeFunctionID path = Some (bj_FunctionID job) →
  system_invoke metrics_page remote tm ie r (g, mkIW (c, regs) pending) = (rw, (g', iw')) → rw_status rw = Some 200 →
  ∃ data dir f files fn c' rt reg reg' result, os_Get (ww_bucket w) (bj_PackageURL job) = Some data
    ∧ ZIP_Process (wv_unzip e) zp (wv_dir_err e) data (bj_FunctionID job) (ww_fs w) = (Ok dir, f)
    ∧ wv_walk e dir f = (files, None)
    ∧ CR_GetFunctionMeta (HR := PG_FunctionRepository pe) ce (bj_FunctionID job) c = (Ok fn, c')
    ∧ runtimes !! fn_Runtime fn = Some rt ∧ regs !! dr_runtimeType rt = Some reg
    ∧ DockerRuntime_Execute rt (re fn (bd_data (rq_Body r))) fn (bd_data (rq_Body r)) reg = Some (Ok result, reg')
    ∧ rw_body rw = json_Marshal (invoke_response ie (bj_FunctionID job) result) +:+ newline_str
    ∧ ∀ code, NoDup files.*1 → (handlerFilename (bj_Runtime job) (bj_Handler job), code) ∈ files →
      ran_in_container rt (re fn (bd_data (rq_Body r))) fn (bd_data (rq_Body r)) reg result code.
Proof.
  intros Hj Hrepo Hrun Hevt Hd Hreg Hcache Hregs Hsound Had Hmux Hpath Hsys H200.
  destruct (registered_view _ _ _ _ _ _ _ _ _ Hd Hevt Hreg) as (_ & h & _ & Hd' & Hview & _).
  change (fb_FunctionID (built_event e job)) with (bj_FunctionID job) in Hview.
  destruct (system_200 metrics_page remote tm ie r g _ name s' cb escaped path rw g' iw' Had Hmux Hsys H200)
    as (res & Hh & Hst & Hbody).
  destruct (HandleInvoke_200 ie path (rq_Body r) _ res iw' Hh Hst) as (id & fn & s & result & Hid & Hget & Hx & Hres).
  assert (id = bj_FunctionID job) as -> by congruence. cbn [iw_world] in Hget.
  cbn [fl_GetFunctionMeta platform_functions] in Hget. unfold st_fst in Hget. cbn [fst snd] in Hget.
  destruct (CR_GetFunctionMeta ce (bj_FunctionID job) c) as [[fn0|?|?] c1] eqn:Hmeta; [|done..].
  injection Hget as -> <-.
  destruct (platform_lookup (bj_FunctionID job) c fn c1 Hd' Hcache Hmeta) as (h' & Hview' & Hcode & _).
  assert (h' = h) as -> by congruence.
  destruct (platform_execute _ _ _ _ _ Hx) as (rt & reg & reg' & Hrt & Hr0 & Hexec & Hr1). cbn [snd] in Hr0.
  destruct (Hregs _ _ _ Hrt Hr0) as [Hname Hsteps]. pose proof (Hsound fn c1 eq_refl) as Hacq.
  rewrite <- Hname in Hacq, Hsteps.
  destruct (package_executed zp dk e body job w w' s3 ppe e3 d (cr_repo c) b' fn h rt (re fn (bd_data (rq_Body r)))
    (bd_data (rq_Body r)) cfg reg result reg' Hj Hrepo Hrun Hevt Hd Hreg Hview Hcode Hsteps (eq_sym Hname) Hacq Hexec)
    as (data & dir & f & files & Hp1 & Hp2 & Hp3 & Hp4).
  exists data, dir, f, files, fn, c1, rt, reg, reg', result. split_and!; [done..|congruence|exact Hp4].
Qed.
End Deployment.

(** ** A concrete deployment *)

Module DeploymentDemo.
Import BuildDemo RegistrationDemo EndToEndDemo SystemDemo.
#[local] Existing Instances tagged_digest tagged_digest_laws.
#[local] Existing Instances SystemDemo.demo_text SystemDemo.demo_response SystemDemo.demo_url SystemDemo.demo_limiter
  SystemDemo.any_label.
#[local] Instance no_json : FunctionJSON :=
  {| fj_Marshal := λ _, ""; fj_Unmarshal := λ _, Err (NewError "unexpected end of JSON input") |}.

Definition demo_cached : CachedRepo demo_redis DB := NewCachedFunctionRepository demo_registered.2.1 ∅.
Definition demo_regs : gmap string PoolRegistry := {["nodejs18" := NewPoolRegistry node_cfg]}.
Definition demo_table : gmap string DockerRuntime := {["nodejs18" := node_rt]}.
Definition demo_invoke : Request := SystemDemo.demo_post "/functions/fn-1/invoke".

Definition demo_answer : ResponseWriter * (GatewayState nat nat * InvokeWorld (CachedRepo demo_redis DB * gmap string PoolRegistry)) :=
  @system_invoke _ (platform_functions (pg_ok 9) (cache_ok 9)) (platform_runtimes demo_table (λ _ _, node_run)) _ _ _ _ id "gw"
    nat nat _ (demo_timing Second) SystemDemo.demo_ie demo_invoke (SystemDemo.demo_gateway, mkIW (demo_cached, demo_regs) []).

Lemma demo_answer_200 : rw_status demo_answer.1 = Some 200 ∧ rw_body demo_answer.1 = "1" +:+ newline_str.
Proof. split; vm_compute; reflexivity. Qed.

Lemma demo_answer_split : demo_answer = (demo_answer.1, (demo_answer.2.1, demo_answer.2.2)).
Proof. by destruct demo_answer as [w [g iw]]. Qed.

Lemma demo_meta fn c' :
  CR_GetFunctionMeta (HR := PG_FunctionRepository (pg_ok 9)) (cache_ok 9) "fn-1" demo_cached = (Ok fn, c') → fn = node_fn.
Proof.
  assert ((CR_GetFunctionMeta (HR := PG_FunctionRepository (pg_ok 9)) (cache_ok 9) "fn-1" demo_cached).1 = Ok node_fn) as Hm
    by (vm_compute; reflexivity).
  intros Hf. rewrite Hf in Hm. cbn [fst] in Hm.
  exact (f_equal (λ o, match o with Ok f => f | _ => fn end) Hm).
Qed.

Lemma demo_regs_ok : registries_ok (B := gmap string string) demo_table demo_s3 node_cfg demo_regs.
Proof.
  unfold registries_ok, demo_table, demo_regs.
  intros k rt reg [<- <-]%lookup_singleton_Some [_ <-]%lookup_singleton_Some. split; [reflexivity|apply rtc_refl].
Qed.

(** The package of the build demonstration, invoked through the gateway. *)
Lemma package_to_client_witness :
  rw_body demo_answer.1 = "1" +:+ newline_str
  ∧ ∃ data dir f files, os_Get (ww_bucket demo_created) "packages/fn-1/package.zip" = Some data
    ∧ ZIP_Process (λ _, Ok demo_zip) (mkZIPProcessor "/work") None data "fn-1" (ww_fs demo_created) = (Ok dir, f)
    ∧ wv_walk (demo_worker None) dir f = (files, None)
    ∧ ∀ code, NoDup files.*1 → ("index.js", code) ∈ files →
      ∃ rt cid fs, handler_file (dr_runtimeType rt) cid fs = Some code.
Proof.
  split; [exact (proj2 demo_answer_200)|].
  destruct (package_to_client (R := demo_redis) (pg_ok 9) (cache_ok 9) demo_table (λ _ _, node_run)
    (B := gmap string string) (SI := nat) (SB := nat)
    (mkZIPProcessor "/work") (mkDockerBuilder "/work" "") (demo_worker None) "job-1" demo_job
    demo_created (demo_run None).2 demo_s3 (pg_ok 5) s3_ok initSchema demo_registered.2.2 demo_cached demo_regs node_cfg []
    id "gw" (demo_timing Second) SystemDemo.demo_ie demo_invoke SystemDemo.demo_gateway "fn-1" 1%nat
    (NewCircuitBreaker 10 (5 * Second)) "/functions/fn-1/invoke" "/functions/fn-1/invoke"
    demo_answer.1 demo_answer.2.1 demo_answer.2.2)
    as (data & dir & f & files & fn & c' & rt & reg & reg' & result & H1 & H2 & H3 & _ & _ & _ & _ & _ & H4).
  - exact demo_parse.
  - reflexivity.
  - exact demo_run_ok.
  - exact demo_event_parse.
  - exact initSchema_inv.
  - exact demo_registered_ok.
  - intros t f Hf. discriminate Hf.
  - exact demo_regs_ok.
  - intros fn c' Hfn. apply demo_meta in Hfn as ->. rewrite (proj2 node_key). exact node_sound.
  - apply SystemDemo.demo_admits; reflexivity.
  - reflexivity.
  - reflexivity.
  - exact demo_answer_split.
  - exact (proj1 demo_answer_200).
  - exists data, dir, f, files. split; [exact H1|]. split; [exact H2|]. split; [exact H3|].
    intros code Hnd Hin. destruct (H4 code Hnd Hin) as (cc & _ & _ & rp & _ & _ & _ & _ & _ & Hf & _).
    exists rt, (ct_ID cc), (p_files (rp_pool rp)). exact Hf.
Defined.
End DeploymentDemo.
