(* ===== verification/EventBus.v ===== *)
(** * Event bus (lambda-service internal/events/rabbitmq.go)

    [RabbitMQEventBus] publishes events to a topic exchange, gives each
    subscription a durable queue, and redials when its connection drops.  The
    broker holds the open connections, the exchanges, the queues and the
    bindings; it outlives connections.  A [consumer] is shared by pointer
    between the map of subscriptions and the goroutines, so consumers live in
    a heap.  A goroutine of [consumeQueue] is named by the context it was
    given.  [handleMessage], which settles a delivery, is in [EventProcessor];
    whether a routing key matches a binding key is the broker's,
    [TopicExchange]. *)

From Stdlib Require Import ZArith Lia Ascii.
From stdpp Require Import base strings gmap list numbers.
From S2P Require Import Prelude.
From S2P Require Import Backoff.
From S2P Require Import Domain.
From S2P Require Import BuildQueue.
From S2P Require Import EventProcessor.
Open Scope Z_scope.

Definition exchangeName : string := "mini-lambda-events".
Definition dlqExchangeName : string := "mini-lambda-dlq".

(** ** The broker *)

(** Whether a topic exchange sends a message with a routing key to a queue
    bound with a binding key. *)
Class TopicExchange := topic_match : string → string → bool.

(** A binding key without wildcards. *)
Definition literal_key (k : string) : bool :=
  negb (ContainsChar k "*"%char) && negb (ContainsChar k "#"%char).

(** A literal binding key matches itself only. *)
Class TopicExchangeLaws `{TopicExchange} := {
  topic_match_literal k r : literal_key k = true → topic_match k r = bool_decide (k = r)
}.

(** Bindings pair a binding key with a queue of the event exchange. *)
Record Broker := mkBroker {
  br_net : Net;
  br_exchanges : gset string;
  br_queues : Queues;
  br_bindings : gset (string * string)
}.

Definition br_set_net (n : Net) (b : Broker) : Broker :=
  mkBroker n (br_exchanges b) (br_queues b) (br_bindings b).
Definition br_set_queues (q : Queues) (b : Broker) : Broker :=
  mkBroker (br_net b) (br_exchanges b) q (br_bindings b).

Definition closed_error : error := NewError "channel/connection is not open".

(** A request on the channel of connection [c]. *)
Definition br_request (c : nat) (err : option error) (f : Broker → Broker) : St Broker unit := λ b,
  match err with
  | Some e => (Err e, b)
  | None => if bool_decide (c ∈ net_open (br_net b)) then (Ok tt, f b) else (Err closed_error, b)
  end.

Definition ExchangeDeclare (c : nat) (err : option error) (name : string) : St Broker unit :=
  br_request c err (λ b,
    mkBroker (br_net b) ({[name]} ∪ br_exchanges b) (br_queues b) (br_bindings b)).

(** The queue is created if it is not there. *)
Definition QueueDeclare (c : nat) (err : option error) (name : string) : St Broker unit :=
  br_request c err (λ b,
    match br_queues b !! name with
    | Some _ => b
    | None => br_set_queues (<[name := []]> (br_queues b)) b
    end).

(** Binding needs the queue and the exchange. *)
Definition QueueBind (c : nat) (err : option error) (name key : string) : St Broker unit := λ b,
  let missing := negb (bool_decide (is_Some (br_queues b !! name))
                       && bool_decide (exchangeName ∈ br_exchanges b)) in
  let err := match err with
             | Some e => Some e
             | None => if missing then Some (NewError "Exception (404) Reason: NOT_FOUND") else None
             end in
  br_request c err (λ b,
    mkBroker (br_net b) (br_exchanges b) (br_queues b) ({[(key, name)]} ∪ br_bindings b)) b.

(** A deleted queue takes its messages and bindings with it. *)
Definition QueueDelete (c : nat) (err : option error) (name : string) : St Broker unit :=
  br_request c err (λ b,
    mkBroker (br_net b) (br_exchanges b) (delete name (br_queues b))
      (filter (λ kq, kq.2 ≠ name) (br_bindings b))).

Section Routing.
Context `{TopicExchange}.

(** Whether the event exchange sends a message to a queue: once, however many
    bindings match. *)
Definition routed (b : Broker) (key name : string) : bool :=
  bool_decide (exchangeName ∈ br_exchanges b)
  && existsb (λ kq, bool_decide (kq.2 = name) && topic_match kq.1 key) (elements (br_bindings b)).

Definition route (key body : string) (b : Broker) : Broker :=
  br_set_queues
    (map_imap (λ name ms, Some (if routed b key name then ms ++ [body] else ms)) (br_queues b)) b.
End Routing.

(** ** The bus *)

Record consumer := mkBusConsumer {
  co_queueName : string;
  co_routingKey : string;
  co_cancel : nat
}.

(** A goroutine of [consumeQueue]: it has not yet called [Consume], it reads
    the deliveries of a connection, or it has returned. *)
Inductive GoState := GoStarting | GoConsuming (c : nat) | GoReturned.
Record Goroutine := mkGoroutine { gr_queue : string; gr_state : GoState }.

(** The bus and what it shares with its goroutines: the contexts that were
    cancelled and whether its own is. *)
Record RabbitMQEventBus := mkBus {
  bus_conn : nat;
  bus_consumers : gmap string nat;
  bus_heap : gmap nat consumer;
  bus_backoff : Backoff;
  bus_done : bool;
  bus_cancelled : gset nat;
  bus_go : gmap nat Goroutine;
  bus_next : nat
}.

Abbreviation BusWorld := (RabbitMQEventBus * Broker)%type.

Definition bus_set_conn (c : nat) (b : Backoff) (u : RabbitMQEventBus) : RabbitMQEventBus :=
  mkBus c (bus_consumers u) (bus_heap u) b (bus_done u) (bus_cancelled u) (bus_go u) (bus_next u).
Definition bus_set_go (g : gmap nat Goroutine) (u : RabbitMQEventBus) : RabbitMQEventBus :=
  mkBus (bus_conn u) (bus_consumers u) (bus_heap u) (bus_backoff u) (bus_done u) (bus_cancelled u)
    g (bus_next u).

Section Bus.
Open Scope golang_scope.

Definition declareExchanges (c : nat) (event_err dlq_err : option error) : St Broker unit :=
  st_wrap "failed to declare exchange" (ExchangeDeclare c event_err exchangeName) ;;!
  st_wrap "failed to declare DLQ exchange" (ExchangeDeclare c dlq_err dlqExchangeName).

Definition NewRabbitMQEventBus (dial_err channel_err event_err dlq_err : option error)
    : St Broker RabbitMQEventBus := λ b,
  match dial_err with
  | Some e => (Err (Wrap "failed to connect to RabbitMQ" e), b)
  | None =>
      let '(c, n) := net_dial (br_net b) in
      let b := br_set_net n b in
      match channel_err with
      | Some e => (Err (Wrap "failed to open a channel" e), br_set_net (net_close c (br_net b)) b)
      | None =>
          match declareExchanges c event_err dlq_err b with
          | (Ok _, b) => (Ok (mkBus c ∅ ∅ NewBackoff false ∅ ∅ 0), b)
          | (Err e, b) => (Err e, br_set_net (net_close c (br_net b)) b)
          | (Panic w, b) => (Panic w, b)
          end
      end
  end.

(** [Publish] of an event whose JSON is [body]. *)
Definition EB_Publish `{TopicExchange} (body : outcome string) (err : option error) (event : Event)
    : St BusWorld unit :=
  body <-! st_lift (wrap_err "failed to marshal event" body) ;;
  w <-! st_get ;;
  st_wrap "failed to publish event"
    (st_snd (br_request (bus_conn w.1) err (route (ev_Type event) body))).

Definition queue_name (eventType : EventType) (functionID : string) : string :=
  "function." +:+ functionID +:+ eventType.

(** The context, the consumer and the goroutine a subscription starts. *)
Definition start_consumer (q key : string) (u : RabbitMQEventBus) : RabbitMQEventBus :=
  let ctx := bus_next u in
  mkBus (bus_conn u) (<[q := ctx]> (bus_consumers u)) (<[ctx := mkBusConsumer q key ctx]> (bus_heap u))
    (bus_backoff u) (bus_done u) (bus_cancelled u)
    (<[ctx := mkGoroutine q GoStarting]> (bus_go u)) (S ctx).

Definition EB_Subscribe (decl_err bind_err : option error) (eventType : EventType)
    (functionID : string) : St BusWorld unit :=
  let queueName := queue_name eventType functionID in
  w <-! st_get ;;
  st_wrap "failed to declare queue" (st_snd (QueueDeclare (bus_conn w.1) decl_err queueName)) ;;!
  st_wrap "failed to bind queue" (st_snd (QueueBind (bus_conn w.1) bind_err queueName eventType)) ;;!
  st_fst (st_modify (start_consumer queueName eventType)).

(** The subscription is dropped from the map and its context cancelled. *)
Definition drop_consumer (q : string) (ptr : nat) (u : RabbitMQEventBus) : RabbitMQEventBus :=
  mkBus (bus_conn u) (delete q (bus_consumers u)) (bus_heap u) (bus_backoff u) (bus_done u)
    (match bus_heap u !! ptr with
     | Some c => {[co_cancel c]} ∪ bus_cancelled u
     | None => bus_cancelled u
     end) (bus_go u) (bus_next u).

Definition EB_Unsubscribe (del_err : option error) (eventType : EventType) (functionID : string)
    : St BusWorld unit :=
  let queueName := queue_name eventType functionID in
  w <-! st_get ;;
  match bus_consumers w.1 !! queueName with
  | None => st_fail (NewError ("no subscription found for queue: " +:+ queueName))
  | Some ptr =>
      st_fst (st_modify (drop_consumer queueName ptr)) ;;!
      st_wrap "failed to delete queue" (st_snd (QueueDelete (bus_conn w.1) del_err queueName))
  end.

(** [Shutdown] cancels the bus's context, waits, and closes the connection. *)
Definition EB_Shutdown : St BusWorld unit := λ w,
  let '(u, b) := w in
  (Ok tt, (mkBus (bus_conn u) (bus_consumers u) (bus_heap u) (bus_backoff u) true (bus_cancelled u)
             (bus_go u) (bus_next u),
           br_set_net (net_close (bus_conn u) (br_net b)) b)).

(** ** Reconnecting *)

(** One entry of [resubscribeAll]: the consumer behind the pointer gets a new
    context and a new goroutine, unless its queue could not be set up. *)
Definition resubscribe_one (errs : string → option error * option error) (entry : string * nat)
    (w : BusWorld) : BusWorld :=
  let '(q, ptr) := entry in
  let '(u, b) := w in
  match bus_heap u !! ptr with
  | None => w
  | Some c =>
      match QueueDeclare (bus_conn u) (errs q).1 q b with
      | (Ok _, b) =>
          match QueueBind (bus_conn u) (errs q).2 q (co_routingKey c) b with
          | (Ok _, b) =>
              let ctx := bus_next u in
              (mkBus (bus_conn u) (bus_consumers u)
                 (<[ptr := mkBusConsumer (co_queueName c) (co_routingKey c) ctx]> (bus_heap u))
                 (bus_backoff u) (bus_done u) (bus_cancelled u)
                 (<[ctx := mkGoroutine (co_queueName c) GoStarting]> (bus_go u)) (S ctx), b)
          | (_, b) => (u, b)
          end
      | (_, b) => (u, b)
      end
  end.

(** [order] is the order in which the map is read. *)
Definition resubscribeAll (order : list (string * nat) → list (string * nat))
    (errs : string → option error * option error) (w : BusWorld) : BusWorld :=
  foldl (λ w e, resubscribe_one errs e w) w (order (map_to_list (bus_consumers w.1))).

(** [reconnect]; an attempt's set-up error is that of [declareExchanges]. *)
Definition EB_reconnect (attempts : list Attempt) (order : list (string * nat) → list (string * nat))
    (errs : string → option error * option error) (w : BusWorld) : option DialEnd * BusWorld :=
  let '(u, b) := w in
  let '(r, bo, n, _) := dial_loop true attempts (bus_backoff u) (br_net b) in
  match r with
  | Some (Connected c) =>
      let b := mkBroker n ({[exchangeName; dlqExchangeName]} ∪ br_exchanges b) (br_queues b)
                 (br_bindings b) in
      let '(u, b) := resubscribeAll order errs (bus_set_conn c bo u, b) in
      (r, (bus_set_conn (bus_conn u) (Backoff_Reset (bus_backoff u)) u, b))
  | _ => (r, (bus_set_conn (bus_conn u) bo u, br_set_net n b))
  end.

(** [handleConnectionErrors]: in each turn the bus is shut down or the
    connection closes and the bus reconnects.  The result says whether the
    watcher is still running. *)
Record WatchTurn := mkWatchTurn {
  wt_done : bool;
  wt_attempts : list Attempt;
  wt_order : list (string * nat) → list (string * nat);
  wt_errs : string → option error * option error
}.

Definition conn_drop (w : BusWorld) : BusWorld :=
  (w.1, br_set_net (net_close (bus_conn w.1) (br_net w.2)) w.2).

Fixpoint handleConnectionErrors (turns : list WatchTurn) (w : BusWorld) : bool * BusWorld :=
  match turns with
  | [] => (true, w)
  | t :: rest =>
      if wt_done t then (false, w)
      else
        match EB_reconnect (wt_attempts t) (wt_order t) (wt_errs t) (conn_drop w) with
        | (Some (Connected _), w) => handleConnectionErrors rest w
        | (Some _, w) => (false, w)
        | (None, w) => (true, w)
        end
  end.

(** ** The goroutines *)

(** A goroutine calls [Consume] on the channel the bus has by then. *)
Definition consume_start (err : option error) (g : nat) (w : BusWorld) : BusWorld :=
  let '(u, b) := w in
  match bus_go u !! g with
  | Some (mkGoroutine q GoStarting) =>
      let ok := bool_decide (bus_conn u ∈ net_open (br_net b))
                && bool_decide (is_Some (br_queues b !! q))
                && match err with None => true | Some _ => false end in
      (bus_set_go (<[g := mkGoroutine q (if ok then GoConsuming (bus_conn u) else GoReturned)]>
                     (bus_go u)) u, b)
  | _ => w
  end.

(** A goroutine returns when its context is done or its deliveries end: the
    connection it consumes on is closed, or the queue is deleted. *)
Definition consume_return (g : nat) (w : BusWorld) : BusWorld :=
  let '(u, b) := w in
  match bus_go u !! g with
  | Some (mkGoroutine q (GoConsuming c)) =>
      if bus_done u || bool_decide (g ∈ bus_cancelled u)
         || negb (bool_decide (c ∈ net_open (br_net b)))
         || negb (bool_decide (is_Some (br_queues b !! q)))
      then (bus_set_go (<[g := mkGoroutine q GoReturned]> (bus_go u)) u, b)
      else w
  | _ => w
  end.

(** A goroutine takes the oldest message of its queue, handles it and settles
    it: a requeued message stays at the head; a dropped one goes to the
    dead-letter exchange, to which the code binds no queue. *)
Definition consume_deliver {W} (p : ProcessorDeps W) (e : ProcEnv) (decode : string → outcome Event)
    (g : nat) : St (BusWorld * W) unit := λ s,
  let '((u, b), x) := s in
  match bus_go u !! g with
  | Some (mkGoroutine q (GoConsuming c)) =>
      match br_queues b !! q with
      | Some (m :: ms) =>
          if bool_decide (c ∈ net_open (br_net b)) then
            match handleMessage p e decode m x with
            | (Ok NackRequeue, x) => (Ok tt, ((u, b), x))
            | (Ok _, x) => (Ok tt, ((u, br_set_queues (<[q := ms]> (br_queues b)) b), x))
            | (Err err, x) => (Err err, ((u, b), x))
            | (Panic why, x) => (Panic why, ((u, b), x))
            end
          else (Ok tt, s)
      | _ => (Ok tt, s)
      end
  | _ => (Ok tt, s)
  end.
End Bus.

(** ** Histories

    Operations of the bus one after another, between any steps of its
    goroutines, losses of the connection and reconnections. *)

Definition reorders (order : list (string * nat) → list (string * nat)) : Prop :=
  ∀ l, order l ≡ₚ l.

Inductive bus_step `{TopicExchange} : BusWorld → BusWorld → Prop :=
  | bs_publish body err event w : bus_step w (EB_Publish body err event w).2
  | bs_subscribe de be t f w : bus_step w (EB_Subscribe de be t f w).2
  | bs_unsubscribe de t f w : bus_step w (EB_Unsubscribe de t f w).2
  | bs_shutdown w : bus_step w (EB_Shutdown w).2
  | bs_drop w : bus_step w (conn_drop w)
  | bs_reconnect attempts order errs w :
      reorders order → bus_step w (EB_reconnect attempts order errs w).2
  | bs_start err g w : bus_step w (consume_start err g w)
  | bs_return g w : bus_step w (consume_return g w)
  | bs_deliver W (p : ProcessorDeps W) e decode g w x :
      bus_step w (consume_deliver p e decode g (w, x)).2.1.

(** The subscription of a queue: its consumer, its context and its goroutine
    agree on the queue, and the broker has the queue and its binding. *)
Definition subscribed (u : RabbitMQEventBus) (b : Broker) (q : string) (ptr : nat) : Prop :=
  ∃ c gr, bus_heap u !! ptr = Some c ∧ co_queueName c = q
    ∧ bus_go u !! (co_cancel c) = Some gr ∧ gr_queue gr = q
    ∧ (co_cancel c ∉ bus_cancelled u)
    ∧ is_Some (br_queues b !! q) ∧ (co_routingKey c, q) ∈ br_bindings b.

Definition bus_inv (w : BusWorld) : Prop :=
  let '(u, b) := w in
  net_wf (br_net b)
  ∧ exchangeName ∈ br_exchanges b
  ∧ (∀ k, (bus_next u ≤ k)%nat → bus_heap u !! k = None ∧ bus_go u !! k = None ∧ k ∉ bus_cancelled u)
  ∧ (∀ q ptr, bus_consumers u !! q = Some ptr → subscribed u b q ptr).

(** What a change of the broker may do without hurting a subscription. *)
Definition br_ext (b b' : Broker) : Prop :=
  (net_wf (br_net b) → net_wf (br_net b'))
  ∧ br_exchanges b ⊆ br_exchanges b'
  ∧ (∀ q, is_Some (br_queues b !! q) → is_Some (br_queues b' !! q))
  ∧ br_bindings b ⊆ br_bindings b'.

#[export] Instance br_ext_preorder : PreOrder br_ext.
Proof.
  split.
  - by intros b; repeat split.
  - intros b1 b2 b3 (A1 & A2 & A3 & A4) (B1 & B2 & B3 & B4). repeat split; [auto|set_solver|auto|set_solver].
Qed.

Lemma subscribed_ext u b b' q ptr : br_ext b b' → subscribed u b q ptr → subscribed u b' q ptr.
Proof.
  intros (_ & _ & Hq & Hb) (c & gr & ? & ? & ? & ? & ? & ? & ?).
  exists c, gr. repeat split; auto.
Qed.

Lemma bus_inv_ext u b b' : br_ext b b' → bus_inv (u, b) → bus_inv (u, b').
Proof.
  intros Hx (Hn & He & Hf & Hs). pose proof Hx as (X1 & X2 & _ & _).
  repeat split; [auto|set_solver|by apply Hf..|].
  intros q ptr Hq. by eapply subscribed_ext, Hs.
Qed.

Lemma br_ext_close c b : br_ext b (br_set_net (net_close c (br_net b)) b).
Proof. repeat split; [apply net_close_wf|done..]. Qed.

Lemma br_request_ext c err f : (∀ b, br_ext b (f b)) → st_keeps br_ext (br_request c err f).
Proof. intros Hf b. unfold st_wp, br_request. destruct err; [done|]. case_bool_decide; simpl; [apply Hf|done]. Qed.

Lemma ExchangeDeclare_ext c err name : st_keeps br_ext (ExchangeDeclare c err name).
Proof. apply br_request_ext. intros b. repeat split; simpl; [done|set_solver|done..]. Qed.

Lemma QueueDeclare_ext c err name : st_keeps br_ext (QueueDeclare c err name).
Proof.
  apply br_request_ext. intros b. destruct (br_queues b !! name) eqn:E; [done|].
  repeat split; simpl; [done..| |done]. intros q Hq.
  rewrite lookup_insert. case_decide; [done|done].
Qed.

Lemma QueueBind_ext c err name key : st_keeps br_ext (QueueBind c err name key).
Proof. intros b. unfold QueueBind. apply br_request_ext. intros b'. repeat split; simpl; [done..|set_solver]. Qed.

Lemma route_ext `{TopicExchange} key body b : br_ext b (route key body b).
Proof.
  repeat split; simpl; [done..| |done]. intros q [ms Hq].
  rewrite map_lookup_imap, Hq. eauto.
Qed.

Lemma QueueDeclare_Ok c err name b b' :
  QueueDeclare c err name b = (Ok tt, b') →
  is_Some (br_queues b' !! name) ∧ br_ext b b' ∧ br_net b' = br_net b
  ∧ err = None ∧ c ∈ net_open (br_net b) ∧ (∀ ms, br_queues b !! name = Some ms → b' = b).
Proof.
  intros E. pose proof (st_keeps_run _ _ _ _ _ (QueueDeclare_ext c err name) E).
  unfold QueueDeclare, br_request in E. destruct err; [done|]. case_bool_decide; [|done].
  injection E as <-. destruct (br_queues b !! name) eqn:Eq; simpl.
  - repeat split; eauto.
  - rewrite lookup_insert_eq. split_and!; try done; by eauto.
Qed.

Lemma QueueBind_Ok c err name key b b' :
  QueueBind c err name key b = (Ok tt, b') →
  b' = mkBroker (br_net b) (br_exchanges b) (br_queues b) ({[(key, name)]} ∪ br_bindings b).
Proof.
  unfold QueueBind, br_request. destruct err; [done|].
  destruct (negb _); [done|]. case_bool_decide; [|done]. by intros [= <-].
Qed.

(** ** The invariant *)

Section Invariant.
Context `{TopicExchange}.

(** A fresh context for [q]: what [Subscribe] and [resubscribeAll] change. *)
Lemma subscribed_fresh u b q ptr key :
  (∀ k, (bus_next u ≤ k)%nat → bus_heap u !! k = None ∧ bus_go u !! k = None ∧ k ∉ bus_cancelled u) →
  is_Some (br_queues b !! q) → (key, q) ∈ br_bindings b →
  subscribed
    (mkBus (bus_conn u) (bus_consumers u) (<[ptr := mkBusConsumer q key (bus_next u)]> (bus_heap u))
       (bus_backoff u) (bus_done u) (bus_cancelled u)
       (<[bus_next u := mkGoroutine q GoStarting]> (bus_go u)) (S (bus_next u))) b q ptr.
Proof.
  intros Hf Hq Hb. exists (mkBusConsumer q key (bus_next u)), (mkGoroutine q GoStarting). simpl.
  rewrite !lookup_insert_eq. split_and!; try done. by apply Hf.
Qed.

(** A subscription of another queue survives a fresh context for [q]. *)
Lemma subscribed_other u b q ptr q' ptr' c cons gr0 heap' :
  (∀ k, (bus_next u ≤ k)%nat → bus_go u !! k = None) →
  heap' = <[ptr := c]> (bus_heap u) → ptr' ≠ ptr →
  subscribed u b q' ptr' →
  subscribed
    (mkBus (bus_conn u) cons heap' (bus_backoff u) (bus_done u) (bus_cancelled u)
       (<[bus_next u := mkGoroutine q gr0]> (bus_go u)) (S (bus_next u))) b q' ptr'.
Proof.
  intros Hf -> Hne (c' & gr & H1 & H2 & H3 & H4 & H5 & H6 & H7). exists c', gr. simpl.
  rewrite lookup_insert_ne by done. split_and!; try done.
  rewrite lookup_insert_ne; [done|]. intros Heq. rewrite <- Heq, Hf in H3; [done|lia].
Qed.

(** The pointer of a subscription tells its queue. *)
Lemma subscribed_inj u b q q' ptr : subscribed u b q ptr → subscribed u b q' ptr → q = q'.
Proof. intros (c & gr & ? & <- & _) (c' & gr' & ? & <- & _). by simplify_eq. Qed.

Lemma fresh_S u ptr q key st cons : bus_inv u →
  (ptr ≤ bus_next u.1)%nat →
  ∀ k, (S (bus_next u.1) ≤ k)%nat →
    <[ptr := mkBusConsumer q key (bus_next u.1)]> (bus_heap u.1) !! k = None
    ∧ <[bus_next u.1 := mkGoroutine cons st]> (bus_go u.1) !! k = None ∧ k ∉ bus_cancelled u.1.
Proof.
  destruct u as [u b]. intros (_ & _ & Hf & _) Hp k Hk. simpl in *.
  rewrite !lookup_insert_ne by lia. apply Hf. lia.
Qed.

Lemma start_consumer_inv u b q key :
  bus_inv (u, b) → is_Some (br_queues b !! q) → (key, q) ∈ br_bindings b →
  bus_inv (start_consumer q key u, b).
Proof.
  intros Hi Hq Hb. pose proof Hi as (Hn & He & Hf & Hs).
  split_and!; [done|done|by apply (fresh_S (u, b))|].
  intros q' ptr'. unfold start_consumer. simpl. rewrite lookup_insert. case_decide as Eq.
  - intros [= <-]. subst q'.
    destruct (subscribed_fresh u b q (bus_next u) key Hf Hq Hb) as (c & gr & Hsub). by exists c, gr.
  - intros Hq'. eapply subscribed_other; [by intros k Hk; apply Hf|done| |by apply Hs].
    destruct (Hs _ _ Hq') as (c & gr & Hc & _). intros ->.
    destruct (Hf (bus_next u)) as [Hnone _]; [lia|]. by rewrite Hnone in Hc.
Qed.

Lemma Subscribe_inv de be t f w : bus_inv w → bus_inv (EB_Subscribe de be t f w).2.
Proof.
  destruct w as [u b]. intros Hi. unfold EB_Subscribe, st_bind, st_get, st_wrap, st_snd, st_fst, st_modify.
  simpl. destruct (QueueDeclare _ _ _ b) as [r1 b1] eqn:E1.
  assert (X1 : br_ext b b1) by exact (st_keeps_run _ _ _ _ _ (QueueDeclare_ext _ _ _) E1).
  pose proof (bus_inv_ext _ _ _ X1 Hi) as Hi1.
  destruct r1 as [[]| |]; [|done..]. simpl.
  destruct (QueueBind _ _ _ _ b1) as [r2 b2] eqn:E2.
  pose proof (st_keeps_run _ _ _ _ _ (QueueBind_ext _ _ _ _) E2) as X2.
  pose proof (bus_inv_ext _ _ _ X2 Hi1) as Hi2.
  destruct r2 as [[]| |]; [|done..]. simpl.
  apply QueueDeclare_Ok in E1 as (Hq & _). apply QueueBind_Ok in E2.
  apply start_consumer_inv; [done|by apply X2|]. subst b2. simpl. set_solver.
Qed.

Lemma QueueDelete_inv c err q u b : bus_consumers u !! q = None →
  bus_inv (u, b) → bus_inv (u, (QueueDelete c err q b).2).
Proof.
  intros Hno Hi. unfold QueueDelete, br_request. destruct err; [done|]. case_bool_decide; [|done].
  destruct Hi as (Hn & He & Hf & Hs). split_and!; try done. intros q' ptr Hq'.
  destruct (Hs _ _ Hq') as (c' & gr & ? & ? & ? & ? & ? & ? & Hb).
  assert (q' ≠ q) by congruence. exists c', gr. split_and!; try done; simpl.
  - by rewrite lookup_delete_ne.
  - apply elem_of_filter. by split.
Qed.

Lemma drop_consumer_inv u b q ptr : bus_consumers u !! q = Some ptr →
  bus_inv (u, b) → bus_inv (drop_consumer q ptr u, b).
Proof.
  intros Hq (Hn & He & Hf & Hs). destruct (Hs _ _ Hq) as (c & gr & Hc & Hcq & Hg & Hgq & _).
  unfold drop_consumer. rewrite Hc. split_and!; try done; simpl.
  - intros k Hk. destruct (Hf k Hk) as (F1 & F2 & F3). split_and!; try done.
    intros [->%elem_of_singleton|?]%elem_of_union; [by rewrite F2 in Hg|done].
  - intros q' ptr'. rewrite lookup_delete_Some. intros [Hne Hq'].
    destruct (Hs _ _ Hq') as (c' & gr' & A1 & A2 & A3 & A4 & A5 & A6 & A7).
    exists c', gr'. split_and!; try done; simpl.
    intros [Heq%elem_of_singleton|?]%elem_of_union; [|done]. rewrite Heq in A3. congruence.
Qed.

Lemma Unsubscribe_inv de t f w : bus_inv w → bus_inv (EB_Unsubscribe de t f w).2.
Proof.
  destruct w as [u b]. intros Hi. unfold EB_Unsubscribe, st_bind, st_get. simpl.
  destruct (bus_consumers u !! queue_name t f) as [ptr|] eqn:Eq; [|done].
  unfold st_bind, st_fst, st_modify, st_wrap, st_snd. simpl.
  assert (Hd : bus_inv (drop_consumer (queue_name t f) ptr u, b)) by by apply drop_consumer_inv.
  assert (Hno : bus_consumers (drop_consumer (queue_name t f) ptr u) !! queue_name t f = None)
    by apply lookup_delete_eq.
  pose proof (QueueDelete_inv (bus_conn u) de _ _ _ Hno Hd) as Hx.
  destruct (QueueDelete _ _ _ b) as [r b']. by destruct r.
Qed.

Lemma resubscribe_one_inv errs e w : bus_inv w → bus_consumers w.1 !! e.1 = Some e.2 →
  bus_inv (resubscribe_one errs e w).
Proof.
  destruct e as [q ptr], w as [u b]. simpl. intros Hi Hq.
  pose proof Hi as (_ & _ & Hf0 & Hs0). destruct (Hs0 _ _ Hq) as (c & gr & Hc & Hcq & _).
  rewrite Hc. destruct (QueueDeclare _ _ _ b) as [r1 b1] eqn:E1.
  assert (X1 : br_ext b b1) by exact (st_keeps_run _ _ _ _ _ (QueueDeclare_ext _ _ _) E1).
  pose proof (bus_inv_ext _ _ _ X1 Hi) as Hi1. destruct r1 as [[]| |]; [|done..].
  destruct (QueueBind _ _ _ _ b1) as [r2 b2] eqn:E2.
  pose proof (st_keeps_run _ _ _ _ _ (QueueBind_ext _ _ _ _) E2) as X2.
  pose proof (bus_inv_ext _ _ _ X2 Hi1) as Hi2. destruct r2 as [[]| |]; [|done..].
  apply QueueDeclare_Ok in E1 as (Hqq & _). apply QueueBind_Ok in E2.
  pose proof Hi2 as (Hn & He & Hf & Hs).
  assert (Hlt : (ptr < bus_next u)%nat).
  { destruct (decide (bus_next u ≤ ptr)%nat) as [Hle|]; [|lia].
    destruct (Hf0 _ Hle) as [Hnone _]. by rewrite Hnone in Hc. }
  split_and!; [done|done|apply (fresh_S (u, b2)); [done|simpl; lia]|]. simpl.
  intros q' ptr' Hq'. rewrite Hcq. destruct (decide (ptr' = ptr)) as [->|Hne].
  - rewrite (subscribed_inj _ _ _ _ _ (Hs _ _ Hq') (Hs _ _ Hq)).
    apply subscribed_fresh; [done|by apply X2|subst b2; simpl; set_solver].
  - eapply subscribed_other; [by intros k Hk; apply Hf|done|done|by apply Hs].
Qed.

Lemma resubscribe_one_consumers errs e w :
  bus_consumers (resubscribe_one errs e w).1 = bus_consumers w.1
  ∧ bus_conn (resubscribe_one errs e w).1 = bus_conn w.1
  ∧ bus_cancelled (resubscribe_one errs e w).1 = bus_cancelled w.1.
Proof.
  destruct e as [q ptr], w as [u b]. simpl. destruct (bus_heap u !! ptr); [|done].
  destruct (QueueDeclare _ _ _ b) as [[[]| |] b1]; [|done..].
  by destruct (QueueBind _ _ _ _ b1) as [[[]| |] b2].
Qed.

(** The loop over entries that are all subscriptions. *)
Lemma resubscribe_fold_inv errs es w :
  bus_inv w → Forall (λ e, bus_consumers w.1 !! e.1 = Some e.2) es →
  bus_inv (foldl (λ w e, resubscribe_one errs e w) w es).
Proof.
  revert w. induction es as [|e es IH]; intros w Hi Hes; [done|].
  apply Forall_cons_1 in Hes as [He Hes]. simpl. apply IH; [by apply resubscribe_one_inv|].
  by rewrite (proj1 (resubscribe_one_consumers errs e w)).
Qed.

Lemma resubscribe_entries order (u : RabbitMQEventBus) : reorders order →
  Forall (λ e, bus_consumers u !! e.1 = Some e.2) (order (map_to_list (bus_consumers u))).
Proof.
  intros Ho. rewrite (Ho _). apply Forall_forall. intros [q ptr] He.
  by apply list_elem_of_In, elem_of_map_to_list in He.
Qed.

Lemma resubscribeAll_inv order errs w : reorders order → bus_inv w →
  bus_inv (resubscribeAll order errs w).
Proof. intros Ho Hi. by apply resubscribe_fold_inv, resubscribe_entries. Qed.

(** The connection and the backoff are not part of the invariant. *)
Lemma bus_set_conn_inv c bo u b : bus_inv (u, b) → bus_inv (bus_set_conn c bo u, b).
Proof. done. Qed.

Lemma reconnect_inv attempts order errs w : reorders order → bus_inv w →
  bus_inv (EB_reconnect attempts order errs w).2.
Proof.
  destruct w as [u b]. intros Ho Hi. simpl.
  assert (Hwf : net_wf (br_net b)) by apply Hi.
  destruct (dial_loop true attempts (bus_backoff u) (br_net b)) as [[[r bo] n] ds] eqn:Ed.
  destruct (dial_loop_open _ _ _ _ _ _ _ _ Hwf Ed) as [Hn _].
  set (b' := mkBroker n ({[exchangeName; dlqExchangeName]} ∪ br_exchanges b) (br_queues b) (br_bindings b)).
  assert (X : br_ext b b') by (repeat split; [done|simpl; set_solver|done..]).
  assert (Y : br_ext b (br_set_net n b)) by (repeat split; [done..|done|done]).
  pose proof (bus_inv_ext _ _ _ Y Hi) as HY.
  destruct r as [[c| |]|]; [|done..].
  pose proof (resubscribeAll_inv order errs (bus_set_conn c bo u, b') Ho (bus_inv_ext _ _ _ X Hi)) as HR.
  by destruct (resubscribeAll order errs (bus_set_conn c bo u, b')) as [u' b''].
Qed.

(** A goroutine that moves keeps its queue. *)
Lemma bus_set_go_inv u b g q st st' : bus_go u !! g = Some (mkGoroutine q st) →
  bus_inv (u, b) → bus_inv (bus_set_go (<[g := mkGoroutine q st']> (bus_go u)) u, b).
Proof.
  intros Hg (Hn & He & Hf & Hs). split_and!; try done; simpl.
  - intros k Hk. destruct (Hf k Hk) as (F1 & F2 & F3). split_and!; try done.
    rewrite lookup_insert_ne; [done|]. intros ->. by rewrite Hg in F2.
  - intros q' ptr Hq. destruct (Hs _ _ Hq) as (c & gr & A1 & A2 & A3 & A4 & A5).
    destruct (decide (g = co_cancel c)) as [Eg|Hne].
    + exists c, (mkGoroutine q st'). simpl. rewrite <- Eg, lookup_insert_eq.
      rewrite <- Eg, Hg in A3. injection A3 as <-. by rewrite <- Eg in A5.
    + exists c, gr. simpl. by rewrite lookup_insert_ne.
Qed.

Lemma consume_start_inv err g w : bus_inv w → bus_inv (consume_start err g w).
Proof.
  destruct w as [u b]. intros Hi. simpl. destruct (bus_go u !! g) as [[q []]|] eqn:E; try done.
  by eapply bus_set_go_inv.
Qed.

Lemma consume_return_inv g w : bus_inv w → bus_inv (consume_return g w).
Proof.
  destruct w as [u b]. intros Hi. simpl. destruct (bus_go u !! g) as [[q []]|] eqn:E; try done.
  destruct (_ || _); [by eapply bus_set_go_inv|done].
Qed.

Lemma consume_deliver_inv {W} (p : ProcessorDeps W) e decode g w x : bus_inv w →
  bus_inv (consume_deliver p e decode g (w, x)).2.1.
Proof.
  destruct w as [u b]. intros Hi. simpl. destruct (bus_go u !! g) as [[q []]|]; try done.
  destruct (br_queues b !! q) as [[|m ms]|] eqn:Eq; try done. case_bool_decide; [|done].
  assert (X : br_ext b (br_set_queues (<[q := ms]> (br_queues b)) b)).
  { repeat split; [done..| |done]. intros q'. simpl. rewrite lookup_insert. by case_decide. }
  pose proof (bus_inv_ext _ _ _ X Hi).
  by destruct (handleMessage p e decode m x) as [[[]| |] x'].
Qed.

Lemma bus_step_inv w w' : bus_step w w' → bus_inv w → bus_inv w'.
Proof.
  intros [body err ev [u b]| | |[u b]|[u b]| | | |] Hi.
  - unfold EB_Publish, st_bind, st_lift, st_get, st_wrap, st_snd. destruct body as [body| |]; [|done..]. simpl.
    pose proof (br_request_ext (bus_conn u) err _ (route_ext (ev_Type ev) body) b) as X.
    unfold st_wp in X. destruct (br_request _ _ _ b) as [r b']. simpl in X.
    pose proof (bus_inv_ext _ _ _ X Hi). by destruct r.
  - by apply Subscribe_inv.
  - by apply Unsubscribe_inv.
  - exact (bus_inv_ext _ _ _ (br_ext_close _ _) Hi).
  - exact (bus_inv_ext _ _ _ (br_ext_close _ _) Hi).
  - by apply reconnect_inv.
  - by apply consume_start_inv.
  - by apply consume_return_inv.
  - by apply consume_deliver_inv.
Qed.

(** The states a new bus can reach. *)
Definition bus_reachable (w : BusWorld) : Prop :=
  ∃ b0 u0 b1, net_wf (br_net b0)
    ∧ NewRabbitMQEventBus None None None None b0 = (Ok u0, b1) ∧ rtc bus_step (u0, b1) w.

Lemma bus_reachable_inv w : bus_reachable w → bus_inv w.
Proof.
  intros (b0 & u0 & b1 & Hn & E & Hs). eapply (rtc_preserves bus_step bus_inv (u0, b1));
    [by intros; eapply bus_step_inv| |exact Hs].
  revert E. unfold NewRabbitMQEventBus, declareExchanges, st_bind, st_wrap, ExchangeDeclare, br_request.
  simpl. rewrite bool_decide_true by set_solver. simpl. rewrite bool_decide_true by set_solver.
  intros [= <- <-]. split_and!; simpl; [|set_solver|by intros; split_and!|done].
  intros k. simpl. intros [->%elem_of_singleton|Hk]%elem_of_union; [lia|]. apply Hn in Hk. lia.
Qed.
End Invariant.

(** ** Reconnecting restores the subscriptions *)

(** The routing key of a subscription. *)
Definition subscription_key (u : RabbitMQEventBus) (q : string) : option string :=
  ptr ← bus_consumers u !! q; c ← bus_heap u !! ptr; Some (co_routingKey c).

(** The subscription's current goroutine consumes its queue, with [st] the
    state it is in. *)
Definition going (st : GoState) (u : RabbitMQEventBus) (q : string) : Prop :=
  ∃ ptr c, bus_consumers u !! q = Some ptr ∧ bus_heap u !! ptr = Some c
    ∧ bus_go u !! (co_cancel c) = Some (mkGoroutine q st).

(** A subscription is served: its queue exists and is bound, and its goroutine,
    which nobody has cancelled, consumes it on the bus's open connection. *)
Definition serving (w : BusWorld) (q : string) : Prop :=
  going (GoConsuming (bus_conn w.1)) w.1 q
  ∧ bus_conn w.1 ∈ net_open (br_net w.2)
  ∧ ∃ ptr, bus_consumers w.1 !! q = Some ptr ∧ subscribed w.1 w.2 q ptr.

Definition no_errs : string → option error * option error := λ _, (None, None).

Section Resume.
Context `{TopicExchange}.

(** One entry that meets no error. *)
Lemma resubscribe_one_ok q ptr u b :
  bus_inv (u, b) → bus_consumers u !! q = Some ptr → bus_conn u ∈ net_open (br_net b) →
  ∃ c b', bus_heap u !! ptr = Some c ∧ co_queueName c = q
    ∧ br_net b' = br_net b ∧ br_queues b' = br_queues b
    ∧ resubscribe_one no_errs (q, ptr) (u, b)
      = (mkBus (bus_conn u) (bus_consumers u)
           (<[ptr := mkBusConsumer q (co_routingKey c) (bus_next u)]> (bus_heap u))
           (bus_backoff u) (bus_done u) (bus_cancelled u)
           (<[bus_next u := mkGoroutine q GoStarting]> (bus_go u)) (S (bus_next u)), b').
Proof.
  intros (_ & He & _ & Hs) Hq Ho. destruct (Hs _ _ Hq) as (c & gr & Hc & Hcq & _ & _ & _ & Hqq & _).
  exists c, (mkBroker (br_net b) (br_exchanges b) (br_queues b) ({[(co_routingKey c, q)]} ∪ br_bindings b)).
  split_and!; try done. simpl. rewrite Hc. unfold QueueDeclare, QueueBind, br_request. simpl.
  rewrite bool_decide_true by done. destruct Hqq as [ms Hms]. rewrite Hms.
  rewrite !(bool_decide_true (is_Some _)) by eauto. rewrite (bool_decide_true (exchangeName ∈ _)) by done.
  simpl. rewrite bool_decide_true by done. by rewrite Hcq.
Qed.

(** After an entry without error: its own goroutine is starting, the other
    ones that were still are, and keys, queues and connection are as before. *)
Lemma resubscribe_one_going e w w' :
  bus_inv w → bus_consumers w.1 !! e.1 = Some e.2 → bus_conn w.1 ∈ net_open (br_net w.2) →
  w' = resubscribe_one no_errs e w →
  going GoStarting w'.1 e.1
  ∧ (∀ q, going GoStarting w.1 q → going GoStarting w'.1 q)
  ∧ (∀ q, subscription_key w'.1 q = subscription_key w.1 q)
  ∧ br_queues w'.2 = br_queues w.2 ∧ br_net w'.2 = br_net w.2.
Proof.
  destruct e as [q ptr], w as [u b]. simpl fst. simpl snd. intros Hi Hq Ho ->.
  destruct (resubscribe_one_ok q ptr u b Hi Hq Ho) as (c & b' & Hc & Hcq & Hn & Hqs & ->).
  destruct Hi as (_ & _ & Hf & Hs).
  assert (Hself : going GoStarting
    (mkBus (bus_conn u) (bus_consumers u)
       (<[ptr := mkBusConsumer q (co_routingKey c) (bus_next u)]> (bus_heap u))
       (bus_backoff u) (bus_done u) (bus_cancelled u)
       (<[bus_next u := mkGoroutine q GoStarting]> (bus_go u)) (S (bus_next u))) q).
  { exists ptr, (mkBusConsumer q (co_routingKey c) (bus_next u)). simpl.
    by rewrite !lookup_insert_eq. }
  split_and!; [done| | |done|done].
  - intros q' (ptr' & c' & A1 & A2 & A3). destruct (decide (ptr' = ptr)) as [->|Hne].
    { by rewrite (subscribed_inj _ _ _ _ _ (Hs _ _ A1) (Hs _ _ Hq)). }
    exists ptr', c'. simpl. rewrite !lookup_insert_ne; [done| |done].
    intros Heq. destruct (Hf (bus_next u)) as (_ & F & _); [lia|]. by rewrite <- Heq, F in A3.
  - intros q'. unfold subscription_key. simpl. destruct (bus_consumers u !! q') as [ptr'|]; [|done].
    simpl. rewrite lookup_insert. case_decide as Eq; [|done]. subst. by rewrite Hc.
Qed.

Lemma resubscribe_fold_going es w w' :
  bus_inv w → Forall (λ e, bus_consumers w.1 !! e.1 = Some e.2) es →
  bus_conn w.1 ∈ net_open (br_net w.2) →
  w' = foldl (λ w e, resubscribe_one no_errs e w) w es →
  (∀ q, (q ∈ es.*1 ∨ going GoStarting w.1 q) → going GoStarting w'.1 q)
  ∧ (∀ q, subscription_key w'.1 q = subscription_key w.1 q)
  ∧ br_queues w'.2 = br_queues w.2 ∧ br_net w'.2 = br_net w.2
  ∧ bus_consumers w'.1 = bus_consumers w.1 ∧ bus_conn w'.1 = bus_conn w.1.
Proof.
  revert w w'. induction es as [|e es IH]; intros w w' Hi Hes Ho ->.
  { split_and!; try done. by intros q [?%list_elem_of_In|]. }
  apply Forall_cons_1 in Hes as [He Hes]. simpl.
  destruct (resubscribe_one_going e w _ Hi He Ho eq_refl) as (G1 & G2 & G3 & G4 & G5).
  destruct (resubscribe_one_consumers no_errs e w) as (C1 & C2 & _).
  edestruct (IH (resubscribe_one no_errs e w)) as (I1 & I2 & I3 & I4 & I5 & I6);
    [by apply resubscribe_one_inv|by rewrite C1|by rewrite C2, G5|done|].
  split_and!; [|by intros q; rewrite I2, G3|by rewrite I3, G4|by rewrite I4, G5|by rewrite I5, C1
    |by rewrite I6, C2].
  intros q [[->|Hq]%elem_of_cons|Hq]; apply I1; auto.
Qed.

(** Reconnecting without errors leaves every subscription's goroutine starting
    on the new connection. *)
Lemma reconnect_going pre a post order w :
  bus_inv w → reorders order → Forall quiet_attempt pre → good_attempt true a →
  ∃ c w', EB_reconnect (pre ++ a :: post) order no_errs w = (Some (Connected c), w')
    ∧ bus_inv w' ∧ bus_conn w'.1 = c ∧ c ∈ net_open (br_net w'.2)
    ∧ bus_consumers w'.1 = bus_consumers w.1 ∧ br_queues w'.2 = br_queues w.2
    ∧ (∀ q, is_Some (bus_consumers w.1 !! q) → going GoStarting w'.1 q)
    ∧ (∀ q, subscription_key w'.1 q = subscription_key w.1 q).
Proof.
  intros Hi Hord Hpre Ha. pose proof (reconnect_inv (pre ++ a :: post) order no_errs w Hord Hi) as Hi'.
  destruct w as [u b]. simpl in *.
  destruct (dial_loop_connects true pre a post (bus_backoff u) (br_net b) Hpre Ha)
    as (c & bo & n & ds & Ed & _ & _ & Hc & _).
  rewrite Ed in *.
  assert (Hwf : net_wf n) by (eapply (dial_loop_open true); [apply Hi|exact Ed]).
  set (w1 := (bus_set_conn c bo u,
    mkBroker n ({[exchangeName; dlqExchangeName]} ∪ br_exchanges b) (br_queues b) (br_bindings b))) in *.
  assert (Hi1 : bus_inv w1).
  { apply (bus_inv_ext _ b); [|done]. repeat split; [done|simpl; set_solver|done..]. }
  destruct (resubscribe_fold_going (order (map_to_list (bus_consumers u))) w1
    (resubscribeAll order no_errs w1) Hi1 (resubscribe_entries order u Hord) Hc eq_refl)
    as (G1 & G2 & G3 & G4 & G5 & G6).
  destruct (resubscribeAll order no_errs w1) as [u2 b2]. simpl in *.
  exists c. eexists. split; [done|]. split; [exact Hi'|]. simpl. split_and!; try done; [by rewrite G4|].
  intros q [ptr Hq]. apply G1. left. rewrite (Hord _). apply list_elem_of_fmap.
  exists (q, ptr). by rewrite elem_of_map_to_list.
Qed.

(** Starting a goroutine on an open connection moves it, and it alone. *)
Lemma consume_start_ok g u b q :
  bus_conn u ∈ net_open (br_net b) → is_Some (br_queues b !! q) →
  bus_go u !! g = Some (mkGoroutine q GoStarting) →
  consume_start None g (u, b)
  = (bus_set_go (<[g := mkGoroutine q (GoConsuming (bus_conn u))]> (bus_go u)) u, b).
Proof. intros Ho Hq Hg. simpl. rewrite Hg. by rewrite !bool_decide_true by done. Qed.

Lemma consume_start_frame err g w :
  bus_conn (consume_start err g w).1 = bus_conn w.1
  ∧ bus_consumers (consume_start err g w).1 = bus_consumers w.1
  ∧ bus_heap (consume_start err g w).1 = bus_heap w.1
  ∧ (consume_start err g w).2 = w.2
  ∧ ∀ k, k ≠ g → bus_go (consume_start err g w).1 !! k = bus_go w.1 !! k.
Proof.
  destruct w as [u b]. simpl. destruct (bus_go u !! g) as [[q []]|]; simpl; try done.
  split_and!; try done. intros k Hk. by rewrite lookup_insert_ne.
Qed.

Lemma consume_start_keeps g k w q :
  bus_conn w.1 ∈ net_open (br_net w.2) → is_Some (br_queues w.2 !! q) →
  bus_go w.1 !! k = Some (mkGoroutine q GoStarting)
    ∨ bus_go w.1 !! k = Some (mkGoroutine q (GoConsuming (bus_conn w.1))) →
  (g = k → bus_go (consume_start None g w).1 !! k = Some (mkGoroutine q (GoConsuming (bus_conn w.1))))
  ∧ (bus_go (consume_start None g w).1 !! k = Some (mkGoroutine q GoStarting)
     ∨ bus_go (consume_start None g w).1 !! k = Some (mkGoroutine q (GoConsuming (bus_conn w.1)))).
Proof.
  destruct w as [u b]. intros Ho Hq Hk. destruct (decide (g = k)) as [->|Hne].
  - destruct Hk as [Hk|Hk]; simpl in Hk.
    + rewrite (consume_start_ok k u b q) by done. simpl. rewrite lookup_insert_eq. by auto.
    + simpl. rewrite Hk. simpl. auto.
  - destruct (consume_start_frame None g (u, b)) as (_ & _ & _ & _ & F). by rewrite F.
Qed.

(** Once every goroutine has had its turn, the starting ones consume. *)
Lemma consume_all_started gs w k q :
  bus_conn w.1 ∈ net_open (br_net w.2) → is_Some (br_queues w.2 !! q) →
  bus_go w.1 !! k = Some (mkGoroutine q GoStarting)
    ∨ bus_go w.1 !! k = Some (mkGoroutine q (GoConsuming (bus_conn w.1))) →
  k ∈ gs ∨ bus_go w.1 !! k = Some (mkGoroutine q (GoConsuming (bus_conn w.1))) →
  bus_go (foldl (λ w g, consume_start None g w) w gs).1 !! k
  = Some (mkGoroutine q (GoConsuming (bus_conn w.1))).
Proof.
  revert w. induction gs as [|g gs IH]; intros w Ho Hq Hst Hk; simpl.
  { destruct Hk as [?%list_elem_of_In|]; done. }
  destruct (consume_start_frame None g w) as (F1 & _ & _ & F4 & F5).
  destruct (consume_start_keeps g k w q Ho Hq Hst) as [Hhit Hst'].
  rewrite <- F1 in *. rewrite <- F4 in *. apply IH; [done..|].
  destruct (decide (g = k)) as [->|Hne]; [by right; apply Hhit|].
  destruct Hk as [[->|Hk]%elem_of_cons|Hk]; [done|by left|].
  right. by rewrite F5.
Qed.

Definition start_all (w : BusWorld) : BusWorld :=
  foldl (λ w g, consume_start None g w) w (elements (dom (bus_go w.1))).

Lemma start_all_frame w :
  bus_conn (start_all w).1 = bus_conn w.1 ∧ bus_consumers (start_all w).1 = bus_consumers w.1
  ∧ bus_heap (start_all w).1 = bus_heap w.1 ∧ (start_all w).2 = w.2
  ∧ (bus_inv w → bus_inv (start_all w)).
Proof.
  unfold start_all. generalize (elements (dom (bus_go w.1))). intros gs. revert w.
  induction gs as [|g gs IH]; intros w; [done|]. simpl.
  destruct (consume_start_frame None g w) as (F1 & F2 & F3 & F4 & _).
  destruct (IH (consume_start None g w)) as (I1 & I2 & I3 & I4 & I5).
  split_and!; [congruence..|]. intros Hi. by apply I5, consume_start_inv.
Qed.

Lemma start_all_steps w : rtc bus_step w (start_all w).
Proof.
  unfold start_all. generalize (elements (dom (bus_go w.1))). intros gs. revert w.
  induction gs as [|g gs IH]; intros w; simpl; [done|].
  eapply rtc_l; [apply bs_start|apply IH].
Qed.
End Resume.

(** ** Claims *)

(** C13.  When the connection is lost, in any state the bus can reach, and a
    later dial succeeds (the attempts before it may fail), the bus is
    connected again and keeps all its subscriptions and the messages waiting in
    their queues.  If the broker accepts the declarations, every subscription
    is served once its new goroutine has run: its queue exists and is bound
    under the same key, and the goroutine that its record can cancel consumes it
    on the new, open connection. *)
Theorem reconnect_resumes `{TopicExchange} (w : BusWorld) pre a post order :
  bus_reachable w → reorders order → Forall quiet_attempt pre → good_attempt true a →
  ∃ c w', EB_reconnect (pre ++ a :: post) order no_errs w = (Some (Connected c), w')
    ∧ bus_conn (start_all w').1 = c
    ∧ bus_consumers (start_all w').1 = bus_consumers w.1
    ∧ br_queues (start_all w').2 = br_queues w.2
    ∧ ∀ q, is_Some (bus_consumers w.1 !! q) →
        serving (start_all w') q
        ∧ subscription_key (start_all w').1 q = subscription_key w.1 q.
Proof.
  intros Hr Hord Hpre Ha. apply bus_reachable_inv in Hr.
  destruct (reconnect_going pre a post order w Hr Hord Hpre Ha)
    as (c & w' & E & Hi & Hc & Ho & Hcons & Hqs & Hgo & Hkey).
  destruct (start_all_frame w') as (F1 & F2 & F3 & F4 & F5). specialize (F5 Hi).
  exists c, w'. split; [done|]. split_and!; [congruence..|]. intros q Hq. split.
  - destruct (Hgo q Hq) as (ptr & cn & A1 & A2 & A3).
    assert (Hsub : subscribed (start_all w').1 (start_all w').2 q ptr).
    { destruct (start_all w') as [u2 b2]. apply F5. simpl in F2. by rewrite F2. }
    split_and!; [|by rewrite F1, F4, Hc|exists ptr; by rewrite F2].
    exists ptr, cn. rewrite F1, F2, F3. split_and!; [done..|].
    destruct Hsub as (c' & gr & _ & _ & _ & _ & _ & Hqq & _). rewrite F4 in Hqq.
    apply consume_all_started; [by rewrite Hc|done|by left|left].
    apply elem_of_elements, elem_of_dom. eauto.
  - rewrite <- Hkey. unfold subscription_key. by rewrite F2, F3.
Qed.

Section Fanout.
Context `{TopicExchangeLaws}.

Lemma routed_bound b key q : exchangeName ∈ br_exchanges b → literal_key key = true →
  (key, q) ∈ br_bindings b → routed b key q = true.
Proof.
  intros He Hl Hb. unfold routed. rewrite bool_decide_true by done. simpl.
  apply existsb_exists. exists (key, q). split; [by apply list_elem_of_In, elem_of_elements|]. simpl.
  rewrite topic_match_literal by done. by rewrite !bool_decide_true by done.
Qed.

Lemma routed_unbound b key q :
  (∀ k, (k, q) ∈ br_bindings b → literal_key k = true ∧ k ≠ key) → routed b key q = false.
Proof.
  intros Hno. unfold routed. apply andb_false_intro2.
  destruct (existsb _ _) eqn:E; [|done]. apply existsb_exists in E as ([k q'] & Hin & Hm).
  apply list_elem_of_In, elem_of_elements in Hin. simpl in Hm. apply andb_prop in Hm as [Hq Hm].
  apply bool_decide_eq_true in Hq. subst q'. destruct (Hno _ Hin) as [Hl Hne].
  rewrite topic_match_literal in Hm by done. by apply bool_decide_eq_true in Hm.
Qed.

Lemma Publish_Ok body err event w w' : EB_Publish (Ok body) err event w = (Ok tt, w') →
  w' = (w.1, route (ev_Type event) body w.2).
Proof.
  destruct w as [u b]. unfold EB_Publish, st_bind, st_lift, st_get, st_wrap, st_snd, br_request. simpl.
  destruct err; [done|]. case_bool_decide; [|done]. by intros [= <-].
Qed.

Lemma route_lookup key body b q ms : br_queues b !! q = Some ms →
  br_queues (route key body b) !! q = Some (if routed b key q then ms ++ [body] else ms).
Proof. intros Hq. simpl. by rewrite map_lookup_imap, Hq. Qed.

(** A delivery of an event that decodes runs the processor on it. *)
Lemma consume_deliver_runs {W} (p : ProcessorDeps W) e decode g u b x q c m ms event :
  bus_go u !! g = Some (mkGoroutine q (GoConsuming c)) → c ∈ net_open (br_net b) →
  br_queues b !! q = Some (m :: ms) → decode m = Ok event →
  (consume_deliver p e decode g ((u, b), x)).2.2 = (Process p e event x).2.
Proof.
  intros Hg Ho Hq Hd. unfold consume_deliver. rewrite Hg, Hq, bool_decide_true by done.
  unfold handleMessage. rewrite Hd. unfold st_try, st_ret, st_lift.
  destruct (Process p e event x) as [[[]|err|why] x']; simpl; [done| |done].
  by destruct (bool_decide _).
Qed.

(** A published event goes to the queue of every subscription to its type,
    whichever function the event is for and whichever function subscribed, and
    to no queue without a binding for that type.  A subscription that is served
    then runs the event's own function: an event is processed once per
    subscription to its type, not once. *)
Theorem published_event_fanout (w w' : BusWorld) body err event :
  bus_reachable w → literal_key (ev_Type event) = true →
  EB_Publish (Ok body) err event w = (Ok tt, w') →
  w'.1 = w.1
  ∧ (∀ q, subscription_key w.1 q = Some (ev_Type event) →
      ∃ ms, br_queues w.2 !! q = Some ms ∧ br_queues w'.2 !! q = Some (ms ++ [body]))
  ∧ (∀ q ms, br_queues w.2 !! q = Some ms →
      (∀ k, (k, q) ∈ br_bindings w.2 → literal_key k = true ∧ k ≠ ev_Type event) →
      br_queues w'.2 !! q = Some ms)
  ∧ (∀ q, subscription_key w.1 q = Some (ev_Type event) → serving w q → br_queues w.2 !! q = Some [] →
      ∃ g, ∀ W (p : ProcessorDeps W) e decode x, decode body = Ok event →
        (consume_deliver p e decode g (w', x)).2.2 = (Process p e event x).2).
Proof.
  intros Hr Hl Hp%Publish_Ok. subst w'. apply bus_reachable_inv in Hr. destruct w as [u b].
  destruct Hr as (_ & He & _ & Hs). cbn [fst snd] in *.
  assert (Hsub : ∀ q, subscription_key u q = Some (ev_Type event) →
    ∃ ms, br_queues b !! q = Some ms
      ∧ br_queues (route (ev_Type event) body b) !! q = Some (ms ++ [body])).
  { intros q Hk. unfold subscription_key in Hk.
    destruct (bus_consumers u !! q) as [ptr|] eqn:Eq; [|done].
    destruct (Hs _ _ Eq) as (c & gr & Hc & _ & _ & _ & _ & [ms Hms] & Hb).
    simpl in Hk. rewrite Hc in Hk. injection Hk as Hk. rewrite Hk in Hb.
    exists ms. split; [done|]. rewrite (route_lookup _ _ _ _ ms) by done. by rewrite routed_bound. }
  split_and!; [done|done| |].
  - intros q ms Hq Hno. simpl. rewrite map_lookup_imap, Hq. simpl. by rewrite routed_unbound.
  - intros q Hk ((ptr & c & _ & _ & Hg) & Ho & _) Hq. simpl in Hg, Ho.
    destruct (Hsub q Hk) as (ms & Hms & Hms'). rewrite Hq in Hms. injection Hms as <-.
    exists (co_cancel c). intros W p e decode x Hd. by eapply consume_deliver_runs.
Qed.
End Fanout.

(** ** Witnesses *)

Module BusDemo.

Definition demo_match : TopicExchange := λ k r, bool_decide (k = r).
#[local] Existing Instance demo_match.

Lemma demo_match_laws : TopicExchangeLaws.
Proof. constructor. done. Qed.

(** Two functions subscribe to cron events, then the connection is lost. *)
Definition demo_broker : Broker := mkBroker (mkNet 0 ∅) ∅ ∅ ∅.
Definition demo_new : BusWorld :=
  match NewRabbitMQEventBus None None None None demo_broker with
  | (Ok u, b) => (u, b)
  | (_, b) => (mkBus 0 ∅ ∅ NewBackoff false ∅ ∅ 0, b)
  end.
Definition demo_subscribed : BusWorld :=
  start_all (EB_Subscribe None None EventTypeCron "g"
    (EB_Subscribe None None EventTypeCron "f" demo_new).2).2.
Definition demo_event : Event := mkEvent "e1" EventTypeCron "f" "{}" ∅ 0 0 3.
Definition demo_attempt (err : option error) : Attempt :=
  mkAttempt false err None None (λ _, 0) (λ _, 0) false.

Lemma demo_reachable : bus_reachable demo_subscribed.
Proof.
  exists demo_broker, demo_new.1, demo_new.2. split_and!; [done|vm_compute; reflexivity|].
  rewrite <- surjective_pairing. unfold demo_subscribed.
  eapply rtc_l; [apply (bs_subscribe None None EventTypeCron "f")|].
  eapply rtc_l; [apply (bs_subscribe None None EventTypeCron "g")|]. apply start_all_steps.
Qed.

Lemma demo_dropped_reachable : bus_reachable (conn_drop demo_subscribed).
Proof.
  destruct demo_reachable as (b0 & u0 & b1 & H1 & H2 & H3). exists b0, u0, b1. split_and!; [done|done|].
  eapply rtc_r; [exact H3|apply bs_drop].
Qed.

Definition has_subscription (w : BusWorld) (q : string) : bool :=
  bool_decide (is_Some (bus_consumers w.1 !! q)).

(** The first dial fails; after the second both functions are served again. *)
Lemma reconnect_resumes_witness :
  ∃ c w', EB_reconnect [demo_attempt (Some (NewError "refused")); demo_attempt None] id no_errs
            (conn_drop demo_subscribed) = (Some (Connected c), w')
    ∧ serving (start_all w') "function.fcron" ∧ serving (start_all w') "function.gcron".
Proof.
  assert (Hq : Forall quiet_attempt [demo_attempt (Some (NewError "refused"))])
    by (repeat constructor).
  assert (Ha : good_attempt true (demo_attempt None)) by (repeat constructor).
  destruct (reconnect_resumes (conn_drop demo_subscribed) _ _ [] id demo_dropped_reachable
    (λ l, reflexivity l) Hq Ha) as (c & w' & E & _ & _ & _ & Hs).
  exists c, w'. split; [exact E|].
  split; apply Hs; apply (bool_decide_eq_true_1 _); vm_compute; reflexivity.
Defined.

(** Both queues get the event for [f], and [g]'s goroutine runs [f]. *)
Lemma published_event_fanout_witness :
  let w' := (EB_Publish (Ok "body") None demo_event demo_subscribed).2 in
  (∃ ms, br_queues w'.2 !! "function.gcron" = Some (ms ++ ["body"]))
  ∧ (∃ ms, br_queues w'.2 !! "function.fcron" = Some (ms ++ ["body"])).
Proof.
  intros w'.
  assert (E : EB_Publish (Ok "body") None demo_event demo_subscribed = (Ok tt, w')).
  { unfold w'. assert (Hok : is_Ok (EB_Publish (Ok "body") None demo_event demo_subscribed).1 = true)
      by (vm_compute; reflexivity).
    destruct (EB_Publish _ _ _ _) as [[[]| |] w1]; [reflexivity|discriminate Hok..]. }
  destruct (@published_event_fanout demo_match demo_match_laws demo_subscribed w' "body" None demo_event
    demo_reachable eq_refl E) as (_ & Hsub & _).
  split; [destruct (Hsub "function.gcron") as (ms & _ & Hms)|destruct (Hsub "function.fcron") as (ms & _ & Hms)];
    try (vm_compute; reflexivity); exists ms; exact Hms.
Defined.
End BusDemo.
