(* ===== verification/KubePool.v ===== *)
(** * Pod pool (lambda-service internal/pool/kubernetes_pool.go)

    [KubernetesPodPool] keeps its pods in a slice of pointers to [Container]s,
    which its callers share, so containers live in a heap and the slice holds
    pointers.  The cluster is seen through the set of its pods.  [CreateNew]
    holds no lock between its sections; a history interleaves sections.  The IP
    of a pod is kept in the [Runtime] field of its container, as in the code. *)

From Stdlib Require Import ZArith Lia QArith.
From stdpp Require Import base strings gmap list numbers.
From S2P Require Import Prelude.
From S2P Require Import DockerPool.
Open Scope Z_scope.

(** ** State *)

Record KubePool := mkKube {
  kp_config : PoolConfig;
  kp_containers : list nat;
  kp_heap : gmap nat Container;
  kp_next : nat;
  kp_stats : poolMetrics;
  kp_createdAt : Z;
  kp_pods : gset string
}.

Definition kp_set_containers l p :=
  mkKube (kp_config p) l (kp_heap p) (kp_next p) (kp_stats p) (kp_createdAt p) (kp_pods p).
Definition kp_set_heap h p :=
  mkKube (kp_config p) (kp_containers p) h (kp_next p) (kp_stats p) (kp_createdAt p) (kp_pods p).
Definition kp_set_stats s p :=
  mkKube (kp_config p) (kp_containers p) (kp_heap p) (kp_next p) s (kp_createdAt p) (kp_pods p).
Definition kp_set_pods s p :=
  mkKube (kp_config p) (kp_containers p) (kp_heap p) (kp_next p) (kp_stats p) (kp_createdAt p) s.

Definition ct_set_State (s : ContainerState) (c : Container) : Container :=
  mkContainer (ct_ID c) (ct_Runtime c) (ct_CodeKey c) (ct_CreatedAt c) (ct_LastUsed c) (ct_UseCount c) s
    (ct_MemoryUsed c).
Definition ct_set_LastUsed (t : Z) (c : Container) : Container :=
  mkContainer (ct_ID c) (ct_Runtime c) (ct_CodeKey c) (ct_CreatedAt c) t (ct_UseCount c) (ct_State c)
    (ct_MemoryUsed c).
Definition ct_use (now : Z) (c : Container) : Container :=
  mkContainer (ct_ID c) (ct_Runtime c) (ct_CodeKey c) (ct_CreatedAt c) now (wrap64 (ct_UseCount c + 1))
    StateInUse (ct_MemoryUsed c).

(** [cluster] is the set of pods that exist when the pool is made. *)
Definition NewKubernetesPodPool (cfg_err client_err : option error) (now : Z) (config : PoolConfig)
    (cluster : gset string) : outcome KubePool :=
  match cfg_err, client_err with
  | Some e, _ => Err (Wrap "failed to get in-cluster config (not running in k8s?)" e)
  | None, Some e => Err (Wrap "failed to create k8s client" e)
  | None, None =>
      if bool_decide (pc_MaxSize config < 0) then Panic "makeslice: cap out of range"
      else Ok (mkKube config [] ∅ 0 (mkMetrics 0 0 0 0) now cluster)
  end.

(** ** Acquire and Release *)

Definition moveToEnd (index : nat) (l : list nat) : list nat :=
  if bool_decide (S index = length l) then l
  else match l !! index with
       | Some c => take index l ++ drop (S index) l ++ [c]
       | None => l
       end.

Definition has_state (h : gmap nat Container) (s : ContainerState) (ptr : nat) : bool :=
  match h !! ptr with Some c => bool_decide (ct_State c = s) | None => false end.

(** The first warm container and its index. *)
Fixpoint first_warm (h : gmap nat Container) (i : nat) (l : list nat) : option (nat * nat) :=
  match l with
  | [] => None
  | ptr :: rest => if has_state h StateWarm ptr then Some (i, ptr) else first_warm h (S i) rest
  end.

Definition KP_Acquire (now : Z) : St KubePool (option nat) := λ p,
  match first_warm (kp_heap p) 0 (kp_containers p) with
  | None => (Ok None, p)
  | Some (i, ptr) =>
      let p := kp_set_heap (alter (ct_use now) ptr (kp_heap p)) p in
      let p := kp_set_containers (moveToEnd i (kp_containers p)) p in
      let s := kp_stats p in
      (Ok (Some ptr),
       kp_set_stats (mkMetrics (coldStarts s) (warmStarts s + 1) (totalEvictions s) (totalCreated s)) p)
  end.

(** The first entry with the identifier is overwritten by the last one, which
    is cut off. *)
Fixpoint index_of_id (h : gmap nat Container) (id : string) (i : nat) (l : list nat) : option nat :=
  match l with
  | [] => None
  | ptr :: rest =>
      if bool_decide (ct_ID <$> h !! ptr = Some id) then Some i else index_of_id h id (S i) rest
  end.

Definition swap_remove (i : nat) (l : list nat) : list nat :=
  match l !! (length l - 1)%nat with
  | Some x => take (length l - 1) (<[i := x]> l)
  | None => l
  end.

Definition removePodUnsafe (del_err : option error) (id : string) (p : KubePool) : KubePool :=
  let p := match del_err with Some _ => p | None => kp_set_pods (kp_pods p ∖ {[id]}) p end in
  let p := match index_of_id (kp_heap p) id 0 (kp_containers p) with
           | Some i => kp_set_containers (swap_remove i (kp_containers p)) p
           | None => p
           end in
  let s := kp_stats p in
  kp_set_stats (mkMetrics (coldStarts s) (warmStarts s) (totalEvictions s + 1) (totalCreated s)) p.

(** The first write to the state is made before the lock is taken. *)
Definition KP_Release (now : Z) (del_err : option error) (container : option nat) : St KubePool unit := λ p,
  match container with
  | None => (Err (NewError "cannot release nil container"), p)
  | Some ptr =>
      let p := kp_set_heap (alter (ct_set_State StateCleaning) ptr (kp_heap p)) p in
      match kp_heap p !! ptr with
      | None => (Ok tt, p)
      | Some c =>
          if bool_decide (0 < pc_MaxUseCount (kp_config p))
             && bool_decide (pc_MaxUseCount (kp_config p) ≤ ct_UseCount c)
          then (Ok tt, removePodUnsafe del_err (ct_ID c) p)
          else (Ok tt, kp_set_heap
                  (alter (λ c, ct_set_LastUsed now (ct_set_State StateWarm c)) ptr (kp_heap p)) p)
      end
  end.

(** ** Evict and CreateNew *)

(** The loop of [Evict]: the index and the time of the oldest warm container
    before [now], or index 0. *)
Fixpoint lru_loop (h : gmap nat Container) (i : nat) (l : list nat) (best : nat * Z) : nat * Z :=
  match l with
  | [] => best
  | ptr :: rest =>
      let best := match h !! ptr with
                  | Some c => if bool_decide (ct_State c = StateWarm) && bool_decide (ct_LastUsed c < best.2)
                              then (i, ct_LastUsed c) else best
                  | None => best
                  end in
      lru_loop h (S i) rest best
  end.

Definition KP_Evict (now : Z) (del_err : option error) : St KubePool unit := λ p,
  match kp_containers p with
  | [] => (Err (NewError "pool is empty, nothing to evict"), p)
  | _ =>
      let lruIndex := (lru_loop (kp_heap p) 0 (kp_containers p) (0%nat, now)).1 in
      match ptr ← kp_containers p !! lruIndex; kp_heap p !! ptr with
      | Some c => (Ok tt, removePodUnsafe del_err (ct_ID c) p)
      | None => (Panic "index out of range", p)
      end
  end.

(** What a turn of the wait for a pod receives. *)
Inductive PodTurn :=
  | TurnOther                                (* an event that is not a pod *)
  | TurnPod (phase ip : string)
  | TurnTimeout.

(** [failed] is the error for a phase, [late] the one of the timeout. *)
Fixpoint wait_pod (failed : string → error) (late : error) (name : string) (turns : list PodTurn)
    : option (outcome (string * string)) :=
  match turns with
  | [] => None
  | TurnOther :: rest => wait_pod failed late name rest
  | TurnPod phase ip :: rest =>
      if bool_decide (phase = "Running") && negb (bool_decide (ip = "")) then Some (Ok (name, ip))
      else if bool_decide (phase = "Failed") || bool_decide (phase = "Unknown")
      then Some (Err (failed phase))
      else wait_pod failed late name rest
  | TurnTimeout :: _ => Some (Err late)
  end.

(** What one creation meets: the random part of the name, the errors of the
    requests, the turns of the wait, the clock and the deletion of the evicted
    pod. *)
Record PodEnv := mkPodEnv {
  po_uuid : string;
  po_create_err : option error;
  po_watch_err : option error;
  po_turns : list PodTurn;
  po_now : Z;
  po_del_err : option error
}.

(** The name exists already: the cluster refuses. *)
Definition pod_create (err : option error) (name : string) : St (gset string) unit := λ pods,
  match err with
  | Some e => (Err e, pods)
  | None =>
      if bool_decide (name ∈ pods) then (Err (NewError "pods already exists"), pods)
      else (Ok tt, {[name]} ∪ pods)
  end.

Definition pod_name (p : KubePool) (e : PodEnv) : string :=
  "runner-" +:+ pc_Runtime (kp_config p) +:+ "-" +:+ str_take 8 (po_uuid e).

(** [createPod]: [None] while it waits.  A pod that was created and did not
    start is left in the cluster. *)
Definition createPod (e : PodEnv) (p : KubePool) : option (outcome (string * string)) * KubePool :=
  match pod_create (po_create_err e) (pod_name p e) (kp_pods p) with
  | (Ok _, pods) =>
      let p := kp_set_pods pods p in
      match po_watch_err e with
      | Some err => (Some (Err (Wrap "failed to watch pod" err)), p)
      | None =>
          (wait_pod (λ phase, NewError ("pod failed to start, phase: " +:+ phase))
             (NewError "timeout waiting for pod to start") (pod_name p e) (po_turns e), p)
      end
  | (Err err, _) => (Some (Err (Wrap "failed to create pod" err)), p)
  | (Panic w, _) => (Some (Panic w), p)
  end.

(** The new container is added, in state warm. *)
Definition add_container (now : Z) (id ip : string) (p : KubePool) : nat * KubePool :=
  let ptr := kp_next p in
  let s := kp_stats p in
  (ptr,
   mkKube (kp_config p) (kp_containers p ++ [ptr])
     (<[ptr := mkContainer id ip "" now now 0 StateWarm 0]> (kp_heap p)) (S ptr)
     (mkMetrics (coldStarts s + 1) (warmStarts s) (totalEvictions s) (totalCreated s + 1))
     (kp_createdAt p) (kp_pods p)).

Definition at_capacity (p : KubePool) : bool :=
  bool_decide (pc_MaxSize (kp_config p) ≤ Z.of_nat (length (kp_containers p))).

(** [CreateNew] run alone; [None] while it waits for the pod. *)
Definition KP_CreateNew (e : PodEnv) (p : KubePool) : option (outcome nat) * KubePool :=
  let '(r, p) := if at_capacity p then KP_Evict (po_now e) (po_del_err e) p else (Ok tt, p) in
  match r with
  | Err err => (Some (Err (Wrap "failed to evict container" err)), p)
  | Panic w => (Some (Panic w), p)
  | Ok _ =>
      match createPod e p with
      | (Some (Ok (id, ip)), p) => let '(ptr, p) := add_container (po_now e) id ip p in (Some (Ok ptr), p)
      | (Some (Err err), p) => (Some (Err (Wrap "failed to create pod" err)), p)
      | (Some (Panic w), p) => (Some (Panic w), p)
      | (None, p) => (None, p)
      end
  end.

Definition KP_Size (p : KubePool) : Z := Z.of_nat (length (kp_containers p)).

Definition count_state (s : ContainerState) (p : KubePool) : Z :=
  Z.of_nat (length (filter (λ ptr, has_state (kp_heap p) s ptr = true) (kp_containers p))).

(** The use counts of the listed containers, added up. *)
Definition total_use_count (p : KubePool) : Z :=
  foldr (λ ptr n, match kp_heap p !! ptr with Some c => ct_UseCount c + n | None => n end) 0 (kp_containers p).

(** The statistics; [float64] ratios are exact rationals. *)
Definition KP_Stats (p : KubePool) : PoolStats :=
  let total := coldStarts (kp_stats p) + warmStarts (kp_stats p) in
  let hit := if bool_decide (0 < total) then Qmake (warmStarts (kp_stats p) * 100) (Z.to_pos total)
             else Qmake 0 1 in
  let avg := if bool_decide (0 < KP_Size p) then Qmake (total_use_count p) (Z.to_pos (KP_Size p)) else Qmake 0 1 in
  mkPoolStats (pc_Runtime (kp_config p)) (KP_Size p) (count_state StateWarm p) (count_state StateInUse p)
    hit (coldStarts (kp_stats p)) (warmStarts (kp_stats p)) (totalEvictions (kp_stats p)) avg (kp_createdAt p).

(** The pods are deleted one after another; the slice is dropped in any case. *)
Definition KP_Shutdown (del_err : string → option error) (p : KubePool) : outcome unit * KubePool :=
  let ids := omap (λ ptr, ct_ID <$> kp_heap p !! ptr) (kp_containers p) in
  let failed := filter (λ id, del_err id ≠ None) ids in
  let p := kp_set_pods (kp_pods p ∖ list_to_set (filter (λ id, del_err id = None) ids)) p in
  (match failed with [] => Ok tt | _ => Err (NewError "failed to stop pods") end,
   kp_set_containers [] p).

(** ** Histories *)

(** The sections of the pool's methods, in any order and by any callers; the
    container a step gives back, if it gives one back. *)
Inductive kube_step : option nat → KubePool → KubePool → Prop :=
  | ks_acquire now p : kube_step None p (KP_Acquire now p).2
  | ks_release now de c p : kube_step c p (KP_Release now de c p).2
  | ks_evict now de p : kube_step None p (KP_Evict now de p).2
  | ks_create_pod e p : kube_step None p (createPod e p).2
  | ks_add now id ip p : kube_step None p (add_container now id ip p).2
  | ks_shutdown de p : kube_step None p (KP_Shutdown de p).2.

(** A history in which nobody gives [ptr] back. *)
Inductive kube_keeps (ptr : nat) : KubePool → KubePool → Prop :=
  | kk_refl p : kube_keeps ptr p p
  | kk_step c p p' p'' : kube_step c p p' → c ≠ Some ptr → kube_keeps ptr p' p'' → kube_keeps ptr p p''.

(** ** Lemmas *)

Lemma first_warm_spec h i l j ptr : first_warm h i l = Some (j, ptr) →
  ∃ k, j = (i + k)%nat ∧ l !! k = Some ptr ∧ has_state h StateWarm ptr = true.
Proof.
  revert i. induction l as [|x l IH]; intros i; simpl; [done|].
  destruct (has_state h StateWarm x) eqn:E.
  - intros [= <- <-]. exists 0%nat. split_and!; [lia|done|done].
  - intros H. destruct (IH _ H) as (k & -> & Hk & Hw). exists (S k). split_and!; [lia|done|done].
Qed.

Lemma first_warm_None h i l : first_warm h i l = None ↔ Forall (λ ptr, has_state h StateWarm ptr = false) l.
Proof.
  revert i. induction l as [|x l IH]; intros i; simpl; [by split|]. destruct (has_state h StateWarm x) eqn:E.
  - split; [done|]. intros [Hx _]%Forall_cons_1. congruence.
  - rewrite IH. split; [by constructor|by intros [_ ?]%Forall_cons_1].
Qed.

(** The only warm container is the one found. *)
Lemma first_warm_unique h i l ptr : has_state h StateWarm ptr = true → ptr ∈ l →
  (∀ x, x ∈ l → has_state h StateWarm x = true → x = ptr) →
  ∃ j, first_warm h i l = Some (j, ptr).
Proof.
  intros Hw Hin Hu. destruct (first_warm h i l) as [[j x]|] eqn:E.
  - destruct (first_warm_spec _ _ _ _ _ E) as (k & _ & Hk & Hx).
    apply list_elem_of_lookup_2 in Hk. exists j. by rewrite (Hu x Hk Hx).
  - apply first_warm_None in E. rewrite Forall_forall in E.
    rewrite E in Hw; [done|]. by apply list_elem_of_In.
Qed.

Lemma removePodUnsafe_frame de id p :
  kp_heap (removePodUnsafe de id p) = kp_heap p ∧ kp_next (removePodUnsafe de id p) = kp_next p
  ∧ kp_config (removePodUnsafe de id p) = kp_config p.
Proof. unfold removePodUnsafe. destruct de; by destruct (index_of_id _ _ _ _). Qed.

Lemma index_of_id_bound h id i l j : index_of_id h id i l = Some j → (j < i + length l)%nat.
Proof.
  revert i. induction l as [|x l IH]; intros i; simpl; [done|]. case_bool_decide.
  - intros [= <-]. lia.
  - intros Hj%IH. lia.
Qed.

Lemma index_of_id_found h id i l ptr c : ptr ∈ l → h !! ptr = Some c → ct_ID c = id →
  is_Some (index_of_id h id i l).
Proof.
  intros Hin Hp Hid. revert i. induction l as [|x l IH]; intros i; [by inversion Hin|]. simpl.
  case_bool_decide as Ex; [done|]. apply elem_of_cons in Hin as [->|Hin]; [|by apply IH].
  rewrite Hp in Ex. simpl in Ex. congruence.
Qed.

Lemma swap_remove_length i l : l ≠ [] → length (swap_remove i l) = (length l - 1)%nat.
Proof.
  intros Hl. unfold swap_remove. destruct (l !! (length l - 1)%nat) eqn:E.
  - rewrite length_take, length_insert. lia.
  - apply lookup_ge_None in E. destruct l; [done|]. simpl in *. lia.
Qed.

Lemma removePodUnsafe_length de id p :
  (length (kp_containers (removePodUnsafe de id p)) ≤ length (kp_containers p))%nat
  ∧ (is_Some (index_of_id (kp_heap p) id 0 (kp_containers p)) →
     length (kp_containers (removePodUnsafe de id p)) = (length (kp_containers p) - 1)%nat).
Proof.
  unfold removePodUnsafe.
  assert (Hc : kp_containers (match de with Some _ => p | None => kp_set_pods (kp_pods p ∖ {[id]}) p end)
    = kp_containers p) by by destruct de.
  assert (Hh : kp_heap (match de with Some _ => p | None => kp_set_pods (kp_pods p ∖ {[id]}) p end)
    = kp_heap p) by by destruct de.
  rewrite Hh, Hc. destruct (index_of_id _ _ _ _) as [i|] eqn:E; simpl.
  - apply index_of_id_bound in E. rewrite swap_remove_length.
    + split; [lia|done].
    + intros Hn. rewrite Hn in E. simpl in E. lia.
  - rewrite Hc. split; [done|]. by intros [? ?].
Qed.

Lemma moveToEnd_length i l : length (moveToEnd i l) = length l.
Proof.
  unfold moveToEnd. case_bool_decide; [done|]. destruct (l !! i) eqn:E; [|done].
  apply lookup_lt_Some in E. rewrite !length_app, length_take, length_drop. simpl. lia.
Qed.

Lemma Evict_length now de p p' : KP_Evict now de p = (Ok tt, p') →
  (0 < length (kp_containers p))%nat ∧ length (kp_containers p') = (length (kp_containers p) - 1)%nat
  ∧ kp_config p' = kp_config p.
Proof.
  unfold KP_Evict. destruct (kp_containers p) as [|x l] eqn:El; [done|].
  destruct (ptr ← _; _) as [c|] eqn:E; [|done]. intros [= <-]. simplify_option_eq.
  destruct (removePodUnsafe_length de (ct_ID c) p) as [_ Hlen]. rewrite El in Hlen.
  destruct (removePodUnsafe_frame de (ct_ID c) p) as (_ & _ & Hcfg).
  split_and!; [simpl; lia|apply Hlen|done].
  by eapply index_of_id_found; [eapply list_elem_of_lookup_2|..].
Qed.

Lemma createPod_frame e p :
  kp_heap (createPod e p).2 = kp_heap p ∧ kp_containers (createPod e p).2 = kp_containers p
  ∧ kp_next (createPod e p).2 = kp_next p ∧ kp_config (createPod e p).2 = kp_config p.
Proof.
  unfold createPod. destruct (pod_create _ _ _) as [[| |] ?]; [|done..]. by destruct (po_watch_err e).
Qed.

(** Pointers from [kp_next] on are not in the heap. *)
Definition heap_fresh (p : KubePool) : Prop := ∀ k, (kp_next p ≤ k)%nat → kp_heap p !! k = None.

Lemma kube_step_heap c p p' ptr ct : kube_step c p p' → c ≠ Some ptr → heap_fresh p →
  kp_heap p !! ptr = Some ct → ct_State ct ≠ StateWarm →
  heap_fresh p' ∧ kp_heap p' !! ptr = Some ct.
Proof.
  intros Hs Hc Hf Hp Hw. destruct Hs as [now p|now de c p|now de p|e p|now id ip p|de p].
  - unfold KP_Acquire. destruct (first_warm _ _ _) as [[i x]|] eqn:E; [|done].
    apply first_warm_spec in E as (k & _ & _ & Hx). unfold has_state in Hx.
    assert (x ≠ ptr). { intros ->. rewrite Hp in Hx. by apply bool_decide_eq_true in Hx. }
    split; simpl; [|by rewrite lookup_alter_ne].
    intros k' Hk'. simpl in *. rewrite lookup_alter. case_decide; [subst; by rewrite Hf|by apply Hf].
  - destruct c as [x|]; [|done]. assert (x ≠ ptr) by congruence. simpl.
    assert (Hf' : ∀ f, heap_fresh (kp_set_heap (alter f x (kp_heap p)) p)).
    { intros f k Hk. simpl in *. rewrite lookup_alter. case_decide; [subst; by rewrite Hf|by apply Hf]. }
    rewrite lookup_alter_eq. destruct (kp_heap p !! x) as [cx|] eqn:Ex; simpl.
    + destruct (_ && _); cbn [snd].
      * unfold heap_fresh. destruct (removePodUnsafe_frame de (ct_ID cx)
          (kp_set_heap (alter (ct_set_State StateCleaning) x (kp_heap p)) p)) as (-> & -> & _).
        split; [apply Hf'|by simpl; rewrite lookup_alter_ne].
      * split; [|by simpl; rewrite !lookup_alter_ne]. intros k Hk. simpl in *.
        rewrite !lookup_alter. repeat case_decide; subst; by rewrite ?Hf.
    + split; [apply Hf'|by rewrite lookup_alter_ne].
  - unfold KP_Evict. destruct (kp_containers p); [done|]. destruct (ptr ← _; _) as [c|]; [|done]. cbn [snd].
    unfold heap_fresh. by destruct (removePodUnsafe_frame de (ct_ID c) p) as (-> & -> & _).
  - unfold heap_fresh. by destruct (createPod_frame e p) as (-> & _ & -> & _).
  - assert (ptr ≠ kp_next p). { intros ->. rewrite Hf in Hp; [done|lia]. }
    split; simpl; [|by rewrite lookup_insert_ne].
    intros k Hk. simpl in *. rewrite lookup_insert_ne by lia. apply Hf. lia.
  - done.
Qed.

Lemma kube_keeps_heap ptr p p' ct : kube_keeps ptr p p' → heap_fresh p →
  kp_heap p !! ptr = Some ct → ct_State ct ≠ StateWarm → kp_heap p' !! ptr = Some ct.
Proof.
  intros Hk. induction Hk as [|c p p' p'' Hs Hc _ IH]; [done|]. intros Hf Hp Hw.
  destruct (kube_step_heap _ _ _ _ _ Hs Hc Hf Hp Hw). by apply IH.
Qed.

Lemma kube_step_fresh c p p' : kube_step c p p' → heap_fresh p → heap_fresh p'.
Proof.
  intros Hs Hf. assert (Hal : ∀ f x k, (kp_next p ≤ k)%nat → alter f x (kp_heap p) !! k = None).
  { intros f x k Hk. rewrite lookup_alter. case_decide; [subst|]; by rewrite Hf. }
  destruct Hs as [now p|now de [x|] p|now de p|e p|now id ip p|de p]; try done.
  - unfold KP_Acquire. destruct (first_warm _ _ _) as [[i x]|]; [|done]. intros k Hk. by apply Hal.
  - simpl. destruct (alter _ x (kp_heap p) !! x) as [c|]; [|by intros k Hk; apply Hal].
    destruct (_ && _); cbn [snd].
    + unfold heap_fresh. destruct (removePodUnsafe_frame de (ct_ID c)
        (kp_set_heap (alter (ct_set_State StateCleaning) x (kp_heap p)) p)) as (-> & -> & _).
      intros k Hk. by apply Hal.
    + intros k Hk. simpl in *. rewrite lookup_alter. case_decide; [subst|]; by rewrite Hal.
  - unfold KP_Evict. destruct (kp_containers p); [done|]. destruct (ptr ← _; _) as [c|]; [|done]. cbn [snd].
    unfold heap_fresh. by destruct (removePodUnsafe_frame de (ct_ID c) p) as (-> & -> & _).
  - unfold heap_fresh. by destruct (createPod_frame e p) as (-> & _ & -> & _).
  - intros k Hk. simpl in *. rewrite lookup_insert_ne by lia. apply Hf. lia.
Qed.

(** The pools that a history of sections can reach. *)
Definition kube_reachable (config : PoolConfig) (p : KubePool) : Prop :=
  ∃ now cluster p0, NewKubernetesPodPool None None now config cluster = Ok p0
    ∧ rtc (λ a b, ∃ c, kube_step c a b) p0 p.

Lemma kube_reachable_fresh config p : kube_reachable config p → heap_fresh p.
Proof.
  intros (now & cluster & p0 & Hn & Hs).
  eapply (rtc_preserves _ heap_fresh p0); [|unfold NewKubernetesPodPool in Hn|exact Hs].
  - intros a b Ha [c Hc]. by eapply kube_step_fresh.
  - case_bool_decide; [done|]. by injection Hn as <-.
Qed.

(** Whole calls, one after another. *)
Inductive kube_call : KubePool → KubePool → Prop :=
  | kc_acquire now p : kube_call p (KP_Acquire now p).2
  | kc_release now de c p : kube_call p (KP_Release now de c p).2
  | kc_create e p : kube_call p (KP_CreateNew e p).2
  | kc_evict now de p : kube_call p (KP_Evict now de p).2
  | kc_shutdown de p : kube_call p (KP_Shutdown de p).2.

Definition within_bound (config : PoolConfig) (p : KubePool) : Prop :=
  kp_config p = config ∧ KP_Size p ≤ pc_MaxSize config.

Lemma Release_length now de c p :
  (length (kp_containers (KP_Release now de c p).2) ≤ length (kp_containers p))%nat
  ∧ kp_config (KP_Release now de c p).2 = kp_config p.
Proof.
  destruct c as [x|]; [|done]. unfold KP_Release.
  set (p1 := kp_set_heap (alter (ct_set_State StateCleaning) x (kp_heap p)) p).
  destruct (kp_heap p1 !! x) as [c|]; [|done]. destruct (_ && _); [|done]. cbn [snd].
  destruct (removePodUnsafe_length de (ct_ID c) p1) as [H1 _].
  destruct (removePodUnsafe_frame de (ct_ID c) p1) as (_ & _ & H2). done.
Qed.

Lemma Evict_bound now de p :
  (length (kp_containers (KP_Evict now de p).2) ≤ length (kp_containers p))%nat
  ∧ kp_config (KP_Evict now de p).2 = kp_config p.
Proof.
  assert (Hno : is_Ok (KP_Evict now de p).1 = false → (KP_Evict now de p).2 = p).
  { unfold KP_Evict. destruct (kp_containers p); [done|]. by destruct (ptr ← _; _). }
  destruct (KP_Evict now de p) as [[[]|e|w] p'] eqn:E; [|by rewrite Hno..].
  apply Evict_length in E as (? & ? & ?). split; [simpl; lia|done].
Qed.

Lemma CreateNew_bound config e p : within_bound config p → within_bound config (KP_CreateNew e p).2.
Proof.
  unfold within_bound, KP_Size. intros [Hc Hl]. unfold KP_CreateNew.
  assert (Hadd : ∀ p1, kp_config p1 = config → Z.of_nat (length (kp_containers p1)) < pc_MaxSize config →
    kp_config (match createPod e p1 with
      | (Some (Ok (id, ip)), p) => let '(ptr, p) := add_container (po_now e) id ip p in (Some (Ok ptr), p)
      | (Some (Err err), p) => (Some (Err (Wrap "failed to create pod" err)), p)
      | (Some (Panic w), p) => (Some (Panic w), p)
      | (None, p) => (None, p)
      end).2 = config
    ∧ Z.of_nat (length (kp_containers (match createPod e p1 with
      | (Some (Ok (id, ip)), p) => let '(ptr, p) := add_container (po_now e) id ip p in (Some (Ok ptr), p)
      | (Some (Err err), p) => (Some (Err (Wrap "failed to create pod" err)), p)
      | (Some (Panic w), p) => (Some (Panic w), p)
      | (None, p) => (None, p)
      end).2)) ≤ pc_MaxSize config).
  { intros p1 H1 H2. destruct (createPod_frame e p1) as (_ & F2 & _ & F4).
    destruct (createPod e p1) as [[[[id ip]|err|w]|] p2]; simpl in *; rewrite ?length_app, F2, F4; simpl;
      split; try done; lia. }
  unfold at_capacity. case_bool_decide as Hcap; [|apply Hadd; [done|]; rewrite Hc in Hcap; lia].
  destruct (KP_Evict _ _ p) as [[[]|err|w] p1] eqn:E;
    pose proof (Evict_bound (po_now e) (po_del_err e) p) as [L1 L2]; rewrite E in L1, L2; simpl in L1, L2.
  - apply Evict_length in E as (E1 & E2 & E3). apply Hadd; [congruence|lia].
  - simpl. split; [congruence|lia].
  - simpl. split; [congruence|lia].
Qed.

(** C19.  Exclusive use.  However the calls of other requests interleave, a pod
    that [Acquire] has handed out is not handed out by another [Acquire] before
    it is given back. *)
Theorem acquired_pod_exclusive config p p' p'' ptr now now' :
  kube_reachable config p → KP_Acquire now p = (Ok (Some ptr), p') → kube_keeps ptr p' p'' →
  (KP_Acquire now' p'').1 ≠ Ok (Some ptr).
Proof.
  intros Hr Ha Hk. pose proof (kube_reachable_fresh _ _ Hr) as Hf.
  pose proof (kube_step_fresh _ _ _ (ks_acquire now p) Hf) as Hf'. rewrite Ha in Hf'. simpl in Hf'.
  unfold KP_Acquire in Ha. destruct (first_warm _ _ _) as [[i x]|] eqn:E; [|done].
  injection Ha as -> Hp'. apply first_warm_spec in E as (k & _ & _ & Hx). unfold has_state in Hx.
  destruct (kp_heap p !! ptr) as [c|] eqn:Ec; [|done].
  assert (Hin : kp_heap p'' !! ptr = Some (ct_use now c)).
  { eapply kube_keeps_heap; [exact Hk|done| |done]. subst p'. simpl. by rewrite lookup_alter_eq, Ec. }
  unfold KP_Acquire. destruct (first_warm (kp_heap p'') 0 _) as [[j y]|] eqn:E'; [|done]. simpl.
  intros [= ->]. apply first_warm_spec in E' as (k' & _ & _ & Hy). unfold has_state in Hy.
  by rewrite Hin in Hy.
Qed.

(** The bound.  Calls that do not overlap keep the pool within [MaxSize]:
    [CreateNew] on a full pool first removes a pod. *)
Theorem kube_pool_bounded now config cluster p0 p :
  NewKubernetesPodPool None None now config cluster = Ok p0 → rtc kube_call p0 p →
  KP_Size p ≤ pc_MaxSize config.
Proof.
  intros Hn Hs. apply (rtc_preserves kube_call (within_bound config) p0 p); [| |exact Hs].
  - intros a b [Hc Hl] Hab. unfold within_bound, KP_Size in *.
    destruct Hab as [t q|t de c q|e q|t de q|de q].
    + unfold KP_Acquire. destruct (first_warm _ _ _) as [[i x]|]; [|done]. simpl. by rewrite moveToEnd_length.
    + destruct (Release_length t de c q). split; [congruence|lia].
    + by apply CreateNew_bound.
    + destruct (Evict_bound t de q). split; [congruence|lia].
    + simpl. split; [done|lia].
  - unfold NewKubernetesPodPool in Hn. case_bool_decide; [done|]. injection Hn as <-.
    split; [done|]. unfold KP_Size. simpl. lia.
Qed.

(** ** Witnesses *)

Module KubePoolDemo.
Definition demo_env (uuid : string) : PodEnv :=
  mkPodEnv uuid None None [TurnPod "Pending" ""; TurnPod "Running" "10.0.0.1"] 5 None.
Definition demo_config : PoolConfig := DefaultPoolConfig "python3.9".
Definition demo_pool : KubePool := mkKube demo_config [] ∅ 0 (mkMetrics 0 0 0 0) 0 ∅.
Definition demo_one : KubePool := (KP_CreateNew (demo_env "aaaaaaaabbbb") demo_pool).2.
Definition demo_acquired : KubePool := (KP_Acquire 7 demo_one).2.

Lemma demo_one_reachable : kube_reachable demo_config demo_one.
Proof.
  exists 0, ∅, demo_pool. split; [reflexivity|].
  assert (E : demo_one = (add_container 5 "runner-python3.9-aaaaaaaa" "10.0.0.1"
    (createPod (demo_env "aaaaaaaabbbb") demo_pool).2).2) by (vm_compute; reflexivity).
  rewrite E. eapply rtc_l; [exists None; apply (ks_create_pod (demo_env "aaaaaaaabbbb"))|].
  eapply rtc_l; [exists None; apply ks_add|]. done.
Qed.

Lemma acquired_pod_exclusive_witness :
  (KP_Acquire 9 (add_container 8 "other" "10.0.0.2" demo_acquired).2).1 ≠ Ok (Some 0%nat).
Proof.
  apply (acquired_pod_exclusive demo_config demo_one demo_acquired _ 0%nat 7 9 demo_one_reachable).
  - vm_compute. reflexivity.
  - eapply kk_step; [apply ks_add|discriminate|apply kk_refl].
Defined.

Lemma kube_pool_bounded_witness : KP_Size demo_acquired ≤ 5.
Proof.
  apply (kube_pool_bounded 0 demo_config ∅ demo_pool demo_acquired); [reflexivity|].
  eapply rtc_l; [apply (kc_create (demo_env "aaaaaaaabbbb"))|].
  eapply rtc_l; [apply (kc_acquire 7)|]. apply rtc_refl.
Defined.
End KubePoolDemo.
