(* ===== verification/KubeRuntime.v ===== *)
(** * Kubernetes runtime (lambda-service internal/executor/kubernetes_runtime.go)

    [KubernetesRuntime] sends the code and the input to the HTTP server of a
    pod of its pool, or of a pod made for the function's own image when the
    store holds an image name for it.  The world is the bucket, the pool with
    the cluster, and the requests sent so far; what a request is answered and
    what other callers do to the pool meanwhile belong to the environment. *)

From Stdlib Require Import ZArith Lia Ascii QArith.
From stdpp Require Import base strings gmap list numbers.
From S2P Require Import Prelude.
From S2P Require Import Strings.
From S2P Require Import Domain.
From S2P Require Import Http.
From S2P Require Import CodeStorage.
From S2P Require Import DockerPool.
From S2P Require Import KubePool.
From S2P Require Import BuildService.
Open Scope Z_scope.

(** The runtime: its type, and its storage, which may be nil. *)
Record KubernetesRuntime := mkKubeRuntime { kr_runtimeType : string; kr_s3Storage : option S3Storage }.

Definition NewKubernetesRuntime (cfg_err client_err : option error) (now : Z) (cluster : gset string)
    (runtimeType baseImage : string) (s3 : option S3Storage) : outcome (KubernetesRuntime * KubePool) :=
  if bool_decide (runtimeType = "") || bool_decide (baseImage = "")
  then Err (NewError "runtime type and base image cannot be empty")
  else
    match NewKubernetesPodPool cfg_err client_err now (DefaultPoolConfig runtimeType) cluster with
    | Ok p => Ok (mkKubeRuntime runtimeType s3, p)
    | Err e => Err (Wrap "failed to create kubernetes pod pool" e)
    | Panic w => Panic w
    end.

(** The pool and the requests sent, oldest first, as URL and body. *)
Record KubeWorld := mkKubeWorld { kw_pool : KubePool; kw_sent : list (string * string) }.

(** What the exchange with a pod meets: the errors of making and of sending
    the request, the status and the body of the answer. *)
Record PodHttp := mkPodHttp {
  ph_request_err : option error;
  ph_send_err : option error;
  ph_status : Z;
  ph_body : Body
}.

Record KubeEnv := mkKubeEnv {
  ke_now : Z;
  ke_pod : PodEnv;
  ke_http : PodHttp;
  ke_others : KubePool → KubePool;
  ke_release_now : Z;
  ke_release_err : option error;
  ke_s3 : S3Env;
  ke_native_del_err : option error
}.

Definition dquote : string := String (ascii_of_nat 34) EmptyString.

(** [json.Marshal] of the map with the keys code and input, which it sorts;
    base64 needs no escapes. *)
Definition pod_payload (code input : string) : string :=
  "{" +:+ dquote +:+ "code" +:+ dquote +:+ ":" +:+ dquote +:+ base64_encode code +:+ dquote +:+ ","
  +:+ dquote +:+ "input" +:+ dquote +:+ ":" +:+ dquote +:+ base64_encode input +:+ dquote +:+ "}".

Definition pod_url (ip : string) : string := "http://" +:+ ip +:+ ":8080/".

Section Runtime.
Context {B : Type} `{!ObjectStore B} {HB3 : Blake3}.
(** [json.Unmarshal] into a map: the object's keys, with the values that are
    strings. *)
Context (json_object : string → option (gmap string (option string))).

(** The output of an answer: the field output, or error, or the body itself. *)
Definition pod_output (body : string) : string :=
  match json_object body with
  | None => body
  | Some o =>
      match o !! "output", o !! "error" with
      | Some (Some out), _ => out
      | _, Some (Some msg) => "Error: " +:+ msg
      | _, _ => body
      end
  end.

(** A request that could not be sent is a result, with exit code 1. *)
Definition executeHTTPInPod (h : PodHttp) (ip : string) (fn : Function) (input : string)
    : St KubeWorld ExecutionResult := λ w,
  match ph_request_err h with
  | Some e => (Err (Wrap "failed to create HTTP request" e), w)
  | None =>
      let w := mkKubeWorld (kw_pool w) (kw_sent w ++ [(pod_url ip, pod_payload (fn_Code fn) input)]) in
      let memory := wrap64 (fn_Memory fn * 1024 * 1024) in
      match ph_send_err h with
      | Some e => (Ok (mkResult ("HTTP execution error: " +:+ error_Error e) "" memory 0 1 false), w)
      | None =>
          match io_ReadAll (ph_body h) with
          | Ok body =>
              let out := pod_output body in
              (Ok (mkResult out out memory 0 (if bool_decide (ph_status h = 200) then 0 else 1) false), w)
          | Err e => (Err (Wrap "failed to read response body" e), w)
          | Panic why => (Panic why, w)
          end
      end
  end.

(** ** The pool *)

(** The pod, and whether it was warm; [None] while one is being created. *)
Definition kube_acquireContainer (e : KubeEnv) (p : KubePool) : option (outcome (nat * bool)) * KubePool :=
  match KP_Acquire (ke_now e) p with
  | (Ok (Some ptr), p) => (Some (Ok (ptr, true)), p)
  | (Panic why, p) => (Some (Panic why), p)
  | (_, p) =>
      match KP_CreateNew (ke_pod e) p with
      | (Some (Ok ptr), p) => (Some (Ok (ptr, false)), p)
      | (Some (Err err), p) => (Some (Err (Wrap "failed to create new pod" err)), p)
      | (Some (Panic why), p) => (Some (Panic why), p)
      | (None, p) => (None, p)
      end
  end.

Definition kw_set_pool (p : KubePool) (w : KubeWorld) : KubeWorld := mkKubeWorld p (kw_sent w).

(** The deferred release runs after the exchange however it ends; its error is
    only printed. *)
Definition kube_executeWithPool (e : KubeEnv) (fn : Function) (input : string) (w : KubeWorld)
    : option (outcome ExecutionResult) * KubeWorld :=
  match kube_acquireContainer e (kw_pool w) with
  | (None, p) => (None, kw_set_pool p w)
  | (Some (Err err), p) => (Some (Err err), kw_set_pool p w)
  | (Some (Panic why), p) => (Some (Panic why), kw_set_pool p w)
  | (Some (Ok (ptr, warm)), p) =>
      let ip := match kp_heap p !! ptr with Some c => ct_Runtime c | None => "" end in
      let '(r, w) := executeHTTPInPod (ke_http e) ip fn input (kw_set_pool p w) in
      let p := ke_others e (kw_pool w) in
      let p := (KP_Release (ke_release_now e) (ke_release_err e) (Some ptr) p).2 in
      (Some (match r with Ok res => Ok (er_set_WasWarmStart warm res) | other => other end),
       kw_set_pool p w)
  end.

(** ** Functions with an image of their own *)

Definition native_pod_name (e : KubeEnv) (fn : Function) : string :=
  "native-" +:+ str_take 8 (fn_ID fn) +:+ "-" +:+ str_take 8 (po_uuid (ke_pod e)).

Definition kp_delete_pod (err : option error) (name : string) (p : KubePool) : KubePool :=
  match err with Some _ => p | None => kp_set_pods (kp_pods p ∖ {[name]}) p end.

(** A pod for one execution, deleted when it is over. *)
Definition executeCustomImage (e : KubeEnv) (fn : Function) (input : string) (w : KubeWorld)
    : option (outcome ExecutionResult) * KubeWorld :=
  if bool_decide (String.length (fn_ID fn) < 8)%nat then (Some (Panic "slice bounds out of range"), w)
  else
    let name := native_pod_name e fn in
    match pod_create (po_create_err (ke_pod e)) name (kp_pods (kw_pool w)) with
    | (Err err, _) => (Some (Err (Wrap "failed to create custom native pod" err)), w)
    | (Panic why, _) => (Some (Panic why), w)
    | (Ok _, pods) =>
        let w := kw_set_pool (kp_set_pods pods (kw_pool w)) w in
        let cleanup w := kw_set_pool (kp_delete_pod (ke_native_del_err e) name (kw_pool w)) w in
        match po_watch_err (ke_pod e) with
        | Some err => (Some (Err (Wrap "failed to watch native pod" err)), cleanup w)
        | None =>
            match wait_pod (λ _, NewError "native pod failed to start")
                    (NewError "timeout waiting for native pod to start") name (po_turns (ke_pod e)) with
            | None => (None, w)
            | Some (Ok (_, ip)) =>
                let '(r, w) := executeHTTPInPod (ke_http e) ip fn input w in
                (Some (match r with Ok res => Ok (er_set_WasWarmStart false res) | other => other end),
                 cleanup w)
            | Some (Err err) => (Some (Err err), cleanup w)
            | Some (Panic why) => (Some (Panic why), cleanup w)
            end
        end
    end.

Definition KubernetesRuntime_Execute (rt : KubernetesRuntime) (e : KubeEnv) (fn : Function) (input : string)
    (b : B) (w : KubeWorld) : option (outcome ExecutionResult) * KubeWorld :=
  match Function_Validate fn with
  | Some err => (Some (Err (Wrap "invalid function" err)), w)
  | None =>
      match kr_s3Storage rt with
      | None => kube_executeWithPool e fn input w
      | Some s3 =>
          match S3_RetrieveRaw s3 (ke_s3 e) (fn_ID fn +:+ "_imageuri") b with
          | (Ok uri, _) =>
              if bool_decide (uri = "") then kube_executeWithPool e fn input w
              else executeCustomImage e fn input w
          | (Err _, _) => kube_executeWithPool e fn input w
          | (Panic why, _) => (Some (Panic why), w)
          end
      end
  end.

Definition KubernetesRuntime_Cleanup (del_err : string → option error) (w : KubeWorld)
    : outcome unit * KubeWorld :=
  let '(r, p) := KP_Shutdown del_err (kw_pool w) in (r, kw_set_pool p w).

Definition KubernetesRuntime_GetPoolStats (w : KubeWorld) : PoolStats := KP_Stats (kw_pool w).
End Runtime.

(** ** Lemmas *)

Lemma swap_remove_subset i l x : x ∈ swap_remove i l → x ∈ l.
Proof.
  unfold swap_remove. destruct (l !! (length l - 1)%nat) as [y|] eqn:E; [|done].
  intros Hx. apply list_elem_of_lookup in Hx as [j Hj]. apply lookup_take_Some in Hj as [Hj _].
  apply list_lookup_insert_Some in Hj as [(_ & -> & _)|[_ Hj]]; by eapply list_elem_of_lookup_2.
Qed.

Lemma removePodUnsafe_subset de id p x :
  x ∈ kp_containers (removePodUnsafe de id p) → x ∈ kp_containers p.
Proof.
  unfold removePodUnsafe. destruct de; destruct (index_of_id _ _ _ _); simpl; try done; apply swap_remove_subset.
Qed.

Lemma Evict_subset now de p x : x ∈ kp_containers (KP_Evict now de p).2 → x ∈ kp_containers p.
Proof.
  unfold KP_Evict. destruct (kp_containers p) as [|y l] eqn:E; [simpl; by rewrite E|].
  destruct (ptr ← _; _) as [c|]; cbn [snd]; [|by rewrite E].
  intros Hx%removePodUnsafe_subset. by rewrite <- E.
Qed.

Lemma Evict_heap now de p : kp_heap (KP_Evict now de p).2 = kp_heap p ∧ kp_next (KP_Evict now de p).2 = kp_next p.
Proof.
  unfold KP_Evict. destruct (kp_containers p); [done|]. destruct (ptr ← _; _) as [c|]; [|done].
  by destruct (removePodUnsafe_frame de (ct_ID c) p) as (? & ? & ?).
Qed.

(** A pod made by [CreateNew] is listed and warm; the others were listed. *)
Lemma CreateNew_Ok e p ptr p' : KP_CreateNew e p = (Some (Ok ptr), p') →
  ptr ∈ kp_containers p' ∧ has_state (kp_heap p') StateWarm ptr = true
  ∧ (∀ x, x ∈ kp_containers p' → x = ptr ∨ (x ∈ kp_containers p ∧ kp_heap p' !! x = kp_heap p !! x)).
Proof.
  unfold KP_CreateNew.
  assert (He : ∀ x, x ∈ kp_containers (KP_Evict (po_now e) (po_del_err e) p).2 → x ∈ kp_containers p)
    by apply Evict_subset.
  destruct (Evict_heap (po_now e) (po_del_err e) p) as [Hh _].
  assert (∃ r p1, (if at_capacity p then KP_Evict (po_now e) (po_del_err e) p else (Ok tt, p)) = (r, p1)
    ∧ (∀ x, x ∈ kp_containers p1 → x ∈ kp_containers p) ∧ kp_heap p1 = kp_heap p) as (r & p1 & -> & H1 & H2).
  { destruct (at_capacity p); [|by exists (Ok tt), p]. destruct (KP_Evict _ _ p) as [r p1]. by exists r, p1. }
  destruct r as [[]| |]; [|done..]. destruct (createPod_frame e p1) as (F1 & F2 & _ & _).
  destruct (createPod e p1) as [[[[id ip]| |]|] p2]; try done. simpl in F1, F2. unfold add_container.
  intros [= <- <-]. simpl. split_and!; [set_solver|unfold has_state; by rewrite lookup_insert_eq|].
  intros x. rewrite elem_of_app, list_elem_of_singleton, F2. intros [Hx|Hx]; [|by left].
  destruct (decide (x = kp_next p2)) as [->|Hne]; [by left|]. right. rewrite lookup_insert_ne, F1 by done.
  split; [by apply H1|congruence].
Qed.

Lemma lru_loop_no_warm h i l best :
  Forall (λ ptr, has_state h StateWarm ptr = false) l → lru_loop h i l best = best.
Proof.
  intros Hl. revert i best. induction Hl as [|x l Hx _ IH]; intros i best; [done|]. simpl.
  unfold has_state in Hx. destruct (h !! x) as [c|]; [|apply IH]. rewrite Hx. apply IH.
Qed.

(** With no warm pod, [Evict] deletes the pod listed first. *)
Lemma Evict_first now de p p' :
  Forall (λ ptr, has_state (kp_heap p) StateWarm ptr = false) (kp_containers p) →
  KP_Evict now de p = (Ok tt, p') →
  ∃ x l c, kp_containers p = x :: l ∧ kp_heap p !! x = Some c ∧ ct_State c ≠ StateWarm
    ∧ (de = None → kp_pods p' = kp_pods p ∖ {[ct_ID c]}).
Proof.
  intros Hw. unfold KP_Evict. destruct (kp_containers p) as [|x l] eqn:El; [done|].
  rewrite lru_loop_no_warm by done. simpl. destruct (kp_heap p !! x) as [c|] eqn:Ex; [|done].
  intros [= <-]. exists x, l, c. split_and!; [done|done| |].
  - apply Forall_cons_1 in Hw as [Hx _]. unfold has_state in Hx. rewrite Ex in Hx.
    by apply bool_decide_eq_false in Hx.
  - intros ->. unfold removePodUnsafe. by destruct (index_of_id _ _ _ _).
Qed.

(** Cold starts.  A request that finds no warm pod creates one.  The new
    pod is listed as warm while the request uses it, so the next request is
    given the same pod.  If the pool was full, a pod that was not warm, so one
    that another request is using or giving back, was deleted from the cluster
    to make room. *)
Theorem cold_pod_shared e e' p p1 ptr :
  kube_acquireContainer e p = (Some (Ok (ptr, false)), p1) →
  (kube_acquireContainer e' p1).1 = Some (Ok (ptr, true))
  ∧ (at_capacity p = true → ∃ x l c, kp_containers p = x :: l ∧ kp_heap p !! x = Some c
       ∧ ct_State c ≠ StateWarm
       ∧ (po_del_err (ke_pod e) = None → pod_name p (ke_pod e) ≠ ct_ID c → ct_ID c ∉ kp_pods p1)).
Proof.
  unfold kube_acquireContainer at 1. unfold KP_Acquire.
  destruct (first_warm (kp_heap p) 0 (kp_containers p)) as [[i x]|] eqn:Ew; [done|].
  apply first_warm_None in Ew. intros Hc.
  assert (E : KP_CreateNew (ke_pod e) p = (Some (Ok ptr), p1)).
  { destruct (KP_CreateNew (ke_pod e) p) as [[[| |]|] ?]; by simplify_eq. }
  clear Hc. split.
  - destruct (CreateNew_Ok _ _ _ _ E) as (Hin & Hw & Hold).
    destruct (first_warm_unique (kp_heap p1) 0 (kp_containers p1) ptr Hw Hin) as [j Hj].
    { intros x Hx Hxw. destruct (Hold x Hx) as [->|[Hx' Hh]]; [done|].
      rewrite Forall_forall in Ew. apply list_elem_of_In in Hx'. specialize (Ew x Hx').
      unfold has_state in *. rewrite Hh in Hxw. congruence. }
    unfold kube_acquireContainer, KP_Acquire. by rewrite Hj.
  - intros Hcap. revert E. unfold KP_CreateNew. rewrite Hcap.
    destruct (KP_Evict _ _ p) as [[[]| |] p2] eqn:Ee; [|done..].
    destruct (Evict_first _ _ _ _ Ew Ee) as (x & l & c & H1 & H2 & H3 & H4).
    intros E. exists x, l, c. split_and!; [done..|]. intros Hd Hne. specialize (H4 Hd).
    destruct (Evict_length _ _ _ _ Ee) as (_ & _ & Hcfg).
    revert E. unfold createPod, pod_create. rewrite H4.
    assert (Hn : pod_name p2 (ke_pod e) = pod_name p (ke_pod e)) by (unfold pod_name; by rewrite Hcfg).
    destruct (po_create_err (ke_pod e)); [done|]. case_bool_decide; [done|].
    destruct (po_watch_err (ke_pod e)); [done|].
    destruct (wait_pod _ _ _ _) as [[[id ip]| |]|]; try done. intros [= _ <-]. simpl. rewrite Hn. set_solver.
Qed.

(** An acquired pod has a container. *)
Lemma kube_acquire_heap e p ptr warm p' : kube_acquireContainer e p = (Some (Ok (ptr, warm)), p') →
  is_Some (kp_heap p' !! ptr).
Proof.
  unfold kube_acquireContainer, KP_Acquire. destruct (first_warm _ _ _) as [[i x]|] eqn:E.
  - intros [= <- _ <-]. simpl. apply first_warm_spec in E as (_ & _ & _ & Hw). unfold has_state in Hw.
    rewrite lookup_alter_eq. by destruct (kp_heap p !! x).
  - destruct (KP_CreateNew (ke_pod e) p) as [[[x| |]|] p1] eqn:Ec; try done. intros [= <- _ <-].
    apply CreateNew_Ok in Ec as (_ & Hw & _). unfold has_state in Hw. by destruct (kp_heap p1 !! x).
Qed.

Section Claims.
Context {B : Type} `{!ObjectStore B} {HB3 : Blake3}.
Context (json_object : string → option (gmap string (option string))).

Lemma b64_no_dquote s : ContainsChar (base64_encode s) (ascii_of_nat 34) = false.
Proof.
  apply base64_safe. unfold b64_safe. vm_compute. intuition lia.
Qed.

(** The part of a string before a character that the first parts lack. *)
Lemma split_at_char c (a a' r r' : string) : ContainsChar a c = false → ContainsChar a' c = false →
  a +:+ String c r = a' +:+ String c r' → a = a' ∧ r = r'.
Proof.
  intros Ha Ha' E. assert (Hs : Split (a +:+ String c r) c = Split (a' +:+ String c r') c) by by rewrite E.
  rewrite !Split_app in Hs by done. injection Hs as -> _.
  split; [done|]. apply str_app_inj_l in E. by injection E.
Qed.

(** The body of a request determines the code and the input. *)
Lemma pod_payload_inj code input code' input' :
  pod_payload code input = pod_payload code' input' → code = code' ∧ input = input'.
Proof.
  unfold pod_payload, dquote. intros E. repeat apply str_app_inj_l in E. rewrite !str_app_cons in E. simpl in E.
  apply (split_at_char (ascii_of_nat 34)) in E as [E1 E]; [|apply b64_no_dquote..].
  simpl in E. injection E as E.
  apply (split_at_char (ascii_of_nat 34)) in E as [E2 _]; [|apply b64_no_dquote..].
  split; by apply base64_inj.
Qed.

(** What a pod is sent.  An execution in the pool that returns a result
    has sent one request, to the address of the pod it acquired, and its body
    determines the function's code and the input.  The exit code is 0 exactly
    if the pod answered with status 200: a request that could not be sent is a
    result too.  The pod is given back also when the execution fails. *)
Theorem kube_execution_request e fn input w res w' :
  kube_executeWithPool json_object e fn input w = (Some (Ok res), w') →
  ∃ ptr warm p c,
    kube_acquireContainer e (kw_pool w) = (Some (Ok (ptr, warm)), p)
    ∧ kp_heap p !! ptr = Some c
    ∧ kw_sent w' = kw_sent w ++ [(pod_url (ct_Runtime c), pod_payload (fn_Code fn) input)]
    ∧ (∀ code' input', pod_payload (fn_Code fn) input = pod_payload code' input' →
       code' = fn_Code fn ∧ input' = input)
    ∧ (er_ExitCode res = 0 ↔ ph_send_err (ke_http e) = None ∧ ph_status (ke_http e) = 200)
    ∧ er_WasWarmStart res = warm
    ∧ kw_pool w' = (KP_Release (ke_release_now e) (ke_release_err e) (Some ptr) (ke_others e p)).2.
Proof.
  unfold kube_executeWithPool. destruct (kube_acquireContainer e (kw_pool w)) as [[[[ptr warm]| |]|] p] eqn:Ea; try done.
  destruct (kube_acquire_heap _ _ _ _ _ Ea) as [c Hc]. rewrite Hc. unfold executeHTTPInPod. simpl.
  destruct (ph_request_err (ke_http e)); [done|].
  destruct (ph_send_err (ke_http e)) as [err|] eqn:Es; [|destruct (io_ReadAll _) as [body| |] eqn:Eb; [|done..]];
    intros [= <- <-]; exists ptr, warm, p, c; simpl; (split_and!; [done|done|done| | |done|done]);
    try (by intros code' input' [? ?]%pod_payload_inj).
  - split; [done|]. by intros [? _].
  - case_bool_decide as Hst; split; try done. by intros [_ ?].
Qed.

(** The cluster without the pod of a custom image is as it was. *)
Lemma kp_pods_http h ip fn input w : kw_pool (executeHTTPInPod json_object h ip fn input w).2 = kw_pool w.
Proof.
  unfold executeHTTPInPod. destruct (ph_request_err h); [done|]. destruct (ph_send_err h); [done|].
  by destruct (io_ReadAll _).
Qed.

(** Pods for custom images are not left behind: when an execution of a
    function with its own image is over, with a result or an error, and the
    deletion was accepted, the pods of the cluster are those from before. *)
Theorem custom_image_pod_deleted e fn input w r w' :
  ke_native_del_err e = None →
  executeCustomImage json_object e fn input w = (Some r, w') → kp_pods (kw_pool w') = kp_pods (kw_pool w).
Proof.
  intros Hd. unfold executeCustomImage. case_bool_decide; [by intros [= _ <-]|].
  unfold pod_create. destruct (po_create_err _); [by intros [= _ <-]|].
  case_bool_decide as Hin; [by intros [= _ <-]|]. rewrite Hd. simpl.
  assert (Hset : ({[native_pod_name e fn]} ∪ kp_pods (kw_pool w)) ∖ {[native_pod_name e fn]} = kp_pods (kw_pool w))
    by (clear -Hin; set_solver).
  destruct (po_watch_err _); [intros [= _ <-]; exact Hset|].
  destruct (wait_pod _ _ _ _) as [[[id ip]| |]|]; [|intros [= _ <-]; exact Hset..|done].
  pose proof (kp_pods_http (ke_http e) ip fn input (kw_set_pool (kp_set_pods
    ({[native_pod_name e fn]} ∪ kp_pods (kw_pool w)) (kw_pool w)) w)) as Hp.
  destruct (executeHTTPInPod _ _ _ _ _ _) as [r0 w0]. simpl in Hp. intros [= _ <-]. simpl. rewrite Hp. exact Hset.
Qed.

(** The key the worker writes is not the one the runtime reads. *)
Lemma imageuri_key_differs a b : package_key a ≠ b +:+ "_imageuri".
Proof.
  unfold package_key. change "/package.zip" with ("/pa" +:+ "ckage.zip"). rewrite !str_app_assoc.
  intros E. assert (El : String.length ((("packages/" +:+ a) +:+ "/pa") +:+ "ckage.zip")
    = String.length (b +:+ "_imageuri")) by by rewrite E.
  rewrite !(str_length_app _ "ckage.zip"), (str_length_app b) in El. simpl in El.
  apply str_app_inj in E as [_ E]; [done|]. simpl. lia.
Qed.

(** Images of repository builds.  The worker stores the image name of a
    build under a key that the runtime does not read, so unless the name is
    there by other means, the function is run in the pool as if it had no
    image. *)
Theorem custom_image_never_run `{!ObjectStoreLaws B} rt e fn input b b' err image r w :
  os_Get b (fn_ID fn +:+ "_imageuri") = None → Function_Validate fn = None →
  UploadPackage err (fn_ID fn +:+ "_imageuri") image b = (r, b') →
  KubernetesRuntime_Execute json_object rt e fn input b' w = kube_executeWithPool json_object e fn input w.
Proof.
  intros Hno Hv Hu. unfold KubernetesRuntime_Execute. rewrite Hv. destruct (kr_s3Storage rt) as [s3|]; [|done].
  assert (Hg : os_Get b' (fn_ID fn +:+ "_imageuri") = None).
  { unfold UploadPackage, st_bind, st_wrap, put_object, st_ret in Hu. destruct err; simplify_eq/=; [done|].
    rewrite os_get_put_ne; [done|apply imageuri_key_differs]. }
  unfold S3_RetrieveRaw. case_bool_decide; [done|]. unfold st_bind, S3_get.
  rewrite Hg. by destruct (s3_get_err (ke_s3 e)).
Qed.
End Claims.

(** ** Witnesses *)

Module KubeDemo.
Import KubePoolDemo.
#[local] Existing Instance tagged_digest.

Definition demo_json : string → option (gmap string (option string)) := λ _, None.
Definition demo_http : PodHttp := mkPodHttp None None 200 (mkBody "1" None).
Definition demo_kube (uuid : string) : KubeEnv :=
  mkKubeEnv 7 (demo_env uuid) demo_http id 9 None s3_ok None.
Definition kube_fn : Function :=
  mkFunction "0123456789" "hello" "python3.9" "handler" "print(1)" Second 128 ∅ 0 0.

(** Two requests one after the other share the pod the first one created. *)
Lemma cold_pod_shared_witness :
  (kube_acquireContainer (demo_kube "bbbbbbbb")
     (kube_acquireContainer (demo_kube "aaaaaaaa") demo_pool).2).1 = Some (Ok (0%nat, true)).
Proof.
  apply (cold_pod_shared (demo_kube "aaaaaaaa") (demo_kube "bbbbbbbb") demo_pool).
  vm_compute. reflexivity.
Defined.

Lemma custom_image_never_run_witness :
  KubernetesRuntime_Execute demo_json (mkKubeRuntime "python3.9" (Some demo_s3)) (demo_kube "aaaaaaaa") kube_fn "{}"
    (UploadPackage None (fn_ID kube_fn +:+ "_imageuri") "registry/f" (∅ : gmap string string)).2
    (mkKubeWorld demo_pool [])
  = kube_executeWithPool demo_json (demo_kube "aaaaaaaa") kube_fn "{}" (mkKubeWorld demo_pool []).
Proof.
  eapply (custom_image_never_run (B := gmap string string) demo_json (mkKubeRuntime "python3.9" (Some demo_s3))
    (demo_kube "aaaaaaaa") kube_fn "{}" ∅ _ None "registry/f"); [reflexivity|reflexivity|].
  apply surjective_pairing.
Defined.

Definition demo_run := kube_executeWithPool demo_json (demo_kube "aaaaaaaa") kube_fn "{}" (mkKubeWorld demo_pool []).

Lemma kube_execution_request_witness :
  ∃ res w' c, demo_run = (Some (Ok res), w') ∧ er_ExitCode res = 0
    ∧ kw_sent w' = [(pod_url (ct_Runtime c), pod_payload "print(1)" "{}")].
Proof.
  assert (Hok : match demo_run.1 with Some (Ok r) => bool_decide (er_ExitCode r = 0) | _ => false end = true)
    by (vm_compute; reflexivity).
  destruct demo_run as [[[res| |]|] w'] eqn:E; try discriminate Hok. simpl in Hok.
  apply bool_decide_eq_true in Hok.
  destruct (kube_execution_request demo_json (demo_kube "aaaaaaaa") kube_fn "{}" (mkKubeWorld demo_pool []) res w' E)
    as (ptr & warm & p & c & Ha & Hc & Hs & _).
  exists res, w', c. split; [reflexivity|]. split; [exact Hok|]. exact Hs.
Defined.

Lemma custom_image_pod_deleted_witness :
  let w' := (executeCustomImage demo_json (demo_kube "aaaaaaaa") kube_fn "{}" (mkKubeWorld demo_pool [])).2 in
  kp_pods (kw_pool w') = ∅.
Proof.
  intros w'.
  apply (custom_image_pod_deleted demo_json (demo_kube "aaaaaaaa") kube_fn "{}" (mkKubeWorld demo_pool [])
    (Ok (mkResult "1" "1" 134217728 0 0 false)) w'); [reflexivity|vm_compute; reflexivity].
Defined.
End KubeDemo.
