(* ===== verification/Config.v ===== *)
(** * Configuration (lambda-service cmd/main.go, gateway cmd/main.go)

    How the services read their settings, and what the settings of the pools
    mean for the first execution of a function.  [os.Getenv] is a function
    that is empty for a variable that is not set.  [strconv.Atoi] and
    [strconv.ParseInt] in base 10 are computed; [time.ParseDuration] is a
    parameter. *)

From Stdlib Require Import ZArith Lia Ascii.
From stdpp Require Import base strings gmap list numbers pretty.
From S2P Require Import Prelude.
From S2P Require Import Domain.
From S2P Require Import RateLimit.
From S2P Require Import DockerPool.
From S2P Require Import Executor.
Open Scope Z_scope.

(** ** Numbers *)

Definition digit_value (a : ascii) : option Z :=
  let n := nat_of_ascii a in
  if bool_decide (48 ≤ n ≤ 57)%nat then Some (Z.of_nat n - 48) else None.

(** The value of a string of digits, added to [acc]. *)
Fixpoint digits_value (acc : Z) (s : string) : option Z :=
  match s with
  | EmptyString => Some acc
  | String a s' => match digit_value a with Some d => digits_value (acc * 10 + d) s' | None => None end
  end.

Definition syntax_error (s : string) : error := NewError ("parsing " +:+ s +:+ ": invalid syntax").
Definition range_error (s : string) : error := NewError ("parsing " +:+ s +:+ ": value out of range").

(** [strconv.ParseInt(s, 10, 64)], which [strconv.Atoi] agrees with: a sign,
    then at least one digit. *)
Definition ParseInt (s : string) : outcome Z :=
  let '(sign, body) := match s with
                       | String a s' => if bool_decide (a = "-"%char) then (-1, s')
                                        else if bool_decide (a = "+"%char) then (1, s') else (1, s)
                       | EmptyString => (1, s)
                       end in
  match body with
  | EmptyString => Err (syntax_error s)
  | _ =>
      match digits_value 0 body with
      | None => Err (syntax_error s)
      | Some v => if bool_decide (is_int64 (sign * v)) then Ok (sign * v) else Err (range_error s)
      end
  end.

(** ** The environment *)

Section Env.
Context (os_Getenv : string → string).

Definition getEnv (key fallback : string) : string :=
  let value := os_Getenv key in
  if bool_decide (value = "") then fallback else value.

Definition getEnvInt (key : string) (fallback : Z) : Z :=
  let v := os_Getenv key in
  if bool_decide (v = "") then fallback
  else match ParseInt v with Ok n => n | _ => fallback end.

Context (time_ParseDuration : string → outcome Z).

Definition getEnvDuration (key : string) (fallback : Z) : Z :=
  let v := os_Getenv key in
  if bool_decide (v = "") then fallback
  else match time_ParseDuration v with Ok d => d | _ => fallback end.

(** ** The lambda service *)

Record Config := mkConfig {
  cf_PostgresHost : string; cf_PostgresPort : string; cf_PostgresUser : string;
  cf_PostgresPass : string; cf_PostgresDB : string; cf_PostgresSSL : string;
  cf_S3Endpoint : string; cf_S3Region : string; cf_S3AccessKey : string;
  cf_S3SecretKey : string; cf_S3Bucket : string;
  cf_RabbitMQURL : string; cf_RedisAddr : string;
  cf_PoolMinSize : Z; cf_PoolMaxSize : Z; cf_PoolIdleTTL : Z
}.

Definition loadConfig : Config := mkConfig
  (getEnv "POSTGRES_HOST" "localhost") (getEnv "POSTGRES_PORT" "5432")
  (getEnv "POSTGRES_USER" "postgres") (getEnv "POSTGRES_PASSWORD" "postgres")
  (getEnv "POSTGRES_DB" "lambda_service_db") (getEnv "POSTGRES_SSLMODE" "disable")
  (getEnv "S3_ENDPOINT" "") (getEnv "S3_REGION" "ap-south-1") (getEnv "S3_ACCESS_KEY" "")
  (getEnv "S3_SECRET_KEY" "") (getEnv "S3_BUCKET" "")
  (getEnv "RABBITMQ_URL" "") (getEnv "REDIS_CACHE_ADDR" "")
  (getEnvInt "POOL_MIN_SIZE" 1) (getEnvInt "POOL_MAX_SIZE" 5)
  (getEnvDuration "POOL_IDLE_TTL" (5 * Minute)).

(** The configuration of the function pools. *)
Definition poolCfg (config : Config) : PoolConfig :=
  mkPoolConfig "" (cf_PoolMinSize config) (cf_PoolMaxSize config) (cf_PoolIdleTTL config) 500
    (30 * Second) false.

(** The connection string of [initDatabase]. *)
Definition database_dsn (config : Config) : string :=
  "host=" +:+ cf_PostgresHost config +:+ " port=" +:+ cf_PostgresPort config
  +:+ " user=" +:+ cf_PostgresUser config +:+ " password=" +:+ cf_PostgresPass config
  +:+ " dbname=" +:+ cf_PostgresDB config +:+ " sslmode=" +:+ cf_PostgresSSL config.

(** ** The gateway *)

(** The limits of the invoke limiter; a value that does not parse is replaced
    by the default. *)
Definition invoke_limits : Z * Z :=
  (match ParseInt (getEnv "RATE_LIMIT_CAPACITY" "100") with Ok n => n | _ => 100 end,
   match ParseInt (getEnv "RATE_LIMIT_REFILL_RATE" "10") with Ok n => n | _ => 10 end).
End Env.

(** ** Lemmas *)

Lemma digit_value_pretty x : (x < 10)%N → digit_value (pretty_N_char x) = Some (Z.of_N x).
Proof.
  rewrite <- (N2Nat.id x). generalize (N.to_nat x). intros n Hn.
  do 10 (destruct n as [|n]; [reflexivity|]). lia.
Qed.

(** Reading the digits of a number, most significant first. *)
Lemma digits_value_go x s : digits_value 0 (pretty_N_go x s) = digits_value (Z.of_N x) s.
Proof.
  revert s. induction x as [x IH] using (well_founded_induction N.lt_wf_0). intros s.
  destruct (decide (x = 0%N)) as [->|Hx]; [by rewrite pretty_N_go_0|].
  rewrite pretty_N_go_step, IH; [simpl|apply N.div_lt; lia|lia].
  rewrite digit_value_pretty by by apply N.mod_lt. f_equal.
  pose proof (N.div_mod x 10 ltac:(done)) as Hdm. apply (f_equal Z.of_N) in Hdm.
  rewrite N2Z.inj_add, N2Z.inj_mul in Hdm. lia.
Qed.

(** The digits start with a digit. *)
Lemma pretty_N_go_head x s : (0 < x)%N → ∃ d s', (d < 10)%N ∧ pretty_N_go x s = String (pretty_N_char d) s'.
Proof.
  revert s. induction x as [x IH] using (well_founded_induction N.lt_wf_0). intros s Hx.
  rewrite pretty_N_go_step by done. destruct (decide (x `div` 10 = 0)%N) as [Hz|Hz].
  - rewrite Hz, pretty_N_go_0. exists (x `mod` 10)%N, s. split; [by apply N.mod_lt|done].
  - apply IH; [by apply N.div_lt|by apply N.neq_0_lt_0].
Qed.

Lemma pretty_N_char_sign d : (d < 10)%N → pretty_N_char d ≠ "-"%char ∧ pretty_N_char d ≠ "+"%char.
Proof.
  intros Hd. unfold pretty_N_char. repeat case_match; split; discriminate.
Qed.

Lemma pretty_N_digits x : ∃ d s', (d < 10)%N ∧ (pretty x : string) = String (pretty_N_char d) s'
  ∧ digits_value 0 (pretty x) = Some (Z.of_N x).
Proof.
  unfold pretty, pretty_N. case_decide as Hx.
  - subst. by exists 0%N, "".
  - destruct (pretty_N_go_head x "") as (d & s' & Hd & E); [lia|]. exists d, s'. split_and!; [done|done|].
    by rewrite digits_value_go.
Qed.

Lemma ParseInt_plain c s v : c ≠ "-"%char → c ≠ "+"%char → digits_value 0 (String c s) = Some v →
  is_int64 v → ParseInt (String c s) = Ok v.
Proof.
  intros H1 H2 Hv Hz. unfold ParseInt. rewrite !bool_decide_eq_false_2 by done.
  rewrite Hv, Z.mul_1_l. by rewrite bool_decide_true.
Qed.

Lemma ParseInt_minus c s v : digits_value 0 (String c s) = Some v → is_int64 (- v) →
  ParseInt (String "-"%char (String c s)) = Ok (- v).
Proof.
  intros Hv Hz. unfold ParseInt. rewrite bool_decide_true by done.
  rewrite Hv. replace (-1 * v) with (- v) by lia. by rewrite bool_decide_true.
Qed.

(** A number that is printed in decimal and fits 64 bits is read back,
    whatever its sign. *)
Theorem ParseInt_pretty z : is_int64 z → ParseInt (pretty z) = Ok z.
Proof.
  intros Hz. destruct z as [|x|x]; [reflexivity| |];
    destruct (pretty_N_digits (Npos x)) as (d & s & Hd & E & Hv); rewrite E in Hv.
  - change (pretty (Z.pos x)) with (pretty (Npos x)). rewrite E.
    by destruct (pretty_N_char_sign d Hd); apply ParseInt_plain.
  - change (pretty (Z.neg x)) with (String "-"%char (pretty (Npos x))). rewrite E.
    by apply (ParseInt_minus _ _ (Zpos x)).
Qed.

(** What is read always fits 64 bits. *)
Lemma ParseInt_range s z : ParseInt s = Ok z → is_int64 z.
Proof.
  unfold ParseInt. destruct (match s with EmptyString => _ | String _ _ => _ end) as [sign [|a body]]; [done|].
  destruct (digits_value 0 (String a body)); [|done]. case_bool_decide; [|done]. by intros [= <-].
Qed.

Lemma getEnvInt_range env key fallback : is_int64 fallback → is_int64 (getEnvInt env key fallback).
Proof.
  intros Hf. unfold getEnvInt. case_bool_decide; [done|].
  destruct (ParseInt _) eqn:E; [by eapply ParseInt_range|done..].
Qed.

(** C21.  The pool settings.  With a healthy daemon, the first execution of a
    function gets its pool exactly if the configured minimum does not exceed
    the maximum.  If it does, as POOL_MIN_SIZE=10 alone makes it, since the
    default maximum is 5, the filling of the pool never ends, however many
    containers the daemon creates, and neither does the request.  A negative
    maximum makes the request panic. *)
Theorem configured_pool_starts env dur now envs fn :
  let cfg := poolCfg (loadConfig env dur) in
  let min := getEnvInt env "POOL_MIN_SIZE" 1 in
  let max := getEnvInt env "POOL_MAX_SIZE" 5 in
  Forall healthy envs →
  (0 ≤ max → min ≤ max → min ≤ Z.of_nat (length envs) →
   ∃ r, getOrCreate None None now envs fn (NewPoolRegistry cfg) = Some (Ok 0%nat, r)
     ∧ ∃ rp, rg_pools r !! 0%nat = Some rp ∧ idle_len (rp_pool rp) = Z.max 0 min)
  ∧ (0 ≤ max → max < min → getOrCreate None None now envs fn (NewPoolRegistry cfg) = None)
  ∧ (max < 0 → ∃ why r, getOrCreate None None now envs fn (NewPoolRegistry cfg) = Some (Panic why, r)).
Proof.
  intros cfg min max Hh. unfold getOrCreate, getOrCreate_locked. simpl. rewrite lookup_empty.
  unfold NewDockerPool, DP_Start.
  change (pc_MaxSize (function_pool_config cfg (fn_Runtime fn))) with max. split_and!.
  - intros H0 Hmm Hlen. rewrite bool_decide_eq_false_2 by lia. simpl.
    set (p := mkPool _ _ _ _ _ _ _ _ _ _).
    destruct (Start_loop_fills envs p) as [Hf Hi]; [done..|simpl in *|].
    { unfold idle_len. simpl. lia. }
    destruct (Start_loop envs p) as [fin p'] eqn:Es. simpl in Hf, Hi. subst fin.
    eexists. split; [reflexivity|]. simpl. eexists. split; [reflexivity|]. simpl. change (idle_len (p_go lifecycle p')) with (idle_len p'). rewrite Hi. unfold idle_len.
    simpl. unfold min. lia.
  - intros H0 Hmm. rewrite bool_decide_eq_false_2 by lia. simpl.
    set (p := mkPool _ _ _ _ _ _ _ _ _ _).
    assert (Hs : (Start_loop envs p).1 = false).
    { apply Start_loop_spins; try done; unfold idle_len; simpl; lia. }
    simpl. destruct (Start_loop envs p) as [fin p']. simpl in Hs. by subst fin.
  - intros Hn. rewrite bool_decide_true by lia. by do 2 eexists.
Qed.

(** ** Witnesses *)

Module ConfigDemo.
Definition demo_daemon_ok : DockerEnv := mkDocker (inr "0123456789abcdef") None (λ _ fs, (inr "k", fs)) 1 (λ _, None).
Definition demo_environ : string → string := λ k, if bool_decide (k = "POOL_MIN_SIZE") then "10" else "".

Lemma ParseInt_pretty_witness : ParseInt (pretty (-42)) = Ok (-42).
Proof. apply (ParseInt_pretty (-42)). i64. lia. Defined.

(** The setting of the minimum alone: no pool, whatever the daemon does. *)
Lemma configured_pool_starts_witness :
  getOrCreate None None 0 (replicate 20 demo_daemon_ok) ExecutorDemo.demo_fn
    (NewPoolRegistry (poolCfg (loadConfig demo_environ (λ _, Ok 0)))) = None.
Proof.
  apply (configured_pool_starts demo_environ (λ _, Ok 0) 0 (replicate 20 demo_daemon_ok) ExecutorDemo.demo_fn);
    [|vm_compute; discriminate|vm_compute; reflexivity].
  apply Forall_replicate. split; [by eexists|]. split; [done|]. intros id fs. by exists "k", fs.
Defined.
End ConfigDemo.
