(* ===== verification/CronRun.v ===== *)
(** * Running the scheduler (internal/events/cron.go on the event bus)

    [CronScheduler.Start] as the lambda service runs it: the stored triggers
    are loaded, the jobs of the cron fire until the context is cancelled, and
    each publishes an event on the bus that [main] made. *)

From Stdlib Require Import ZArith Lia Ascii.
From stdpp Require Import base strings gmap list numbers.
From S2P Require Import Prelude.
From S2P Require Import Domain.
From S2P Require Import Postgres.
From S2P Require Import CodeStorage.
From S2P Require Import DockerPool.
From S2P Require Import Metrics.
From S2P Require Import EventProcessor.
From S2P Require Import Cron.
From S2P Require Import BuildQueue.
From S2P Require Import BuildService.
From S2P Require Import Strings.
From S2P Require Import Executor.
From S2P Require Import Invoke.
From S2P Require Import EventBus.
From S2P Require Import Config.
From S2P Require Import Startup.
Open Scope Z_scope.

(** ** The payload (cron_helpers.go) *)

(** [json.Marshal] of a map writes the keys in order. *)
Definition buildCronPayload `{!JsonText} (timestamp : string) (trigger : CronTrigger) : string :=
  "{" +:+ json_String "timestamp" +:+ ":" +:+ json_String timestamp +:+ ","
  +:+ json_String "trigger_id" +:+ ":" +:+ json_String (tr_ID trigger) +:+ "}".

(** ** The run *)

(** A job the cron runs: its entry, the identifier and the times it reads. *)
Record Fire := mkFire { fi_entry : Z; fi_uuid : outcome string; fi_timestamp : string; fi_now : Z }.

Section Run.
Context {C W : Type} `{!CronLib C} (repo : CronRepository W) `{!EventBus W} `{!JsonText}.
Open Scope golang_scope.

(** An entry that is not there does not fire. *)
Definition fire_job (f : Fire) : St (Sched C * W) unit := λ s,
  match cron_entry (sc_cron s.1) (fi_entry f) with
  | Some (_, t) => st_snd (createJobFunc repo (fi_uuid f) (buildCronPayload (fi_timestamp f) t) (fi_now f) t) s
  | None => (Ok tt, s)
  end.

Fixpoint run_fires (fires : list Fire) : St (Sched C * W) unit :=
  match fires with
  | [] => st_ret tt
  | f :: rest => fire_job f ;;! run_fires rest
  end.

(** [cron.Stop] lets the running jobs end and starts no more. *)
Definition Cron_Stop : St (Sched C * W) unit := st_ret tt.

(** [fires] are the jobs that run between [cron.Start] and the end of the
    context. *)
Definition Cron_Start (uuid : outcome string) (now : Z) (fires : list Fire) : St (Sched C * W) unit :=
  st_wrap "failed to load triggers" (loadTriggers repo uuid now) ;;!
  run_fires fires ;;!
  Cron_Stop.
End Run.

(** The bus of the service as the scheduler uses it: [pub_err] is what the
    broker answers to each event. *)
Definition service_bus {X} `{TopicExchange} `{!Json Event} (pub_err : Event → option error) : EventBus (X * BusWorld) :=
  {| eb_Publish event := st_snd (EB_Publish (Ok (json_Marshal event)) (pub_err event) event) |}.

(** ** Lemmas *)

Section Unbound.
Context `{TopicExchange} `{!Json Event} (pub_err : Event → option error).

(** The bus is as it was, no queue of the broker has changed, and nothing is
    bound to the exchange. *)
Definition quiet (w w' : BusWorld) : Prop :=
  br_bindings w.2 = ∅ →
  w'.1 = w.1 ∧ br_queues w'.2 = br_queues w.2 ∧ br_net w'.2 = br_net w.2 ∧ br_bindings w'.2 = ∅.

#[local] Instance quiet_preorder : PreOrder quiet.
Proof.
  split; [by intros w|]. intros w1 w2 w3 H12 H23 Hb. destruct (H12 Hb) as (H1 & Hq & Hn & Hb2).
  destruct (H23 Hb2) as (H1' & Hq' & Hn' & Hb3). split_and!; congruence.
Qed.

Lemma route_unbound key body b : br_bindings b = ∅ → br_queues (route key body b) = br_queues b.
Proof.
  intros Hb. apply map_eq. intros q. simpl. rewrite map_lookup_imap. unfold routed. rewrite Hb, elements_empty. simpl.
  rewrite andb_false_r. by destruct (br_queues b !! q).
Qed.

Lemma Publish_quiet body err event : st_keeps quiet (EB_Publish body err event).
Proof.
  intros [u b] Hb. unfold EB_Publish, st_bind, st_lift, st_get, st_wrap, st_snd, br_request. simpl.
  destruct body as [body|?|?]; simpl; [|done..]. destruct err; simpl; [done|].
  case_bool_decide; simpl; [|done]. split_and!; [done|by apply route_unbound|done|done].
Qed.

(** The state of the scheduler, the database and the bus. *)
Context {C : Type} `{!CronLib C} `{!JsonText} (tdb : Z) (serr lerr derr uerr : option error).
Abbreviation repo := (PG_cron tdb serr lerr derr uerr).
#[local] Instance the_bus : EventBus (DB * BusWorld) := service_bus pub_err.

Definition world_quiet (w w' : DB * BusWorld) : Prop := quiet w.2 w'.2.
Definition sched_quiet (s s' : Sched C * (DB * BusWorld)) : Prop := world_quiet s.2 s'.2.
#[local] Instance world_quiet_preorder : PreOrder world_quiet := snd_preorder quiet.
#[local] Instance sched_quiet_preorder : PreOrder sched_quiet := snd_preorder world_quiet.

Lemma on_db {A} (m : St DB A) : st_keeps world_quiet (st_fst m).
Proof. apply (st_keeps_fst quiet). Qed.
Lemma on_bus {A} (m : St BusWorld A) : st_keeps quiet m → st_keeps world_quiet (st_snd m).
Proof. apply (st_keeps_snd quiet). Qed.
Lemma on_sched {A} (m : St (Sched C) A) : st_keeps sched_quiet (st_fst m).
Proof. apply (st_keeps_fst world_quiet). Qed.
Lemma on_world {A} (m : St (DB * BusWorld) A) : st_keeps world_quiet m → st_keeps sched_quiet (st_snd m).
Proof. apply (st_keeps_snd world_quiet). Qed.
#[local] Hint Resolve on_db on_bus on_sched on_world Publish_quiet : keeps.

Lemma AddTrigger_quiet uuid now t : st_keeps sched_quiet (AddTrigger repo uuid now t).
Proof.
  unfold AddTrigger. destruct (CronTrigger_Validate t); [keeps|].
  apply st_keeps_bind; [tc_solve|keeps|intros id]. apply st_keeps_bind; [tc_solve|keeps|intros next].
  apply st_keeps_bind; [tc_solve|apply on_world, st_keeps_wrap, on_db|intros _]. cbn zeta.
  destruct (tr_Enabled _); keeps.
Qed.

Lemma load_loop_quiet uuid now l : st_keeps sched_quiet (load_loop repo uuid now l).
Proof.
  induction l as [|t l IH]; cbn [load_loop]; [keeps|]. destruct (tr_Enabled t); [|done].
  apply st_keeps_bind; [tc_solve|apply st_keeps_ignore, AddTrigger_quiet|done].
Qed.

Lemma createJobFunc_quiet uuid payload now t : st_keeps world_quiet (createJobFunc repo uuid payload now t).
Proof.
  unfold createJobFunc. destruct uuid as [id|e|w]; [|keeps..].
  apply st_keeps_try; [tc_solve|apply on_bus, Publish_quiet|]. intros [u|e|w]; [|keeps..].
  destruct (parseSchedule _ _) as [next|e|w]; [apply st_keeps_ignore, on_db|keeps..].
Qed.

Lemma run_fires_quiet fires : st_keeps sched_quiet (run_fires repo fires).
Proof.
  induction fires as [|f fires IH]; cbn [run_fires]; [keeps|]. apply st_keeps_bind; [tc_solve| |done].
  intros s. unfold st_wp, fire_job. destruct (cron_entry (sc_cron s.1) (fi_entry f)) as [[spec t]|]; [|reflexivity].
  apply (on_world _ (createJobFunc_quiet _ _ _ _) s).
Qed.

Lemma Cron_Start_quiet uuid now fires : st_keeps sched_quiet (Cron_Start repo uuid now fires).
Proof.
  unfold Cron_Start, loadTriggers. apply st_keeps_bind; [tc_solve| |intros _].
  - apply st_keeps_wrap, st_keeps_bind; [tc_solve|apply on_world, st_keeps_wrap, on_db|apply load_loop_quiet].
  - apply st_keeps_bind; [tc_solve|apply run_fires_quiet|keeps].
Qed.
End Unbound.

(** ** Theorem *)

(** Scheduled functions never run.  When nothing is bound to the event
    exchange, and no code of the services binds a queue to it, the events of
    the cron jobs vanish: whatever triggers the database holds and whichever
    jobs fire while the lambda service runs, no queue receives a message.  No
    error tells of it, since the broker accepts every event that is published
    on the bus of the service. *)
Theorem cron_events_dropped {RT C} `{TopicExchange} `{!Json Event} `{!CronLib C} `{!JsonText}
    kube docker e env dur b (svc : LambdaService RT) b1
    pub_err tdb serr lerr derr uerr uuid now fires (c : C) d r s' d' u' b' :
  br_bindings b = ∅ →
  lambda_main kube docker e env dur b = (Ok svc, b1) →
  @Cron_Start C (DB * BusWorld) _ (PG_cron tdb serr lerr derr uerr) (service_bus pub_err) _ uuid now fires
    (NewCronScheduler c, (d, (ls_bus svc, b1))) = (r, (s', (d', (u', b')))) →
  br_queues b' = br_queues b
  ∧ ∀ body event, (EB_Publish (Ok body) None event (u', b')).1 = Ok tt.
Proof.
  intros Hb Hm HS. destruct (lambda_main_bus kube docker e env dur b svc b1 Hm) as (Hbind & Hq & Ho).
  assert (sched_quiet (NewCronScheduler c, (d, (ls_bus svc, b1))) (s', (d', (u', b')))) as HQ
    by exact (st_keeps_run _ _ _ _ _ (Cron_Start_quiet pub_err tdb serr lerr derr uerr uuid now fires) HS).
  destruct HQ as (Hu & Hq' & Hn & _); simpl in *; [congruence|]. subst u'. split; [congruence|].
  intros body event. unfold EB_Publish, st_bind, st_lift, st_get, st_wrap, st_snd, br_request. simpl.
  by rewrite bool_decide_eq_true_2 by by rewrite Hn.
Qed.

Module CronRunDemo.
#[local] Instance demo_match : TopicExchange := λ k r, bool_decide (k = r).
#[local] Instance demo_text : JsonText := {| json_Valid := λ _, true; json_String := λ s, s |}.
#[local] Instance demo_json : Json Event :=
  {| json_Marshal := λ ev, ev_ID ev +:+ " " +:+ ev_Payload ev; json_Unmarshal := λ _, Err (NewError "unused") |}.

Definition demo_fires : list Fire :=
  [mkFire (fresh (∅ : gset Z)) (Ok "e1") "12:00" 100; mkFire (fresh (∅ : gset Z)) (Ok "e2") "12:01" 200].
Definition demo_run (w : BusWorld) : outcome unit * (Sched MemCron * (DB * BusWorld)) :=
  @Cron_Start MemCron (DB * BusWorld) _ (PG_cron 0 None None None None) (service_bus (λ _, None)) _ (Ok "u") 50 demo_fires
    (NewCronScheduler ∅, (demo_cron_db, w)).

(** Two runs of a stored trigger: its row is updated, and the queues stay
    empty. *)
Lemma cron_events_dropped_witness :
  ∃ svc b1, StartupDemo.demo_start StartupDemo.demo_env = (Ok svc, b1)
    ∧ (demo_run (ls_bus svc, b1)).1 = Ok tt
    ∧ trr_next_run_at <$> (db_triggers (demo_run (ls_bus svc, b1)).2.2.1 !! "t1") = Some (pg_timestamp (200 + Second))
    ∧ br_queues (demo_run (ls_bus svc, b1)).2.2.2.2 = ∅.
Proof.
  assert (∃ svc b1, StartupDemo.demo_start StartupDemo.demo_env = (Ok svc, b1)
    ∧ (demo_run (ls_bus svc, b1)).1 = Ok tt
    ∧ trr_next_run_at <$> (db_triggers (demo_run (ls_bus svc, b1)).2.2.1 !! "t1") = Some (pg_timestamp (200 + Second)))
    as (svc & b1 & E & H1 & H2).
  { eexists _, _. split; [reflexivity|]. split; vm_compute; reflexivity. }
  exists svc, b1. split; [exact E|]. split; [exact H1|]. split; [exact H2|].
  destruct (demo_run (ls_bus svc, b1)) as [r [s' [d' [u' b']]]] eqn:HS.
  exact (proj1 (cron_events_dropped (λ _ _ k _, Ok ("pod " +:+ k)) (λ _ _ _ k _, Ok ("docker " +:+ k)) StartupDemo.up
    StartupDemo.demo_env (λ _, Ok 0) (mkBroker (mkNet 0 ∅) ∅ ∅ ∅) svc b1 (λ _, None) 0 None None None None (Ok "u") 50
    demo_fires (∅ : MemCron) demo_cron_db r s' d' u' b' eq_refl E HS)).
Defined.
End CronRunDemo.
