(* ===== verification/Lifecycle.v ===== *)
(** * Running and stopping (the services' main functions, queue/rabbitmq.go)

    What happens between start-up and exit: the build worker's main loop
    under a signal, the shutdown of the lambda service, and the goroutine
    that keeps a publisher connected, as it races with [Close]. *)

From Stdlib Require Import ZArith Lia Ascii.
From stdpp Require Import base strings gmap list numbers relations.
From S2P Require Import Prelude.
From S2P Require Import Backoff.
From S2P Require Import Domain.
From S2P Require Import CodeStorage.
From S2P Require Import FilePath.
From S2P Require Import Zip.
From S2P Require Import BuildQueue.
From S2P Require Import BuildService.
Open Scope Z_scope.

(** ** The build worker (cmd/worker/main.go) *)

Section Worker.
Context {B : Type} `{!ObjectStore B} `{!Json BuildJob, !Json FunctionBuiltEvent}.
Context (zp : ZIPProcessor) (d : DockerBuilder).

(** What a job meets once its context is cancelled: the object store's client
    and the commands that run with the context report it. *)
Definition cancel_env (e : WorkerEnv) : WorkerEnv :=
  mkWorkerEnv (wv_log e)
    (mkCloneEnv (cv_mkdir_err (wv_clone e)) (λ argv, ((cv_run (wv_clone e) argv).1, Some context_Canceled)))
    (wv_notify_building e) (wv_notify_end e) (wv_image_err e) (Some context_Canceled) (wv_read_err e) (wv_unzip e)
    (wv_dir_err e) (wv_cleanup_err e) (wv_walk e) (wv_put_err e) (wv_file_err e) (wv_live e) (wv_declare_err e)
    (wv_publish_err e) (wv_built_at e).

(** The goroutine that waits for the signal calls [cancel]: [signal] is the
    number of messages handed out by then, if a signal arrives. *)
Definition signalled (signal : option nat) (k : nat) : bool :=
  match signal with Some n => bool_decide (n ≤ k)%nat | None => false end.

(** The handler, with the number of the message: it passes on the context that
    the goroutine cancels.  [envs k] is what the job meets otherwise. *)
Definition worker_handler (signal : option nat) (envs : nat → WorkerEnv) (body : string) : St (nat * World B) unit := λ x,
  let e := if signalled signal x.1 then cancel_env (envs x.1) else envs x.1 in
  let '(r, w) := processBuildJob zp d e body x.2 in (r, (S x.1, w)).

(** The consumer has a context of its own, which only [Close] cancels; [main]
    has deferred that call to its return, so the loop never finds it done. *)
Definition open_attempt (a : Attempt) : Attempt :=
  mkAttempt false (at_dial_err a) (at_channel_err a) (at_setup_err a) (at_own a) (at_global a) false.
Definition open_round (rd : Round) : Round :=
  mkRound false (rd_drop rd) (rd_decl_err rd) (rd_consume_err rd) (open_attempt (rd_sleep rd)) (rd_msgs rd) false
    (open_attempt <$> rd_attempts rd).

(** The end of [main]. *)
Definition worker_loop (signal : option nat) (envs : nat → WorkerEnv) (rounds : list Round) (c : Consumer) (n : Net)
    (w : World B) : option (outcome unit) * Consumer * Net * (nat * World B) * list (string * Verdict) :=
  Consume (worker_handler signal envs) (open_round <$> rounds) c n (0%nat, w).
End Worker.

(** A turn in which the broker answers: the consumer is registered, messages
    arrive, and when the connection drops the first dial succeeds. *)
Definition serves (rd : Round) : Prop :=
  rd_drop rd = false ∧ rd_decl_err rd = None ∧ rd_consume_err rd = None
  ∧ ∃ a rest, rd_attempts rd = a :: rest ∧ at_dial_err a = None ∧ at_channel_err a = None ∧ at_setup_err a = None.

Definition cancelled (e : WorkerEnv) : Prop :=
  (∃ err, wv_get_err e = Some err) ∧ ∀ argv, ∃ lines err, cv_run (wv_clone e) argv = (lines, Some err).

Lemma cancel_env_cancelled e : cancelled (cancel_env e).
Proof. split; [by eexists|]. intros argv. by eexists _, _. Qed.

(** ** Lemmas: failing computations *)

Definition not_Ok {S A} (m : St S A) : Prop := ∀ s, is_Ok (m s).1 = false.

Lemma not_Ok_bind_l {S A C} (m : St S A) (k : A → St S C) : not_Ok m → not_Ok (st_bind m k).
Proof. intros Hm s. specialize (Hm s). unfold st_bind. by destruct (m s) as [[a|e|w] s']. Qed.
Lemma not_Ok_bind_r {S A C} (m : St S A) (k : A → St S C) : (∀ a, not_Ok (k a)) → not_Ok (st_bind m k).
Proof. intros Hk s. unfold st_bind. destruct (m s) as [[a|e|w] s']; [apply Hk|done..]. Qed.
Lemma not_Ok_fail {S A} e : not_Ok (st_fail (S := S) (A := A) e).
Proof. by intros s. Qed.
Lemma not_Ok_wrap {S A} msg (m : St S A) : not_Ok m → not_Ok (st_wrap msg m).
Proof. intros Hm s. specialize (Hm s). unfold st_wrap. by destruct (m s) as [[a|e|w] s']. Qed.
Lemma not_Ok_try {S A C} (m : St S A) (k : outcome A → St S C) :
  not_Ok m → (∀ e, not_Ok (k (Err e))) → not_Ok (st_try m k).
Proof.
  intros Hm Hk s. specialize (Hm s). unfold st_try. destruct (m s) as [[a|e|w] s']; [done|apply Hk|done].
Qed.
#[export] Hint Resolve not_Ok_fail not_Ok_wrap : go.

Section Cancelled.
Context {B : Type} `{!ObjectStore B} `{!Json BuildJob, !Json FunctionBuiltEvent}.
Context (zp : ZIPProcessor) (d : DockerBuilder) (e : WorkerEnv).

Lemma failBuild_fails {A} job what err : not_Ok (failBuild (A := A) (B := B) e job what err).
Proof.
  unfold failBuild. do 2 (apply not_Ok_bind_r; intros _). apply not_Ok_try.
  - unfold handleBuildFailure. apply not_Ok_bind_r. intros _. apply not_Ok_fail.
  - intros er. apply not_Ok_fail.
Qed.

Lemma or_fail_not_Ok {A} job what (m : St (World B) A) : not_Ok m → not_Ok (or_fail e job what m).
Proof. intros Hm. apply not_Ok_try; [done|]. intros er. apply failBuild_fails. Qed.

Lemma run_cancelled jobID dir argv :
  cancelled e → not_Ok (runCommandStreaming (B := B) (wv_log e) (wv_clone e) jobID dir argv).
Proof.
  intros [_ Hrun]. unfold runCommandStreaming. apply not_Ok_bind_r. intros _.
  destruct (Hrun argv) as (lines & err & ->). apply not_Ok_bind_r. intros _. apply not_Ok_fail.
Qed.

Lemma CloneAndBuild_cancelled j f repo df :
  cancelled e → not_Ok (CloneAndBuild (B := B) (wv_log e) (wv_clone e) d j f repo df).
Proof.
  intros Hc. unfold CloneAndBuild. apply not_Ok_bind_r. intros _.
  intros s. unfold st_try.
  assert (not_Ok (clone_steps (B := B) (wv_log e) (wv_clone e) d j f repo df (Join2 (db_workDir d) j))) as Hs.
  { unfold clone_steps. apply not_Ok_bind_r. intros _. apply not_Ok_bind_l, not_Ok_wrap. by apply run_cancelled. }
  specialize (Hs s). destruct (clone_steps _ _ _ _ _ _ _ _ s) as [[a|er|why] s']; [done| |done].
  clear Hs. revert s'. apply (not_Ok_bind_r (on_fs (fs_call None (fs_remove_all (Join2 (db_workDir d) j))))).
  by intros _ s'.
Qed.

(** Every build fails. *)
Lemma processBuildJob_cancelled body : cancelled e → not_Ok (processBuildJob (B := B) zp d e body).
Proof.
  intros Hc. unfold processBuildJob. apply not_Ok_bind_r. intros job. apply not_Ok_bind_r. intros _.
  case_bool_decide.
  - apply not_Ok_bind_l. unfold docker_build. apply not_Ok_bind_l, or_fail_not_Ok. by apply CloneAndBuild_cancelled.
  - unfold zip_build. apply not_Ok_bind_r. intros _. apply not_Ok_bind_l, or_fail_not_Ok.
    destruct Hc as [[err Hg] _]. intros s. unfold on_bucket, DownloadPackage. by rewrite Hg.
Qed.
End Cancelled.

(** A handler that numbers its messages and refuses those that satisfy [P]. *)
Definition refuses {V} (P : nat → bool) (handler : string → St (nat * V) unit) : Prop :=
  ∀ body k w, (handler body (k, w)).2.1 = S k ∧ (P k = true → is_Ok (handler body (k, w)).1 = false).

Definition nacked (P : nat → bool) (k : nat) (l : list (string * Verdict)) : Prop :=
  ∀ i m v, l !! i = Some (m, v) → P (k + i)%nat = true → v = VNack.

Lemma nacked_app P k l l' : nacked P k l → nacked P (k + length l) l' → nacked P k (l ++ l').
Proof.
  intros H1 H2 i m v. rewrite lookup_app_Some. intros [Hi|[Hi Hl]] HP; [by eapply H1|].
  eapply H2; [exact Hl|]. by replace (k + length l + (i - length l))%nat with (k + i)%nat by lia.
Qed.

Lemma processMessages_numbered {V} P (handler : string → St (nat * V) unit) msgs k w l k' w' :
  refuses P handler → processMessages handler msgs (k, w) = (Ok l, (k', w')) →
  l.*1 = msgs ∧ k' = (k + length msgs)%nat ∧ nacked P k l.
Proof.
  intros Hh. revert k w l k' w'. induction msgs as [|m msgs IH]; intros k w l k' w'; cbn [processMessages].
  { intros [= <- <- <-]. split_and!; [done|simpl; lia|]. by intros i m v. }
  destruct (Hh m k w) as [Hk HP]. destruct (handler m (k, w)) as [[u|er|why] [k1 w1]]; [| |done]; simpl in Hk, HP; subst k1.
  all: destruct (processMessages handler msgs (S k, w1)) as [[l1|er'|why] [k2 w2]] eqn:Hp; [|done..];
    intros [= <- <- <-]; apply IH in Hp as (<- & -> & Hn); split_and!; [done|simpl; lia|];
    intros [|i] m0 v; simpl; [intros [= <- <-]; rewrite Nat.add_0_r|rewrite <- plus_n_Sm; apply (Hn i)]; try done.
  intros Hx. by specialize (HP Hx).
Qed.

Lemma processMessages_not_Err {V} (handler : string → St V unit) msgs w er w' :
  processMessages handler msgs w ≠ (Err er, w').
Proof.
  revert w er w'. induction msgs as [|m msgs IH]; intros w er w'; cbn [processMessages]; [done|].
  destruct (handler m w) as [[u|e|why] w1]; [| |done];
    destruct (processMessages handler msgs w1) as [[l|e1|why] w2] eqn:Hp; try done; by apply IH in Hp.
Qed.

Lemma dial_loop_quiet setup attempts b n r b' n' ds :
  Forall quiet_attempt attempts → dial_loop setup attempts b n = (r, b', n', ds) → r ≠ Some Stopped.
Proof.
  intros Hq. revert b n r b' n' ds. induction Hq as [|a rest [Ha1 Ha2] _ IH]; intros b n r b' n' ds; cbn [dial_loop].
  { by intros [= <- _ _ _]. }
  rewrite Ha1. destruct (try_dial setup a n) as [[c|] n1]; [by intros [= <- _ _ _]|].
  destruct (Backoff_Next _ _ b) as [[d|er|why] b1]; [|by intros [= <- _ _ _]..]. rewrite Ha2.
  destruct (dial_loop setup rest b1 n1) as [[[r1 b2] n2] ds1] eqn:Hl. intros [= <- _ _ _]. by eapply IH.
Qed.

Lemma open_attempts_quiet l : Forall quiet_attempt (open_attempt <$> l).
Proof. apply Forall_fmap, Forall_true. by intros a. Qed.

(** Without [Close] the loop does not return, and it answers every message. *)
Lemma Consume_open {V} P (handler : string → St (nat * V) unit) rounds c n k w r c' n' k' w' l :
  refuses P handler → Consume handler (open_round <$> rounds) c n (k, w) = (r, c', n', (k', w'), l) →
  (r = None ∨ ∃ why, r = Some (Panic why)) ∧ nacked P k l.
Proof.
  intros Hh. revert c n k w r c' n' k' w' l.
  induction rounds as [|rd rest IH]; intros c n k w r c' n' k' w' l; cbn [fmap list_fmap Consume].
  { intros [= <- _ _ _ _ <-]. split; [by left|]. by intros i m v. }
  cbn [rd_ctx rd_drop rd_decl_err rd_consume_err rd_sleep rd_msgs rd_ctx_after rd_attempts open_round open_attempt at_own
    at_global at_sleep_ctx]. set (n1 := if rd_drop rd then _ else _). clearbody n1.
  destruct (startConsuming _ _ _ _).
  2,3: destruct (Backoff_Next_sleep (at_own (rd_sleep rd)) (at_global (rd_sleep rd)) (cn_backoff c))
         as (dl & b' & -> & _); apply IH.
  destruct (processMessages handler (rd_msgs rd) (k, w)) as [[answers|er|why] [k1 w1]] eqn:Hp.
  2:{ by apply processMessages_not_Err in Hp. }
  2:{ intros [= <- _ _ _ _ <-]. split; [right; by eexists|]. by intros i m v. }
  apply (processMessages_numbered P) in Hp as (Hm & -> & Hn); [|done].
  unfold Consumer_reconnect. destruct (dial_loop true _ _ _) as [[[r1 b1] n2] ds] eqn:Hl.
  apply dial_loop_quiet in Hl; [|apply open_attempts_quiet].
  destruct r1 as [[j| |why]|]; [|done| |].
  2:{ intros [= <- _ _ _ _ <-]. split; [right; by eexists|done]. }
  2:{ intros [= <- _ _ _ _ <-]. split; [by left|done]. }
  destruct (Consume handler (open_round <$> rest) _ n2 _) as [[[[res c3] n3] [k3 w3]] more] eqn:Hc.
  intros [= <- _ _ _ _ <-]. apply IH in Hc as [Hr Hmore]. split; [done|]. apply nacked_app; [done|].
  replace (length answers) with (length (rd_msgs rd)) by (rewrite <- Hm; apply length_fmap). done.
Qed.

(** While the broker answers and no job panics, it goes on for ever. *)
Lemma Consume_serves {V} (handler : string → St (nat * V) unit) rounds c n k w :
  (∀ body x why, (handler body x).1 ≠ Panic why) → Forall serves rounds → cn_conn c ∈ net_open n →
  ∃ c' n' x l, Consume handler (open_round <$> rounds) c n (k, w) = (None, c', n', x, l) ∧ l.*1 = rounds ≫= rd_msgs.
Proof.
  intros Hnp Hs. revert c n k w.
  induction Hs as [|rd rest (Hd & H1 & H2 & a & more & Ha & E1 & E2 & E3) _ IH]; intros c n k w Hc; cbn [fmap list_fmap Consume].
  { by eexists _, _, _, _. }
  cbn [rd_ctx rd_drop rd_decl_err rd_consume_err rd_sleep rd_msgs rd_ctx_after rd_attempts open_round]. rewrite Hd.
  unfold startConsuming. rewrite bool_decide_eq_true_2, H1, H2 by done.
  assert (∀ msgs x, ∃ l x', processMessages handler msgs x = (Ok l, x') ∧ l.*1 = msgs) as Hpm.
  { intros msgs. induction msgs as [|m msgs IHm]; intros x; cbn [processMessages]; [by eexists _, _|].
    specialize (Hnp m x). destruct (handler m x) as [[u|er|why] x1]; [| |by destruct (Hnp why)];
      destruct (IHm x1) as (l & x' & -> & <-); by eexists _, _. }
  destruct (Hpm (rd_msgs rd) (k, w)) as (l & [k1 w1] & -> & Hl).
  unfold Consumer_reconnect. rewrite Ha. cbn [fmap list_fmap dial_loop]. unfold try_dial.
  cbn [open_attempt at_ctx_done at_dial_err at_channel_err at_setup_err]. rewrite E1, E2, E3. cbn [net_dial].
  set (c2 := mkConsumer _ _). set (n2 := mkNet _ _).
  destruct (IH c2 n2 k1 w1) as (c' & n' & x & l' & -> & Hl'); [simpl; set_solver|].
  eexists _, _, _, _. split; [done|]. rewrite fmap_app, Hl, Hl'. done.
Qed.

(** ** Shutdown of the lambda service (cmd/main.go) *)

(** Where [main] is: waiting for a signal, in [server.Shutdown], in
    [wg.Wait], in [runtimeManager.Shutdown], or gone. *)
Inductive MainPc := AwaitSignal | ServerShutdown | WgWait | RuntimeShutdown | Exited.

#[export] Instance MainPc_eq_dec : EqDecision MainPc.
Proof. solve_decision. Defined.

(** The three goroutines of the wait group, the requests being handled, and
    the execution records that goroutines have yet to save. *)
Record Life := mkLife {
  lf_pc : MainPc;
  lf_registration : bool;
  lf_bus : bool;
  lf_cron : bool;
  lf_requests : nat;
  lf_unsaved : nat;
  lf_lost : nat
}.

Definition life_start : Life := mkLife AwaitSignal true true true 0 0 0.

(** The context is cancelled first thing after the signal. *)
Definition lf_cancelled (s : Life) : bool := negb (bool_decide (lf_pc s = AwaitSignal)).

Definition lf_at (pc : MainPc) (s : Life) : Life :=
  mkLife pc (lf_registration s) (lf_bus s) (lf_cron s) (lf_requests s) (lf_unsaved s) (lf_lost s).

Inductive life_step : Life → Life → Prop :=
  (** A request is accepted while the server listens. *)
  | lf_accept s : lf_pc s = AwaitSignal →
      life_step s (mkLife (lf_pc s) (lf_registration s) (lf_bus s) (lf_cron s) (S (lf_requests s)) (lf_unsaved s) (lf_lost s))
  (** A request is answered; when it ran a function, a goroutine is left with
      its record. *)
  | lf_answer s k (ran : bool) : lf_requests s = S k → lf_pc s ≠ Exited →
      life_step s (mkLife (lf_pc s) (lf_registration s) (lf_bus s) (lf_cron s) k
                     ((if ran then 1 else 0) + lf_unsaved s) (lf_lost s))
  | lf_save s k : lf_unsaved s = S k → lf_pc s ≠ Exited →
      life_step s (mkLife (lf_pc s) (lf_registration s) (lf_bus s) (lf_cron s) (lf_requests s) k (lf_lost s))
  (** The goroutines end when the context is cancelled; the registration
      consumer also when its channel is closed, the scheduler when it cannot
      load its triggers. *)
  | lf_registration_ends s : lf_registration s = true → lf_pc s ≠ Exited →
      life_step s (mkLife (lf_pc s) false (lf_bus s) (lf_cron s) (lf_requests s) (lf_unsaved s) (lf_lost s))
  | lf_bus_ends s : lf_bus s = true → lf_cancelled s = true → lf_pc s ≠ Exited →
      life_step s (mkLife (lf_pc s) (lf_registration s) false (lf_cron s) (lf_requests s) (lf_unsaved s) (lf_lost s))
  | lf_cron_ends s : lf_cron s = true → lf_pc s ≠ Exited →
      life_step s (mkLife (lf_pc s) (lf_registration s) (lf_bus s) false (lf_requests s) (lf_unsaved s) (lf_lost s))
  | lf_signal s : lf_pc s = AwaitSignal → life_step s (lf_at ServerShutdown s)
  (** [server.Shutdown] returns when no request is left, or after thirty
      seconds. *)
  | lf_drained s (timeout : bool) : lf_pc s = ServerShutdown → timeout = true ∨ lf_requests s = 0%nat →
      life_step s (lf_at WgWait s)
  | lf_waited s : lf_pc s = WgWait → lf_registration s = false → lf_bus s = false → lf_cron s = false →
      life_step s (lf_at RuntimeShutdown s)
  (** The process ends, and what has not been saved is gone. *)
  | lf_exit s : lf_pc s = RuntimeShutdown →
      life_step s (mkLife Exited (lf_registration s) (lf_bus s) (lf_cron s) (lf_requests s) 0 (lf_lost s + lf_unsaved s)).

(** How far the shutdown still has to go. *)
Definition bool_nat (b : bool) : nat := if b then 1 else 0.
Definition pc_rank (pc : MainPc) : nat :=
  match pc with AwaitSignal => 4 | ServerShutdown => 3 | WgWait => 2 | RuntimeShutdown => 1 | Exited => 0 end.
Definition life_measure (s : Life) : nat :=
  2 * lf_requests s + lf_unsaved s + bool_nat (lf_registration s) + bool_nat (lf_bus s) + bool_nat (lf_cron s)
  + pc_rank (lf_pc s).

Lemma life_step_decreases s s' :
  lf_pc s ≠ AwaitSignal → life_step s s' → (life_measure s' < life_measure s)%nat ∧ lf_pc s' ≠ AwaitSignal.
Proof.
  intros Hpc Hs. unfold life_measure. destruct Hs as [s H|s k ran H1 H2|s k H1 H2|s H1 H2|s H1 H2 H3|s H1 H2|s H|s t H1 H2|s H1 H2 H3 H4|s H];
    simpl; try congruence; split; try done.
  - rewrite H1. destruct ran; lia.
  - rewrite H1. lia.
  - rewrite H1. simpl. lia.
  - rewrite H1. simpl. lia.
  - rewrite H1. simpl. lia.
  - rewrite H1. simpl. lia.
  - rewrite H1. simpl. lia.
  - rewrite H. simpl. lia.
Qed.

(** The runtimes are stopped after the goroutines. *)
Definition life_inv (s : Life) : Prop :=
  (lf_pc s = RuntimeShutdown ∨ lf_pc s = Exited) → lf_registration s = false ∧ lf_bus s = false ∧ lf_cron s = false.

Lemma life_step_inv s s' : life_inv s → life_step s s' → life_inv s'.
Proof.
  unfold life_inv. intros Hi Hs.
  destruct Hs as [s H|s k ran H1 H2|s k H1 H2|s H1 H2|s H1 H2 H3|s H1 H2|s H|s t H1 H2|s H1 H2 H3 H4|s H]; simpl;
    try (intros [?|?]; congruence); intros Hp; try (destruct (Hi Hp) as (? & ? & ?); by split_and!); try done.
  apply Hi. by left.
Qed.

(** ** Shutdown of the gateway and of the build master (their main.go) *)

(** [main] is in [ListenAndServe], has returned from it, or is gone; a
    goroutine waits for a signal, is in [server.Shutdown], or is done. *)
Inductive ServePc := Listening | Served | Gone.
Inductive StopPc := Waiting | ShuttingDown | Stopped.

(** The requests being handled, and those that the exit cut off. *)
Record Serving := mkServing { sg_main : ServePc; sg_stop : StopPc; sg_inflight : nat; sg_cut : nat }.

Definition serve_start : Serving := mkServing Listening Waiting 0 0.

Inductive serve_step : Serving → Serving → Prop :=
  | sv_accept s : sg_main s = Listening → sg_stop s = Waiting →
      serve_step s (mkServing (sg_main s) (sg_stop s) (S (sg_inflight s)) (sg_cut s))
  | sv_answer s k : sg_inflight s = S k → sg_main s ≠ Gone →
      serve_step s (mkServing (sg_main s) (sg_stop s) k (sg_cut s))
  | sv_signal s : sg_stop s = Waiting → sg_main s ≠ Gone →
      serve_step s (mkServing (sg_main s) ShuttingDown (sg_inflight s) (sg_cut s))
  (** [Shutdown] first closes the listener, and [ListenAndServe] returns
      [ErrServerClosed] at once. *)
  | sv_return s : sg_main s = Listening → sg_stop s ≠ Waiting →
      serve_step s (mkServing Served (sg_stop s) (sg_inflight s) (sg_cut s))
  (** [Shutdown] itself returns when no request is left or after its ten
      seconds. *)
  | sv_drained s (timeout : bool) : sg_stop s = ShuttingDown → sg_main s ≠ Gone → timeout = true ∨ sg_inflight s = 0%nat →
      serve_step s (mkServing (sg_main s) Stopped (sg_inflight s) (sg_cut s))
  (** [main] returns, and the process ends. *)
  | sv_exit s : sg_main s = Served → serve_step s (mkServing Gone (sg_stop s) 0 (sg_inflight s)).

Lemma serve_accepts n : rtc serve_step serve_start (mkServing Listening Waiting n 0).
Proof.
  induction n as [|n IH]; [apply rtc_refl|]. eapply rtc_r; [exact IH|].
  by apply (sv_accept (mkServing Listening Waiting n 0)).
Qed.

(** ** Keeping a publisher connected (queue/rabbitmq.go) *)

(** Where the goroutine of [reconnectLoop] is: watching a connection, about
    to look at the context, dialing, sleeping, or done; and where [Close] is. *)
Inductive LoopPc := Watching | Checking | Dialing | Sleeping | LoopDone.
Inductive ClosePc := NotClosed | CtxCancelled | Closed.

Record PubProc := mkPubProc { pp_net : Net; pp_conn : nat; pp_loop : LoopPc; pp_close : ClosePc }.

(** [NewPublisher]: one connection, and the goroutine watches it. *)
Definition pub_start : PubProc :=
  let '(c, n) := net_dial (mkNet 0 ∅) in mkPubProc n c Watching NotClosed.

Definition ctx_done (p : PubProc) : bool := match pp_close p with NotClosed => false | _ => true end.

Inductive pub_step : PubProc → PubProc → Prop :=
  (** The broker or [Close] closed the watched connection, and the goroutine
      is told. *)
  | pb_drop p : pp_loop p = Watching →
      pub_step p (mkPubProc (net_close (pp_conn p) (pp_net p)) (pp_conn p) Checking (pp_close p))
  | pb_stop p : ctx_done p = true → pp_loop p = Watching ∨ pp_loop p = Checking ∨ pp_loop p = Sleeping →
      pub_step p (mkPubProc (pp_net p) (pp_conn p) LoopDone (pp_close p))
  | pb_check p : pp_loop p = Checking → ctx_done p = false →
      pub_step p (mkPubProc (pp_net p) (pp_conn p) Dialing (pp_close p))
  (** The dial succeeds, and the connection is installed. *)
  | pb_dial p : pp_loop p = Dialing →
      pub_step p (mkPubProc (net_dial (pp_net p)).2 (net_dial (pp_net p)).1 Watching (pp_close p))
  | pb_fail p : pp_loop p = Dialing → pub_step p (mkPubProc (pp_net p) (pp_conn p) Sleeping (pp_close p))
  | pb_wake p : pp_loop p = Sleeping → pub_step p (mkPubProc (pp_net p) (pp_conn p) Checking (pp_close p))
  (** [Close]: the context is cancelled, then the connection of that moment
      is closed. *)
  | pb_cancel p : pp_close p = NotClosed → pub_step p (mkPubProc (pp_net p) (pp_conn p) (pp_loop p) CtxCancelled)
  | pb_close p : pp_close p = CtxCancelled →
      pub_step p (mkPubProc (net_close (pp_conn p) (pp_net p)) (pp_conn p) (pp_loop p) Closed).

(** At most the installed connection is open, and none while the goroutine
    looks for a new one. *)
Definition pub_inv (p : PubProc) : Prop :=
  match pp_loop p with
  | Watching | LoopDone => net_open (pp_net p) ⊆ {[pp_conn p]}
  | _ => net_open (pp_net p) = ∅
  end.

Lemma pub_step_inv p p' : pub_inv p → pub_step p p' → pub_inv p'.
Proof.
  unfold pub_inv. intros Hi Hs.
  destruct Hs as [p H|p Hc H|p H Hc|p H|p H|p H|p H|p H]; simpl in *.
  - rewrite H in Hi. set_solver.
  - destruct H as [H|[H|H]]; rewrite H in Hi; set_solver.
  - by rewrite H in Hi.
  - rewrite H in Hi. rewrite Hi. set_solver.
  - by rewrite H in Hi.
  - by rewrite H in Hi.
  - done.
  - destruct (pp_loop p); set_solver.
Qed.

(** ** Theorems *)

(** C17.  A signal does not stop the build worker.  The goroutine that waits for
    the signal cancels the context of the jobs; the consumer has its own,
    which is cancelled only when [main] returns, and [main] waits for the
    consumer.  So whatever happens and whenever the signal arrives, the loop
    does not return; every message taken from then on is refused for good, its
    build having failed; and while the broker answers (and no job panics) the
    worker goes on taking all messages there are. *)
Theorem worker_survives_signal {B} `{!ObjectStore B} `{!Json BuildJob, !Json FunctionBuiltEvent}
    zp d signal (envs : nat → WorkerEnv) rounds c n (w : World B) r c' n' k' w' answers :
  worker_loop zp d signal envs rounds c n w = (r, c', n', (k', w'), answers) →
  (r = None ∨ ∃ why, r = Some (Panic why))
  ∧ (∀ i m v, answers !! i = Some (m, v) → signalled signal i = true → v = VNack)
  ∧ (cn_conn c ∈ net_open n → Forall serves rounds →
     (∀ body x why, (worker_handler zp d signal envs body x).1 ≠ Panic why) →
     r = None ∧ answers.*1 = rounds ≫= rd_msgs).
Proof.
  intros H. assert (refuses (signalled signal) (worker_handler zp d signal envs)) as Hh.
  { intros body k x. unfold worker_handler. cbn [fst snd].
    destruct (signalled signal k); [pose proof (processBuildJob_cancelled zp d (cancel_env (envs k)) body
      (cancel_env_cancelled _) x) as Hc|]; destruct (processBuildJob _ _ _ _ _) as [o x']; by split. }
  unfold worker_loop in H. destruct (Consume_open _ _ _ _ _ _ _ _ _ _ _ _ _ Hh H) as [Hr Hn]. split_and!; [done|exact Hn|].
  intros Hc Hs Hnp. destruct (Consume_serves (worker_handler zp d signal envs) rounds c n 0 w Hnp Hs Hc)
    as (c1 & n1 & x & l & E & Hl). rewrite E in H. by injection H as <- _ _ _ <-.
Qed.

(** The lambda service stops.  After the signal every step brings the
    process nearer to its exit, and until then some step is possible, so it
    exits after a bounded number of steps; and the runtimes are shut down
    only when the registration consumer, the event bus and the scheduler
    have ended. *)
Theorem lambda_shutdown_terminates s :
  rtc life_step life_start s → lf_pc s ≠ AwaitSignal →
  (∀ s' n, nsteps life_step n s s' → (n ≤ life_measure s)%nat)
  ∧ (lf_pc s ≠ Exited → ∃ s', life_step s s')
  ∧ (lf_pc s = RuntimeShutdown ∨ lf_pc s = Exited → lf_registration s = false ∧ lf_bus s = false ∧ lf_cron s = false).
Proof.
  intros Hr Hpc. split_and!.
  - intros s' n. clear Hr. revert s Hpc. induction n as [|n IH]; intros s Hpc Hn; [lia|].
    inversion Hn as [|? ? s1 ? Hs1 Hn1]; subst. destruct (life_step_decreases _ _ Hpc Hs1) as [Hlt Hpc1].
    specialize (IH s1 Hpc1 Hn1). lia.
  - intros Hne. destruct (lf_pc s) eqn:Hp; try done.
    + eexists. apply (lf_drained s true); auto.
    + destruct (lf_registration s) eqn:H1; [eexists; apply lf_registration_ends; [done|congruence]|].
      destruct (lf_bus s) eqn:H2;
        [eexists; apply lf_bus_ends; [done|unfold lf_cancelled; by rewrite Hp|congruence]|].
      destruct (lf_cron s) eqn:H3; [eexists; apply lf_cron_ends; [done|congruence]|].
      eexists. by apply lf_waited.
    + eexists. by apply lf_exit.
  - apply (rtc_preserves life_step life_inv life_start s life_step_inv); [|exact Hr]. by intros [|].
Qed.

(** A shutdown that does not drain.  The gateway and the build master call
    [server.Shutdown] in a goroutine that [main] does not wait for: however
    many requests are being handled when the signal arrives, the process can
    end before any of them is answered, without the ten seconds having
    passed. *)
Theorem serve_exit_cuts n :
  ∃ s, rtc serve_step serve_start s ∧ sg_main s = Gone ∧ sg_stop s = ShuttingDown ∧ sg_cut s = n.
Proof.
  eexists. split.
  - etrans; [apply (serve_accepts n)|].
    eapply rtc_l; [apply sv_signal; [reflexivity|discriminate]|].
    eapply rtc_l; [apply sv_return; [reflexivity|discriminate]|].
    eapply rtc_l; [apply sv_exit; reflexivity|]. apply rtc_refl.
  - by split_and!.
Qed.

(** Records lost at shutdown.  The goroutines that save execution
    records are not waited for: an invocation that was answered while the
    service ran can be missing from the database after a clean shutdown, even
    when the server drained without a timeout. *)
Theorem shutdown_loses_records : ∃ s, rtc life_step life_start s ∧ lf_pc s = Exited ∧ lf_requests s = 0%nat ∧ lf_lost s = 1%nat.
Proof.
  eexists. split.
  - eapply rtc_l; [apply lf_accept; reflexivity|].
    eapply rtc_l; [eapply (lf_answer _ 0 true); [reflexivity|discriminate]|].
    eapply rtc_l; [apply lf_signal; reflexivity|].
    eapply rtc_l; [apply (lf_drained _ false); [reflexivity|right; reflexivity]|].
    eapply rtc_l; [apply lf_registration_ends; [reflexivity|discriminate]|].
    eapply rtc_l; [apply lf_bus_ends; [reflexivity|reflexivity|discriminate]|].
    eapply rtc_l; [apply lf_cron_ends; [reflexivity|discriminate]|].
    eapply rtc_l; [apply lf_waited; reflexivity|].
    eapply rtc_l; [apply lf_exit; reflexivity|]. apply rtc_refl.
  - by split_and!.
Qed.

(** One connection at a time.  Whatever the broker does and however the
    goroutine interleaves with [Close], a publisher never has a connection
    open besides the one it uses. *)
Theorem publisher_one_connection p :
  rtc pub_step pub_start p → net_open (pp_net p) ⊆ {[pp_conn p]}.
Proof.
  intros Hr. assert (pub_inv p) as Hp.
  { apply (rtc_preserves pub_step pub_inv pub_start p pub_step_inv); [|exact Hr]. unfold pub_inv. simpl. set_solver. }
  unfold pub_inv in Hp. destruct (pp_loop p); set_solver.
Qed.

(** Closing while reconnecting.  A dial that is under way when [Close] runs
    installs its connection after [Close] has closed the old one; the
    goroutine then ends without closing it, and it stays open. *)
Theorem publisher_close_leaks :
  ∃ p, rtc pub_step pub_start p ∧ pp_close p = Closed ∧ pp_loop p = LoopDone ∧ net_open (pp_net p) ≠ ∅.
Proof.
  eexists. split.
  - eapply rtc_l; [apply pb_drop; reflexivity|]. eapply rtc_l; [apply pb_check; reflexivity|].
    eapply rtc_l; [apply pb_cancel; reflexivity|]. eapply rtc_l; [apply pb_close; reflexivity|].
    eapply rtc_l; [apply pb_dial; reflexivity|]. eapply rtc_l; [apply pb_stop; [reflexivity|by left]|]. apply rtc_refl.
  - split_and!; [done|done|]. vm_compute. discriminate.
Qed.

Module LifecycleDemo.
Import BuildDemo.

Definition late_round : Round :=
  mkRound false false None None (mkAttempt false None None None (λ _, 0) (λ _, 0) false) ["job-1"; "job-1"] false
    [mkAttempt false None None None (λ _, 0) (λ _, 0) false].
Definition late_run := worker_loop (mkZIPProcessor "/work") (mkDockerBuilder "/work" "") (Some 1%nat) (λ _, demo_worker None)
  [late_round] (mkConsumer 0 NewBackoff) (mkNet 1 {[0%nat]}) demo_created.

(** Two messages, a signal between them: the second is refused, and the worker
    waits for more. *)
Lemma worker_survives_signal_witness :
  late_run.1.1.1.1 = None ∧ late_run.2.*1 = ["job-1"; "job-1"]
  ∧ (late_run.2 !! 0%nat = Some ("job-1", VAck)) ∧ (late_run.2 !! 1%nat = Some ("job-1", VNack)).
Proof.
  assert (late_run.1.1.1.1 = None ∧ late_run.2.*1 = ["job-1"; "job-1"] ∧ late_run.2 !! 0%nat = Some ("job-1", VAck))
    as (H1 & H2 & H3) by (split_and!; vm_compute; reflexivity).
  split; [exact H1|]. split; [exact H2|]. split; [exact H3|].
  destruct late_run as [[[[r c'] n'] [k' w']] answers] eqn:E. simpl in *.
  destruct (worker_survives_signal (mkZIPProcessor "/work") (mkDockerBuilder "/work" "") (Some 1%nat) (λ _, demo_worker None)
    [late_round] (mkConsumer 0 NewBackoff) (mkNet 1 {[0%nat]}) demo_created r c' n' k' w' answers E) as (_ & Hn & _).
  destruct answers as [|a [|[m v] l]]; [discriminate H2..|]. injection H2 as _ -> _.
  rewrite (Hn 1%nat "job-1" v eq_refl eq_refl). reflexivity.
Defined.

Lemma lambda_shutdown_terminates_witness :
  ∃ s, lf_pc s = ServerShutdown ∧ ∃ s', life_step s s'.
Proof.
  exists (lf_at ServerShutdown life_start). split; [reflexivity|].
  apply (lambda_shutdown_terminates (lf_at ServerShutdown life_start)); [|discriminate..].
  apply rtc_once, lf_signal. reflexivity.
Defined.

Lemma publisher_one_connection_witness :
  0%nat ∈ net_open (pp_net pub_start) ∧ net_open (pp_net pub_start) ⊆ {[pp_conn pub_start]}.
Proof. split; [simpl; set_solver|]. apply (publisher_one_connection pub_start), rtc_refl. Defined.
End LifecycleDemo.
